(* ===== verification/_CoqProject ===== *)
-Q . S2P
Prelude.v
CircuitBreaker.v
NonceTracker.v
AtomicFile.v
BanList.v
NetAddr.v
SubnetLimiter.v
Float64.v
Diversity.v
Stake.v
PeerScorer.v
Framing.v
PeerTable.v
RouterPipeline.v
RouterSafety.v
Consensus.v
Replicas.v
Lifecycle.v
BigNum.v
Escrow.v
Credits.v
Staking.v
Pricing.v
Solidity.v
BunkerToken.v
BunkerEscrow.v
Unbonding.v
Runs.v
BunkerDelegation.v
BunkerStaking.v
BunkerStakingBooks.v
BunkerStakingSafety.v
BunkerReputation.v
BunkerVerification.v
BunkerPricing.v
BunkerRegistry.v
BunkerRegistrySafety.v
BunkerEdgeRegistry.v
BunkerEdgeSafety.v
Gossip.v
ServiceRouting.v
EdgeAdmission.v
ReverseTunnel.v
EdgeLimits.v
