(* ===== verification/Prelude.v ===== *)
(** * Moltbunker: a verification development

    Moltbunker is a peer-to-peer network in which providers run containers and
    functions for requesters.  Nodes exchange signed messages and gossip; a
    provider stakes BUNKER tokens; a deployment has three replicas that are
    watched and replaced; requesters pay through escrow or prepaid credits;
    edge nodes route web requests to the providers.  Stakes, escrow, names and
    reputations are kept by Solidity contracts.  This library models the Go code
    and the contracts that make these decisions and proves what they guarantee.

    ** The parts and the files

    Message layer (src/internal/p2p).  An inbound message goes through the
    router's pipeline: rate limit, ban, replay, version, signature, stake, then
    the handler.
    - [CircuitBreaker]: circuit_breaker.go, one breaker per peer.
    - [NonceTracker]: nonce_tracker.go, replay protection.
    - [AtomicFile], [BanList]: banlist.go and the way it is saved.
    - [NetAddr], [SubnetLimiter]: Go's address parsing and subnet_limiter.go.
    - [Float64], [Diversity]: Go's float64 and diversity.go.
    - [Stake]: message_gate.go, rate_limits.go and stake_verifier.go; the payment
      service is the interface [PaymentService].
    - [PeerScorer]: peer_scorer.go.
    - [Framing]: message_send.go.
    - [PeerTable]: the table of peers of routing.go, peer_management.go and
      connection_pool.go, which holds the components above.
    - [RouterPipeline], [RouterSafety]: HandleMessage and SendMessage of
      routing.go, the key manager of src/internal/identity/keys.go, two of the
      handlers of src/internal/daemon/node.go, and the theorems on them.
    - [Gossip]: gossip.go, the key/value state the nodes share.

    Redundancy (src/internal/redundancy).
    - [Consensus]: consensus.go, replica states merged by gossip.
    - [Replicas]: replicator.go, health.go and failover.go.
    - [Lifecycle]: Start, Stop and Reset of the loops of health.go and
      failover.go.

    Payment (src/internal/payment, src/pkg/types/economics.go): the bookkeeping
    a node keeps beside the contracts.
    - [BigNum]: what the code uses of math/big.
    - [Escrow], [Credits]: escrow.go.
    - [Staking]: staking.go and the staking tiers.
    - [Pricing]: pricing.go and the pricing configuration.

    Contracts (src/contracts/src).  [Solidity] has the transactions, the checked
    arithmetic and the interfaces to the token and to OpenZeppelin's base
    contracts; [Unbonding] the withdrawal queues two contracts share; [Runs]
    evaluates call sequences on a concrete token.
    - [BunkerToken]: the capped ERC-20.
    - [BunkerEscrow], [BunkerDelegation], [BunkerReputation],
      [BunkerVerification], [BunkerPricing]: the contract of that name.
    - [BunkerStaking] (the contract), [BunkerStakingBooks] (what each call does
      to its storage), [BunkerStakingSafety] (its theorems).
    - [BunkerRegistry], [BunkerRegistrySafety]: the name registry.
    - [BunkerEdgeRegistry], [BunkerEdgeSafety]: the registry of edge providers,
      which calls the model of the staking contract.

    Edge (src/internal/ingress, src/internal/tunnel, src/internal/daemon).
    - [ServiceRouting]: from a host name to a provider: the announcements of
      container_manager.go, the validator and adapter of gossip_adapter.go, the
      resolver of resolver.go, subdomain_cleanup.go.  It reads the state that
      [Gossip] keeps.
    - [EdgeAdmission]: takedowns, custom domains and the checks of proxy.go
      before a request is routed.
    - [EdgeLimits]: ratelimit.go and middleware.go.
    - [ReverseTunnel]: the tunnels providers open to the ingress.

    ** How code is modelled

    A struct is a [Record], a Go map or a Solidity mapping a [gmap], an
    enumeration or an error an [Inductive], a method a function from state to
    state and result.  Names are the source's; a prefix ([pcb_], [bl_], [sv_],
    [ps_], [hm_], [lc_], [km_], [r_], [st_], [mc_], [gp_], [tr_], [il_], [ds_])
    tells apart methods or fields that share a name.  The clock is an argument
    [now] of a call.  A call that reads the clock several times gets the same
    reading each time, but for the pass of [checkHealth], which has its own two
    readings for each replica.

    - A component whose methods hold one lock is a sequence of calls ([run]).
      Where a method releases its lock in between (credits, [checkHealth],
      gossip, tunnel connections, the clean-up of [EdgeLimits], the background
      loops) its parts are separate steps, and the theorems say which
      interleavings they cover.  A call on [PeerCircuitBreakers] finds its
      breaker under one lock and uses it under another; it is modelled as one
      step, so a [Remove] or [Cleanup] between the two is not covered.
    - Where pointers are shared ([Consensus], [Credits], [Gossip], [EdgeLimits],
      [ReverseTunnel]) the objects live in a store and the maps hold locations.
    - A loop over a Go map takes the visiting order as an argument; theorems
      quantify over it.
    - A panic is a value: [Panics] of [outcome], or a constructor of the result.
      What the Go specification leaves open (the value of a failed conversion)
      is an argument.
    - float64 is IEEE 754 binary64 with its rounding (SpecFloat); big.Float is a
      correctly rounded mantissa and exponent; 64-bit integers wrap with
      [wrap64] where the source can leave their range.
    - A contract call is a function from the world (the contract's storage, the
      token's and the base contracts') to a new world and a result, or a revert
      that changes nothing.  Arithmetic is checked at its width, casts truncate.
      A history of a contract also contains steps of the outside world: token
      transfers and whatever the base contracts allow.

    Parameters stand for code outside the repository: the token bucket of
    golang.org/x/time/rate ([RateLimiter]), the chain as the Go code sees it
    ([PaymentService]), JSON, ed25519, HMAC, DNS, the network (dialling and
    writers that may fail), the file system's failures; for the contracts, the
    ERC-20 token ([Token], [Mintable]), OpenZeppelin's Ownable, Pausable and
    AccessControl ([BaseContracts]) and the price oracle.  What is assumed of them
    is a named hypothesis or the law of a class, and each theorem that uses one
    has a concrete instance after it.

    ** What is proved

    - The message layer: a handler runs only on a message that passed all the
      checks; no message is handled twice; exactly when a call panics; a sent
      frame is what the receiver reads; the peer table keeps its capacity and
      its diversity counters; bans, breakers, subnet limits and scores keep
      their promises over whole histories; shared state comes from this node or
      from a staked sender.
    - Redundancy: the reported status is the majority's; nodes that saw the same
      states of a container agree when no two of these have the same version; a pass of the health
      monitor gives each replica the right verdict while other calls interleave;
      a failover replaces exactly the unhealthy replicas; the loops stop.
    - Payment: escrow never overpays and pays out fully; credits are conserved
      under every interleaving and refine a ledger; stakes balance; beneficiary
      and unstaking delays hold; prices and bids are bounded and monotone.
    - The contracts, over all histories: the supply is capped; escrow and
      delegation always hold what they owe, and a refund is always possible and
      pays exactly what was not earned; staking totals are the sums of the
      providers' books; a slash takes exactly its amount, once, with due process;
      names are protected until their grace period ends and the owners' lists are
      exact; scores decay independently of when they are updated; a check of
      attestations records exactly the intervals missed; costs are the exact
      product rounded up.
    - The edge: a resolved service was announced and is fresh; a host that was
      taken down is refused; a custom domain was proved; a tunnel passed its
      checks; a tenant stays within its cap.
    - Where the code does not do what it means to, the theorem shows the
      behaviour on a concrete run: a half-open breaker that never recovers, a
      permanent ban lifted by flooding, a signature check against the wrong key,
      a subnet limit that can be exceeded, a deposit lost to a race, slashes that
      take the same vested rewards again and leave stakes unbacked, announced
      services that never resolve, a tunnel removed by its predecessor, and
      others.

    ** Bounds and fuel

    Fuel occurs in the IPv6 parser ([v6_loop], one step per field, and
    [hex_chars], the four digits of a 16-bit field), where the number of fields
    bounds the recursion, and in [read_all] of [Framing], whose theorem holds for
    any fuel above the length of the stream; every other definition is
    structural or closed.  [Diversity] covers tables of four to sixty-three peers
    by evaluation.  The theorems on histories of contracts cover up to 2^127
    calls of the escrow and 2^31 of the staking contract ([max_steps]), so that
    the 128-bit sums of amounts, each at most the token's supply, cannot
    overflow.

    ** Not modelled

    - Peer discovery, transport, the contract clients, the container and function
      runtimes, object storage, snapshots, networking, Tor, the HTTP servers and
      the command line: sequences of calls into third-party libraries, the
      operating system or the network, with little state of their own.
    - The container manager and the API handlers of the daemon, but for the parts
      named above: they compose the modelled components with containerd.
    - Components with decisions of their own that nothing modelled here depends
      on: the address book, latency, cloning, threat levels, the state store,
      retry, metering.
    - The timelock contract: OpenZeppelin's TimelockController with wrappers.
    - Events, logs, metrics and gas. *)

From stdpp Require Export base gmap sets list strings fin_maps.
From Stdlib Require Export ZArith Lia.

(** ** Integers, time and durations

    A Go [int] or [int64] is a [Z]; where the source can leave the 64-bit
    range the wrap-around is written out with [wrap64].  A [time.Time] is the
    number of nanoseconds since the zero time (so [IsZero] is [t = 0]) and a
    [time.Duration] is a number of nanoseconds. *)

Declare Scope go_scope.
Delimit Scope go_scope with go.

Abbreviation time := Z (only parsing).
Abbreviation duration := Z (only parsing).

Definition wrap64 (z : Z) : Z := ((z + 2 ^ 63) mod 2 ^ 64 - 2 ^ 63)%Z.

Definition min_int64 : Z := (- 2 ^ 63)%Z.
Definition max_int64 : Z := (2 ^ 63 - 1)%Z.

(** [Time.Sub] saturates at the ends of the [Duration] range. *)
Definition time_sub (t u : time) : duration :=
  Z.max min_int64 (Z.min max_int64 (t - u)%Z).

Definition time_is_zero (t : time) : bool := (t =? 0)%Z.

Definition nanosecond : duration := 1%Z.
Definition millisecond : duration := 1000000%Z.
Definition second : duration := 1000000000%Z.
Definition minute : duration := (60 * second)%Z.
Definition hour : duration := (60 * minute)%Z.

(** Go's [len] of a slice. *)
Abbreviation len l := (Z.of_nat (length l)).

(** ** Go maps

    A read of a missing key of a [map[K]int] gives the zero value. *)

Definition zget `{Countable K} (m : gmap K Z) (k : K) : Z := default 0%Z (m !! k).

Notation "m .[ k ]" := (zget m k) (at level 1, k at level 200, format "m .[ k ]") : go_scope.

(** ** Results

    A Go function that returns an [error] returns [inr err] with the error's
    text, [inl v] otherwise; a function that can panic returns [outcome]. *)

Inductive outcome (A : Type) : Type :=
  | Returns (a : A)
  | Panics.
Arguments Returns {A} _.
Arguments Panics {A}.

(** ** Runs of a component

    Where each method of a component holds the component's mutex from its first
    access to its last, a concurrent use is some sequence of method calls; where
    a method releases the mutex in between, it is some sequence of the parts it
    has.  [run] executes such a sequence. *)

Section Runs.
Context {S Op : Type} (step : Op → S → S).

Definition run (ops : list Op) (s : S) : S := foldl (λ s o, step o s) s ops.

Lemma run_nil s : run [] s = s.
Proof. reflexivity. Qed.

Lemma run_cons o ops s : run (o :: ops) s = run ops (step o s).
Proof. reflexivity. Qed.

Lemma run_app ops1 ops2 s : run (ops1 ++ ops2) s = run ops2 (run ops1 s).
Proof. unfold run. apply foldl_app. Qed.

(** An invariant that every operation of the trace preserves holds after it. *)
Lemma run_invariant (Inv : S → Prop) (ok : Op → Prop) ops s :
  (∀ o s, ok o → Inv s → Inv (step o s)) →
  Forall ok ops → Inv s → Inv (run ops s).
Proof.
  intros Hstep Hok; revert s.
  induction Hok as [|o ops Ho Hok IH]; intros s Hs; [done|].
  rewrite run_cons; eauto.
Qed.

Lemma run_preserves (Inv : S → Prop) ops s :
  (∀ o s, Inv s → Inv (step o s)) → Inv s → Inv (run ops s).
Proof.
  intros Hstep. apply (run_invariant _ (λ _, True)); [eauto|by apply Forall_true].
Qed.
End Runs.
#[global] Arguments run {S Op} step ops s : simpl never.

Create Rewrite HintDb molt.
#[export] Hint Rewrite @run_nil @run_cons @run_app : molt.

(** ** Tactics

    [split_ifs] splits every boolean or [match] scrutinee of the goal and
    keeps the equations; [zbool] turns the boolean comparisons it leaves in
    the context into the propositions they decide. *)

Ltac zbool :=
  repeat match goal with
  | H : context [ (_ =? _)%Z = true ] |- _ => rewrite Z.eqb_eq in H
  | H : context [ (_ =? _)%Z = false ] |- _ => rewrite Z.eqb_neq in H
  | H : context [ (_ <? _)%Z = true ] |- _ => rewrite Z.ltb_lt in H
  | H : context [ (_ <? _)%Z = false ] |- _ => rewrite Z.ltb_ge in H
  | H : context [ (_ <=? _)%Z = true ] |- _ => rewrite Z.leb_le in H
  | H : context [ (_ <=? _)%Z = false ] |- _ => rewrite Z.leb_gt in H
  | H : context [ (_ >? _)%Z ] |- _ => rewrite Z.gtb_ltb in H
  | H : context [ (_ >=? _)%Z ] |- _ => rewrite Z.geb_leb in H
  | H : context [ (_ && _) = true ] |- _ => rewrite andb_true_iff in H
  | H : context [ (_ && _) = false ] |- _ => rewrite andb_false_iff in H
  | H : context [ (_ || _) = true ] |- _ => rewrite orb_true_iff in H
  | H : context [ (_ || _) = false ] |- _ => rewrite orb_false_iff in H
  | H : context [ negb _ = true ] |- _ => rewrite negb_true_iff in H
  | H : context [ negb _ = false ] |- _ => rewrite negb_false_iff in H
  end.

Ltac split_ifs :=
  repeat match goal with
  | |- context [ match ?e with _ => _ end ] =>
      lazymatch e with
      | context [ match _ with _ => _ end ] => fail
      | _ => destruct e eqn:?
      end
  end; zbool.

Ltac split_ifs_in H :=
  repeat match type of H with
  | context [ match ?e with _ => _ end ] =>
      lazymatch e with
      | context [ match _ with _ => _ end ] => fail
      | _ => destruct e eqn:?
      end
  end; zbool.

(** ** Generic lemmas *)

Create HintDb molt discriminated.
#[export] Hint Constants Opaque : molt.

Lemma time_sub_self t : time_sub t t = 0%Z.
Proof. unfold time_sub, min_int64, max_int64. lia. Qed.

(** Below the saturation point [Time.Sub] is the difference. *)
Lemma time_sub_le_iff t u d :
  (d < max_int64)%Z → (min_int64 ≤ d)%Z → (time_sub t u ≤ d ↔ t - u ≤ d)%Z.
Proof. unfold time_sub, min_int64, max_int64. lia. Qed.

Lemma wrap64_id z : (min_int64 ≤ z ≤ max_int64)%Z → wrap64 z = z.
Proof.
  unfold wrap64, min_int64, max_int64; intros Hz.
  rewrite Z.mod_small; lia.
Qed.

Lemma wrap64_range z : (min_int64 ≤ wrap64 z ≤ max_int64)%Z.
Proof.
  unfold wrap64, min_int64, max_int64.
  pose proof (Z.mod_pos_bound (z + 2 ^ 63) (2 ^ 64)) as Hb. lia.
Qed.

Section ZGet.
Context `{Countable K}.
Implicit Types (m : gmap K Z) (k : K).

Lemma zget_insert m k k' v :
  zget (<[k:=v]> m) k' = if decide (k = k') then v else zget m k'.
Proof. unfold zget. rewrite lookup_insert. by case_decide. Qed.

Lemma zget_delete m k k' :
  zget (delete k m) k' = if decide (k = k') then 0%Z else zget m k'.
Proof. unfold zget. rewrite lookup_delete. by case_decide. Qed.

Lemma zget_empty k : zget (∅ : gmap K Z) k = 0%Z.
Proof. unfold zget. by rewrite lookup_empty. Qed.
End ZGet.

(** ** Counting the entries of a map *)

Section CountMap.
Context `{Countable K} {A : Type} (P : A → bool).

Definition count_map (m : gmap K A) : nat :=
  length (filter (λ kv, P kv.2 = true) (map_to_list m)).

Lemma count_map_empty : count_map ∅ = 0.
Proof. unfold count_map. by rewrite map_to_list_empty. Qed.

Lemma count_map_insert_fresh m k v :
  m !! k = None →
  count_map (<[k:=v]> m) = (if P v then 1 else 0) + count_map m.
Proof.
  intros Hk. unfold count_map.
  rewrite (map_to_list_insert m k v Hk), filter_cons; cbn.
  case_decide; destruct (P v); naive_solver.
Qed.

Lemma count_map_delete m k v :
  m !! k = Some v →
  count_map m = (if P v then 1 else 0) + count_map (delete k m).
Proof.
  intros Hk. rewrite <- (insert_delete_id m k v Hk) at 1.
  rewrite count_map_insert_fresh by apply lookup_delete_eq. done.
Qed.

Lemma count_map_insert m k v :
  count_map (<[k:=v]> m) = (if P v then 1 else 0) + count_map (delete k m).
Proof.
  rewrite <- insert_delete_eq.
  by rewrite count_map_insert_fresh by apply lookup_delete_eq.
Qed.

Lemma count_map_pos m k v : m !! k = Some v → P v = true → 0 < count_map m.
Proof. intros Hk HP. rewrite (count_map_delete m k v Hk), HP. lia. Qed.

Lemma count_map_zero m :
  (∀ k v, m !! k = Some v → P v = false) → count_map m = 0.
Proof.
  induction m as [|k v m Hk IH] using map_ind; intros Hall.
  - apply count_map_empty.
  - rewrite count_map_insert_fresh by done.
    rewrite (Hall k v) by apply lookup_insert_eq.
    apply IH. intros k' v' Hk'. apply (Hall k').
    rewrite lookup_insert_ne; [done|congruence].
Qed.

Lemma count_map_le_size m : count_map m ≤ size m.
Proof.
  unfold count_map. rewrite <- length_map_to_list. apply length_filter.
Qed.
End CountMap.

(** ** Sums over maps *)

Section SumMap.
Context `{Countable K} {A : Type} (f : A → Z).
Local Open Scope Z_scope.

Definition sum_map (m : gmap K A) : Z := foldr (λ kv acc, f kv.2 + acc) 0 (map_to_list m).

Lemma sum_list_perm (l l' : list (K * A)) :
  l ≡ₚ l' → foldr (λ kv acc, f kv.2 + acc) 0 l = foldr (λ kv acc, f kv.2 + acc) 0 l'.
Proof. induction 1; cbn; lia. Qed.

Lemma sum_map_empty : sum_map ∅ = 0.
Proof. unfold sum_map. by rewrite map_to_list_empty. Qed.

Lemma sum_map_insert_fresh m k v : m !! k = None → sum_map (<[k:=v]> m) = f v + sum_map m.
Proof.
  intros Hk. unfold sum_map. by rewrite (sum_list_perm _ _ (map_to_list_insert m k v Hk)).
Qed.

Lemma sum_map_delete m k v : m !! k = Some v → sum_map m = f v + sum_map (delete k m).
Proof.
  intros Hk. rewrite <- (insert_delete_id m k v Hk) at 1.
  by rewrite sum_map_insert_fresh by apply lookup_delete_eq.
Qed.

Lemma sum_map_update m k v v' :
  m !! k = Some v → sum_map (<[k:=v']> m) = sum_map m - f v + f v'.
Proof.
  intros Hk. rewrite <- insert_delete_eq, sum_map_insert_fresh by apply lookup_delete_eq.
  rewrite (sum_map_delete m k v Hk). lia.
Qed.

Lemma sum_map_nonneg m : map_Forall (λ _ v, 0 ≤ f v)%Z m → (0 ≤ sum_map m)%Z.
Proof.
  induction m as [|k v m Hk IH] using map_ind; intros Hm; [by rewrite sum_map_empty|].
  apply map_Forall_insert in Hm as [Hv Hm]; [|done]. rewrite sum_map_insert_fresh by done.
  specialize (IH Hm). lia.
Qed.

Lemma sum_map_ge m k v :
  map_Forall (λ _ v, 0 ≤ f v)%Z m → m !! k = Some v → (f v ≤ sum_map m)%Z.
Proof.
  intros Hm Hk. rewrite (sum_map_delete m k v Hk).
  pose proof (sum_map_nonneg (delete k m) (map_Forall_delete _ _ _ Hm)). lia.
Qed.
(** Sums over maps whose missing keys count as the value [d]. *)
Lemma sum_map_split (d : A) m k : f d = 0 → sum_map m = f (default d (m !! k)) + sum_map (delete k m).
Proof.
  intros Hd. destruct (m !! k) as [v|] eqn:Hk; cbn; [by apply sum_map_delete|].
  rewrite delete_id by done. lia.
Qed.

Lemma sum_map_zero m : map_Forall (λ _ v, f v = 0) m → sum_map m = 0.
Proof.
  induction m as [|k v m Hk IH] using map_ind; intros Hm; [by rewrite sum_map_empty|].
  apply map_Forall_insert in Hm as [Hv Hm]; [|done]. rewrite sum_map_insert_fresh, Hv, IH by done. lia.
Qed.

Lemma sum_map_ext (d : A) m m' :
  f d = 0 → (∀ k, f (default d (m' !! k)) = f (default d (m !! k))) → sum_map m' = sum_map m.
Proof.
  intros Hd. revert m'. induction m as [|k v m Hk IH] using map_ind; intros m' Hm.
  - rewrite sum_map_empty. apply sum_map_zero. intros k v Hk. specialize (Hm k). by rewrite Hk, lookup_empty in Hm; cbn in Hm; rewrite Hm.
  - rewrite (sum_map_split d m' k), (sum_map_split d (<[k:=v]> m) k), (Hm k) by done.
    f_equal. rewrite delete_insert_id by done. apply IH. intros k'. specialize (Hm k').
    destruct (decide (k = k')) as [->|Hne]; [by rewrite lookup_delete_eq, Hk|].
    by rewrite lookup_delete_ne; [rewrite lookup_insert_ne in Hm|].
Qed.

Lemma sum_map_change (d : A) m m' k :
  f d = 0 → (∀ k', k' ≠ k → f (default d (m' !! k')) = f (default d (m !! k'))) →
  sum_map m' = sum_map m - f (default d (m !! k)) + f (default d (m' !! k)).
Proof.
  intros Hd Hm. rewrite (sum_map_split d m' k), (sum_map_split d m k) by done.
  rewrite (sum_map_ext d (delete k m) (delete k m')); [lia|done|].
  intros k'. destruct (decide (k = k')) as [->|Hne]; [by rewrite !lookup_delete_eq|].
  rewrite !lookup_delete_ne by done. by apply Hm.
Qed.

Lemma sum_map_default_ge (d : A) m k :
  (∀ k, 0 ≤ f (default d (m !! k))) → f d = 0 → f (default d (m !! k)) ≤ sum_map m.
Proof.
  intros Hm Hd. rewrite (sum_map_split d m k) by done. enough (0 ≤ sum_map (delete k m)) by lia.
  apply sum_map_nonneg. intros k' v Hk'. apply lookup_delete_Some in Hk' as [_ Hk'].
  specialize (Hm k'). by rewrite Hk' in Hm.
Qed.
End SumMap.

Lemma sum_map_le `{Countable K} {A} (f g : A → Z) (m : gmap K A) :
  map_Forall (λ _ v, f v ≤ g v)%Z m → (sum_map f m ≤ sum_map g m)%Z.
Proof.
  induction m as [|k v m Hk IH] using map_ind; intros Hm; [by rewrite !sum_map_empty|].
  apply map_Forall_insert in Hm as [Hv Hm]; [|done]. rewrite !sum_map_insert_fresh by done. specialize (IH Hm). lia.
Qed.
