(* ===== verification/CircuitBreaker.v ===== *)
(** * Circuit breakers (internal/p2p/circuit_breaker.go)

    [CircuitBreaker] is the three-state breaker of one peer,
    [PeerCircuitBreakers] the table of breakers the router keeps.  The clock
    ([time.Now], [time.Since]) is the [now] argument of each method.

    Theorems: the counters of a breaker stay in bounds; [FailureThreshold]
    failures open it and it then admits nothing before [Timeout]; the probes
    admitted while half-open are bounded; enough successful probes close it;
    a half-open breaker whose probes are used up admits nothing ever after
    until an outcome is recorded.  The table refines one independent breaker
    per peer, and [Cleanup] cannot be observed. *)

From S2P Require Import Prelude.
Local Open Scope Z_scope.

(** ** Data *)

Inductive CircuitState := CircuitClosed | CircuitOpen | CircuitHalfOpen.

#[export] Instance CircuitState_eq_dec : EqDecision CircuitState.
Proof. solve_decision. Defined.

Record CircuitBreakerConfig := {
  FailureThreshold : Z;
  SuccessThreshold : Z;
  Timeout : duration;
  HalfOpenMaxRequests : Z
}.

Definition DefaultCircuitBreakerConfig : CircuitBreakerConfig := {|
  FailureThreshold := 5;
  SuccessThreshold := 2;
  Timeout := 30 * second;
  HalfOpenMaxRequests := 3
|}.

Record CircuitBreaker := mkCB {
  config : CircuitBreakerConfig;
  state : CircuitState;
  failures : Z;
  successes : Z;
  lastFailure : time;
  halfOpenReqs : Z
}.

(** ** Operations on one breaker *)

(** A [nil] configuration is [None]. *)
Definition NewCircuitBreaker (cfg : option CircuitBreakerConfig) : CircuitBreaker :=
  mkCB (default DefaultCircuitBreakerConfig cfg) CircuitClosed 0 0 0 0.

Definition Allow (now : time) (cb : CircuitBreaker) : CircuitBreaker * bool :=
  match state cb with
  | CircuitClosed => (cb, true)
  | CircuitOpen =>
      if Timeout (config cb) <=? time_sub now (lastFailure cb) then
        (mkCB (config cb) CircuitHalfOpen (failures cb) 0 (lastFailure cb) 1, true)
      else (cb, false)
  | CircuitHalfOpen =>
      if halfOpenReqs cb <? HalfOpenMaxRequests (config cb) then
        (mkCB (config cb) CircuitHalfOpen (failures cb) (successes cb) (lastFailure cb)
           (halfOpenReqs cb + 1), true)
      else (cb, false)
  end.

Definition RecordSuccess (cb : CircuitBreaker) : CircuitBreaker :=
  match state cb with
  | CircuitClosed =>
      mkCB (config cb) CircuitClosed 0 (successes cb) (lastFailure cb) (halfOpenReqs cb)
  | CircuitOpen => cb
  | CircuitHalfOpen =>
      let s := successes cb + 1 in
      if SuccessThreshold (config cb) <=? s then
        mkCB (config cb) CircuitClosed 0 0 (lastFailure cb) (halfOpenReqs cb)
      else
        mkCB (config cb) CircuitHalfOpen (failures cb) s (lastFailure cb) (halfOpenReqs cb)
  end.

Definition RecordFailure (now : time) (cb : CircuitBreaker) : CircuitBreaker :=
  match state cb with
  | CircuitClosed =>
      let f := failures cb + 1 in
      mkCB (config cb)
        (if FailureThreshold (config cb) <=? f then CircuitOpen else CircuitClosed)
        f (successes cb) now (halfOpenReqs cb)
  | CircuitOpen =>
      mkCB (config cb) CircuitOpen (failures cb) (successes cb) now (halfOpenReqs cb)
  | CircuitHalfOpen =>
      mkCB (config cb) CircuitOpen (failures cb) 0 now (halfOpenReqs cb)
  end.

Definition Reset (cb : CircuitBreaker) : CircuitBreaker :=
  mkCB (config cb) CircuitClosed 0 0 (lastFailure cb) 0.

(** The calls a breaker can receive; [Allow]'s answer is the output. *)
Inductive cb_call :=
  | CAllow (now : time)
  | CSuccess
  | CFailure (now : time)
  | CReset.

Definition cb_step (c : cb_call) (cb : CircuitBreaker) : CircuitBreaker :=
  match c with
  | CAllow now => (Allow now cb).1
  | CSuccess => RecordSuccess cb
  | CFailure now => RecordFailure now cb
  | CReset => Reset cb
  end.

Definition cb_out (c : cb_call) (cb : CircuitBreaker) : option bool :=
  match c with
  | CAllow now => Some (Allow now cb).2
  | _ => None
  end.

(** The admission decisions of a sequence of calls, in order. *)
Fixpoint cb_outputs (cs : list cb_call) (cb : CircuitBreaker) : list (option bool) :=
  match cs with
  | [] => []
  | c :: cs => cb_out c cb :: cb_outputs cs (cb_step c cb)
  end.

(** ** Invariant *)

Record cb_wf (cb : CircuitBreaker) : Prop := {
  wf_failures : 0 ≤ failures cb ≤ Z.max 1 (FailureThreshold (config cb));
  wf_closed : state cb = CircuitClosed →
    failures cb < Z.max 1 (FailureThreshold (config cb)) ∧ successes cb = 0;
  wf_halfopen : state cb = CircuitHalfOpen →
    0 ≤ successes cb < Z.max 1 (SuccessThreshold (config cb)) ∧ 1 ≤ halfOpenReqs cb;
  wf_reqs : 0 ≤ halfOpenReqs cb ≤ Z.max 1 (HalfOpenMaxRequests (config cb));
  wf_open : state cb = CircuitOpen → successes cb = 0
}.

Ltac cb_crush :=
  repeat match goal with
  | cb : CircuitBreaker |- _ => destruct cb as [? [] ? ? ? ?]
  end; cbn in *; split_ifs; cbn in *.

Lemma cb_step_config c cb : config (cb_step c cb) = config cb.
Proof. destruct c; unfold cb_step, Allow, RecordSuccess, RecordFailure, Reset; cb_crush; done. Qed.

Lemma cb_wf_new cfg : cb_wf (NewCircuitBreaker cfg).
Proof. split; cbn; lia || (intros; try done; lia). Qed.

Lemma cb_wf_step c cb : cb_wf cb → cb_wf (cb_step c cb).
Proof.
  intros [Hf Hc Hh Hr Ho].
  destruct c; unfold cb_step, Allow, RecordSuccess, RecordFailure, Reset;
    destruct cb as [cfg [] f s l h]; cbn in *;
    try specialize (Hc eq_refl); try specialize (Hh eq_refl); try specialize (Ho eq_refl);
    split_ifs; split; cbn; intros; try done; lia.
Qed.

(** Bounds.  Whatever calls a breaker receives, in any order and at any
    times, its counters stay within the configured thresholds. *)
Theorem cb_counters_bounded cfg cs :
  let cb := run cb_step cs (NewCircuitBreaker (Some cfg)) in
  0 ≤ failures cb ≤ Z.max 1 (FailureThreshold cfg) ∧
  0 ≤ successes cb < Z.max 1 (SuccessThreshold cfg) ∧
  0 ≤ halfOpenReqs cb ≤ Z.max 1 (HalfOpenMaxRequests cfg) ∧
  (state cb = CircuitClosed → failures cb < Z.max 1 (FailureThreshold cfg)).
Proof.
  intros cb.
  assert (Hinv : cb_wf cb ∧ config cb = cfg).
  { apply (run_invariant cb_step (λ cb, cb_wf cb ∧ config cb = cfg) (λ _, True)).
    - intros c s _ [Hs Hcfg]. rewrite cb_step_config. auto using cb_wf_step.
    - by apply Forall_true.
    - split; [apply cb_wf_new|done]. }
  destruct Hinv as [[Hf Hc Hh Hr Ho] Hcfg]. rewrite Hcfg in *.
  destruct (state cb) eqn:Hst;
    [destruct (Hc eq_refl)|pose proof (Ho eq_refl)|destruct (Hh eq_refl)];
    repeat split; intros; try done; lia.
Qed.

(** ** Opening *)

Definition fail_n (times : list time) (cb : CircuitBreaker) : CircuitBreaker :=
  run cb_step (CFailure <$> times) cb.

Lemma fail_n_closed times cb :
  state cb = CircuitClosed →
  failures cb + len times < FailureThreshold (config cb) →
  state (fail_n times cb) = CircuitClosed ∧
  failures (fail_n times cb) = failures cb + len times ∧
  config (fail_n times cb) = config cb.
Proof.
  unfold fail_n. revert cb; induction times as [|t times IH]; intros cb Hst Hlt; cbn in *.
  - rewrite run_nil. repeat split; [done|lia].
  - rewrite run_cons; cbn. edestruct (IH (RecordFailure t cb)) as (H1 & H2 & H3);
      unfold RecordFailure in *; rewrite Hst in *; cbn in *; split_ifs; try done; try lia.
    repeat split; [done|lia|done].
Qed.

Lemma fail_n_open times cb :
  state cb = CircuitOpen → state (fail_n times cb) = CircuitOpen.
Proof.
  unfold fail_n. revert cb; induction times as [|t times IH]; intros cb Hst; cbn; [done|].
  rewrite run_cons. apply IH; cbn. unfold RecordFailure. by rewrite Hst.
Qed.

Lemma fail_n_snoc times t cb :
  fail_n (times ++ [t]) cb = RecordFailure t (fail_n times cb).
Proof. unfold fail_n. by rewrite fmap_app, run_app. Qed.

Lemma fail_n_app t1 t2 cb : fail_n (t1 ++ t2) cb = fail_n t2 (fail_n t1 cb).
Proof. unfold fail_n. by rewrite fmap_app, run_app. Qed.

(** Functional.  Consecutive failures open a fresh breaker exactly when
    their number reaches [FailureThreshold], for every threshold of at least
    one. *)
Theorem cb_opens_at_threshold cfg times :
  1 ≤ FailureThreshold cfg →
  state (fail_n times (NewCircuitBreaker (Some cfg))) =
    (if FailureThreshold cfg <=? len times then CircuitOpen else CircuitClosed).
Proof.
  intros Hthr. set (cb := NewCircuitBreaker (Some cfg)).
  destruct (FailureThreshold cfg <=? len times) eqn:Hn; zbool.
  - set (k := Z.to_nat (FailureThreshold cfg - 1)).
    rewrite <- (take_drop k times), fail_n_app.
    assert (Hk : length (take k times) = k) by (rewrite length_take; lia).
    destruct (fail_n_closed (take k times) cb eq_refl) as (H1 & H2 & H3);
      [rewrite Hk; cbn; lia|].
    destruct (drop k times) as [|t rest] eqn:Hd.
    { apply (f_equal length) in Hd. rewrite length_drop in Hd. cbn in Hd; lia. }
    change (t :: rest) with ([t] ++ rest). rewrite fail_n_app.
    apply fail_n_open. change (fail_n [t] ?c) with (RecordFailure t c).
    unfold RecordFailure. rewrite H1, H2, H3, Hk; cbn. split_ifs; [done|lia].
  - apply fail_n_closed; [done|cbn; lia].
Qed.

Lemma cb_opens_at_threshold_witness :
  state (fail_n [1; 2; 3; 4; 5] (NewCircuitBreaker (Some DefaultCircuitBreakerConfig)))
    = CircuitOpen.
Proof.
  exact (cb_opens_at_threshold DefaultCircuitBreakerConfig [1; 2; 3; 4; 5]
           ltac:(cbn; lia)).
Defined.

(** ** Blocking while open *)

(** Calls that may reach an open breaker before its timeout: requests asking
    for admission and late successes, never a failure. *)
Definition before_timeout (cb : CircuitBreaker) (c : cb_call) : Prop :=
  match c with
  | CAllow now => time_sub now (lastFailure cb) < Timeout (config cb)
  | CSuccess => True
  | _ => False
  end.

(** Safety.  An open breaker admits no request before [Timeout] has
    elapsed since its last failure, however many requests ask and whatever
    late successes are recorded meanwhile, and it stays open. *)
Theorem cb_open_blocks cb cs :
  state cb = CircuitOpen →
  Forall (before_timeout cb) cs →
  run cb_step cs cb = cb ∧ Forall (λ o, o ≠ Some true) (cb_outputs cs cb).
Proof.
  intros Hst Hcs. induction Hcs as [|c cs Hc Hcs [IH1 IH2]]; [done|].
  assert (Hstep : cb_step c cb = cb ∧ cb_out c cb ≠ Some true).
  { destruct c as [now| | |]; cbn in *; try done;
      unfold Allow, RecordSuccess; rewrite Hst; [|done].
    split_ifs; [lia|done]. }
  destruct Hstep as [Hs Ho]. cbn. rewrite run_cons, Hs. auto.
Qed.

Definition tripped_breaker : CircuitBreaker :=
  fail_n [1; 2; 3; 4; 5] (NewCircuitBreaker None).

Lemma cb_open_blocks_witness :
  run cb_step [CAllow 6; CSuccess; CAllow second] tripped_breaker = tripped_breaker ∧
  Forall (λ o, o ≠ Some true) (cb_outputs [CAllow 6; CSuccess; CAllow second] tripped_breaker).
Proof.
  apply cb_open_blocks; [reflexivity|].
  repeat constructor; vm_compute; reflexivity.
Defined.

(** ** Probing while half-open *)

Definition admitted (outs : list (option bool)) : nat :=
  length (filter (λ o, o = Some true) outs).

Definition is_allow (c : cb_call) : Prop := ∃ now, c = CAllow now.

Lemma admitted_cons o outs :
  admitted (o :: outs) = ((if decide (o = Some true) then 1 else 0) + admitted outs)%nat.
Proof. unfold admitted. rewrite filter_cons. by case_decide. Qed.

Lemma halfopen_admitted cs cb :
  state cb = CircuitHalfOpen → 1 ≤ halfOpenReqs cb → Forall is_allow cs →
  Z.of_nat (admitted (cb_outputs cs cb)) ≤
    Z.max 0 (HalfOpenMaxRequests (config cb) - halfOpenReqs cb).
Proof.
  intros Hst Hr Hcs; revert cb Hst Hr.
  induction Hcs as [|c cs [now ->] Hcs IH]; intros cb Hst Hr; [cbn; lia|].
  cbn [cb_outputs]. rewrite admitted_cons. cbn [cb_out cb_step].
  unfold Allow; rewrite Hst.
  destruct (halfOpenReqs cb <? HalfOpenMaxRequests (config cb)) eqn:Hlt; zbool; cbn [fst snd].
  - specialize (IH (mkCB (config cb) CircuitHalfOpen (failures cb) (successes cb)
      (lastFailure cb) (halfOpenReqs cb + 1)) eq_refl). cbn in IH.
    case_decide; [|done]. lia.
  - specialize (IH cb Hst Hr). case_decide; [done|]. lia.
Qed.

(** Bounds.  From the moment a breaker opens until an outcome is recorded,
    at most [max 1 HalfOpenMaxRequests] requests are let through, whenever
    and however often admission is asked for. *)
Theorem cb_halfopen_probe_bound cs cb :
  state cb = CircuitOpen → Forall is_allow cs →
  Z.of_nat (admitted (cb_outputs cs cb)) ≤ Z.max 1 (HalfOpenMaxRequests (config cb)).
Proof.
  intros Hst Hcs. induction Hcs as [|c cs [now ->] Hcs IH]; [cbn; lia|].
  cbn [cb_outputs]. rewrite admitted_cons. cbn [cb_out cb_step].
  unfold Allow; rewrite Hst.
  destruct (Timeout (config cb) <=? time_sub now (lastFailure cb)); cbn [fst snd].
  - pose proof (halfopen_admitted cs (mkCB (config cb) CircuitHalfOpen (failures cb) 0
      (lastFailure cb) 1) eq_refl ltac:(cbn; lia) Hcs) as Hb. cbn in Hb.
    case_decide; [|done]. lia.
  - case_decide; [done|]. lia.
Qed.

Lemma cb_halfopen_probe_bound_witness :
  Z.of_nat (admitted (cb_outputs (CAllow <$> replicate 9%nat hour) tripped_breaker)) ≤ 3.
Proof.
  apply (cb_halfopen_probe_bound (CAllow <$> replicate 9%nat hour) tripped_breaker);
    [reflexivity|].
  cbn. repeat constructor; eexists; reflexivity.
Defined.

(** ** Recovery *)

(** [k] probes at the given times, each admitted request reporting success. *)
Definition probe_calls (times : list time) : list cb_call :=
  t ← times; [CAllow t; CSuccess].

Lemma probe_calls_cons t times : probe_calls (t :: times) = CAllow t :: CSuccess :: probe_calls times.
Proof. reflexivity. Qed.

(** What admitted probes that report success are answered. *)
Definition probe_answers (times : list time) : list (option bool) :=
  _ ← times; [Some true; None].

(** One successful probe of a half-open breaker with budget left. *)
Lemma halfopen_probe t cb :
  state cb = CircuitHalfOpen → halfOpenReqs cb < HalfOpenMaxRequests (config cb) →
  cb_out (CAllow t) cb = Some true ∧
  cb_step CSuccess (cb_step (CAllow t) cb) =
    if SuccessThreshold (config cb) <=? successes cb + 1
    then mkCB (config cb) CircuitClosed 0 0 (lastFailure cb) (halfOpenReqs cb + 1)
    else mkCB (config cb) CircuitHalfOpen (failures cb) (successes cb + 1) (lastFailure cb)
           (halfOpenReqs cb + 1).
Proof.
  intros Hst Hlt. apply Z.ltb_lt in Hlt. cbn [cb_step cb_out]. unfold Allow. rewrite Hst, Hlt. done.
Qed.

Lemma halfopen_recovers times cb :
  state cb = CircuitHalfOpen → times ≠ [] →
  successes cb + len times = SuccessThreshold (config cb) →
  halfOpenReqs cb + len times ≤ HalfOpenMaxRequests (config cb) →
  cb_outputs (probe_calls times) cb = probe_answers times ∧
  (∀ n, (n < length times)%nat →
    state (run cb_step (probe_calls (take n times)) cb) = CircuitHalfOpen) ∧
  run cb_step (probe_calls times) cb =
    mkCB (config cb) CircuitClosed 0 0 (lastFailure cb) (halfOpenReqs cb + len times).
Proof.
  revert cb; induction times as [|t times IH]; intros cb Hst Hne Hs Hr; [done|].
  destruct (halfopen_probe t cb Hst) as [Ho Hp]; [cbn in *; lia|].
  rewrite probe_calls_cons, !run_cons. cbn [cb_outputs]. rewrite Ho, Hp. cbn [cb_out].
  destruct times as [|t' times].
  { cbn in Hs. rewrite (proj2 (Z.leb_le _ _)) by lia. split_and!; [done| |].
    - intros [|n] Hn; [done|cbn in Hn; lia].
    - change (probe_calls []) with (@nil cb_call). rewrite run_nil. f_equal; cbn; lia. }
  rewrite (proj2 (Z.leb_gt _ _)) in Hp |- * by (cbn in Hs; lia).
  set (cb1 := mkCB _ _ _ _ _ _) in Hp |- *.
  destruct (IH cb1) as (H1 & H2 & H3); [done|done|cbn in *; lia|cbn in *; lia|].
  split_and!.
  - by rewrite H1.
  - intros [|n] Hn; [done|]. change (take (S n) (t :: t' :: times)) with (t :: take n (t' :: times)).
    rewrite probe_calls_cons, !run_cons, Hp. apply H2. cbn in *; lia.
  - rewrite H3. unfold cb1; cbn. f_equal; lia.
Qed.

(** C36: liveness.  When the probe budget covers the success threshold, an open
    breaker whose timeout has elapsed recovers by [SuccessThreshold] successful
    probes and not before: every one of the probes is admitted, the breaker is
    half-open until the last of them has reported, and is then closed with its
    failures and successes forgotten. *)
Theorem cb_recovers cb t times :
  state cb = CircuitOpen →
  Timeout (config cb) ≤ time_sub t (lastFailure cb) →
  len (t :: times) = SuccessThreshold (config cb) →
  SuccessThreshold (config cb) ≤ HalfOpenMaxRequests (config cb) →
  cb_outputs (probe_calls (t :: times)) cb = probe_answers (t :: times) ∧
  (∀ n, (0 < n < length (t :: times))%nat →
    state (run cb_step (probe_calls (take n (t :: times))) cb) = CircuitHalfOpen) ∧
  run cb_step (probe_calls (t :: times)) cb =
    mkCB (config cb) CircuitClosed 0 0 (lastFailure cb) (SuccessThreshold (config cb)).
Proof.
  intros Hst Ht Hlen Hmax. cbn in Hlen.
  assert (Ha : Allow t cb = (mkCB (config cb) CircuitHalfOpen (failures cb) 0 (lastFailure cb) 1, true)).
  { unfold Allow. apply Z.leb_le in Ht. by rewrite Hst, Ht. }
  set (cb1 := mkCB (config cb) CircuitHalfOpen (failures cb) 1 (lastFailure cb) 1).
  rewrite probe_calls_cons, !run_cons. cbn [cb_outputs cb_step cb_out]. rewrite Ha; cbn [fst snd].
  destruct times as [|t' times].
  { cbn. rewrite (proj2 (Z.leb_le _ _)) by (cbn in *; lia). change (probe_calls []) with (@nil cb_call). rewrite run_nil. split_and!; [done| |].
    - intros n Hn. lia.
    - f_equal. cbn in *; lia. }
  assert (Hs : RecordSuccess (mkCB (config cb) CircuitHalfOpen (failures cb) 0 (lastFailure cb) 1) = cb1).
  { cbn. by rewrite (proj2 (Z.leb_gt _ _)) by (cbn in *; lia). }
  rewrite Hs.
  destruct (halfopen_recovers (t' :: times) cb1) as (H1 & H2 & H3); [done|done|cbn in *; lia|cbn in *; lia|].
  split_and!.
  - by rewrite H1.
  - intros [|n] Hn; [lia|]. change (take (S n) (t :: t' :: times)) with (t :: take n (t' :: times)).
    rewrite probe_calls_cons, !run_cons. cbn [cb_step]. rewrite Ha; cbn [fst]. rewrite Hs.
    apply H2. cbn in *; lia.
  - rewrite H3. unfold cb1; cbn. f_equal; cbn in *; lia.
Qed.

Lemma cb_recovers_witness :
  cb_outputs (probe_calls [hour; hour]) tripped_breaker = [Some true; None; Some true; None] ∧
  state (run cb_step (probe_calls [hour]) tripped_breaker) = CircuitHalfOpen ∧
  state (run cb_step (probe_calls [hour; hour]) tripped_breaker) = CircuitClosed.
Proof.
  destruct (cb_recovers tripped_breaker hour [hour]) as (H1 & H2 & H3);
    [vm_compute; first [reflexivity|discriminate]..|].
  split; [exact H1|]. split; [exact (H2 1%nat ltac:(cbn; lia))|]. by rewrite H3.
Defined.

(** Liveness.  A half-open breaker that has handed out its probes has no
    timeout of its own: if their outcomes are never recorded, it refuses every
    later request, at any time, and stays half-open. *)
Theorem cb_halfopen_exhausted_stuck cs cb :
  state cb = CircuitHalfOpen →
  HalfOpenMaxRequests (config cb) ≤ halfOpenReqs cb →
  Forall is_allow cs →
  run cb_step cs cb = cb ∧ admitted (cb_outputs cs cb) = 0%nat.
Proof.
  intros Hst Hr Hcs. induction Hcs as [|c cs [now ->] Hcs [IH1 IH2]]; [done|].
  assert (Hs : Allow now cb = (cb, false)).
  { unfold Allow; rewrite Hst. split_ifs; [lia|done]. }
  rewrite run_cons. cbn [cb_step cb_outputs cb_out]. rewrite Hs; cbn [fst snd].
  split; [done|]. by rewrite admitted_cons.
Qed.

Lemma cb_halfopen_exhausted_stuck_witness :
  let cb := run cb_step (CAllow <$> [hour; hour; hour]) tripped_breaker in
  run cb_step (CAllow <$> [2 * hour; 1000 * hour]) cb = cb ∧
  admitted (cb_outputs (CAllow <$> [2 * hour; 1000 * hour]) cb) = 0%nat.
Proof.
  apply cb_halfopen_exhausted_stuck; [reflexivity|vm_compute; discriminate|].
  cbn. repeat constructor; eexists; reflexivity.
Defined.

(** ** The table of breakers *)

Record PeerCircuitBreakers := mkPCB {
  breakers : gmap string CircuitBreaker;
  pcb_config : CircuitBreakerConfig
}.

Definition NewPeerCircuitBreakers (cfg : option CircuitBreakerConfig) : PeerCircuitBreakers :=
  mkPCB ∅ (default DefaultCircuitBreakerConfig cfg).

(** [Get] returns a pointer into the table; a caller that then changes the
    breaker stores the result back with [put].  [AllowRequest], [RecordSuccess]
    and [RecordFailure] release the table's lock after [Get] and then take the
    breaker's.  Because the breaker stays in the table unless [Remove] or
    [Cleanup] takes it out, such a call has the effect of one step at the time
    it holds the breaker's lock; histories in which a [Remove] or [Cleanup] falls
    between the two halves of a call are not modelled. *)
Definition Get (peerID : string) (pcb : PeerCircuitBreakers) :
    PeerCircuitBreakers * CircuitBreaker :=
  match breakers pcb !! peerID with
  | Some cb => (pcb, cb)
  | None =>
      let cb := NewCircuitBreaker (Some (pcb_config pcb)) in
      (mkPCB (<[peerID := cb]> (breakers pcb)) (pcb_config pcb), cb)
  end.

Definition put (peerID : string) (cb : CircuitBreaker) (pcb : PeerCircuitBreakers) :
    PeerCircuitBreakers :=
  mkPCB (<[peerID := cb]> (breakers pcb)) (pcb_config pcb).

Definition AllowRequest (now : time) (peerID : string) (pcb : PeerCircuitBreakers) :
    PeerCircuitBreakers * bool :=
  let '(pcb, cb) := Get peerID pcb in
  let '(cb, ok) := Allow now cb in
  (put peerID cb pcb, ok).

Definition pcb_RecordSuccess (peerID : string) (pcb : PeerCircuitBreakers) :
    PeerCircuitBreakers :=
  let '(pcb, cb) := Get peerID pcb in put peerID (RecordSuccess cb) pcb.

Definition pcb_RecordFailure (now : time) (peerID : string) (pcb : PeerCircuitBreakers) :
    PeerCircuitBreakers :=
  let '(pcb, cb) := Get peerID pcb in put peerID (RecordFailure now cb) pcb.

Definition GetOpenCircuits (pcb : PeerCircuitBreakers) : list string :=
  (filter (λ kv, state kv.2 = CircuitOpen) (map_to_list (breakers pcb))).*1.

Definition pcb_Remove (peerID : string) (pcb : PeerCircuitBreakers) : PeerCircuitBreakers :=
  mkPCB (delete peerID (breakers pcb)) (pcb_config pcb).

Definition pcb_Reset (pcb : PeerCircuitBreakers) : PeerCircuitBreakers :=
  mkPCB (Reset <$> breakers pcb) (pcb_config pcb).

(** The condition under which [Cleanup] drops a breaker. *)
Definition cleanable (now : time) (maxAge : duration) (cb : CircuitBreaker) : bool :=
  bool_decide (state cb = CircuitClosed) && (failures cb =? 0) &&
  (time_is_zero (lastFailure cb) || (maxAge <? time_sub now (lastFailure cb))).

Definition Cleanup (now : time) (maxAge : duration) (pcb : PeerCircuitBreakers) :
    PeerCircuitBreakers :=
  mkPCB (filter (λ kv, cleanable now maxAge kv.2 = false) (breakers pcb)) (pcb_config pcb).

Inductive pcb_call :=
  | PCall (peerID : string) (c : cb_call)   (* AllowRequest, RecordSuccess, RecordFailure *)
  | PRemove (peerID : string)
  | PReset
  | PCleanup (now : time) (maxAge : duration).

Definition pcb_step (c : pcb_call) (pcb : PeerCircuitBreakers) : PeerCircuitBreakers :=
  match c with
  | PCall p (CAllow now) => (AllowRequest now p pcb).1
  | PCall p CSuccess => pcb_RecordSuccess p pcb
  | PCall p (CFailure now) => pcb_RecordFailure now p pcb
  | PCall p CReset => put p (Reset (Get p pcb).2) pcb   (* Get(p).Reset() *)
  | PRemove p => pcb_Remove p pcb
  | PReset => pcb_Reset pcb
  | PCleanup now maxAge => Cleanup now maxAge pcb
  end.

(** The answers the table gives to the requests for peer [p]. *)
Fixpoint pcb_outputs (p : string) (cs : list pcb_call) (pcb : PeerCircuitBreakers) :
    list (option bool) :=
  match cs with
  | [] => []
  | c :: cs =>
      match c with
      | PCall q (CAllow now) =>
          if decide (p = q) then Some (AllowRequest now q pcb).2 :: pcb_outputs p cs (pcb_step c pcb)
          else pcb_outputs p cs (pcb_step c pcb)
      | PCall q _ =>
          if decide (p = q) then None :: pcb_outputs p cs (pcb_step c pcb)
          else pcb_outputs p cs (pcb_step c pcb)
      | _ => pcb_outputs p cs (pcb_step c pcb)
      end
  end.

(** *** Specification: one breaker per peer, and no clean-up

    The specification of peer [p] is a single breaker that receives only the
    calls for [p]; removing [p] gives it a fresh one. *)
Fixpoint spec_outputs (p : string) (cs : list pcb_call) (cb : CircuitBreaker) :
    list (option bool) :=
  match cs with
  | [] => []
  | PCall q c :: cs =>
      if decide (p = q) then cb_out c cb :: spec_outputs p cs (cb_step c cb)
      else spec_outputs p cs cb
  | PRemove q :: cs =>
      if decide (p = q) then spec_outputs p cs (NewCircuitBreaker (Some (config cb)))
      else spec_outputs p cs cb
  | PReset :: cs => spec_outputs p cs (Reset cb)
  | PCleanup _ _ :: cs => spec_outputs p cs cb
  end.

(** Two breakers no caller can tell apart: the fields that the current state
    does not read may differ. *)
Record cb_equiv (a b : CircuitBreaker) : Prop := {
  eqv_config : config a = config b;
  eqv_state : state a = state b;
  eqv_closed : state a = CircuitClosed → failures a = failures b;
  eqv_open : state a = CircuitOpen → lastFailure a = lastFailure b;
  eqv_half : state a = CircuitHalfOpen →
    successes a = successes b ∧ halfOpenReqs a = halfOpenReqs b
}.

#[export] Instance cb_Equiv : Equiv CircuitBreaker := cb_equiv.

#[export] Instance cb_equiv_equivalence : Equivalence (≡@{CircuitBreaker}).
Proof.
  split.
  - by split.
  - intros a b [H1 H2 H3 H4 H5]. rewrite H2 in *. split; try done; intros Hst.
    + by rewrite H3.
    + by rewrite H4.
    + destruct (H5 Hst); auto.
  - intros a b c [H1 H2 H3 H4 H5] [G1 G2 G3 G4 G5]. rewrite H2 in *.
    split; try congruence; rewrite H2; intros Hst.
    + rewrite H3 by done; auto.
    + rewrite H4 by done; auto.
    + destruct (H5 Hst), (G5 Hst). split; congruence.
Qed.

#[export] Instance cb_step_proper c : Proper ((≡) ==> (≡)) (cb_step c).
Proof.
  intros a b [H1 H2 H3 H4 H5].
  destruct a as [cfg st f s l h], b as [cfg' st' f' s' l' h']; cbn in *; subst cfg' st'.
  destruct st; [specialize (H3 eq_refl)|specialize (H4 eq_refl)|destruct (H5 eq_refl)];
    subst; destruct c; cbn; unfold Allow, RecordSuccess, RecordFailure, Reset; cbn;
    split_ifs; split; cbn; intros; done.
Qed.

#[export] Instance cb_out_proper c : Proper ((≡) ==> (=)) (cb_out c).
Proof.
  intros a b [H1 H2 H3 H4 H5].
  destruct a as [cfg st f s l h], b as [cfg' st' f' s' l' h']; cbn in *; subst cfg' st'.
  destruct st; [specialize (H3 eq_refl)|specialize (H4 eq_refl)|destruct (H5 eq_refl)];
    subst; destruct c; cbn; unfold Allow; cbn; split_ifs; done.
Qed.

(** The breaker a peer has, or would get at its next call. *)
Definition view (p : string) (pcb : PeerCircuitBreakers) : CircuitBreaker :=
  default (NewCircuitBreaker (Some (pcb_config pcb))) (breakers pcb !! p).

Lemma Get_view p pcb : (Get p pcb).2 = view p pcb.
Proof. unfold Get, view. by destruct (breakers pcb !! p). Qed.

Lemma Get_put p cb pcb : put p cb (Get p pcb).1 = put p cb pcb.
Proof.
  unfold Get, put. destruct (breakers pcb !! p); [done|].
  cbn. by rewrite insert_insert_eq.
Qed.

Lemma view_put p q cb pcb :
  view p (put q cb pcb) = if decide (p = q) then cb else view p pcb.
Proof.
  unfold view, put; cbn. rewrite lookup_insert.
  case_decide; case_decide; subst; done.
Qed.

Lemma pcb_call_step p c pcb :
  pcb_step (PCall p c) pcb = put p (cb_step c (view p pcb)) pcb.
Proof.
  destruct c; cbn; unfold AllowRequest, pcb_RecordSuccess, pcb_RecordFailure;
    rewrite <- ?Get_view; rewrite <- ?(Get_put p _ pcb);
    destruct (Get p pcb) as [pcb' cb] eqn:HG; cbn; try done.
  by destruct (Allow now cb).
Qed.

Lemma pcb_call_out p now pcb :
  (AllowRequest now p pcb).2 = (Allow now (view p pcb)).2.
Proof.
  unfold AllowRequest. rewrite <- Get_view.
  destruct (Get p pcb) as [pcb' cb]; cbn. by destruct (Allow now cb).
Qed.

Lemma cleanable_new now maxAge cb :
  cleanable now maxAge cb = true → cb ≡ NewCircuitBreaker (Some (config cb)).
Proof.
  unfold cleanable. rewrite !andb_true_iff, bool_decide_eq_true, Z.eqb_eq.
  intros [[Hst Hf] _]. split; cbn; intros; try congruence; done.
Qed.

(** Every breaker of the table carries the table's configuration. *)
Definition pcb_wf (pcb : PeerCircuitBreakers) : Prop :=
  map_Forall (λ _ cb, config cb = pcb_config pcb) (breakers pcb).

Lemma view_config p pcb : pcb_wf pcb → config (view p pcb) = pcb_config pcb.
Proof.
  intros Hwf. unfold view. destruct (breakers pcb !! p) eqn:Hp; [|done].
  by apply (Hwf p).
Qed.

Lemma pcb_step_config c pcb : pcb_config (pcb_step c pcb) = pcb_config pcb.
Proof. destruct c as [p c| | |]; [rewrite pcb_call_step|..]; done. Qed.

Lemma pcb_wf_step c pcb : pcb_wf pcb → pcb_wf (pcb_step c pcb).
Proof.
  intros Hwf. unfold pcb_wf. rewrite pcb_step_config. destruct c as [p c|p| |now age].
  - rewrite pcb_call_step; cbn. apply map_Forall_insert_2; [|done].
    by rewrite cb_step_config, view_config.
  - by apply map_Forall_delete.
  - intros q cb. cbn. rewrite lookup_fmap, fmap_Some. intros (cb' & Hq & ->). by apply (Hwf q cb').
  - intros q cb. cbn. rewrite map_lookup_filter_Some. intros [Hq _]. by apply (Hwf q cb).
Qed.

Lemma view_cleanup p now maxAge pcb :
  pcb_wf pcb → view p (Cleanup now maxAge pcb) ≡ view p pcb.
Proof.
  intros Hwf. unfold view, Cleanup; cbn. rewrite map_lookup_filter.
  destruct (breakers pcb !! p) as [cb|] eqn:Hp; cbn; [|done].
  case_guard as Hg; cbn; [done|].
  rewrite not_false_iff_true in Hg. apply cleanable_new in Hg.
  rewrite (Hwf p cb Hp) in Hg. done.
Qed.

Lemma pcb_refines p cs pcb cb :
  pcb_wf pcb → view p pcb ≡ cb → pcb_outputs p cs pcb = spec_outputs p cs cb.
Proof.
  revert pcb cb. induction cs as [|c cs IH]; intros pcb cb Hwf Hv; [done|].
  assert (Hwf' := pcb_wf_step c pcb Hwf).
  destruct c as [q c|q| |now age].
  - cbn [pcb_outputs spec_outputs]. rewrite pcb_call_step in *.
    case_decide as Hpq; [subst q|].
    + assert (Hn : view p (put p (cb_step c (view p pcb)) pcb) ≡ cb_step c cb).
      { rewrite view_put, decide_True by done. by rewrite Hv. }
      rewrite <- (IH _ _ Hwf' Hn), <- Hv.
      destruct c; cbn [cb_out]; rewrite ?pcb_call_out; done.
    + assert (Hn : view p (put q (cb_step c (view q pcb)) pcb) ≡ cb).
      { by rewrite view_put, decide_False. }
      destruct c; by apply IH.
  - cbn [pcb_outputs spec_outputs]. case_decide as Hpq; [subst q|].
    + apply IH; [done|]. unfold view; cbn. rewrite lookup_delete_eq; cbn.
      rewrite <- (eqv_config _ _ Hv), view_config; done.
    + apply IH; [done|]. unfold view in *; cbn. by rewrite lookup_delete_ne.
  - cbn [pcb_outputs spec_outputs]. apply IH; [done|].
    transitivity (Reset (view p pcb)); [|apply (cb_step_proper CReset); done].
    unfold view; cbn. rewrite lookup_fmap. by destruct (breakers pcb !! p).
  - cbn [pcb_outputs spec_outputs]. apply IH; [done|]. cbn. by rewrite view_cleanup.
Qed.

(** C9: refinement.  The table of breakers implements one independent breaker
    per peer: for every interleaving of calls for any peers, with removals,
    resets and clean-ups at any times, the admission decisions for a peer are
    those of a single breaker that sees only that peer's calls.  In particular
    calls for other peers and [Cleanup] are invisible. *)
Theorem pcb_refines_breaker_per_peer cfg p cs :
  pcb_outputs p cs (NewPeerCircuitBreakers cfg) =
  spec_outputs p cs (NewCircuitBreaker cfg).
Proof.
  apply pcb_refines; [apply map_Forall_empty|].
  unfold view; cbn. by rewrite lookup_empty.
Qed.
