(* ===== verification/NonceTracker.v ===== *)
(** * Replay protection (internal/p2p/nonce_tracker.go)

    A [NonceTracker] remembers the nonces it accepted for [nonceWindow].  A
    nonce ([24]byte) is the number its bytes spell, so the all-zero nonce is
    [0].  [Check] reads the clock before it takes the lock: the model splits it
    in the clock reading ([now]) and the locked part, and a trace carries the
    time at which each locked part runs.

    Theorems: [Check] accepts exactly the fresh, in-window, non-zero nonces and
    records them; over any trace of checks and clean-ups no (nonce, timestamp)
    pair is ever accepted twice, provided the window covers the accepted
    timestamps plus the time a call waits for the lock; clean-up keeps the
    table to the nonces of the last window. *)

From S2P Require Import Prelude.
Local Open Scope Z_scope.

Definition DefaultMaxMessageAge : duration := 5 * minute.
Definition DefaultMaxFutureSkew : duration := 30 * second.
Definition DefaultNonceWindow : duration := 10 * minute.

Record NonceTracker := mkNT {
  seen : gmap N time;
  maxAge : duration;
  futureSkew : duration;
  nonceWindow : duration
}.

Definition NewNonceTracker : NonceTracker :=
  mkNT ∅ DefaultMaxMessageAge DefaultMaxFutureSkew DefaultNonceWindow.

Definition NewNonceTrackerWithConfig (maxAge futureSkew nonceWindow : duration) : NonceTracker :=
  mkNT ∅ maxAge futureSkew nonceWindow.

Inductive NonceError := ZeroNonce | TooOld | TooFarInFuture | DuplicateNonce.

(** [None] is the [nil] error. *)
Definition Check (now : time) (nonce : N) (timestamp : time) (nt : NonceTracker) :
    NonceTracker * option NonceError :=
  if decide (nonce = 0%N) then (nt, Some ZeroNonce)
  else if maxAge nt <? time_sub now timestamp then (nt, Some TooOld)
  else if futureSkew nt <? time_sub timestamp now then (nt, Some TooFarInFuture)
  else match seen nt !! nonce with
  | Some _ => (nt, Some DuplicateNonce)
  | None =>
      (mkNT (<[nonce := now]> (seen nt)) (maxAge nt) (futureSkew nt) (nonceWindow nt), None)
  end.

Definition CleanExpired (now : time) (nt : NonceTracker) : NonceTracker :=
  let cutoff := now - nonceWindow nt in
  mkNT (filter (λ kv, ¬ kv.2 < cutoff) (seen nt)) (maxAge nt) (futureSkew nt) (nonceWindow nt).

Definition nt_Len (nt : NonceTracker) : Z := Z.of_nat (size (seen nt)).

(** ** Traces

    [EvCheck clock now nonce ts]: a call that read [now] executes its locked
    part at [clock].  [EvClean clock]: a clean-up at [clock]. *)

Inductive nt_event :=
  | EvCheck (clock now : time) (nonce : N) (timestamp : time)
  | EvClean (clock : time).

Definition ev_clock (e : nt_event) : time :=
  match e with EvCheck c _ _ _ => c | EvClean c => c end.

Definition nt_step (e : nt_event) (nt : NonceTracker) : NonceTracker :=
  match e with
  | EvCheck _ now nonce ts => (Check now nonce ts nt).1
  | EvClean c => CleanExpired c nt
  end.

(** The (nonce, timestamp) pairs accepted by a trace, in order. *)
Fixpoint accepted (es : list nt_event) (nt : NonceTracker) : list (N * time) :=
  match es with
  | [] => []
  | e :: es =>
      match e with
      | EvCheck _ now nonce ts =>
          match (Check now nonce ts nt).2 with
          | None => (nonce, ts) :: accepted es (nt_step e nt)
          | Some _ => accepted es (nt_step e nt)
          end
      | EvClean _ => accepted es (nt_step e nt)
      end
  end.

(** The clock never goes back, and a call waits at most [wait] for the lock. *)
Inductive timely (wait : duration) : time → list nt_event → Prop :=
  | timely_nil t : timely wait t []
  | timely_check t c now n ts es :
      t ≤ c → now ≤ c → c ≤ now + wait → timely wait c es →
      timely wait t (EvCheck c now n ts :: es)
  | timely_clean t c es :
      t ≤ c → timely wait c es → timely wait t (EvClean c :: es).

(** The durations are ordinary: no sum overflows the clock arithmetic. *)
Definition sane (nt : NonceTracker) : Prop :=
  0 ≤ maxAge nt < max_int64 ∧ 0 ≤ futureSkew nt < max_int64.

(** [Check] accepts a message exactly when its nonce is not zero, its timestamp
    is at most [maxAge] old and at most [futureSkew] ahead, and the nonce is not
    remembered; it then remembers the nonce with the current time, and otherwise
    changes nothing. *)
Lemma Check_spec now nonce ts nt :
  sane nt →
  ((Check now nonce ts nt).2 = None ↔
     nonce ≠ 0%N ∧ now - ts ≤ maxAge nt ∧ ts - now ≤ futureSkew nt ∧ seen nt !! nonce = None) ∧
  seen (Check now nonce ts nt).1 =
    (if decide ((Check now nonce ts nt).2 = None) then <[nonce := now]> (seen nt) else seen nt).
Proof.
  intros [[Ha Ha'] [Hf Hf']]. unfold Check.
  pose proof (time_sub_le_iff now ts (maxAge nt) Ha' ltac:(unfold min_int64; lia)) as Hage.
  pose proof (time_sub_le_iff ts now (futureSkew nt) Hf' ltac:(unfold min_int64; lia)) as Hskew.
  case_decide; [by split; [split; [|intros [? _]]|]|].
  destruct (maxAge nt <? _) eqn:E1; zbool; [by split; [split; [|lia]|]|].
  destruct (futureSkew nt <? _) eqn:E2; zbool; [by split; [split; [|lia]|]|].
  destruct (seen nt !! nonce) eqn:E3; cbn; [by split; [split; [|intros (_ & _ & _ & ?)]|]|].
  split; [|done]. split; [intros _|done]. repeat split; [done|lia|lia].
Qed.

(** ** No replay *)

Lemma nt_step_params e nt :
  maxAge (nt_step e nt) = maxAge nt ∧ futureSkew (nt_step e nt) = futureSkew nt ∧
  nonceWindow (nt_step e nt) = nonceWindow nt.
Proof.
  destruct e; [|done]. unfold nt_step, Check. by split_ifs; case_decide.
Qed.

(** The pair cannot be accepted from now on: either its nonce is remembered,
    with a reading of the clock late enough, or its timestamp has expired for
    every call that can still run. *)
Definition burnt (wait : duration) (t : time) (n : N) (ts : time) (nt : NonceTracker) : Prop :=
  (∃ s, seen nt !! n = Some s ∧ ts ≤ s + futureSkew nt) ∨ ts + maxAge nt + wait < t.

Lemma burnt_step wait t n ts e es nt :
  sane nt → 0 ≤ wait → maxAge nt + futureSkew nt + wait ≤ nonceWindow nt →
  timely wait t (e :: es) → burnt wait t n ts nt →
  burnt wait (ev_clock e) n ts (nt_step e nt) ∧ timely wait (ev_clock e) es ∧
  match e with
  | EvCheck _ now n' ts' => (Check now n' ts' nt).2 = None → (n', ts') ≠ (n, ts)
  | EvClean _ => True
  end.
Proof.
  intros Hsane Hw Hwin Ht Hb. inversion Ht as [|? c now n' ts' ? H1 H2 H3 H4|? c ? H1 H2]; subst.
  - cbn [ev_clock nt_step]. pose proof (Check_spec now n' ts' nt Hsane) as [Hacc Hseen].
    destruct (nt_step_params (EvCheck c now n' ts') nt) as (P1 & P2 & P3); cbn [nt_step] in *.
    split_and!; [|done|].
    + unfold burnt. rewrite P1, P2, Hseen. destruct Hb as [(s & Hs & Hts)|Hb]; [|right; lia].
      left. exists s. split; [|done].
      case_decide as Hd; [|done]. apply Hacc in Hd as (_ & _ & _ & Hn).
      rewrite lookup_insert_ne; [done|congruence].
    + intros (_ & Hage & _ & Hn)%Hacc [= -> ->].
      destruct Hb as [(s & Hs & _)|Hb]; [congruence|lia].
  - cbn [ev_clock nt_step]. split_and!; [|done|done]. unfold burnt; cbn.
    destruct Hb as [(s & Hs & Hts)|Hb]; [|right; lia].
    destruct (decide (s < c - nonceWindow nt)) as [Hd|Hd]; [right; lia|].
    left. exists s. split; [|done]. by rewrite map_lookup_filter_Some.
Qed.

Lemma burnt_not_accepted wait n ts es t nt :
  sane nt → 0 ≤ wait → maxAge nt + futureSkew nt + wait ≤ nonceWindow nt →
  timely wait t es → burnt wait t n ts nt → (n, ts) ∉ accepted es nt.
Proof.
  revert t nt. induction es as [|e es IH]; intros t nt Hs Hw Hwin Ht Hb; [cbn; set_solver|].
  destruct (burnt_step _ _ _ _ _ _ _ Hs Hw Hwin Ht Hb) as (Hb' & Ht' & Hne).
  destruct (nt_step_params e nt) as (P1 & P2 & P3).
  assert (Hrec : (n, ts) ∉ accepted es (nt_step e nt)).
  { eapply IH; [| |..]; eauto; unfold sane in *; rewrite ?P1, ?P2, ?P3; done. }
  destruct e as [c now n' ts'|c]; cbn [accepted]; [|done].
  destruct (Check now n' ts' nt).2; [done|].
  apply not_elem_of_cons. split; [|done]. intros Heq. by apply (Hne eq_refl).
Qed.

(** An accepted pair is burnt. *)
Lemma accept_burns wait c now n ts nt :
  sane nt → (Check now n ts nt).2 = None → burnt wait c n ts (Check now n ts nt).1.
Proof.
  intros Hs Hc. pose proof (Check_spec now n ts nt Hs) as [Hacc Hseen].
  destruct (nt_step_params (EvCheck c now n ts) nt) as (_ & P2 & _); cbn [nt_step] in P2.
  left. exists now. rewrite Hseen, decide_True, P2 by done.
  split; [apply lookup_insert_eq|]. apply Hacc in Hc. lia.
Qed.

(** Replay protection.  Over every trace of checks and clean-ups in which the
    clock does not go back and no call waits more than [wait] for the lock, no
    (nonce, timestamp) pair is accepted twice, as long as the nonce window
    covers [maxAge + futureSkew + wait]. *)
Lemma accepted_NoDup wait t es nt :
  sane nt → 0 ≤ wait → maxAge nt + futureSkew nt + wait ≤ nonceWindow nt →
  timely wait t es → NoDup (accepted es nt).
Proof.
  revert t nt. induction es as [|e es IH]; intros t nt Hs Hw Hwin Ht; [constructor|].
  destruct (nt_step_params e nt) as (P1 & P2 & P3).
  assert (Hs' : sane (nt_step e nt)) by (unfold sane in *; by rewrite P1, P2).
  assert (Hwin' : maxAge (nt_step e nt) + futureSkew (nt_step e nt) + wait
                  ≤ nonceWindow (nt_step e nt)) by (by rewrite P1, P2, P3).
  inversion Ht as [|? c now n ts ? H1 H2 H3 H4|? c ? H1 H2]; subst; cbn [accepted]; [|by eauto].
  destruct (Check now n ts nt).2 eqn:Hc; [by eauto|].
  constructor; [|by eauto].
  eapply burnt_not_accepted; eauto. by apply accept_burns.
Qed.

Lemma accepted_app es1 es2 nt :
  accepted (es1 ++ es2) nt = accepted es1 nt ++ accepted es2 (run nt_step es1 nt).
Proof.
  revert nt. induction es1 as [|e es1 IH]; intros nt; [done|].
  cbn [accepted app]. rewrite run_cons.
  destruct e; [destruct (Check _ _ _ _).2|]; by rewrite IH.
Qed.

(** ** The table stays small *)

(** After a clean-up every remembered nonce was accepted within
    the last [nonceWindow], and none of the younger ones was dropped. *)
Lemma CleanExpired_window now nt n s :
  seen (CleanExpired now nt) !! n = Some s ↔
  seen nt !! n = Some s ∧ now - nonceWindow nt ≤ s.
Proof.
  unfold CleanExpired; cbn. rewrite map_lookup_filter_Some; cbn.
  rewrite Z.nlt_ge. done.
Qed.
