(* ===== verification/AtomicFile.v ===== *)
(** * Atomic file replacement

    [BanList.Save] (internal/p2p/banlist.go), [AddressBook.Save]
    (internal/p2p/addressbook.go) and the other stores of the daemon persist a
    value the same way: create the directory, write [path.tmp], rename it over
    [path], and remove the temporary file when the rename fails.  The file
    system is a map from paths to contents; every system call may fail, which
    the [io] argument decides, and a failed write may leave anything in the
    temporary file. *)

From S2P Require Import Prelude.

Section AtomicFile.
Context {Bytes : Type}.

Abbreviation filesystem := (gmap string Bytes).

(** What the operating system answers. *)
Record io := {
  mkdir_ok : bool;
  write_result : option (option Bytes); (* [None]: written; [Some c]: failed, leaving [c] *)
  rename_ok : bool;
  remove_ok : bool
}.

Inductive IOError := MarshalFailed | MkdirFailed | WriteFailed | RenameFailed.

Definition tmp_path (path : string) : string := path +:+ ".tmp".

Definition write_atomic (o : io) (path : string) (data : Bytes) (fs : filesystem) :
    filesystem * option IOError :=
  if negb (mkdir_ok o) then (fs, Some MkdirFailed)
  else match write_result o with
  | Some partial => (partial_alter (λ _, partial) (tmp_path path) fs, Some WriteFailed)
  | None =>
      let fs := <[tmp_path path := data]> fs in
      if rename_ok o then (<[path := data]> (delete (tmp_path path) fs), None)
      else ((if remove_ok o then delete (tmp_path path) fs else fs), Some RenameFailed)
  end.

Lemma tmp_path_ne path : tmp_path path ≠ path.
Proof.
  unfold tmp_path. induction path as [|c path IH]; [done|].
  intros [= Heq]. by apply IH.
Qed.

(** The file at [path] is replaced as a whole or not touched at all, and no
    file other than the temporary one changes besides. *)
Lemma write_atomic_all_or_nothing o path data fs :
  let '(fs', err) := write_atomic o path data fs in
  fs' !! path = match err with None => Some data | Some _ => fs !! path end ∧
  ∀ q, q ≠ path → q ≠ tmp_path path → fs' !! q = fs !! q.
Proof.
  unfold write_atomic. pose proof (tmp_path_ne path) as Hne.
  destruct (mkdir_ok o); cbn; [|done].
  destruct (write_result o) as [partial|]; cbn.
  { rewrite lookup_partial_alter_ne by done. split; [done|].
    intros q Hq Hq'. by rewrite lookup_partial_alter_ne. }
  destruct (rename_ok o); cbn.
  - split; [apply lookup_insert_eq|]. intros q Hq Hq'.
    by rewrite lookup_insert_ne, lookup_delete_ne, lookup_insert_ne.
  - destruct (remove_ok o); (split; [|intros q Hq Hq']);
      rewrite ?lookup_delete_ne, lookup_insert_ne by done; done.
Qed.
End AtomicFile.
Arguments io : clear implicits.
