(* ===== verification/BanList.v ===== *)
(** * The ban list (internal/p2p/banlist.go)

    [BanList] maps a node to its ban.  [IsBanned], [CleanExpired], [List] and
    [Len] read the clock, which is their [now] argument.  A ban whose
    [ExpiresAt] is the zero time is permanent.

    Theorems: a ban holds for exactly its duration, whatever else happens to
    the list in between; saving and loading restores the list, and a failed
    save leaves the old file. *)

From S2P Require Import Prelude AtomicFile.
Local Open Scope Z_scope.

(** A [types.NodeID] ([32]byte) is the number its bytes spell. *)
Abbreviation NodeID := N (only parsing).

Record BanEntry := mkBan {
  PeerID : NodeID;
  Reason : string;
  BannedAt : time;
  ExpiresAt : time
}.

Abbreviation BanList := (gmap NodeID BanEntry).

Definition IsPermanent (e : BanEntry) : bool := time_is_zero (ExpiresAt e).

Definition IsExpired (now : time) (e : BanEntry) : bool :=
  if IsPermanent e then false else ExpiresAt e <? now.

Definition NewBanList : BanList := ∅.

(** [Ban] reads the clock for [BannedAt] and again for [ExpiresAt]; the model
    uses one reading. *)
Definition Ban (now : time) (peerID : NodeID) (reason : string) (d : duration) (bl : BanList) :
    BanList :=
  <[peerID := mkBan peerID reason now (if 0 <? d then now + d else 0)]> bl.

Definition Unban (peerID : NodeID) (bl : BanList) : BanList := delete peerID bl.

Definition IsBanned (now : time) (peerID : NodeID) (bl : BanList) : bool :=
  match bl !! peerID with
  | None => false
  | Some e => negb (IsExpired now e)
  end.

Definition CleanExpired (now : time) (bl : BanList) : BanList :=
  filter (λ kv, IsExpired now kv.2 = false) bl.

(** [List] visits the map in an unspecified order; the model's order is
    [map_to_list]'s and the theorems hold for every order. *)
Definition List (now : time) (bl : BanList) : list BanEntry :=
  filter (λ e, IsExpired now e = false) (map_to_list bl).*2.

Definition bl_Len (now : time) (bl : BanList) : Z :=
  Z.of_nat (count_map (λ e, negb (IsExpired now e)) bl).

(** ** Persistence *)

Section Persistence.
Context {Bytes : Type}.
(** [json.MarshalIndent] and [json.Unmarshal] on a list of ban entries. *)
Context (marshal : list BanEntry → option Bytes) (unmarshal : Bytes → option (list BanEntry)).

Inductive LoadError := ReadFailed | UnmarshalFailed.

(** [entries] is the order in which the loop visits the map. *)
Definition Save (o : io Bytes) (entries : list BanEntry) (path : string)
    (fs : gmap string Bytes) : gmap string Bytes * option IOError :=
  match marshal entries with
  | None => (fs, Some MarshalFailed)
  | Some data => write_atomic o path data fs
  end.

(** [readable] is false when [os.ReadFile] fails for another reason than a
    missing file. *)
Definition Load (readable : bool) (path : string) (fs : gmap string Bytes) (bl : BanList) :
    BanList * option LoadError :=
  match fs !! path with
  | None => (bl, None)
  | Some data =>
      if negb readable then (bl, Some ReadFailed)
      else match unmarshal data with
      | None => (bl, Some UnmarshalFailed)
      | Some entries => (foldl (λ m e, <[PeerID e := e]> m) ∅ entries, None)
      end
  end.
End Persistence.

(** ** Bans hold for their duration *)

Inductive bl_op :=
  | OpBan (now : time) (p : NodeID) (reason : string) (d : duration)
  | OpUnban (p : NodeID)
  | OpClean (now : time).

Definition bl_step (o : bl_op) (bl : BanList) : BanList :=
  match o with
  | OpBan now p r d => Ban now p r d bl
  | OpUnban p => Unban p bl
  | OpClean now => CleanExpired now bl
  end.

(** Operations that leave the ban of [p] alone, by time [u]: bans and unbans
    of other nodes, and clean-ups not later than [u]. *)
Definition leaves (p : NodeID) (u : time) (o : bl_op) : Prop :=
  match o with
  | OpBan _ q _ _ => q ≠ p
  | OpUnban q => q ≠ p
  | OpClean now => now ≤ u
  end.

Lemma IsExpired_mono t u e : t ≤ u → IsExpired t e = true → IsExpired u e = true.
Proof. unfold IsExpired. intros Htu. destruct (IsPermanent e); [done|]. rewrite !Z.ltb_lt. lia. Qed.

Lemma IsBanned_clean t u p bl : t ≤ u → IsBanned u p (CleanExpired t bl) = IsBanned u p bl.
Proof.
  intros Htu. unfold IsBanned, CleanExpired. rewrite map_lookup_filter.
  destruct (bl !! p) as [e|]; cbn; [|done].
  case_guard as Hg; cbn; [done|]. rewrite not_false_iff_true in Hg.
  by rewrite (IsExpired_mono t u e Htu Hg).
Qed.

Lemma IsBanned_step u p o bl :
  leaves p u o → IsBanned u p (bl_step o bl) = IsBanned u p bl.
Proof.
  destruct o; cbn; intros Ho; [..|by apply IsBanned_clean];
    unfold IsBanned, Ban, Unban; by rewrite ?lookup_insert_ne, ?lookup_delete_ne.
Qed.

Lemma IsBanned_run u p ops bl :
  Forall (leaves p u) ops → IsBanned u p (run bl_step ops bl) = IsBanned u p bl.
Proof.
  intros Hops; revert bl. induction Hops as [|o ops Ho Hops IH]; intros bl; [done|].
  rewrite run_cons, IH. by apply IsBanned_step.
Qed.

Lemma IsBanned_Ban now u p r d bl :
  0 < now → IsBanned u p (Ban now p r d bl) = (d <=? 0) || (u <=? now + d).
Proof.
  intros Hnow. unfold IsBanned, Ban. rewrite lookup_insert_eq; cbn.
  unfold IsExpired, IsPermanent, time_is_zero; cbn.
  destruct (0 <? d) eqn:Hd; cbn; zbool.
  - replace (now + d =? 0) with false by (symmetry; apply Z.eqb_neq; lia).
    replace (d <=? 0) with false by (symmetry; apply Z.leb_gt; lia). cbn.
    by rewrite Z.ltb_antisym, negb_involutive.
  - replace (d <=? 0) with true by (symmetry; apply Z.leb_le; lia). done.
Qed.

(** Safety.  A ban of duration [d] imposed at [now] holds exactly until
    [now + d] (for ever when [d] is not positive): no sequence of bans and
    unbans of other nodes and of clean-ups lifts it earlier or prolongs it. *)
Theorem ban_holds_for_its_duration now u p r d bl ops :
  0 < now → Forall (leaves p u) ops →
  IsBanned u p (run bl_step ops (Ban now p r d bl)) = (d <=? 0) || (u <=? now + d).
Proof. intros Hnow Hops. rewrite IsBanned_run by done. by apply IsBanned_Ban. Qed.

Lemma ban_holds_for_its_duration_witness :
  IsBanned hour 1%N (run bl_step [OpBan 5 2%N "x" hour; OpClean hour; OpUnban 2%N]
    (Ban 1 1%N "spam" hour ∅)) = (hour <=? 0) || (hour <=? 1 + hour).
Proof.
  apply ban_holds_for_its_duration; [reflexivity|].
  repeat constructor; vm_compute; discriminate.
Defined.

Lemma keys_PeerID (bl : BanList) :
  map_Forall (λ p e, PeerID e = p) bl → PeerID <$> (map_to_list bl).*2 = (map_to_list bl).*1.
Proof.
  intros Hwf. rewrite <- list_fmap_compose. apply list_fmap_ext. intros i [p e] Hi; cbn.
  apply list_elem_of_lookup_2, elem_of_map_to_list in Hi. by apply (Hwf p).
Qed.

(** Functional.  [List] and [Len] agree with [IsBanned]: the listed entries
    are those of the banned nodes, each once, and [Len] is their number. *)
Theorem List_Len_IsBanned now bl :
  map_Forall (λ p e, PeerID e = p) bl →
  (∀ p, p ∈ PeerID <$> List now bl ↔ IsBanned now p bl = true) ∧
  NoDup (PeerID <$> List now bl) ∧
  bl_Len now bl = len (List now bl).
Proof.
  intros Hwf. split_and!.
  - intros p. unfold IsBanned, List. rewrite list_elem_of_fmap. split.
    + intros (e & -> & [He Hin]%list_elem_of_filter).
      apply list_elem_of_fmap in Hin as ([q e'] & -> & Hin%elem_of_map_to_list); cbn in *.
      rewrite (Hwf q e' Hin), Hin. by rewrite He.
    + destruct (bl !! p) as [e|] eqn:Hp; [|done]. rewrite negb_true_iff. intros He.
      exists e. split; [by symmetry; apply (Hwf p)|].
      apply list_elem_of_filter. split; [done|].
      apply list_elem_of_fmap. exists (p, e). by rewrite elem_of_map_to_list.
  - apply (sublist_NoDup _ (PeerID <$> (map_to_list bl).*2)).
    + rewrite keys_PeerID by done. apply NoDup_fst_map_to_list.
    + apply fmap_sublist, sublist_filter.
  - unfold bl_Len, count_map, List. f_equal.
    induction (map_to_list bl) as [|[p e] l IH]; [done|].
    rewrite fmap_cons, !filter_cons; cbn.
    destruct (IsExpired now e); repeat case_decide; cbn in *; congruence.
Qed.

Lemma List_Len_IsBanned_witness :
  let bl := Ban 1 2%N "a" 0 (Ban 1 1%N "spam" hour ∅) in
  (∀ p, p ∈ PeerID <$> List (2 * hour) bl ↔ IsBanned (2 * hour) p bl = true) ∧
  NoDup (PeerID <$> List (2 * hour) bl) ∧
  bl_Len (2 * hour) bl = len (List (2 * hour) bl).
Proof.
  apply List_Len_IsBanned. unfold Ban. repeat (apply map_Forall_insert_2; [done|]).
  apply map_Forall_empty.
Defined.

(** ** Saving and loading *)

Lemma foldl_insert_lookup (l : list BanEntry) (m : BanList) :
  NoDup (PeerID <$> l) →
  ∀ p, foldl (λ m e, <[PeerID e := e]> m) m l !! p =
    match list_find (λ e, PeerID e = p) l with
    | Some (_, e) => Some e
    | None => m !! p
    end.
Proof.
  revert m. induction l as [|e l IH]; intros m Hnd p; [done|].
  rewrite fmap_cons, NoDup_cons in Hnd. destruct Hnd as [Hnin Hnd].
  cbn [foldl]. rewrite IH by done.
  cbn [list_find]. case_decide as Hd.
  - subst p. replace (list_find _ l) with (@None (nat * BanEntry)).
    { by rewrite lookup_insert_eq. }
    symmetry. apply list_find_None, Forall_forall. intros x Hx Heq.
    apply Hnin. rewrite <- Heq. by apply list_elem_of_fmap_2.
  - destruct (list_find (λ e, PeerID e = p) l) as [[i x]|]; cbn; [done|].
    by rewrite lookup_insert_ne.
Qed.

(** Loading the entries of a list, in any order, rebuilds the list. *)
Lemma foldl_insert_map_to_list entries (bl : BanList) :
  map_Forall (λ p e, PeerID e = p) bl → entries ≡ₚ (map_to_list bl).*2 →
  foldl (λ m e, <[PeerID e := e]> m) ∅ entries = bl.
Proof.
  intros Hwf Hperm. apply map_eq. intros p.
  assert (Hin : ∀ e, e ∈ entries ↔ bl !! PeerID e = Some e).
  { intros e. rewrite Hperm, list_elem_of_fmap. split.
    - intros ([q e'] & -> & Hq%elem_of_map_to_list); cbn in *. by rewrite (Hwf q e' Hq).
    - intros He. exists (PeerID e, e). by rewrite elem_of_map_to_list. }
  rewrite foldl_insert_lookup.
  - destruct (list_find _ entries) as [[i e]|] eqn:Hf.
    + apply list_find_Some in Hf as (Hi & <- & _).
      apply list_elem_of_lookup_2, Hin in Hi. by rewrite Hi.
    + rewrite lookup_empty. destruct (bl !! p) as [e|] eqn:Hp; [|done].
      pose proof (Hwf p e Hp) as Hpe; cbn in Hpe.
      assert (He : e ∈ entries) by (apply Hin; by rewrite Hpe).
      rewrite list_find_None, Forall_forall in Hf. by destruct (Hf e He).
  - rewrite Hperm, keys_PeerID by done. apply NoDup_fst_map_to_list.
Qed.

(** C10: round trip.  Saving a list in any visiting order and loading the file
    into any list restores the saved list; when saving fails, a later load
    reads the file as it was before. *)
Theorem Save_Load_roundtrip {Bytes}
    (marshal : list BanEntry → option Bytes) (unmarshal : Bytes → option (list BanEntry))
    (o : io Bytes) entries path fs bl bl' :
  (∀ b, marshal entries = Some b → unmarshal b = Some entries) →
  map_Forall (λ p e, PeerID e = p) bl → entries ≡ₚ (map_to_list bl).*2 →
  let '(fs', err) := Save marshal o entries path fs in
  match err with
  | None => Load unmarshal true path fs' bl' = (bl, None)
  | Some _ => Load unmarshal true path fs' bl' = Load unmarshal true path fs bl'
  end.
Proof.
  intros Hjson Hwf Hperm. unfold Save.
  destruct (marshal entries) as [data|]; [|done].
  pose proof (write_atomic_all_or_nothing o path data fs) as Hw.
  destruct (write_atomic o path data fs) as [fs' err]. destruct Hw as [Hw _].
  unfold Load. destruct err; cbn in Hw; rewrite Hw; [done|].
  cbn. rewrite (Hjson data eq_refl); cbn. by rewrite (foldl_insert_map_to_list _ bl).
Qed.

(** The identity encoding, and a disk on which every call succeeds. *)
Lemma Save_Load_roundtrip_witness :
  let bl := Ban 1 2%N "a" 0 (Ban 1 1%N "spam" hour ∅) in
  let o := {| mkdir_ok := true; write_result := None; rename_ok := true; remove_ok := true |} in
  let '(fs', err) := Save Some o (map_to_list bl).*2 "bans.json" ∅ in
  match err with
  | None => Load Some true "bans.json" fs' ∅ = (bl, None)
  | Some _ => Load Some true "bans.json" fs' ∅ = Load Some true "bans.json" ∅ ∅
  end.
Proof.
  intros bl o. apply (Save_Load_roundtrip Some Some o); [by intros ? [= ->]| |done].
  unfold bl, Ban. repeat (apply map_Forall_insert_2; [done|]). apply map_Forall_empty.
Defined.
