(* ===== verification/NetAddr.v ===== *)
(** * Network addresses

    What the sources use of Go's [net] package: [net.SplitHostPort],
    [net.ParseIP], [IP.To4], [IP.IsLoopback], [IPNet.Contains] and the text
    form of a [/48] prefix, as executable functions on character lists.  A
    parsed [net.IP] is its sixteen bytes; an IPv4 address is IPv4-mapped, as
    [net.ParseIP] returns it. *)

From S2P Require Import Prelude.
From stdpp Require Import pretty.
From Stdlib Require Import Ascii.
Local Open Scope Z_scope.

Abbreviation chars := (list ascii).

Definition code (c : ascii) : Z := Z.of_nat (nat_of_ascii c).

(** ** Substrings *)

Fixpoint index_char (c : ascii) (s : chars) : option nat :=
  match s with
  | [] => None
  | x :: s => if decide (x = c) then Some 0%nat else S <$> index_char c s
  end.

Definition last_index_char (c : ascii) (s : chars) : option nat :=
  (λ i, length s - 1 - i)%nat <$> index_char c (reverse s).

Definition contains_char (c : ascii) (s : chars) : bool :=
  match index_char c s with Some _ => true | None => false end.

Definition slice (i j : nat) (s : chars) : chars := take (j - i) (drop i s).

(** [strings.Split] with a one-character separator: always at least one part. *)
Fixpoint split_on (c : ascii) (s : chars) : list chars :=
  match s with
  | [] => [[]]
  | x :: s =>
      if decide (x = c) then [] :: split_on c s
      else match split_on c s with
      | [] => [[x]]
      | p :: ps => (x :: p) :: ps
      end
  end.

Definition has_prefix (p s : chars) : bool := bool_decide (take (length p) s = p).
Definition has_suffix (p s : chars) : bool :=
  bool_decide (drop (length s - length p) s = p).

(** ** [net.SplitHostPort] *)

Definition SplitHostPort (hp : chars) : option (chars * chars) :=
  match last_index_char ":"%char hp with
  | None => None
  | Some i =>
      let bracketed := match hp with c :: _ => bool_decide (c = "["%char) | [] => false end in
      let split :=
        if bracketed then
          match index_char "]"%char hp with
          | None => None
          | Some e => if decide (S e = i) then Some (slice 1 e hp, 1%nat, S e) else None
          end
        else
          let host := take i hp in
          if contains_char ":"%char host then None else Some (host, 0%nat, 0%nat) in
      match split with
      | None => None
      | Some (host, j, k) =>
          if contains_char "["%char (drop j hp) then None
          else if contains_char "]"%char (drop k hp) then None
          else Some (host, drop (S i) hp)
      end
  end.

(** ** [net.ParseIP] *)

Definition dec_digit (c : ascii) : option Z :=
  let n := code c in if (48 <=? n) && (n <=? 57) then Some (n - 48) else None.

Definition hex_digit (c : ascii) : option Z :=
  let n := code c in
  if (48 <=? n) && (n <=? 57) then Some (n - 48)
  else if (97 <=? n) && (n <=? 102) then Some (n - 87)
  else if (65 <=? n) && (n <=? 70) then Some (n - 55)
  else None.

(** One octet: digits only, no leading zero, at most 255. *)
Definition parse_octet (s : chars) : option Z :=
  match s with
  | [] => None
  | c :: rest =>
      let leading0 := bool_decide (c = "0"%char) && negb (bool_decide (rest = [])) in
      if leading0 then None else
      foldl (λ acc c,
        a ← acc; d ← dec_digit c; if 255 <? a * 10 + d then None else Some (a * 10 + d))
        (Some 0) s
  end.

Definition parse_v4_fields (s : chars) : option (list Z) :=
  match split_on "."%char s with
  | [a; b; c; d] =>
      a ← parse_octet a; b ← parse_octet b; c ← parse_octet c; d ← parse_octet d;
      Some [a; b; c; d]
  | _ => None
  end.

Definition v4_mapped (v4 : list Z) : list Z := replicate 10%nat 0 ++ [255; 255] ++ v4.

(** The hexadecimal digits at the front of [s]: how many, their value, and the
    rest; [None] when there are more than four of them. *)
Fixpoint hex_field (off : nat) (acc : Z) (s : chars) : option (nat * Z * chars) :=
  match s with
  | [] => Some (off, acc, [])
  | c :: rest =>
      match hex_digit c with
      | None => Some (off, acc, s)
      | Some d => if decide (3 < off)%nat then None else hex_field (S off) (acc * 16 + d) rest
      end
  end.

(** The field loop of [netip.parseIPv6]: [ip] holds the bytes so far and
    [ellipsis] the position of [::].  A round adds two bytes or stops, so
    eight rounds are enough. *)
Fixpoint v6_loop (fuel : nat) (s : chars) (ip : list Z) (ellipsis : option nat) :
    option (chars * list Z * option nat) :=
  match fuel with
  | O => Some (s, ip, ellipsis)
  | S fuel =>
      match hex_field 0 0 s with
      | None => None
      | Some (O, _, _) => None
      | Some (_, acc, rest) =>
          match rest with
          | "."%char :: _ =>
              if bool_decide (ellipsis = None) && negb (bool_decide (length ip = 12%nat)) then None
              else if bool_decide (12 < length ip)%nat then None
              else v4 ← parse_v4_fields s; Some ([], ip ++ v4, ellipsis)
          | [] => Some ([], ip ++ [acc / 256; acc mod 256], ellipsis)
          | ":"%char :: [] => None
          | ":"%char :: ":"%char :: rest =>
              let ip := ip ++ [acc / 256; acc mod 256] in
              match ellipsis with
              | Some _ => None
              | None =>
                  match rest with
                  | [] => Some ([], ip, Some (length ip))
                  | _ => v6_loop fuel rest ip (Some (length ip))
                  end
              end
          | ":"%char :: rest => v6_loop fuel rest (ip ++ [acc / 256; acc mod 256]) ellipsis
          | _ => None
          end
      end
  end.

Definition parse_v6 (s : chars) : option (list Z) :=
  let '(s, e0) := match s with
    | ":"%char :: ":"%char :: rest => (rest, Some 0%nat)
    | _ => (s, None)
    end in
  if bool_decide (s = []) && bool_decide (e0 = Some 0%nat) then Some (replicate 16%nat 0)
  else match v6_loop 8%nat s [] e0 with
  | Some ([], ip, ellipsis) =>
      if bool_decide (length ip < 16)%nat then
        match ellipsis with
        | None => None
        | Some e => Some (take e ip ++ replicate (16 - length ip)%nat 0 ++ drop e ip)
        end
      else match ellipsis with Some _ => None | None => Some ip end
  | _ => None
  end.

(** The first ['.'], [':'] or ['%'] decides the family; [net.ParseIP] refuses
    zones, so a ['%'] always fails. *)
Definition ParseIP (s : chars) : option (list Z) :=
  if contains_char "%"%char s then None
  else match list_find (λ c, c = "."%char ∨ c = ":"%char) s with
  | Some (_, "."%char) => v4_mapped <$> parse_v4_fields s
  | Some (_, _) => parse_v6 s
  | None => None
  end.

Definition To4 (ip : list Z) : option (list Z) :=
  if decide (take 12%nat ip = replicate 10%nat 0 ++ [255; 255]) then Some (drop 12%nat ip)
  else None.

Definition IsLoopback (ip : list Z) : bool :=
  match To4 ip with
  | Some (a :: _) => a =? 127
  | Some [] => false
  | None => bool_decide (ip = replicate 15%nat 0 ++ [1])
  end.

(** [IPNet.Contains]: addresses of the other family are never contained. *)
Definition net_contains (net : list Z) (bits : nat) (ip : list Z) : bool :=
  let ip := default ip (To4 ip) in
  bool_decide (length ip = length net) &&
  (let to_Z := foldl (λ acc b, acc * 256 + b) 0 in
   let shift := Z.of_nat (8 * length net) - Z.of_nat bits in
   Z.shiftr (to_Z ip) shift =? Z.shiftr (to_Z net) shift).

(** ** Text *)

Definition hex_char (d : Z) : ascii :=
  ascii_of_nat (Z.to_nat (if d <? 10 then 48 + d else 87 + d)).

(** Lower-case hexadecimal without leading zeros (["0"] for zero). *)
Fixpoint hex_chars (fuel : nat) (z : Z) (acc : chars) : chars :=
  match fuel with
  | O => acc
  | S fuel =>
      let acc := hex_char (z mod 16) :: acc in
      if z / 16 =? 0 then acc else hex_chars fuel (z / 16) acc
  end.

Definition hex_string (z : Z) : string := String.string_of_list_ascii (hex_chars 4%nat z []).

(** Two hexadecimal digits per byte, as [%x] prints a byte slice. *)
Definition hex_bytes (bs : list Z) : string :=
  String.string_of_list_ascii (b ← bs; [hex_char (b / 16); hex_char (b mod 16)]).

(** [IP.String] of an address whose last ten bytes are zero: the longest run of
    zero groups is the one at the end, written [::]. *)
Definition prefix48_string (ip : list Z) : string :=
  let group i := nth (2 * i) ip 0 * 256 + nth (2 * i + 1) ip 0 in
  let groups := if group 2%nat =? 0 then
      (if group 1%nat =? 0 then (if group 0%nat =? 0 then [] else [group 0%nat])
       else [group 0%nat; group 1%nat])
    else [group 0%nat; group 1%nat; group 2%nat] in
  String.concat ":" (hex_string <$> groups) +:+ "::".

Definition to_chars : string → chars := String.list_ascii_of_string.

Example split_v4 : SplitHostPort (to_chars "1.2.3.4:9000") = Some (to_chars "1.2.3.4", to_chars "9000").
Proof. reflexivity. Qed.

Example split_v6 : SplitHostPort (to_chars "[2001:db8::1]:9000") = Some (to_chars "2001:db8::1", to_chars "9000").
Proof. reflexivity. Qed.

Example parse_v4_ex : (ParseIP (to_chars "10.0.255.1") ≫= To4) = Some [10; 0; 255; 1].
Proof. reflexivity. Qed.

Example parse_v4_bad : ParseIP (to_chars "10.0.256.1") = None ∧ ParseIP (to_chars "10.01.2.1") = None.
Proof. split; reflexivity. Qed.

Example parse_v6_ex :
  ParseIP (to_chars "2001:db8::ff00:42:8329") =
  Some [32; 1; 13; 184; 0; 0; 0; 0; 0; 0; 255; 0; 0; 66; 131; 41].
Proof. reflexivity. Qed.

Example parse_v6_mapped : (ParseIP (to_chars "::ffff:1.2.3.4") ≫= To4) = Some [1; 2; 3; 4].
Proof. reflexivity. Qed.

Example parse_v6_loopback : (IsLoopback <$> ParseIP (to_chars "::1")) = Some true.
Proof. reflexivity. Qed.

Example prefix48_ex : (prefix48_string <$> ParseIP (to_chars "2001:db8:0:1::")) = Some "2001:db8::"%string.
Proof. reflexivity. Qed.
