(* ===== verification/SubnetLimiter.v ===== *)
(** * Sybil limit per subnet (internal/p2p/subnet_limiter.go)

    [SubnetLimiter] counts the peers it accepted per /24 (IPv4) or /48 (IPv6)
    prefix.  The theorems separate what the counters promise from what the
    table of tracked peers promises: every counter stays between one and the
    limit; as long as no tracked peer is refused in a new subnet the counters
    are exact and no subnet has more than the limit of tracked peers; a peer
    that is refused in a new subnet leaves its old subnet's counter one too
    low, and the limit can then be exceeded. *)

From S2P Require Import Prelude NetAddr BanList.
From stdpp Require Import pretty.
From Stdlib Require Import Ascii.
Local Open Scope Z_scope.
Local Open Scope go_scope.

Definition DefaultMaxPeersPerSubnet : Z := 3.

Record SubnetLimiter := mkSL {
  subnetCounts : gmap string Z;
  peerSubnets : gmap NodeID string;
  maxPerSubnet : Z
}.

Definition NewSubnetLimiter (max : Z) : SubnetLimiter :=
  mkSL ∅ ∅ (if max <=? 0 then DefaultMaxPeersPerSubnet else max).

Definition subnetPrefix (ip : list Z) : string :=
  match To4 ip with
  | Some (a :: b :: c :: _) =>
      pretty a +:+ "." +:+ pretty b +:+ "." +:+ pretty c +:+ ".0/24"
  | _ => prefix48_string ip +:+ "/48"
  end.

Definition private_ranges : list (list Z * nat) := [
  ([10; 0; 0; 0], 8%nat);
  ([172; 16; 0; 0], 12%nat);
  ([192; 168; 0; 0], 16%nat);
  ([252] ++ replicate 15%nat 0, 7%nat);
  ([254; 128] ++ replicate 14%nat 0, 10%nat)
].

Definition isExemptIP (ip : list Z) : bool :=
  IsLoopback ip || existsb (λ r, net_contains r.1 r.2 ip) private_ranges.

(** The part of [Allow] before the lock: the subnet of an address, or [None]
    when the address is exempt or cannot be parsed. *)
Definition limited_subnet (remoteAddr : string) : option string :=
  let addr := to_chars remoteAddr in
  let host := match SplitHostPort addr with Some (host, _) => host | None => addr end in
  if has_suffix (to_chars ".onion") host then None
  else match ParseIP host with
  | None => None
  | Some ip => if isExemptIP ip then None else Some (subnetPrefix ip)
  end.

(** [subnetCounts[subnet]--], removing a counter that reaches zero. *)
Definition decrement (subnet : string) (counts : gmap string Z) : gmap string Z :=
  let counts := <[subnet := counts.[subnet] - 1]> counts in
  if counts.[subnet] <=? 0 then delete subnet counts else counts.

(** The locked part of [Allow]. *)
Definition allow_subnet (subnet : string) (nodeID : NodeID) (sl : SubnetLimiter) :
    SubnetLimiter * bool :=
  let enter (counts : gmap string Z) :=
    if maxPerSubnet sl <=? counts.[subnet] then
      (mkSL counts (peerSubnets sl) (maxPerSubnet sl), false)
    else
      (mkSL (<[subnet := counts.[subnet] + 1]> counts) (<[nodeID := subnet]> (peerSubnets sl))
         (maxPerSubnet sl), true) in
  match peerSubnets sl !! nodeID with
  | Some existing =>
      if decide (existing = subnet) then (sl, true)
      else enter (decrement existing (subnetCounts sl))
  | None => enter (subnetCounts sl)
  end.

Definition Allow (remoteAddr : string) (nodeID : NodeID) (sl : SubnetLimiter) :
    SubnetLimiter * bool :=
  match limited_subnet remoteAddr with
  | None => (sl, true)
  | Some subnet => allow_subnet subnet nodeID sl
  end.

Definition Remove (nodeID : NodeID) (sl : SubnetLimiter) : SubnetLimiter :=
  match peerSubnets sl !! nodeID with
  | None => sl
  | Some subnet =>
      mkSL (decrement subnet (subnetCounts sl)) (delete nodeID (peerSubnets sl)) (maxPerSubnet sl)
  end.

Definition PeerCount (sl : SubnetLimiter) : Z := Z.of_nat (size (peerSubnets sl)).

Inductive sl_op :=
  | SAllow (remoteAddr : string) (nodeID : NodeID)
  | SRemove (nodeID : NodeID).

Definition sl_step (o : sl_op) (sl : SubnetLimiter) : SubnetLimiter :=
  match o with
  | SAllow addr p => (Allow addr p sl).1
  | SRemove p => Remove p sl
  end.

(** ** The counters *)

(** The number of tracked peers of a subnet. *)
Definition tracked (subnet : string) (sl : SubnetLimiter) : Z :=
  Z.of_nat (count_map (λ s, bool_decide (s = subnet)) (peerSubnets sl)).

Definition counters_in_range (sl : SubnetLimiter) : Prop :=
  0 < maxPerSubnet sl ∧
  map_Forall (λ _ c, 1 ≤ c ≤ maxPerSubnet sl) (subnetCounts sl).

Lemma decrement_lookup s s' counts :
  decrement s counts !! s' =
    if decide (s = s') then
      (if counts.[s] - 1 <=? 0 then None else Some (counts.[s] - 1))
    else counts !! s'.
Proof.
  unfold decrement. rewrite zget_insert, decide_True by done.
  destruct (_ <=? 0); rewrite ?lookup_delete, lookup_insert; by case_decide.
Qed.

Lemma decrement_zget s s' counts :
  (decrement s counts).[s'] =
    if decide (s = s') then Z.max 0 (counts.[s] - 1) else counts.[s'].
Proof.
  unfold zget at 1. rewrite decrement_lookup.
  case_decide; [|done]. split_ifs; cbn; lia.
Qed.

Lemma in_range_zget (counts : gmap string Z) m s :
  0 < m → map_Forall (λ _ c, 1 ≤ c ≤ m) counts → 0 ≤ counts.[s] ≤ m.
Proof.
  intros Hm Hall. unfold zget. destruct (counts !! s) as [c|] eqn:Hs; cbn; [|lia].
  specialize (Hall s c Hs). cbn in Hall. lia.
Qed.

Lemma in_range_decrement s counts m :
  0 < m → map_Forall (λ _ c, 1 ≤ c ≤ m) counts →
  map_Forall (λ _ c, 1 ≤ c ≤ m) (decrement s counts).
Proof.
  intros Hm Hall s' c. rewrite decrement_lookup. case_decide.
  - pose proof (in_range_zget counts m s Hm Hall). split_ifs; [done|]. intros [= <-]. lia.
  - apply Hall.
Qed.

Lemma in_range_step o sl : counters_in_range sl → counters_in_range (sl_step o sl).
Proof.
  intros [Hm Hall].
  assert (Hadmit : ∀ subnet (counts : gmap string Z),
    map_Forall (λ _ c, 1 ≤ c ≤ maxPerSubnet sl) counts →
    (maxPerSubnet sl <=? counts.[subnet]) = false →
    map_Forall (λ _ c, 1 ≤ c ≤ maxPerSubnet sl) (<[subnet:=counts.[subnet] + 1]> counts)).
  { intros subnet counts Hc Hlt; zbool. apply map_Forall_insert_2; [|done].
    pose proof (in_range_zget counts (maxPerSubnet sl) subnet Hm Hc). lia. }
  destruct o as [addr p|p]; cbn.
  - unfold Allow, allow_subnet. destruct (limited_subnet addr) as [subnet|]; [|done].
    destruct (peerSubnets sl !! p) as [existing|]; [case_decide; [done|]|];
      (destruct (_ <=? _) eqn:Hle; split; cbn; auto using in_range_decrement).
  - unfold Remove. destruct (peerSubnets sl !! p); [|done].
    split; cbn; auto using in_range_decrement.
Qed.

(** Bounds.  Whatever connections come and go, each counter of a new
    limiter is at least one and never above the configured limit. *)
Theorem subnet_counters_in_range max ops :
  counters_in_range (run sl_step ops (NewSubnetLimiter max)).
Proof.
  apply (run_invariant sl_step _ (λ _, True)); [eauto using in_range_step|by apply Forall_true|].
  split; cbn; [|apply map_Forall_empty].
  split_ifs; [done|lia].
Qed.

(** ** Exact counters *)

(** The counters are exact: each is the number of tracked peers. *)
Definition exact (sl : SubnetLimiter) : Prop := ∀ s, (subnetCounts sl).[s] = tracked s sl.

(** The call does not refuse a tracked peer that moved to another subnet. *)
Definition no_refused_move (sl : SubnetLimiter) (o : sl_op) : Prop :=
  match o with
  | SAllow addr p => is_Some (peerSubnets sl !! p) → (Allow addr p sl).2 = true
  | SRemove _ => True
  end.

Lemma tracked_mk s counts peers m :
  tracked s (mkSL counts peers m) =
  Z.of_nat (count_map (λ s', bool_decide (s' = s)) peers).
Proof. reflexivity. Qed.

Lemma tracked_delete s p old sl :
  peerSubnets sl !! p = Some old →
  tracked s sl = (if decide (old = s) then 1 else 0)
    + Z.of_nat (count_map (λ s', bool_decide (s' = s)) (delete p (peerSubnets sl))).
Proof.
  intros Hp. unfold tracked. rewrite (count_map_delete _ _ _ _ Hp).
  case_decide; [rewrite bool_decide_true by done|rewrite bool_decide_false by done]; lia.
Qed.

Lemma tracked_insert s p s' sl counts m :
  tracked s (mkSL counts (<[p := s']> (peerSubnets sl)) m) =
    (if decide (s' = s) then 1 else 0)
    + Z.of_nat (count_map (λ s', bool_decide (s' = s)) (delete p (peerSubnets sl))).
Proof.
  rewrite tracked_mk, count_map_insert.
  case_decide; [rewrite bool_decide_true by done|rewrite bool_decide_false by done]; lia.
Qed.

Lemma exact_remove p sl : exact sl → exact (Remove p sl).
Proof.
  intros Hex s. unfold Remove. destruct (peerSubnets sl !! p) as [old|] eqn:Hp; [|by apply Hex].
  cbn. rewrite tracked_mk, decrement_zget, !Hex.
  pose proof (tracked_delete old p old sl Hp) as H1. rewrite decide_True in H1 by done.
  pose proof (tracked_delete s p old sl Hp) as H2.
  case_decide; subst; lia.
Qed.

Lemma exact_allow subnet p sl :
  exact sl → (is_Some (peerSubnets sl !! p) → (allow_subnet subnet p sl).2 = true) →
  exact (allow_subnet subnet p sl).1.
Proof.
  intros Hex Hmove s. unfold allow_subnet in *.
  destruct (peerSubnets sl !! p) as [old|] eqn:Hp.
  - specialize (Hmove ltac:(eauto)). case_decide as Hne; [by apply Hex|].
    pose proof (tracked_delete old p old sl Hp) as H1. rewrite decide_True in H1 by done.
    pose proof (tracked_delete s p old sl Hp) as H2.
    destruct (_ <=? _) eqn:Hle; [done|]; cbn.
    rewrite tracked_insert, zget_insert, !decrement_zget, !Hex.
    repeat case_decide; subst; try congruence; lia.
  - destruct (_ <=? _) eqn:Hle; cbn.
    + rewrite Hex. unfold tracked; done.
    + rewrite tracked_insert, zget_insert, !Hex, delete_id by done.
      unfold tracked. repeat case_decide; subst; try done; lia.
Qed.

Lemma exact_step o sl : exact sl → no_refused_move sl o → exact (sl_step o sl).
Proof.
  intros Hex Hok. destruct o as [addr p|p]; cbn in *; [|by apply exact_remove].
  unfold Allow in *. destruct (limited_subnet addr); [|done]. by apply exact_allow.
Qed.

(** A trace in which no tracked peer is refused in a new subnet. *)
Fixpoint no_refused_moves (ops : list sl_op) (sl : SubnetLimiter) : Prop :=
  match ops with
  | [] => True
  | o :: ops => no_refused_move sl o ∧ no_refused_moves ops (sl_step o sl)
  end.

(** Safety.  As long as no tracked peer is refused in another subnet, the
    counters are exact and no subnet ever has more tracked peers than the
    limit. *)
Theorem subnet_limit_enforced max ops s :
  let sl := run sl_step ops (NewSubnetLimiter max) in
  no_refused_moves ops (NewSubnetLimiter max) →
  exact sl ∧ tracked s sl ≤ maxPerSubnet sl.
Proof.
  intros sl Hops.
  assert (Hinv : exact sl ∧ counters_in_range sl).
  { assert (H0 : exact (NewSubnetLimiter max) ∧ counters_in_range (NewSubnetLimiter max)).
    { split; [intros s'; cbn; rewrite zget_empty; by unfold tracked, count_map|].
      split; cbn; [split_ifs; [done|lia]|apply map_Forall_empty]. }
    subst sl. revert Hops H0. generalize (NewSubnetLimiter max).
    induction ops as [|o ops IH]; intros sl Hops [Hex Hr]; [done|].
    destruct Hops as [Ho Hops]. rewrite run_cons.
    apply IH; [done|]. auto using exact_step, in_range_step. }
  destruct Hinv as [Hex [Hm Hall]]. split; [done|].
  rewrite <- Hex. by apply in_range_zget.
Qed.

Lemma subnet_limit_enforced_witness :
  let ops := [SAllow "8.8.8.1:9000" 1%N; SAllow "8.8.8.2:9000" 2%N; SAllow "8.8.9.1:9" 1%N;
              SAllow "8.8.8.3:9000" 3%N; SRemove 2%N; SAllow "8.8.8.4:1" 4%N] in
  let sl := run sl_step ops (NewSubnetLimiter 2) in
  exact sl ∧ tracked "8.8.8.0/24" sl ≤ maxPerSubnet sl.
Proof.
  apply subnet_limit_enforced. vm_compute.
  repeat split; intros [? ?]; discriminate.
Defined.

(** ** The counter after a refused move *)

(** A limiter that allows two peers per subnet, both subnets full. *)
Definition full_subnets : list sl_op :=
  [SAllow "8.8.8.1:9000" 1%N; SAllow "8.8.8.2:9000" 2%N;
   SAllow "9.9.9.1:9000" 3%N; SAllow "9.9.9.2:9000" 4%N].

(** Error.  [Allow] drops the count of a peer's old subnet before it checks
    the new one, and keeps the peer tracked in the old subnet when it refuses
    it: after a peer of a full subnet is refused in another full subnet, a
    third peer is accepted in its old subnet, above the limit of two. *)
Theorem refused_move_breaks_limit :
  let sl := run sl_step (full_subnets ++ [SAllow "9.9.9.3:9000" 1%N]) (NewSubnetLimiter 2) in
  (Allow "9.9.9.3:9000" 1%N (run sl_step full_subnets (NewSubnetLimiter 2))).2 = false ∧
  (Allow "8.8.8.3:9000" 5%N sl).2 = true ∧
  maxPerSubnet sl < tracked "8.8.8.0/24" (Allow "8.8.8.3:9000" 5%N sl).1.
Proof. vm_compute. done. Qed.
