(* ===== verification/Float64.v ===== *)
(** * Go's [float64]

    IEEE 754 binary64 with round-to-nearest-even, through the standard
    library's executable specification ([SpecFloat]).  The lemmas are those the
    clients need: comparison is a total order outside NaN, an addition of
    finite numbers is never NaN, and clamping to [[0, 1]] lands there. *)

From S2P Require Import Prelude.
From Stdlib Require Export SpecFloat.
Local Open Scope Z_scope.

Abbreviation float64 := spec_float (only parsing).

Definition fprec : Z := 53.
Definition femax : Z := 1024.

(** [float64(n)] for an integer [n]. *)
Definition f_of_int (n : Z) : float64 := binary_normalize fprec femax n 0 false.

(** The constant [num / den], correctly rounded. *)
Definition f_const (num den : Z) : float64 :=
  SFdiv fprec femax (f_of_int num) (f_of_int den).

Definition fadd : float64 → float64 → float64 := SFadd fprec femax.
Definition fsub : float64 → float64 → float64 := SFsub fprec femax.
Definition fdiv : float64 → float64 → float64 := SFdiv fprec femax.

Definition f0 : float64 := S754_zero false.
Definition f1 : float64 := Eval vm_compute in f_of_int 1.
Definition fhalf : float64 := Eval vm_compute in f_const 1 2.

Definition f_is_nan (x : float64) : bool := match x with S754_nan => true | _ => false end.

Definition f_is_finite (x : float64) : bool :=
  match x with S754_zero _ | S754_finite _ _ _ => true | _ => false end.

(** ** Comparison *)

Lemma SFcompare_swap x y :
  SFcompare y x = CompOpp <$> SFcompare x y.
Proof.
  assert (Hpos : ∀ p q, Pos.compare_cont Eq q p = CompOpp (Pos.compare_cont Eq p q)).
  { intros p q. apply (Pos.compare_antisym p q). }
  destruct x as [[]|[]| |[] m e], y as [[]|[]| |[] m' e']; cbn; try done;
    f_equal; rewrite (Z.compare_antisym e e'); destruct (e ?= e'); cbn; try done;
    by rewrite Hpos, ?CompOpp_involutive.
Qed.

Lemma SFcompare_None x y : SFcompare x y = None ↔ f_is_nan x = true ∨ f_is_nan y = true.
Proof. destruct x, y; cbn; naive_solver. Qed.

(** Outside NaN, not less is greater or equal. *)
Lemma SFltb_false x y :
  f_is_nan x = false → f_is_nan y = false → SFltb x y = false → SFleb y x = true.
Proof.
  intros Hx Hy. unfold SFltb, SFleb. rewrite (SFcompare_swap x y).
  destruct (SFcompare x y) as [[]|] eqn:Hc; try done.
  apply SFcompare_None in Hc as [?|?]; congruence.
Qed.

Lemma SFltb_SFleb x y : SFltb x y = true → SFleb x y = true.
Proof. unfold SFltb, SFleb. by destruct (SFcompare x y) as [[]|]. Qed.

Lemma SFltb_not_nan x y : SFltb x y = true → f_is_nan x = false ∧ f_is_nan y = false.
Proof. by destruct x, y. Qed.

(** ** Finite sums are numbers *)

Lemma shr_1_nonneg mrs : 0 ≤ shr_m mrs → 0 ≤ shr_m (shr_1 mrs).
Proof. destruct mrs as [[|[]|[]] r s]; cbn; lia. Qed.

Lemma iter_shr_1_nonneg p mrs : 0 ≤ shr_m mrs → 0 ≤ shr_m (iter_pos shr_1 p mrs).
Proof. revert mrs. induction p; intros mrs Hm; cbn; auto using shr_1_nonneg. Qed.

Lemma shr_fexp_nonneg m e l : 0 ≤ m → 0 ≤ shr_m (shr_fexp fprec femax m e l).1.
Proof.
  intros Hm. unfold shr_fexp, shr.
  assert (0 ≤ shr_m (shr_record_of_loc m l)) by (by destruct l as [|[]]).
  destruct (_ - e); cbn; auto using iter_shr_1_nonneg.
Qed.

Lemma binary_round_aux_number s m e l :
  0 ≤ m → f_is_nan (binary_round_aux fprec femax s m e l) = false.
Proof.
  intros Hm. unfold binary_round_aux.
  pose proof (shr_fexp_nonneg m e l Hm) as H1.
  destruct (shr_fexp fprec femax m e l) as [mrs' e']; cbn [fst] in H1.
  set (m' := round_nearest_even _ _).
  assert (H2 : 0 ≤ m').
  { subst m'. destruct (loc_of_shr_record mrs') as [|[]]; cbn; try lia. destruct (Z.even _); lia. }
  pose proof (shr_fexp_nonneg m' e' loc_Exact H2) as H3.
  destruct (shr_fexp fprec femax m' e' loc_Exact) as [mrs'' e'']; cbn [fst] in H3.
  destruct (shr_m mrs''); [done| |lia]. by destruct (_ <=? _).
Qed.

Lemma binary_normalize_number m e s :
  f_is_nan (binary_normalize fprec femax m e s) = false.
Proof.
  destruct m; cbn; [done| |]; unfold binary_round;
    destruct (shl_align _ _ _); by apply binary_round_aux_number.
Qed.

Lemma fadd_number x y :
  f_is_finite x = true → f_is_finite y = true → f_is_nan (fadd x y) = false.
Proof.
  destruct x as [[]| | |], y as [[]| | |]; cbn; try done; intros _ _; apply binary_normalize_number.
Qed.

(** ** Clamping to [[0, 1]]

    [if x > 1.0 { x = 1.0 }; if x < 0.0 { x = 0.0 }] *)

Definition clamp01 (x : float64) : float64 :=
  let x := if SFltb f1 x then f1 else x in
  if SFltb x f0 then f0 else x.

Lemma clamp01_range x :
  f_is_nan x = false → SFleb f0 (clamp01 x) = true ∧ SFleb (clamp01 x) f1 = true.
Proof.
  intros Hx. unfold clamp01. destruct (SFltb f1 x) eqn:H1; [done|].
  destruct (SFltb x f0) eqn:H0; [done|].
  split; by apply SFltb_false.
Qed.

Lemma in_01_finite x : SFleb f0 x = true → SFleb x f1 = true → f_is_finite x = true.
Proof. by destruct x as [|[]| |]. Qed.

(** ** Magnitude of a rounded result

    [shr_fexp] shifts until the mantissa fits in 53 bits, so every rounded
    result has a mantissa below [2^53]; and rounding a positive value below one
    never exceeds one. *)

Definition small (x : float64) : bool :=
  match x with S754_finite _ m _ => Z.pos m <? 2 ^ 53 | _ => true end.

Lemma digits2_pos_size p : digits2_pos p = Pos.size p.
Proof. induction p as [p IH|p IH|]; cbn; by rewrite ?IH. Qed.

Lemma Zdigits2_bounds m :
  0 < m → 1 ≤ Zdigits2 m ∧ 2 ^ (Zdigits2 m - 1) ≤ m < 2 ^ Zdigits2 m.
Proof.
  intros Hm. destruct m as [|p|p]; [lia| |lia]. cbn [Zdigits2]. rewrite digits2_pos_size.
  assert (H1 : (p < 2 ^ Pos.size p)%positive) by apply Pos.size_gt.
  assert (H2 : (2 ^ Pos.size p ≤ p~0)%positive) by apply Pos.size_le.
  assert (E : Z.pos (2 ^ Pos.size p) = 2 ^ Z.pos (Pos.size p)) by apply Pos2Z.inj_pow.
  assert (E' : 2 * 2 ^ (Z.pos (Pos.size p) - 1) = 2 ^ Z.pos (Pos.size p)).
  { rewrite <- Z.pow_succ_r by lia. f_equal. lia. }
  lia.
Qed.

Lemma shr_1_half mrs : 0 ≤ shr_m mrs → shr_m (shr_1 mrs) = shr_m mrs / 2.
Proof.
  destruct mrs as [m r s]; cbn. intros Hm. rewrite <- Z.div2_div.
  destruct m as [|[]|]; cbn; lia.
Qed.

Lemma iter_shr_1_div p mrs :
  0 ≤ shr_m mrs → shr_m (iter_pos shr_1 p mrs) = shr_m mrs / 2 ^ Z.pos p.
Proof.
  revert mrs. induction p as [p IH|p IH|]; intros mrs Hm.
  - cbn [iter_pos]. rewrite IH by (apply iter_shr_1_nonneg, shr_1_nonneg, Hm).
    rewrite IH by (apply shr_1_nonneg, Hm). rewrite shr_1_half by done.
    rewrite !Z.div_div by lia. f_equal.
    replace (Z.pos p~1) with (1 + (Z.pos p + Z.pos p)) by lia. rewrite !Z.pow_add_r by lia. ring.
  - cbn [iter_pos]. rewrite IH by (apply iter_shr_1_nonneg, Hm). rewrite IH by done.
    rewrite !Z.div_div by lia. f_equal. rewrite <- Z.pow_add_r by lia. f_equal. lia.
  - cbn [iter_pos]. by rewrite shr_1_half.
Qed.

(** What [shr_fexp] computes: the exponent becomes [e'], the mantissa is
    divided accordingly. *)
Lemma shr_fexp_div m e l :
  0 ≤ m → let e' := Z.max e (fexp fprec femax (Zdigits2 m + e)) in
  shr_m (shr_fexp fprec femax m e l).1 = m / 2 ^ (e' - e) ∧
  (shr_fexp fprec femax m e l).2 = e'.
Proof.
  intros Hm e'. unfold shr_fexp, shr. subst e'.
  assert (Hr : shr_m (shr_record_of_loc m l) = m) by (by destruct l as [|[]]).
  set (k := fexp fprec femax (Zdigits2 m + e) - e).
  assert (Hk : fexp fprec femax (Zdigits2 m + e) = e + k) by lia. rewrite Hk.
  destruct k as [|p|p]; cbn [fst snd].
  - rewrite Hr, Z.max_l, Z.sub_diag, Z.div_1_r by lia. done.
  - rewrite iter_shr_1_div, Hr by (by rewrite Hr).
    rewrite Z.max_r by lia. split; [|done]. f_equal. f_equal. lia.
  - rewrite Hr, Z.max_l, Z.sub_diag, Z.div_1_r by lia. done.
Qed.

Lemma shr_fexp_small m e l : 0 ≤ m → shr_m (shr_fexp fprec femax m e l).1 < 2 ^ 53.
Proof.
  intros Hm. destruct (shr_fexp_div m e l Hm) as [-> _].
  destruct (decide (m = 0)) as [->|Hm0]; [rewrite Z.div_0_l; lia|].
  destruct (Zdigits2_bounds m ltac:(lia)) as (Hd & _ & Hlt).
  set (k := Z.max e (fexp fprec femax (Zdigits2 m + e)) - e).
  assert (Hk : 0 ≤ k ∧ Zdigits2 m ≤ k + 53) by (unfold k, fexp, fprec; lia).
  apply Z.div_lt_upper_bound; [lia|]. rewrite <- Z.pow_add_r by lia.
  eapply Z.lt_le_trans; [exact Hlt|]. apply Z.pow_le_mono_r; lia.
Qed.

Lemma round_nearest_even_le m l : m ≤ round_nearest_even m l ≤ m + 1.
Proof. destruct l as [|[]]; cbn; try lia. destruct (Z.even m); lia. Qed.

(** A rounded result keeps its sign. *)
Definition has_sign (s : bool) (x : float64) : Prop :=
  match x with
  | S754_zero s' | S754_infinity s' | S754_finite s' _ _ => s' = s
  | S754_nan => False
  end.

Lemma binary_round_sign s m e : has_sign s (binary_round fprec femax s m e).
Proof.
  unfold binary_round. destruct (shl_align _ _ _) as [m2 e2].
  assert (Hn : f_is_nan (binary_round_aux fprec femax s (Z.pos m2) e2 loc_Exact) = false)
    by (by apply binary_round_aux_number).
  revert Hn. unfold binary_round_aux. destruct (shr_fexp _ _ _ _ _) as [a b].
  destruct (shr_fexp _ _ (round_nearest_even _ _) _ _) as [c d].
  destruct (shr_m c); [done| |done]. by destruct (_ <=? _).
Qed.

Lemma binary_round_aux_small s m e l :
  0 ≤ m → small (binary_round_aux fprec femax s m e l) = true.
Proof.
  intros Hm. unfold binary_round_aux.
  pose proof (shr_fexp_nonneg m e l Hm) as H1.
  destruct (shr_fexp fprec femax m e l) as [mrs' e']; cbn [fst] in H1.
  pose proof (round_nearest_even_le (shr_m mrs') (loc_of_shr_record mrs')) as H2.
  set (m' := round_nearest_even _ _) in *.
  pose proof (shr_fexp_small m' e' loc_Exact ltac:(lia)) as H3.
  destruct (shr_fexp fprec femax m' e' loc_Exact) as [mrs'' e'']; cbn [fst] in H3.
  destruct (shr_m mrs''); [done| |done]. destruct (_ <=? _); [|done]. apply Z.ltb_lt, H3.
Qed.

Lemma binary_normalize_small m e s : small (binary_normalize fprec femax m e s) = true.
Proof.
  destruct m; cbn; [done| |]; unfold binary_round;
    destruct (shl_align _ _ _); by apply binary_round_aux_small.
Qed.

Lemma fadd_small x y : small x = true → small y = true → small (fadd x y) = true.
Proof.
  destruct x as [[]|[]| |[]], y as [[]|[]| |[]]; cbn -[Z.pow binary_normalize]; try done;
    intros _ _; apply binary_normalize_small.
Qed.

Lemma fsub_small x y : small x = true → small y = true → small (fsub x y) = true.
Proof.
  destruct x as [[]|[]| |[]], y as [[]|[]| |[]]; cbn -[Z.pow binary_normalize]; try done;
    intros _ _; apply binary_normalize_small.
Qed.

(** The value of an aligned mantissa is that of the original. *)
Lemma shl_align_value m e e' :
  (shl_align m e e').2 = Z.min e e' ∧
  Z.pos (shl_align m e e').1 = Z.pos m * 2 ^ (e - Z.min e e').
Proof.
  unfold shl_align. destruct (e' - e) as [|d|d] eqn:Hd; cbn [fst snd].
  1, 2: rewrite Z.min_l, Z.sub_diag by lia; lia.
  rewrite Z.min_r by lia. split; [done|].
  replace (e - e') with (Z.pos d) by lia. clear Hd.
  induction d as [|d IH] using Pos.peano_ind; [cbn; lia|].
  rewrite Pos.iter_succ, Pos2Z.inj_succ, Z.pow_succ_r by lia. lia.
Qed.

Lemma Zdigits2_le m k : 0 < m → m < 2 ^ k → Zdigits2 m ≤ k.
Proof.
  intros Hm Hk. destruct (Zdigits2_bounds m Hm) as (Hd & Hlo & _).
  destruct (decide (Zdigits2 m ≤ k)); [done|]. exfalso.
  assert (2 ^ k ≤ 2 ^ (Zdigits2 m - 1)) by (apply Z.pow_le_mono_r; lia). lia.
Qed.

Lemma binary_round_aux_le_1 m e :
  0 < m → e ≤ -53 → m < 2 ^ (- e) →
  SFleb (binary_round_aux fprec femax false m e loc_Exact) f1 = true.
Proof.
  intros Hm He Hlt. unfold binary_round_aux.
  pose proof (Zdigits2_le m (- e) Hm Hlt) as Hd.
  destruct (shr_fexp_div m e loc_Exact ltac:(lia)) as [_ He1].
  pose proof (shr_fexp_nonneg m e loc_Exact ltac:(lia)) as Hp1.
  pose proof (shr_fexp_small m e loc_Exact ltac:(lia)) as Hs1.
  destruct (shr_fexp fprec femax m e loc_Exact) as [mrs1 e1]; cbn [fst snd] in *.
  assert (H53 : -1074 ≤ e1 ≤ -53) by (unfold fexp, emin, fprec, femax in He1; lia).
  pose proof (round_nearest_even_le (shr_m mrs1) (loc_of_shr_record mrs1)) as Hr.
  set (m2 := round_nearest_even _ _) in *.
  destruct (shr_fexp_div m2 e1 loc_Exact ltac:(lia)) as [Hm3 He3].
  destruct (shr_fexp fprec femax m2 e1 loc_Exact) as [mrs3 e3]; cbn [fst snd] in *.
  rewrite Hm3. destruct (decide (m2 < 2 ^ 53)) as [Hm2|Hm2].
  - destruct (decide (m2 = 0)) as [->|]; [by rewrite Z.div_0_l by lia|].
    pose proof (Zdigits2_le m2 53 ltac:(lia) Hm2).
    assert (e3 = e1) as -> by (unfold fexp, emin, fprec, femax in He3; lia).
    rewrite <- He3, Z.sub_diag, Z.div_1_r. destruct m2 as [|p|p]; [done| |lia].
    destruct (_ <=? _) eqn:?; [|unfold femax, fprec in *; lia]. unfold SFleb, SFcompare, f1.
    by rewrite (proj2 (Z.compare_lt_iff e1 (-52))) by lia.
  - assert (m2 = 2 ^ 53) as -> by lia. change (Zdigits2 (2 ^ 53)) with 54 in *.
    assert (He31 : e3 = e1 + 1) by (unfold fexp, emin, fprec, femax in He3; lia).
    rewrite <- He3. replace (e3 - e1) with 1 by lia. change (2 ^ 53 / 2 ^ 1) with (2 ^ 52).
    change (2 ^ 52) with (Z.pos 4503599627370496).
    destruct (_ <=? _) eqn:?; [|unfold femax, fprec in *; lia]. unfold SFleb, SFcompare, f1.
    destruct (Z.compare_spec e3 (-52)); [done|done|lia].
Qed.

Lemma binary_normalize_le_1 m e :
  e ≤ 0 → m < 2 ^ (- e) → SFleb (binary_normalize fprec femax m e false) f1 = true.
Proof.
  intros He Hlt. destruct m as [|m|m]; [done| |].
  - cbn [binary_normalize]. unfold binary_round.
    change (Z.pos (digits2_pos m)) with (Zdigits2 (Z.pos m)).
    pose proof (Zdigits2_le (Z.pos m) (- e) ltac:(lia) Hlt).
    set (e' := fexp _ _ _). destruct (shl_align_value m e e') as [H2 H1].
    destruct (shl_align m e e') as [m2 e2]; cbn [fst snd] in *.
    assert (e' ≤ -53) by (unfold e', fexp, emin, fprec, femax; lia).
    apply binary_round_aux_le_1; [lia|lia|]. rewrite H1, H2.
    replace (- Z.min e e') with (- e + (e - Z.min e e')) by lia.
    rewrite Z.pow_add_r by lia. apply Z.mul_lt_mono_pos_r; [lia|done].
  - cbn [binary_normalize]. pose proof (binary_round_sign true m e) as Hs.
    by destruct (binary_round _ _ _ _ _) as [[]|[]| |[]].
Qed.

Lemma SFleb_same_exp m c e :
  SFleb (S754_finite false m e) (S754_finite false c e) = true → Z.pos m ≤ Z.pos c.
Proof.
  unfold SFleb, SFcompare. rewrite Z.compare_refl.
  change (Pos.compare_cont Eq m c) with (m ?= c)%positive.
  destruct (Pos.compare_spec m c); [subst; lia|lia|done].
Qed.

(** A value of [[0, 1]] with a 53-bit mantissa is at most one as a number. *)
Lemma le_1_value m e :
  small (S754_finite false m e) = true → SFleb (S754_finite false m e) f1 = true →
  e ≤ -52 ∧ Z.pos m ≤ 2 ^ (- e).
Proof.
  intros Hs Hle. destruct (Z.compare_spec e (-52)) as [->|He|He].
  - apply SFleb_same_exp in Hle. change (2 ^ (- -52)) with 4503599627370496. lia.
  - split; [lia|]. unfold small in Hs. zbool.
    assert (2 ^ 53 ≤ 2 ^ (- e)) by (apply Z.pow_le_mono_r; lia). lia.
  - unfold SFleb, SFcompare, f1 in Hle. by rewrite (proj2 (Z.compare_gt_iff e (-52))) in Hle by lia.
Qed.

(** Subtracting a positive number from a positive number at most one gives a
    number at most one, rounding included. *)
Lemma fsub_le_1 mx ex m e :
  small (S754_finite false mx ex) = true → SFleb (S754_finite false mx ex) f1 = true →
  SFleb (fsub (S754_finite false mx ex) (S754_finite false m e)) f1 = true.
Proof.
  intros Hs Hle. destruct (le_1_value mx ex Hs Hle) as [He Hm].
  unfold fsub, SFsub, cond_Zopp. set (ez := Z.min ex e).
  destruct (shl_align_value mx ex ez) as [_ H1]. destruct (shl_align_value m e ez) as [_ H2].
  apply binary_normalize_le_1; [lia|].
  enough (Z.pos (shl_align mx ex ez).1 ≤ 2 ^ (- ez)) by lia. rewrite H1.
  replace (Z.min ex ez) with ez by lia.
  replace (- ez) with (- ex + (ex - ez)) by lia. rewrite Z.pow_add_r by lia.
  apply Z.mul_le_mono_nonneg_r; lia.
Qed.

(** A sum of non-negative numbers is not negative. *)
Lemma fadd_nonneg x m e :
  SFleb f0 x = true → SFleb f0 (fadd x (S754_finite false m e)) = true.
Proof.
  destruct x as [[]|[]| |[] mx ex]; try done. intros _.
  unfold fadd, SFadd, cond_Zopp, binary_normalize.
  destruct (_ + _) as [|p|p] eqn:Hp; [done| |lia].
  pose proof (binary_round_sign false p (Z.min ex e)) as Hs.
  by destruct (binary_round _ _ _ _ _) as [[]|[]| |[]].
Qed.
