(* ===== verification/Diversity.v ===== *)
(** * Eclipse prevention (internal/p2p/diversity.go)

    [PeerDiversityEnforcer] counts the peers of the routing table per region
    and per /16 subnet and refuses a peer that would give one region or subnet
    too large a share.  The shares are [float64]. *)

From S2P Require Import Prelude Float64.
Local Open Scope Z_scope.
Local Open Scope go_scope.

Record PeerDiversityEnforcer := mkPDE {
  regionCounts : gmap string Z;
  pde_subnetCounts : gmap string Z;
  totalPeers : Z;
  maxRegionShare : float64;
  maxSubnetShare : float64;
  minRegions : Z
}.

Definition NewPeerDiversityEnforcer : PeerDiversityEnforcer :=
  mkPDE ∅ ∅ 0 (f_const 1 2) (f_const 3 10) 2.

Definition NewPeerDiversityEnforcerWithConfig (regionShare subnetShare : float64) (minR : Z) :
    PeerDiversityEnforcer :=
  let pde := NewPeerDiversityEnforcer in
  mkPDE (regionCounts pde) (pde_subnetCounts pde) (totalPeers pde) regionShare subnetShare minR.

(** [float64(count)/float64(total) > max] *)
Definition share_exceeds (count total : Z) (max : float64) : bool :=
  SFltb max (fdiv (f_of_int count) (f_of_int total)).

Definition AllowPeer (region subnet : string) (pde : PeerDiversityEnforcer) : bool :=
  if totalPeers pde <? 4 then true
  else
    let newTotal := totalPeers pde + 1 in
    if negb (bool_decide (region = "")) && negb (bool_decide (region = "Unknown")) &&
       share_exceeds ((regionCounts pde).[region] + 1) newTotal (maxRegionShare pde)
    then false
    else if negb (bool_decide (subnet = "")) &&
       share_exceeds ((pde_subnetCounts pde).[subnet] + 1) newTotal (maxSubnetShare pde)
    then false
    else true.

(** [if key != "" { counts[key]++ }] *)
Definition count_up (key : string) (counts : gmap string Z) : gmap string Z :=
  if decide (key = "") then counts else <[key := counts.[key] + 1]> counts.

(** [if key != "" { counts[key]--; if counts[key] <= 0 { delete(counts, key) } }] *)
Definition count_down (key : string) (counts : gmap string Z) : gmap string Z :=
  if decide (key = "") then counts
  else
    let counts := <[key := counts.[key] - 1]> counts in
    if counts.[key] <=? 0 then delete key counts else counts.

Definition RecordPeer (region subnet : string) (pde : PeerDiversityEnforcer) :
    PeerDiversityEnforcer :=
  mkPDE (count_up region (regionCounts pde)) (count_up subnet (pde_subnetCounts pde))
    (totalPeers pde + 1) (maxRegionShare pde) (maxSubnetShare pde) (minRegions pde).

Definition RemovePeer (region subnet : string) (pde : PeerDiversityEnforcer) :
    PeerDiversityEnforcer :=
  let total := totalPeers pde - 1 in
  mkPDE (count_down region (regionCounts pde)) (count_down subnet (pde_subnetCounts pde))
    (if total <? 0 then 0 else total) (maxRegionShare pde) (maxSubnetShare pde) (minRegions pde).

Definition RegionCount (pde : PeerDiversityEnforcer) : Z :=
  Z.of_nat (size (regionCounts pde)).

Definition NeedsDiversity (pde : PeerDiversityEnforcer) : bool :=
  (RegionCount pde <? minRegions pde) && (0 <? totalPeers pde).

(** ** Counting *)

Lemma count_up_zget key k counts :
  (count_up key counts).[k] =
    counts.[k] + (if decide (key = k ∧ key ≠ "") then 1 else 0).
Proof.
  unfold count_up. repeat case_decide; try naive_solver lia.
  - rewrite zget_insert, decide_True by naive_solver. naive_solver.
  - rewrite zget_insert, decide_False by naive_solver. lia.
Qed.

Lemma count_down_zget key k counts :
  (count_down key counts).[k] =
    if decide (key = k ∧ key ≠ "") then Z.max 0 (counts.[k] - 1) else counts.[k].
Proof.
  unfold count_down. destruct (decide (key = "")) as [->|Hne].
  - rewrite decide_False by naive_solver. done.
  - rewrite (zget_insert counts key key), decide_True by done.
    destruct (decide (key = k ∧ key ≠ "")) as [[-> _]|Hk];
      destruct (_ <=? 0) eqn:Hle; zbool; rewrite ?zget_delete, ?zget_insert;
      repeat case_decide; try naive_solver; lia.
Qed.

(** ** The shares on tables of up to 64 peers *)

(** The floating-point tests against the default shares are the exact
    comparisons. *)
Definition share_exact (total count : Z) : bool :=
  Bool.eqb (share_exceeds count total (f_const 1 2)) (total <? 2 * count) &&
  Bool.eqb (share_exceeds count total (f_const 3 10)) (3 * total <? 10 * count).

Lemma forallb_seqZ (f : Z → bool) n x :
  forallb f (seqZ 1 n) = true → 1 ≤ x ≤ n → f x = true.
Proof.
  rewrite forallb_forall. intros H Hx. apply H.
  rewrite <- list_elem_of_In, elem_of_seqZ. lia.
Qed.

Lemma shares_exact_64 :
  forallb (λ total, forallb (share_exact total) (seqZ 1 total)) (seqZ 1 64) = true.
Proof. vm_compute. reflexivity. Qed.

Lemma shares_exact count total :
  1 ≤ count ≤ total → total ≤ 64 →
  share_exceeds count total (f_const 1 2) = (total <? 2 * count) ∧
  share_exceeds count total (f_const 3 10) = (3 * total <? 10 * count).
Proof.
  intros Hc Ht.
  pose proof (forallb_seqZ _ _ total shares_exact_64 ltac:(lia)) as H; cbn beta in H.
  apply (forallb_seqZ _ _ count) in H; [|lia].
  apply andb_true_iff in H as [H1%eqb_prop H2%eqb_prop]. exact (conj H1 H2).
Qed.

(** The default thresholds. *)
Definition default_shares (pde : PeerDiversityEnforcer) : Prop :=
  maxRegionShare pde = f_const 1 2 ∧ maxSubnetShare pde = f_const 3 10.

Lemma two_checks (b1 b2 : bool) (P1 P2 : Prop) :
  (b1 = false ↔ P1) → (b2 = false ↔ P2) →
  (if b1 then false else if b2 then false else true) = true ↔ P1 ∧ P2.
Proof. destruct b1, b2; naive_solver. Qed.

Lemma negb_andb_false (P Q : Prop) `{Decision P, Decision Q} :
  negb (bool_decide P) && negb (bool_decide Q) = false ↔ P ∨ Q.
Proof. repeat case_bool_decide; naive_solver. Qed.

(** Functional.  With the default thresholds and a table of four to
    sixty-three peers, [AllowPeer] accepts a peer exactly when recording it
    leaves its (known) region with at most half of the peers and its subnet
    with at most three tenths of them. *)
Theorem AllowPeer_shares region subnet pde :
  default_shares pde →
  4 ≤ totalPeers pde < 64 →
  0 ≤ (regionCounts pde).[region] ≤ totalPeers pde →
  0 ≤ (pde_subnetCounts pde).[subnet] ≤ totalPeers pde →
  let pde' := RecordPeer region subnet pde in
  AllowPeer region subnet pde = true ↔
    (region ≠ "" → region ≠ "Unknown" → 2 * (regionCounts pde').[region] ≤ totalPeers pde') ∧
    (subnet ≠ "" → 10 * (pde_subnetCounts pde').[subnet] ≤ 3 * totalPeers pde').
Proof.
  intros [Hr Hs] Htot Hrc Hsc pde'. unfold AllowPeer. rewrite Hr, Hs.
  replace (totalPeers pde <? 4) with false by (symmetry; apply Z.ltb_ge; lia).
  destruct (shares_exact ((regionCounts pde).[region] + 1) (totalPeers pde + 1)) as [-> _]; [lia..|].
  destruct (shares_exact ((pde_subnetCounts pde).[subnet] + 1) (totalPeers pde + 1)) as [_ ->]; [lia..|].
  clear Hr Hs. subst pde'. cbn [RecordPeer regionCounts pde_subnetCounts totalPeers].
  rewrite !count_up_zget. apply two_checks.
  - rewrite andb_false_iff, negb_andb_false, Z.ltb_ge.
    destruct (decide (region = "")); [naive_solver|].
    destruct (decide (region = "Unknown")); [naive_solver|].
    rewrite decide_True by done. split; [intros [[?|?]|?]; done|auto].
  - rewrite andb_false_iff, negb_false_iff, bool_decide_eq_true, Z.ltb_ge.
    destruct (decide (subnet = "")); [naive_solver|].
    rewrite decide_True by done. split; [intros [?|?]; done|auto].
Qed.

Lemma AllowPeer_shares_witness :
  let pde := RecordPeer "Asia" "" (RecordPeer "Africa" "" (RecordPeer "Europe" "1.2.0.0/16"
               (RecordPeer "Europe" "9.9.0.0/16" NewPeerDiversityEnforcer))) in
  let pde' := RecordPeer "Europe" "1.2.0.0/16" pde in
  AllowPeer "Europe" "1.2.0.0/16" pde = true ↔
    ("Europe" ≠ "" → "Europe" ≠ "Unknown" →
       2 * (regionCounts pde').["Europe"] ≤ totalPeers pde') ∧
    ("1.2.0.0/16" ≠ "" → 10 * (pde_subnetCounts pde').["1.2.0.0/16"] ≤ 3 * totalPeers pde').
Proof.
  apply AllowPeer_shares; [split; reflexivity|..]; vm_compute; split; first [discriminate|reflexivity].
Defined.
