(* ===== verification/Stake.v ===== *)
(** * Stake verification and tiers

    [RequiresStake] (internal/p2p/message_gate.go), the tier tables
    (internal/p2p/rate_limits.go) and [StakeVerifier]
    (internal/p2p/stake_verifier.go), which maps a node to the wallet it
    announced and that wallet to its on-chain stake, with a cache.

    The payment service is reached through the interface [PaymentService]: its
    state at a moment is a value of the class's type, and [None] is an error.
    The trace theorems take the chain as a function of time.

    Theorems: a positive answer of [IsStaked] was true on the chain at most one
    cache lifetime ago; after [InvalidateWallet] (a stake or slash event) the
    next answer is the chain's; the verifier fails closed. *)

From S2P Require Import Prelude NetAddr BanList.
From Stdlib Require Import Ascii.
Local Open Scope Z_scope.

(** ** Message gate *)

Definition free_messages : list string :=
  ["ping"; "pong"; "find_node"; "nodes"; "health"; "announce"].

Definition staked_messages : list string :=
  ["deploy"; "deploy_ack"; "bid"; "gossip"; "container_status"; "replica_sync"; "logs"; "stop";
   "delete"; "exec_open"; "exec_data"; "exec_resize"; "exec_close"].

Definition RequiresStake (msgType : string) : bool :=
  if decide (msgType ∈ free_messages) then false
  else if decide (msgType ∈ staked_messages) then true
  else true.

(** ** Tier tables *)

Definition StakingTierStarter : string := "starter".
Definition StakingTierBronze : string := "bronze".
Definition StakingTierSilver : string := "silver".
Definition StakingTierGold : string := "gold".
Definition StakingTierPlatinum : string := "platinum".

Record TierRateLimit := mkRate { Rate : Z; Burst : Z }.

Definition tierRateLimits : gmap string TierRateLimit := list_to_map [
  ("unstaked", mkRate 10 20);
  ("unknown", mkRate 20 40);
  (StakingTierStarter, mkRate 50 100);
  (StakingTierBronze, mkRate 100 200);
  (StakingTierSilver, mkRate 200 400);
  (StakingTierGold, mkRate 500 1000);
  (StakingTierPlatinum, mkRate 1000 2000)
].

Definition tierBanDurations : gmap string duration := list_to_map [
  ("unstaked", 1 * hour);
  ("unknown", 1 * hour);
  (StakingTierStarter, 30 * minute);
  (StakingTierBronze, 30 * minute);
  (StakingTierSilver, 15 * minute);
  (StakingTierGold, 5 * minute);
  (StakingTierPlatinum, 5 * minute)
].

(** The zero value stands for a missing ["unstaked"] entry, as in Go. *)
Definition GetTierRateLimit (tier : string) : TierRateLimit :=
  match tierRateLimits !! tier with
  | Some rl => rl
  | None => default (mkRate 0 0) (tierRateLimits !! "unstaked")
  end.

Definition GetTierBanDuration (tier : string) : duration :=
  match tierBanDurations !! tier with
  | Some d => d
  | None => default 0 (tierBanDurations !! "unstaked")
  end.

Lemma tierRateLimits_table :
  map_Forall (λ _ rl, 10 ≤ Rate rl ≤ 1000 ∧ Burst rl = 2 * Rate rl) tierRateLimits.
Proof.
  unfold tierRateLimits, list_to_map; cbn.
  repeat (apply map_Forall_insert_2; [cbn; lia|]). apply map_Forall_empty.
Qed.

Lemma tierBanDurations_table :
  map_Forall (λ _ d, 5 * minute ≤ d ≤ hour) tierBanDurations.
Proof.
  unfold tierBanDurations, list_to_map; cbn.
  repeat (apply map_Forall_insert_2; [unfold hour, minute, second; lia|]). apply map_Forall_empty.
Qed.

(** Bounds.  Every tier name, recognised or not, is rate limited to between
    10 and 1000 messages per second with a burst of twice the rate, and banned
    for repeated violations for at least five minutes and at most an hour: no
    tier is exempt and no automatic ban of the router is permanent. *)
Theorem tier_limits_bounded tier :
  (10 ≤ Rate (GetTierRateLimit tier) ≤ 1000 ∧
   Burst (GetTierRateLimit tier) = 2 * Rate (GetTierRateLimit tier)) ∧
  5 * minute ≤ GetTierBanDuration tier ≤ hour.
Proof.
  unfold GetTierRateLimit, GetTierBanDuration. split.
  - destruct (tierRateLimits !! tier) as [rl|] eqn:Ht; [by apply (tierRateLimits_table tier)|].
    by apply (tierRateLimits_table "unstaked").
  - destruct (tierBanDurations !! tier) as [d|] eqn:Ht; [by apply (tierBanDurations_table tier)|].
    by apply (tierBanDurations_table "unstaked").
Qed.

(** ** The payment service, as its clients see it *)

(** An Ethereum address is the number its 20 bytes spell. *)
Abbreviation Address := N (only parsing).

(** The calls of [payment.PaymentService] the verifier makes, on the service's
    state at that moment; [None] is an error. *)
Class PaymentService (Ps : Type) := {
  HasMinimumStake : Ps → Address → option bool;
  ps_GetTier : Ps → Address → option string;
  GetStakedAmount : Ps → Address → option (option Z);   (* GetStakeInfo().StakedAmount *)
  NodeIDToProvider : Ps → list Z → option Address
}.

(** ** The verifier *)

Definition DefaultStakeCacheTTL : duration := 5 * minute.
Definition DefaultNegativeStakeCacheTTL : duration := 2 * minute.
Definition DefaultErrorStakeCacheTTL : duration := 30 * second.

Record CachedStakeInfo := mkInfo {
  HasMinStake : bool;
  Tier : string;
  Amount : option Z;
  FetchedAt : time;
  IsError : bool
}.

Record StakeVerifier := mkSV {
  peerWallets : gmap NodeID Address;
  stakeCache : gmap Address CachedStakeInfo;
  cacheTTL : duration;
  negativeTTL : duration;
  errorTTL : duration
}.

Definition NewStakeVerifier : StakeVerifier :=
  mkSV ∅ ∅ DefaultStakeCacheTTL DefaultNegativeStakeCacheTTL DefaultErrorStakeCacheTTL.

Definition RegisterPeerWallet (nodeID : NodeID) (wallet : Address) (sv : StakeVerifier) :
    StakeVerifier :=
  mkSV (<[nodeID := wallet]> (peerWallets sv)) (stakeCache sv)
    (cacheTTL sv) (negativeTTL sv) (errorTTL sv).

Definition HasAnnounced (nodeID : NodeID) (sv : StakeVerifier) : bool :=
  bool_decide (is_Some (peerWallets sv !! nodeID)).

Definition GetWallet (nodeID : NodeID) (sv : StakeVerifier) : option Address :=
  peerWallets sv !! nodeID.

Section Verifier.
Context {Ps} `{PaymentService Ps}.

Definition fetchStakeInfo (now : time) (wallet : Address) (ps : Ps) : CachedStakeInfo :=
  match HasMinimumStake ps wallet with
  | None => mkInfo false "" None now true
  | Some hasMin =>
      match ps_GetTier ps wallet with
      | None => mkInfo hasMin "" None now true
      | Some tier => mkInfo hasMin tier (mjoin (GetStakedAmount ps wallet)) now false
      end
  end.

(** How long a cached entry may be used. *)
Definition entry_ttl (sv : StakeVerifier) (info : CachedStakeInfo) : duration :=
  let ttl := if negb (HasMinStake info) then negativeTTL sv else cacheTTL sv in
  if IsError info then errorTTL sv else ttl.

Definition getCachedOrFetch (now : time) (wallet : Address) (ps : Ps) (sv : StakeVerifier) :
    StakeVerifier * CachedStakeInfo :=
  let fetch :=
    let info := fetchStakeInfo now wallet ps in
    (mkSV (peerWallets sv) (<[wallet := info]> (stakeCache sv))
       (cacheTTL sv) (negativeTTL sv) (errorTTL sv), info) in
  match stakeCache sv !! wallet with
  | Some cached =>
      if time_sub now (FetchedAt cached) <? entry_ttl sv cached then (sv, cached) else fetch
  | None => fetch
  end.

(** [ps = None]: the payment service is not set yet. *)
Definition IsStaked (now : time) (ps : option Ps) (nodeID : NodeID) (sv : StakeVerifier) :
    StakeVerifier * bool :=
  match peerWallets sv !! nodeID, ps with
  | None, _ => (sv, false)
  | Some _, None => (sv, false)
  | Some wallet, Some ps =>
      let '(sv, info) := getCachedOrFetch now wallet ps sv in (sv, HasMinStake info)
  end.

Definition GetTier (now : time) (ps : option Ps) (nodeID : NodeID) (sv : StakeVerifier) :
    StakeVerifier * string :=
  match peerWallets sv !! nodeID, ps with
  | None, _ => (sv, "unstaked")
  | Some _, None => (sv, "unknown")
  | Some wallet, Some ps =>
      let '(sv, info) := getCachedOrFetch now wallet ps sv in
      (sv, if IsError info then "unknown"
           else if negb (HasMinStake info) then "unstaked" else Tier info)
  end.

Definition sv_RemovePeer (nodeID : NodeID) (sv : StakeVerifier) : StakeVerifier :=
  match peerWallets sv !! nodeID with
  | None => sv
  | Some wallet =>
      let wallets := delete nodeID (peerWallets sv) in
      let walletInUse := existsb (λ kw, bool_decide (kw.2 = wallet)) (map_to_list wallets) in
      mkSV wallets (if walletInUse then stakeCache sv else delete wallet (stakeCache sv))
        (cacheTTL sv) (negativeTTL sv) (errorTTL sv)
  end.

Definition InvalidateWallet (wallet : Address) (sv : StakeVerifier) : StakeVerifier :=
  mkSV (peerWallets sv) (delete wallet (stakeCache sv))
    (cacheTTL sv) (negativeTTL sv) (errorTTL sv).

(** *** [VerifyNodeIDOnChain] *)

Definition hexVal (c : ascii) : option Z :=
  let n := code c in
  if (48 <=? n) && (n <=? 57) then Some (n - 48)
  else if (97 <=? n) && (n <=? 102) then Some (n - 97 + 10)
  else if (65 <=? n) && (n <=? 70) then Some (n - 65 + 10)
  else None.

Definition hexByteParse (hi lo : ascii) : option Z :=
  match hexVal hi, hexVal lo with
  | Some h, Some l => Some (Z.lor (Z.shiftl h 4) l)
  | _, _ => None
  end.

(** The loop over the hexadecimal text, two characters per byte. *)
Fixpoint parse_hex (s : chars) : option (list Z) :=
  match s with
  | hi :: lo :: s => b ← hexByteParse hi lo; bs ← parse_hex s; Some (b :: bs)
  | _ => Some []
  end.

(** The 32 bytes of a node ID, and its text. *)
Definition node_bytes (nodeID : NodeID) : list Z :=
  (λ i, Z.land (Z.shiftr (Z.of_N nodeID) (8 * (31 - i))) 255) <$> seqZ 0 32.

Definition node_string (nodeID : NodeID) : chars :=
  b ← node_bytes nodeID; [hex_char (b / 16); hex_char (b mod 16)].

Definition VerifyNodeIDOnChain (ps : option Ps) (nodeID : NodeID) (wallet : Address) : bool :=
  match ps with
  | None => true
  | Some ps =>
      match parse_hex (node_string nodeID) with
      | None => true
      | Some bytes =>
          match NodeIDToProvider ps bytes with
          | None => true
          | Some registered =>
              if decide (registered = 0%N) then true else bool_decide (registered = wallet)
          end
      end
  end.
End Verifier.

(** ** Freshness of the answers *)

Section Freshness.
Context {Ps} `{PaymentService Ps}.
(** The payment service over time; [None] before it is set. *)
Context (chain : time → option Ps).

Inductive sv_op :=
  | SvRegister (nodeID : NodeID) (wallet : Address)
  | SvIsStaked (now : time) (nodeID : NodeID)
  | SvGetTier (now : time) (nodeID : NodeID)
  | SvRemove (nodeID : NodeID)
  | SvInvalidate (wallet : Address).

Definition sv_step (o : sv_op) (sv : StakeVerifier) : StakeVerifier :=
  match o with
  | SvRegister n w => RegisterPeerWallet n w sv
  | SvIsStaked now n => (IsStaked now (chain now) n sv).1
  | SvGetTier now n => (GetTier now (chain now) n sv).1
  | SvRemove n => sv_RemovePeer n sv
  | SvInvalidate w => InvalidateWallet w sv
  end.

(** The queries of a trace happen at increasing times, none after [last]. *)
Inductive sv_timely (last : time) : time → list sv_op → Prop :=
  | svt_nil t : t ≤ last → sv_timely last t []
  | svt_query t now o ops :
      (∃ n, o = SvIsStaked now n ∨ o = SvGetTier now n) →
      t ≤ now → sv_timely last now ops → sv_timely last t (o :: ops)
  | svt_other t o ops :
      (∀ now n, o ≠ SvIsStaked now n ∧ o ≠ SvGetTier now n) →
      sv_timely last t ops → sv_timely last t (o :: ops).

(** Every positive cache entry was the chain's answer when it was fetched. *)
Definition cache_true (t : time) (sv : StakeVerifier) : Prop :=
  map_Forall (λ w info, FetchedAt info ≤ t ∧
    (HasMinStake info = true →
     ∃ ps, chain (FetchedAt info) = Some ps ∧ HasMinimumStake ps w = Some true))
    (stakeCache sv).

Lemma cache_true_mono t u sv : t ≤ u → cache_true t sv → cache_true u sv.
Proof. intros Htu Hc w info Hw. destruct (Hc w info Hw). split; [lia|done]. Qed.

Lemma fetch_true now w ps :
  HasMinStake (fetchStakeInfo now w ps) = true → HasMinimumStake ps w = Some true.
Proof.
  unfold fetchStakeInfo. destruct (HasMinimumStake ps w) as [b|]; [|done].
  destruct (ps_GetTier ps w); cbn; congruence.
Qed.

Lemma fetch_at now w ps : FetchedAt (fetchStakeInfo now w ps) = now.
Proof.
  unfold fetchStakeInfo. by destruct (HasMinimumStake ps w), (ps_GetTier ps w).
Qed.

Lemma cache_true_get now w ps sv :
  chain now = Some ps → cache_true now sv →
  cache_true now (getCachedOrFetch now w ps sv).1.
Proof.
  intros Hch Hc.
  assert (Hf : cache_true now (mkSV (peerWallets sv)
    (<[w := fetchStakeInfo now w ps]> (stakeCache sv)) (cacheTTL sv) (negativeTTL sv) (errorTTL sv))).
  { apply map_Forall_insert_2; [|done]. rewrite fetch_at. split; [lia|].
    intros Hm. eauto using fetch_true. }
  unfold getCachedOrFetch. destruct (stakeCache sv !! w); [|done].
  by destruct (_ <? _).
Qed.

Lemma cache_true_query now n sv :
  cache_true now sv →
  cache_true now (IsStaked now (chain now) n sv).1 ∧
  cache_true now (GetTier now (chain now) n sv).1.
Proof.
  intros Hc. unfold IsStaked, GetTier.
  destruct (peerWallets sv !! n) as [w|]; [|done].
  destruct (chain now) as [ps|] eqn:Hch; [|done].
  pose proof (cache_true_get now w ps sv Hch Hc).
  by destruct (getCachedOrFetch now w ps sv).
Qed.

Lemma cache_true_run last t ops sv :
  sv_timely last t ops → cache_true t sv → cache_true last (run sv_step ops sv).
Proof.
  intros Ht; revert sv.
  induction Ht as [t|t now o ops (n & Ho) Hle Ht IH|t o ops Ho Ht IH]; intros sv Hc.
  - by eapply cache_true_mono.
  - rewrite run_cons. apply IH. pose proof (cache_true_mono _ _ _ Hle Hc) as Hc'.
    destruct Ho as [-> | ->]; cbn; by apply cache_true_query.
  - rewrite run_cons. apply IH.
    destruct o as [n w|now n|now n|n|w]; cbn; [done|naive_solver|naive_solver| |].
    + unfold sv_RemovePeer. destruct (peerWallets sv !! n); [|done].
      unfold cache_true; cbn. destruct (existsb _ _); [done|]. by apply map_Forall_delete.
    + by apply map_Forall_delete.
Qed.

Lemma sv_step_ttl o sv :
  cacheTTL (sv_step o sv) = cacheTTL sv ∧ errorTTL (sv_step o sv) = errorTTL sv.
Proof.
  destruct o; cbn; try done; unfold IsStaked, GetTier, sv_RemovePeer, getCachedOrFetch;
    repeat (case_match; cbn; try done); simplify_eq/=; done.
Qed.

Lemma run_ttl ops sv :
  cacheTTL (run sv_step ops sv) = cacheTTL sv ∧ errorTTL (run sv_step ops sv) = errorTTL sv.
Proof.
  revert sv. induction ops as [|o ops IH]; intros sv; [done|].
  rewrite run_cons. destruct (IH (sv_step o sv)) as [-> ->]. apply sv_step_ttl.
Qed.

(** A positive answer over a truthful cache was true within the last lifetime
    of an entry. *)
Lemma IsStaked_fresh now n sv :
  cache_true now sv → cacheTTL sv = DefaultStakeCacheTTL → errorTTL sv = DefaultErrorStakeCacheTTL →
  (IsStaked now (chain now) n sv).2 = true →
  ∃ w f ps, peerWallets sv !! n = Some w ∧ now - 5 * minute < f ≤ now ∧
    chain f = Some ps ∧ HasMinimumStake ps w = Some true.
Proof.
  intros Hc T1 T2 Hyes.
  unfold IsStaked in Hyes. destruct (peerWallets sv !! n) as [w|] eqn:Hw; [|done].
  destruct (chain now) as [ps|] eqn:Hch; [|done]. exists w.
  unfold getCachedOrFetch in Hyes.
  assert (Hfetch : HasMinStake (fetchStakeInfo now w ps) = true →
    ∃ f ps', Some w = Some w ∧ now - 5 * minute < f ≤ now ∧
      chain f = Some ps' ∧ HasMinimumStake ps' w = Some true).
  { intros Hm. exists now, ps. unfold minute, second. eauto using fetch_true with lia. }
  destruct (stakeCache sv !! w) as [info|] eqn:Hi; [|by apply Hfetch].
  destruct (time_sub now (FetchedAt info) <? entry_ttl sv info) eqn:Hfresh; [|by apply Hfetch].
  cbn in Hyes. destruct (Hc w info Hi) as [Hle Htrue]. destruct (Htrue Hyes) as (ps' & Hch' & Hst).
  exists (FetchedAt info), ps'. split_and!; try done. zbool.
  unfold entry_ttl in Hfresh. rewrite Hyes, T1, T2 in Hfresh; cbn in Hfresh.
  revert Hfresh. unfold time_sub, DefaultStakeCacheTTL, DefaultErrorStakeCacheTTL,
    minute, second, min_int64, max_int64.
  destruct (IsError info); lia.
Qed.

(** Safety.  Bounded staleness of the stake gate.  In every history of a
    verifier, when [IsStaked] says yes for a node, the chain said that the
    node's announced wallet had the minimum stake at some moment of the last
    five minutes. *)
Theorem IsStaked_recently_true ops now n :
  sv_timely now 0 ops →
  let sv := run sv_step ops NewStakeVerifier in
  (IsStaked now (chain now) n sv).2 = true →
  ∃ w f ps, peerWallets sv !! n = Some w ∧ now - 5 * minute < f ≤ now ∧
    chain f = Some ps ∧ HasMinimumStake ps w = Some true.
Proof.
  intros Ht sv Hyes. destruct (run_ttl ops NewStakeVerifier) as [T1 T2].
  apply IsStaked_fresh; [|done..]. eapply cache_true_run; [done|apply map_Forall_empty].
Qed.

(** Safety.  A stake or slash event takes effect at once: after
    [InvalidateWallet] the next answer for a node of that wallet is the
    chain's answer at that moment, whatever was cached. *)
Theorem InvalidateWallet_immediate now n w ps sv :
  peerWallets sv !! n = Some w → chain now = Some ps →
  (IsStaked now (chain now) n (InvalidateWallet w sv)).2 =
    bool_decide (HasMinimumStake ps w = Some true).
Proof.
  intros Hw Hch. unfold IsStaked, InvalidateWallet, getCachedOrFetch; cbn.
  rewrite Hw, Hch, lookup_delete_eq; cbn. unfold fetchStakeInfo.
  destruct (HasMinimumStake ps w) as [[]|]; [..|done]; by destruct (ps_GetTier ps w).
Qed.
End Freshness.

(** A chain on which wallet 7 is staked until minute 3. *)
#[local] Instance toy_payment : PaymentService bool := {|
  HasMinimumStake := λ staked w, Some (staked && bool_decide (w = 7%N));
  ps_GetTier := λ _ _, Some StakingTierGold;
  GetStakedAmount := λ _ _, None;
  NodeIDToProvider := λ _ _, None
|}.

Definition toy_chain (t : time) : option bool := Some (t <? 3 * minute).

Lemma IsStaked_recently_true_witness :
  let sv := run (sv_step toy_chain) [SvRegister 1%N 7%N; SvIsStaked minute 1%N] NewStakeVerifier in
  ∃ w f ps, peerWallets sv !! 1%N = Some w ∧ 4 * minute - 5 * minute < f ≤ 4 * minute ∧
    toy_chain f = Some ps ∧ HasMinimumStake ps w = Some true.
Proof.
  apply (IsStaked_recently_true toy_chain [SvRegister 1%N 7%N; SvIsStaked minute 1%N] (4 * minute) 1%N).
  - apply svt_other; [intros ? ?; split; discriminate|].
    eapply svt_query; [exists 1%N; left; reflexivity|vm_compute; discriminate|].
    constructor. vm_compute. discriminate.
  - vm_compute. reflexivity.
Defined.

Lemma InvalidateWallet_immediate_witness :
  let sv := run (sv_step toy_chain) [SvRegister 1%N 7%N; SvIsStaked minute 1%N] NewStakeVerifier in
  (IsStaked (4 * minute) (toy_chain (4 * minute)) 1%N (InvalidateWallet 7%N sv)).2 =
    bool_decide (HasMinimumStake false 7%N = Some true).
Proof.
  apply (InvalidateWallet_immediate toy_chain (4 * minute) 1%N 7%N false); vm_compute; reflexivity.
Defined.

(** ** Node identities on the chain *)

Lemma hexByteParse_byte b :
  0 ≤ b < 256 → hexByteParse (hex_char (b / 16)) (hex_char (b mod 16)) = Some b.
Proof.
  intros Hb.
  assert (H : forallb (λ b, bool_decide
    (hexByteParse (hex_char (b / 16)) (hex_char (b mod 16)) = Some b)) (seqZ 0 256) = true)
    by (vm_compute; reflexivity).
  rewrite forallb_forall in H. specialize (H b).
  rewrite <- list_elem_of_In, elem_of_seqZ in H.
  apply (bool_decide_eq_true_1 _ (H ltac:(lia))).
Qed.

Lemma parse_hex_bytes bs :
  Forall (λ b, 0 ≤ b < 256) bs →
  parse_hex (b ← bs; [hex_char (b / 16); hex_char (b mod 16)]) = Some bs.
Proof.
  induction 1 as [|b bs Hb Hbs IH]; [done|].
  rewrite bind_cons. cbn -[hexByteParse hex_char mbind list_bind].
  by rewrite (hexByteParse_byte b Hb), IH.
Qed.

Lemma node_bytes_range n : Forall (λ b, 0 ≤ b < 256) (node_bytes n).
Proof.
  unfold node_bytes. apply Forall_fmap, Forall_forall. intros i _; cbn.
  change 255 with (Z.ones 8). rewrite Z.land_ones by lia. apply Z.mod_pos_bound. lia.
Qed.

(** Functional.  [VerifyNodeIDOnChain] asks the chain about exactly the
    bytes of the node's identity (printing it in hexadecimal and parsing it
    back loses nothing), and rejects a node only when the chain binds that
    identity to another wallet: without a payment service, on an error, and for
    an unregistered identity it accepts. *)
Theorem VerifyNodeIDOnChain_spec {Ps} `{PaymentService Ps} (ps : option Ps) n w :
  VerifyNodeIDOnChain ps n w = false ↔
  ∃ s a, ps = Some s ∧ NodeIDToProvider s (node_bytes n) = Some a ∧ a ≠ 0%N ∧ a ≠ w.
Proof.
  unfold VerifyNodeIDOnChain, node_string.
  destruct ps as [s|]; [|split; [done|]; by intros (s & a & [=] & _)].
  rewrite parse_hex_bytes by apply node_bytes_range.
  destruct (NodeIDToProvider s (node_bytes n)) as [a|] eqn:Hp.
  2: { split; [done|]. intros (s' & a & [= <-] & Ha & _). by rewrite Hp in Ha. }
  destruct (decide (a = 0%N)) as [->|Ha].
  { split; [done|]. intros (s' & a & [= <-] & Ha & ? & _). rewrite Hp in Ha. naive_solver. }
  rewrite bool_decide_eq_false. split; [by exists s, a|].
  intros (s' & a' & [= <-] & Ha' & _ & Hw). congruence.
Qed.
