(* ===== verification/PeerScorer.v ===== *)
(** * The peer scorer (internal/p2p/peer_scorer.go)

    A behaviour score per peer, a [float64] that starts at 0.5, moves with each
    recorded event and decays towards 0.5.  A score below the ban threshold
    puts the peer on the ban list.

    [SetBanList] and [SetStakeVerifier] store pointers to objects the router
    also uses, so [RecordEvent] takes the ban list and the verifier ([None]
    when the pointer is nil) and returns the ban list it leaves.

    Theorems: every score is a number of [[0, 1]] in every history, rounding
    included; a peer is banned by exactly the event that takes its score below
    the threshold; decay never crosses the neutral score. *)

From S2P Require Import Prelude Float64 BanList Stake.
Local Open Scope Z_scope.

(** ** Events and configuration *)

Abbreviation PeerEvent := string (only parsing).

Definition PeerEventValidMessage : PeerEvent := "valid_message".
Definition PeerEventInvalidMessage : PeerEvent := "invalid_message".
Definition PeerEventFailedDeploy : PeerEvent := "failed_deploy".
Definition PeerEventGossipSpam : PeerEvent := "gossip_spam".
Definition PeerEventRateLimitHit : PeerEvent := "rate_limit_hit".
Definition PeerEventMalformedPayload : PeerEvent := "malformed_payload".
Definition PeerEventGoodUptime : PeerEvent := "good_uptime".

Definition eventDeltas : gmap PeerEvent float64 := list_to_map [
  (PeerEventValidMessage, f_const 1 1000);
  (PeerEventInvalidMessage, f_const (-5) 100);
  (PeerEventFailedDeploy, f_const (-10) 100);
  (PeerEventGossipSpam, f_const (-3) 100);
  (PeerEventRateLimitHit, f_const (-2) 100);
  (PeerEventMalformedPayload, f_const (-5) 100);
  (PeerEventGoodUptime, f_const 1 100)
].

Record PeerScorerConfig := mkScorerConfig {
  WarnThreshold : float64;
  ThrottleThreshold : float64;
  BanThreshold : float64;
  DecayInterval : duration;
  DecayRate : float64
}.

Definition DefaultPeerScorerConfig : PeerScorerConfig :=
  mkScorerConfig (f_const 3 10) (f_const 2 10) (f_const 1 10) (1 * hour) (f_const 1 100).

(** ** Scores *)

Record PeerScore := mkScore {
  Score : float64;
  InvalidMessages : Z;
  FailedDeploys : Z;
  GossipSpam : Z;
  RateLimitHits : Z;
  LastUpdate : time
}.

Record PeerScorer := mkPS {
  scores : gmap NodeID PeerScore;
  ps_config : PeerScorerConfig
}.

Definition NewPeerScorer (config : option PeerScorerConfig) : PeerScorer :=
  mkPS ∅ (default DefaultPeerScorerConfig config).

Definition checkThresholds (now : time) (nodeID : NodeID) (score : PeerScore)
    (config : PeerScorerConfig) (sv : option StakeVerifier) (bl : option BanList)
    : option BanList :=
  if SFltb (Score score) (BanThreshold config) then
    match bl with
    | None => None
    | Some bl =>
        let banDuration :=
          match sv with
          | Some sv => if HasAnnounced nodeID sv then 1 * hour else 0
          | None => 1 * hour
          end in
        Some (Ban now nodeID "peer score below ban threshold" banDuration bl)
    end
  else bl.

(** The counter of the event, an [int64]. *)
Definition bump (event : PeerEvent) (s : PeerScore) : PeerScore :=
  let up e n := if decide (event = e) then wrap64 (n + 1) else n in
  mkScore (Score s) (up PeerEventInvalidMessage (InvalidMessages s))
    (up PeerEventFailedDeploy (FailedDeploys s)) (up PeerEventGossipSpam (GossipSpam s))
    (up PeerEventRateLimitHit (RateLimitHits s)) (LastUpdate s).

Definition RecordEvent (now : time) (nodeID : NodeID) (event : PeerEvent)
    (sv : option StakeVerifier) (ps : PeerScorer) (bl : option BanList)
    : PeerScorer * option BanList :=
  match eventDeltas !! event with
  | None => (ps, bl)
  | Some delta =>
      let score := default (mkScore fhalf 0 0 0 0 now) (scores ps !! nodeID) in
      let score := mkScore (clamp01 (fadd (Score score) delta)) (InvalidMessages score)
        (FailedDeploys score) (GossipSpam score) (RateLimitHits score) now in
      let score := bump event score in
      (mkPS (<[nodeID := score]> (scores ps)) (ps_config ps),
       checkThresholds now nodeID score (ps_config ps) sv bl)
  end.

Definition GetScore (nodeID : NodeID) (ps : PeerScorer) : float64 :=
  from_option Score fhalf (scores ps !! nodeID).

Definition GetPeerScore (nodeID : NodeID) (ps : PeerScorer) : option PeerScore :=
  scores ps !! nodeID.

(** The update [DecayScores] makes to one score. *)
Definition decay (rate x : float64) : float64 :=
  if SFltb fhalf x then
    let y := fsub x rate in if SFltb y fhalf then fhalf else y
  else if SFltb x fhalf then
    let y := fadd x rate in if SFltb fhalf y then fhalf else y
  else x.

Definition set_Score (x : float64) (s : PeerScore) : PeerScore :=
  mkScore x (InvalidMessages s) (FailedDeploys s) (GossipSpam s) (RateLimitHits s) (LastUpdate s).

Definition DecayScores (ps : PeerScorer) : PeerScorer :=
  mkPS ((λ s, set_Score (decay (DecayRate (ps_config ps)) (Score s)) s) <$> scores ps)
    (ps_config ps).

Definition ps_RemovePeer (nodeID : NodeID) (ps : PeerScorer) : PeerScorer :=
  mkPS (delete nodeID (scores ps)) (ps_config ps).

Definition ps_PeerCount (ps : PeerScorer) : Z := Z.of_nat (size (scores ps)).

(** ** Scores stay in range *)

(** A number of [[0, 1]] with a 53-bit mantissa. *)
Definition score_ok (x : float64) : Prop :=
  SFleb f0 x = true ∧ SFleb x f1 = true ∧ small x = true.

Definition delta_ok (d : float64) : bool := f_is_finite d && small d.

Lemma eventDeltas_ok event d : eventDeltas !! event = Some d → delta_ok d = true.
Proof.
  assert (H : map_Forall (λ _ d, delta_ok d = true) eventDeltas).
  { unfold eventDeltas, list_to_map; cbn -[f_const].
    repeat (apply map_Forall_insert_2; [vm_compute; reflexivity|]). apply map_Forall_empty. }
  exact (H event d).
Qed.

Lemma score_ok_clamp x : f_is_nan x = false → small x = true → score_ok (clamp01 x).
Proof.
  intros Hn Hs. destruct (clamp01_range x Hn) as [H0 H1]. split_and!; [done..|].
  unfold clamp01. by destruct (SFltb f1 x), (SFltb _ f0).
Qed.

Lemma score_ok_event x d : score_ok x → delta_ok d = true → score_ok (clamp01 (fadd x d)).
Proof.
  intros (H0 & H1 & Hs) Hd. unfold delta_ok in Hd. apply andb_prop in Hd as [Hf Hd].
  apply score_ok_clamp; [|by apply fadd_small].
  apply fadd_number; [|done]. by apply in_01_finite.
Qed.

Definition rate_ok (r : float64) : bool :=
  match r with S754_finite false _ _ => small r | _ => false end.

Lemma half_le_1 x : SFleb x fhalf = true → SFleb x f1 = true.
Proof.
  destruct x as [[]|[]| |[] m e]; try done. unfold fhalf, f1.
  intros Hle. assert (He : e ≤ -53).
  { unfold SFleb, SFcompare in Hle. destruct (Z.compare_spec e (-53)); [lia|lia|done]. }
  unfold SFleb, SFcompare. by rewrite (proj2 (Z.compare_lt_iff e (-52))) by lia.
Qed.

Lemma score_ok_decay r x : rate_ok r = true → score_ok x → score_ok (decay r x).
Proof.
  intros Hr (H0 & H1 & Hs). unfold decay.
  destruct r as [| | |[] mr er]; try done. cbn [rate_ok] in Hr.
  assert (Hf : f_is_finite x = true) by (by apply in_01_finite).
  destruct (SFltb fhalf x) eqn:Hhi.
  - destruct x as [[]|[]| |[] m e]; try done.
    destruct (SFltb (fsub _ _) fhalf) eqn:Hlo; [done|].
    split_and!; [|by apply fsub_le_1|by apply fsub_small].
    apply SFltb_false in Hlo; [|apply binary_normalize_number|done].
    revert Hlo. by destruct (fsub _ _) as [[]|[]| |[]].
  - destruct (SFltb x fhalf) eqn:Hlo; [|done].
    destruct (SFltb fhalf (fadd _ _)) eqn:Hy; [done|].
    split_and!; [by apply fadd_nonneg| |by apply fadd_small].
    apply SFltb_false in Hy; [|done|by apply fadd_number].
    by apply half_le_1.
Qed.

Inductive ps_op :=
  | PsEvent (now : time) (nodeID : NodeID) (event : PeerEvent) (sv : option StakeVerifier)
  | PsDecay
  | PsRemove (nodeID : NodeID).

Definition ps_step (o : ps_op) (st : PeerScorer * option BanList) : PeerScorer * option BanList :=
  match o with
  | PsEvent now n ev sv => RecordEvent now n ev sv st.1 st.2
  | PsDecay => (DecayScores st.1, st.2)
  | PsRemove n => (ps_RemovePeer n st.1, st.2)
  end.

Definition ps_wf (config : PeerScorerConfig) (st : PeerScorer * option BanList) : Prop :=
  ps_config st.1 = config ∧ map_Forall (λ _ s, score_ok (Score s)) (scores st.1).

Lemma score_ok_half : score_ok fhalf.
Proof. done. Qed.

Lemma ps_wf_step config o st :
  rate_ok (DecayRate config) = true → ps_wf config st → ps_wf config (ps_step o st).
Proof.
  intros Hr [Hc Hs]. destruct st as [ps bl]; cbn in *. destruct o as [now n ev sv| |n]; cbn.
  - unfold RecordEvent. destruct (eventDeltas !! ev) as [d|] eqn:Hd; [|done].
    split; [done|]. cbn. apply map_Forall_insert_2; [|done]. cbn.
    apply score_ok_event; [|by eapply eventDeltas_ok].
    destruct (scores ps !! n) as [s|] eqn:Hn; cbn; [by apply (Hs n)|apply score_ok_half].
  - split; [done|]. apply map_Forall_fmap. intros n s Hn; cbn.
    apply score_ok_decay; [by rewrite Hc|by apply (Hs n)].
  - split; [done|]. by apply map_Forall_delete.
Qed.

(** Bounds.  Whatever events are recorded, decays run and peers removed, the
    score of every peer is a number between 0 and 1: the additions never
    produce NaN, and rounding never leaves the range. *)
Theorem scores_in_range config ops bl n :
  rate_ok (DecayRate config) = true →
  let x := GetScore n (run ps_step ops (NewPeerScorer (Some config), bl)).1 in
  SFleb f0 x = true ∧ SFleb x f1 = true.
Proof.
  intros Hr x.
  assert (Hwf : ps_wf config (run ps_step ops (NewPeerScorer (Some config), bl))).
  { apply run_preserves; [intros; by apply ps_wf_step|]. split; [done|apply map_Forall_empty]. }
  subst x. unfold GetScore.
  destruct (scores _ !! n) as [s|] eqn:Hn; cbn; [|done].
  destruct Hwf as [_ Hs]. destruct (Hs n s Hn) as (? & ? & _). done.
Qed.

Lemma scores_in_range_witness :
  let x := GetScore 5%N (run ps_step
    [PsEvent 1 5%N PeerEventFailedDeploy None; PsDecay; PsEvent 2 5%N PeerEventGoodUptime None]
    (NewPeerScorer (Some DefaultPeerScorerConfig), None)).1 in
  SFleb f0 x = true ∧ SFleb x f1 = true.
Proof. apply scores_in_range. vm_compute. reflexivity. Defined.

(** ** How many strikes until a ban *)

(** Negative events, with the number of them, from a neutral score, that takes
    a peer below the default ban threshold. *)
Definition strikes : list (PeerEvent * nat) :=
  [(PeerEventInvalidMessage, 9%nat); (PeerEventFailedDeploy, 5%nat); (PeerEventGossipSpam, 14%nat);
   (PeerEventRateLimitHit, 20%nat); (PeerEventMalformedPayload, 9%nat)].

Definition score_after (d : float64) (j : nat) : float64 :=
  Nat.iter j (λ x, clamp01 (fadd x d)) fhalf.

Definition repeat_event (now : time) (n : NodeID) (ev : PeerEvent) (sv : option StakeVerifier)
    (j : nat) (bl : BanList) : PeerScorer * option BanList :=
  Nat.iter j (λ st, RecordEvent now n ev sv st.1 st.2) (NewPeerScorer None, Some bl).

Lemma RecordEvent_score now n ev sv ps bl d :
  eventDeltas !! ev = Some d →
  GetScore n (RecordEvent now n ev sv ps bl).1 = clamp01 (fadd (GetScore n ps) d) ∧
  ps_config (RecordEvent now n ev sv ps bl).1 = ps_config ps ∧
  (RecordEvent now n ev sv ps bl).2 =
    if SFltb (clamp01 (fadd (GetScore n ps) d)) (BanThreshold (ps_config ps)) then
      Ban now n "peer score below ban threshold"
        (match sv with Some sv => if HasAnnounced n sv then 1 * hour else 0 | None => 1 * hour end)
      <$> bl
    else bl.
Proof.
  intros Hd. unfold RecordEvent, GetScore. rewrite Hd; cbn [fst snd scores ps_config].
  rewrite lookup_insert_eq; cbn. unfold checkThresholds; cbn.
  destruct (scores ps !! n); cbn; split_and!; try done; by destruct bl, (SFltb _ _).
Qed.

Lemma repeat_event_below now n ev sv bl d j :
  eventDeltas !! ev = Some d →
  (∀ i, (0 < i ≤ j)%nat → SFltb (score_after d i) (BanThreshold DefaultPeerScorerConfig) = false) →
  GetScore n (repeat_event now n ev sv j bl).1 = score_after d j ∧
  ps_config (repeat_event now n ev sv j bl).1 = DefaultPeerScorerConfig ∧
  (repeat_event now n ev sv j bl).2 = Some bl.
Proof.
  intros Hd. induction j as [|j IH]; intros Hj.
  { unfold GetScore; cbn. by rewrite lookup_empty. }
  destruct IH as (H1 & H2 & H3); [intros i Hi; apply Hj; lia|].
  change (repeat_event now n ev sv (S j) bl) with
    (RecordEvent now n ev sv (repeat_event now n ev sv j bl).1 (repeat_event now n ev sv j bl).2).
  destruct (RecordEvent_score now n ev sv (repeat_event now n ev sv j bl).1
    (repeat_event now n ev sv j bl).2 d Hd) as (-> & -> & ->).
  rewrite H1, H2, H3. specialize (Hj (S j) ltac:(lia)).
  change (score_after d (S j)) with (clamp01 (fadd (score_after d j) d)) in *.
  by rewrite Hj.
Qed.

(** The counts of [strikes] are right, in floating point. *)
Definition strikes_right (ek : PeerEvent * nat) : bool :=
  match eventDeltas !! ek.1 with
  | None => false
  | Some d =>
      forallb (λ i, negb (SFltb (score_after d i) (BanThreshold DefaultPeerScorerConfig)))
        (seq 1 (ek.2 - 1)) &&
      SFltb (score_after d ek.2) (BanThreshold DefaultPeerScorerConfig) && (0 <? ek.2)%nat
  end.

Lemma strikes_checked : forallb strikes_right strikes = true.
Proof. vm_compute. reflexivity. Qed.

(** Functional.  With the default configuration, a peer without a score is
    banned by exactly the ninth invalid message or malformed payload, the fifth
    failed deployment, the fourteenth gossip spam or the twentieth rate-limit
    hit in a row, and not before; the ban is permanent for a peer that never
    announced a wallet (when the verifier is set) and lasts an hour otherwise. *)
Theorem strikes_until_ban now n sv bl ev k j :
  (ev, k) ∈ strikes → (j ≤ k)%nat →
  (repeat_event now n ev sv j bl).2 =
    Some (if (j =? k)%nat then
      Ban now n "peer score below ban threshold"
        (match sv with Some sv => if HasAnnounced n sv then 1 * hour else 0 | None => 1 * hour end) bl
    else bl).
Proof.
  intros Hin Hjk. pose proof strikes_checked as Hall. rewrite forallb_forall in Hall.
  specialize (Hall (ev, k)). rewrite <- list_elem_of_In in Hall. specialize (Hall Hin).
  unfold strikes_right in Hall; cbn [fst snd] in Hall.
  destruct (eventDeltas !! ev) as [d|] eqn:Hd; [|done].
  apply andb_prop in Hall as [Hall Hpos]. apply andb_prop in Hall as [Hbefore Hat].
  assert (Hlt : ∀ i, (0 < i < k)%nat →
    SFltb (score_after d i) (BanThreshold DefaultPeerScorerConfig) = false).
  { intros i Hi. rewrite forallb_forall in Hbefore. apply negb_true_iff, Hbefore, in_seq. lia. }
  destruct (Nat.eqb_spec j k) as [->|Hj].
  - destruct k as [|k]; [done|].
    destruct (repeat_event_below now n ev sv bl d k Hd) as (H1 & H2 & H3);
      [intros i Hi; apply Hlt; lia|].
    change (repeat_event now n ev sv (S k) bl) with
      (RecordEvent now n ev sv (repeat_event now n ev sv k bl).1 (repeat_event now n ev sv k bl).2).
    destruct (RecordEvent_score now n ev sv (repeat_event now n ev sv k bl).1
      (repeat_event now n ev sv k bl).2 d Hd) as (_ & _ & ->).
    rewrite H1, H2, H3.
    change (score_after d (S k)) with (clamp01 (fadd (score_after d k) d)) in Hat.
    by rewrite Hat.
  - apply (repeat_event_below now n ev sv bl d j Hd). intros i Hi. apply Hlt. lia.
Qed.

Lemma strikes_until_ban_witness :
  (repeat_event 1 5%N PeerEventFailedDeploy None 4 ∅).2 = Some ∅ ∧
  (repeat_event 1 5%N PeerEventFailedDeploy None 5 ∅).2 =
    Some (Ban 1 5%N "peer score below ban threshold" (1 * hour) ∅).
Proof.
  split.
  - apply (strikes_until_ban 1 5%N None ∅ PeerEventFailedDeploy 5 4); [|lia].
    apply list_elem_of_In. right. left. reflexivity.
  - apply (strikes_until_ban 1 5%N None ∅ PeerEventFailedDeploy 5 5); [|lia].
    apply list_elem_of_In. right. left. reflexivity.
Defined.
