(* ===== verification/Framing.v ===== *)
(** * Message framing (internal/p2p/message_send.go)

    A message travels as a 4-byte big-endian length followed by its bytes.
    [Router.sendLengthPrefixed] and [WriteLengthPrefixed] write a frame,
    [ReadLengthPrefixed] reads one; both sides refuse more than 16 MiB.

    A writer is the bytes it has passed on and the room it has left before it
    fails ([None]: it never does), as io.Writer's contract allows; a reader is
    the bytes that will arrive before the stream ends.

    Theorems: a sequence of frames is read back exactly, in order; a stream cut
    inside a frame is an error, never a shorter message; sizes are bounded. *)

From S2P Require Import Prelude.
Local Open Scope Z_scope.

(** A byte is a number below 256. *)
Abbreviation bytes := (list Z).

Definition is_byte (b : Z) : Prop := 0 ≤ b < 256.

(** ** encoding/binary, io.Writer and io.ReadFull *)

Definition PutUint32 (n : Z) : bytes :=
  [Z.land (Z.shiftr n 24) 255; Z.land (Z.shiftr n 16) 255; Z.land (Z.shiftr n 8) 255; Z.land n 255].

Definition Uint32 (b : bytes) : Z :=
  match b with
  | [b0; b1; b2; b3] =>
      Z.lor (Z.lor b3 (Z.shiftl b2 8)) (Z.lor (Z.shiftl b1 16) (Z.shiftl b0 24))
  | _ => 0
  end.

Record Writer := mkWriter { sent : bytes; room : option nat }.

Definition Write (data : bytes) (w : Writer) : Writer * bool :=
  match room w with
  | None => (mkWriter (sent w ++ data) None, true)
  | Some k =>
      if (length data <=? k)%nat then (mkWriter (sent w ++ data) (Some (k - length data)%nat), true)
      else (mkWriter (sent w ++ take k data) (Some 0%nat), false)
  end.

Inductive FrameError := EOF | ErrUnexpectedEOF | TooLarge (n : Z) | WriteFailed | NilConn.

Definition ReadFull (n : nat) (stream : bytes) : (FrameError + bytes) * bytes :=
  if (n <=? length stream)%nat then (inr (take n stream), drop n stream)
  else match stream with [] => (inl EOF, []) | _ => (inl ErrUnexpectedEOF, []) end.

(** ** Frames *)

Definition maxLengthPrefixedSize : Z := 16 * 1024 * 1024.

Definition WriteLengthPrefixed (data : bytes) (w : Writer) : Writer * option FrameError :=
  if maxLengthPrefixedSize <? len data then (w, Some (TooLarge (len data)))
  else
    let '(w, ok) := Write (PutUint32 (len data)) w in
    if negb ok then (w, Some WriteFailed)
    else
      let '(w, ok) := Write data w in
      if negb ok then (w, Some WriteFailed) else (w, None).

(** The router's own writer, on a connection that may be nil.  A failed
    [SetWriteDeadline] is only logged. *)
Definition sendLengthPrefixed (conn : option Writer) (data : bytes) :
    option Writer * option FrameError :=
  match conn with
  | None => (None, Some NilConn)
  | Some w =>
      if maxLengthPrefixedSize <? len data then (Some w, Some (TooLarge (len data)))
      else
        let '(w, ok) := Write (PutUint32 (len data)) w in
        if negb ok then (Some w, Some WriteFailed)
        else
          let '(w, ok) := Write data w in
          if negb ok then (Some w, Some WriteFailed) else (Some w, None)
  end.

Definition ReadLengthPrefixed (stream : bytes) : (FrameError + bytes) * bytes :=
  match ReadFull 4 stream with
  | (inl e, rest) => (inl e, rest)
  | (inr lengthBuf, rest) =>
      let n := Uint32 lengthBuf in
      if maxLengthPrefixedSize <? n then (inl (TooLarge n), rest)
      else ReadFull (Z.to_nat n) rest
  end.

(** Sending and receiving a sequence of messages. *)
Fixpoint write_all (msgs : list bytes) (w : Writer) : Writer * option FrameError :=
  match msgs with
  | [] => (w, None)
  | m :: msgs =>
      match WriteLengthPrefixed m w with
      | (w, Some e) => (w, Some e)
      | (w, None) => write_all msgs w
      end
  end.

(** Read until the stream ends, the number of frames bounded by its length. *)
Fixpoint read_all (fuel : nat) (stream : bytes) : list bytes * FrameError :=
  match fuel with
  | O => ([], EOF)
  | S fuel =>
      match ReadLengthPrefixed stream with
      | (inl e, _) => ([], e)
      | (inr m, rest) => let '(ms, e) := read_all fuel rest in (m :: ms, e)
      end
  end.

(** ** The length field *)

(** Bit [i] of the byte of [n] at bit [k], put back in its place. *)
Lemma byte_bit n k i :
  0 ≤ k → 0 ≤ i →
  Z.testbit (Z.shiftl (Z.land (Z.shiftr n k) 255) k) i =
    bool_decide (k ≤ i < k + 8) && Z.testbit n i.
Proof.
  intros Hk Hi. rewrite Z.shiftl_spec by lia. change 255 with (Z.ones 8).
  destruct (decide (k ≤ i)).
  - rewrite Z.land_spec, Z.testbit_ones_nonneg, Z.shiftr_spec by lia.
    replace (i - k + k) with i by lia. rewrite andb_comm. f_equal.
    destruct (Z.ltb_spec (i - k) 8); symmetry; [apply bool_decide_true|apply bool_decide_false]; lia.
  - rewrite Z.testbit_neg_r by lia. rewrite bool_decide_false by lia. done.
Qed.

Lemma Uint32_PutUint32 n : 0 ≤ n < 2 ^ 32 → Uint32 (PutUint32 n) = n.
Proof.
  intros Hn. unfold PutUint32, Uint32. apply Z.bits_inj'. intros i Hi.
  rewrite <- (Z.shiftl_0_r (Z.land n 255)). rewrite <- (Z.shiftr_0_r n) at 1.
  rewrite !Z.lor_spec, !byte_bit by lia.
  destruct (decide (i < 32)).
  - repeat case_bool_decide; try lia; cbn; by rewrite ?orb_false_r.
  - assert (Z.testbit n i = false) as ->; [|by rewrite !andb_false_r].
    rewrite <- (Z.mod_small n (2 ^ 32)) by lia. apply Z.mod_pow2_bits_high. lia.
Qed.

Lemma byte_high b i : is_byte b → 8 ≤ i → Z.testbit b i = false.
Proof.
  unfold is_byte. intros Hb Hi. rewrite <- (Z.mod_small b (2 ^ 8)) by lia.
  apply Z.mod_pow2_bits_high. lia.
Qed.

(** Bit [i] of the byte of [x] at bit [k] is bit [i] of [b]. *)
Lemma byte_at b x k :
  is_byte b → 0 ≤ k → (∀ i, 0 ≤ i < 8 → Z.testbit x (i + k) = Z.testbit b i) →
  Z.land (Z.shiftr x k) 255 = b.
Proof.
  intros Hb Hk Hx. apply Z.bits_inj'. intros i Hi. change 255 with (Z.ones 8).
  rewrite Z.land_spec, Z.testbit_ones_nonneg, Z.shiftr_spec by lia.
  destruct (Z.ltb_spec i 8); [rewrite Hx by lia; apply andb_true_r|].
  by rewrite (byte_high b i), andb_false_r by (done || lia).
Qed.

Lemma PutUint32_Uint32 b0 b1 b2 b3 :
  is_byte b0 → is_byte b1 → is_byte b2 → is_byte b3 →
  0 ≤ Uint32 [b0; b1; b2; b3] ∧ PutUint32 (Uint32 [b0; b1; b2; b3]) = [b0; b1; b2; b3].
Proof.
  intros H0 H1 H2 H3. split.
  { unfold is_byte in *. cbn. rewrite !Z.lor_nonneg, !Z.shiftl_nonneg. lia. }
  unfold PutUint32, Uint32. set (x := Z.lor _ _).
  assert (Hx : ∀ i, 0 ≤ i → Z.testbit x i =
    Z.testbit b3 i || Z.testbit b2 (i - 8) || (Z.testbit b1 (i - 16) || Z.testbit b0 (i - 24))).
  { intros i Hi. subst x. by rewrite !Z.lor_spec, !Z.shiftl_spec by lia. }
  clearbody x. rewrite <- (Z.shiftr_0_r x) at 4.
  repeat f_equal; (apply byte_at; [done|lia|]); intros i Hi; rewrite Hx by lia;
    repeat match goal with
    | |- context [Z.testbit ?b ?j] =>
        first [rewrite (Z.testbit_neg_r b j) by lia | rewrite (byte_high b j) by (done || lia)]
    end; rewrite ?orb_false_r; cbn; f_equal; lia.
Qed.

(** ** Round trips *)

Definition frame (m : bytes) : bytes := PutUint32 (len m) ++ m.

Lemma ReadFull_app n b rest : length b = n → ReadFull n (b ++ rest) = (inr b, rest).
Proof.
  intros <-. unfold ReadFull. rewrite length_app.
  rewrite (proj2 (Nat.leb_le _ _)) by lia. by rewrite take_app_length, drop_app_length.
Qed.

Lemma Read_frame m rest :
  len m ≤ maxLengthPrefixedSize → ReadLengthPrefixed (frame m ++ rest) = (inr m, rest).
Proof.
  intros Hm. unfold ReadLengthPrefixed, frame. rewrite <- app_assoc.
  rewrite (ReadFull_app 4 (PutUint32 (len m))) by done.
  rewrite Uint32_PutUint32 by (unfold maxLengthPrefixedSize in *; lia).
  destruct (Z.ltb_spec maxLengthPrefixedSize (len m)); [lia|].
  rewrite Nat2Z.id. by apply ReadFull_app.
Qed.

Lemma WriteLengthPrefixed_ok m s :
  len m ≤ maxLengthPrefixedSize →
  WriteLengthPrefixed m (mkWriter s None) = (mkWriter (s ++ frame m) None, None).
Proof.
  intros Hm. unfold WriteLengthPrefixed, frame.
  destruct (Z.ltb_spec maxLengthPrefixedSize (len m)); [lia|]. cbn. by rewrite <- app_assoc.
Qed.

Lemma write_all_ok msgs s :
  Forall (λ m, len m ≤ maxLengthPrefixedSize) msgs →
  write_all msgs (mkWriter s None) = (mkWriter (s ++ (msgs ≫= frame)) None, None).
Proof.
  intros Hm; revert s. induction Hm as [|m msgs Hm Hms IH]; intros s.
  { cbn. by rewrite app_nil_r. }
  cbn [write_all]. rewrite WriteLengthPrefixed_ok by done.
  rewrite IH. by rewrite bind_cons, app_assoc.
Qed.

Lemma frame_length m : length (frame m) = (4 + length m)%nat.
Proof. unfold frame. by rewrite length_app. Qed.

Lemma read_all_frames fuel msgs :
  Forall (λ m, len m ≤ maxLengthPrefixedSize) msgs →
  (length (msgs ≫= frame) < fuel)%nat →
  read_all fuel (msgs ≫= frame) = (msgs, EOF).
Proof.
  intros Hm; revert fuel. induction Hm as [|m msgs Hm Hms IH]; intros [|fuel] Hf; try (cbn in *; lia).
  { done. }
  rewrite bind_cons in *. rewrite length_app, frame_length in Hf.
  cbn [read_all]. rewrite Read_frame by done. by rewrite IH by lia.
Qed.

(** C17: roundtrip.  Whatever messages of at most 16 MiB are written to a
    connection, the reader gets exactly those messages in that order, and then
    a clean end of stream. *)
Theorem framing_roundtrip msgs :
  Forall (λ m, len m ≤ maxLengthPrefixedSize) msgs →
  let '(w, err) := write_all msgs (mkWriter [] None) in
  err = None ∧ read_all (S (length (sent w))) (sent w) = (msgs, EOF).
Proof.
  intros Hm. rewrite write_all_ok by done. split; [done|]. apply read_all_frames; [done|cbn; lia].
Qed.

Lemma framing_roundtrip_witness :
  let '(w, err) := write_all [[104; 105]; []; [33]] (mkWriter [] None) in
  err = None ∧ read_all (S (length (sent w))) (sent w) = ([[104; 105]; []; [33]], EOF).
Proof.
  apply (framing_roundtrip [[104; 105]; []; [33]]).
  repeat constructor; vm_compute; discriminate.
Defined.

(** Error.  A stream that stops anywhere inside a frame is reported as an
    error, and so is a frame that announces more than 16 MiB: whatever a reader
    returns as a message is a complete frame of the stream, at most 16 MiB
    long. *)
Theorem ReadLengthPrefixed_sound stream m rest :
  Forall is_byte stream →
  ReadLengthPrefixed stream = (inr m, rest) ↔
  stream = frame m ++ rest ∧ len m ≤ maxLengthPrefixedSize.
Proof.
  intros Hb. split; [|intros [-> Hm]; by apply Read_frame].
  unfold ReadLengthPrefixed, ReadFull at 1.
  destruct (4 <=? length stream)%nat eqn:H4; [|by destruct stream].
  apply Nat.leb_le in H4. destruct (Z.ltb_spec maxLengthPrefixedSize (Uint32 (take 4 stream))) as [|Hle]; [done|].
  unfold ReadFull. destruct (_ <=? length _)%nat eqn:Hn; [|by destruct (drop 4 stream)].
  apply Nat.leb_le in Hn. intros [= Hm <-].
  destruct stream as [|b0 [|b1 [|b2 [|b3 s]]]]; cbn in H4; try lia. cbn [take drop] in *.
  rewrite take_0 in *. rewrite drop_0 in *.
  assert (Hpos : 0 ≤ Uint32 [b0; b1; b2; b3] ∧ PutUint32 (Uint32 [b0; b1; b2; b3]) = [b0; b1; b2; b3]).
  { rewrite !Forall_cons in Hb. apply PutUint32_Uint32; tauto. }
  destruct Hpos as [Hpos Hput].
  assert (Hlen : len m = Uint32 [b0; b1; b2; b3]) by (rewrite <- Hm, length_take; lia).
  split; [|lia]. unfold frame. rewrite Hlen, Hput, <- Hm; cbn. by rewrite take_drop.
Qed.

Lemma ReadLengthPrefixed_sound_witness :
  ReadLengthPrefixed [0; 0; 0; 1; 7; 9] = (inr [7], [9]) ↔
  [0; 0; 0; 1; 7; 9] = frame [7] ++ [9] ∧ len [7] ≤ maxLengthPrefixedSize.
Proof.
  apply (ReadLengthPrefixed_sound [0; 0; 0; 1; 7; 9] [7] [9]).
  repeat constructor; vm_compute; congruence.
Defined.

Lemma write_short m w :
  let '(w', err) := WriteLengthPrefixed m w in
  sent w `prefix_of` sent w' ∧
  (err = None → sent w' = sent w ++ frame m) ∧
  (∀ n, err = Some (TooLarge n) → w' = w ∧ n = len m ∧ maxLengthPrefixedSize < n).
Proof.
  unfold WriteLengthPrefixed, frame. destruct (Z.ltb_spec maxLengthPrefixedSize (len m)).
  { split_and!; [done..|naive_solver]. }
  unfold Write. destruct w as [s [k|]]; cbn [sent room].
  - repeat (case_match; simplify_eq/=); split_and!; try done; rewrite <- ?app_assoc;
      eauto using prefix_app_r.
  - cbn. rewrite <- app_assoc. split_and!; [eauto using prefix_app_r|done..].
Qed.

(** Equivalence.  The router's private writer and the exported one put the
    same bytes on a connection and give the same result; a nil connection is an
    error; a message that is too large puts nothing on the connection. *)
Theorem sendLengthPrefixed_spec conn m :
  sendLengthPrefixed conn m =
    match conn with
    | None => (None, Some NilConn)
    | Some w => let '(w', err) := WriteLengthPrefixed m w in (Some w', err)
    end ∧
  (∀ n, (sendLengthPrefixed conn m).2 = Some (TooLarge n) → (sendLengthPrefixed conn m).1 = conn).
Proof.
  assert (H : sendLengthPrefixed conn m =
    match conn with
    | None => (None, Some NilConn)
    | Some w => let '(w', err) := WriteLengthPrefixed m w in (Some w', err)
    end).
  { unfold sendLengthPrefixed, WriteLengthPrefixed. destruct conn as [w|]; [|done].
    repeat case_match; by simplify_eq. }
  split; [done|]. rewrite H. intros n. destruct conn as [w|]; [|done].
  pose proof (write_short m w) as Hw. destruct (WriteLengthPrefixed m w) as [w' err]; cbn.
  intros ->. destruct Hw as (_ & _ & Hw). by destruct (Hw n) as [-> _].
Qed.
