(* ===== verification/PeerTable.v ===== *)
(** * The router's peer table

    [Router] (internal/p2p/routing.go) with the operations on its table of
    peers: internal/p2p/peer_management.go, internal/p2p/connection_pool.go and
    [Close].  The message pipeline is in [RouterPipeline].

    The router holds pointers to the ban list, the stake verifier, the nonce
    tracker, the scorer and the diversity enforcer; here it holds their states.
    The scorer has pointers of its own to the ban list and the verifier
    ([SetBanList], [SetStakeVerifier] of the scorer): two flags say whether
    they were set.  A loop over a Go map visits it in an unspecified order, so
    such a loop takes the order as an argument.

    Theorems: the table never exceeds its capacity and the diversity counters
    count exactly the peers of the table, in every history of [AddPeer],
    [RemovePeer], evictions and cleanups; the evicted peer is the one
    disconnected for longest, whatever the iteration order. *)

From S2P Require Import Prelude NetAddr BanList NonceTracker Stake Float64 Diversity PeerScorer Framing.
From stdpp Require Import pretty.
From Stdlib Require Import Ascii.
Local Open Scope go_scope.
Local Open Scope Z_scope.

(** ** Data *)

(** The fields of [types.Node] the router reads. *)
Record Node := mkNode {
  ID : NodeID;
  nd_Address : string;
  Port : Z;
  Region : string
}.

Record PeerConnection := mkPeer {
  pc_Node : Node;
  Conn : option Writer;
  Connected : bool;
  LastSeen : time
}.

Record ViolationEntry := mkViolation { Count : Z; FirstViolation : time }.

Definition DefaultMaxPeers : Z := 50.
Definition DefaultConnectionTimeout : duration := 5 * minute.

(** [closed] lists the peers whose connection was closed, latest first. *)
Record Router {L : Type} := mkRouter {
  peers : gmap NodeID PeerConnection;
  maxPeers : Z;
  connectionTimeout : duration;
  peerLimiters : gmap NodeID L;
  banList : option BanList;
  violationCounters : gmap NodeID ViolationEntry;
  stakeVerifier : option StakeVerifier;
  nonceTracker : option NonceTracker;
  peerScorer : option PeerScorer;
  scorer_banList : bool;
  scorer_stakeVerifier : bool;
  diversityEnforcer : option PeerDiversityEnforcer;
  localNode : option NodeID;
  closed : list NodeID
}.
Arguments Router : clear implicits.

(** A new router: every optional part is unset. *)
Definition NewRouterWithConfig {L} (localID : option NodeID) (max : Z) (timeout : duration) : Router L :=
  mkRouter L ∅ max timeout ∅ None ∅ None None None false false None localID [].

Definition NewRouter {L} (localID : option NodeID) : Router L :=
  NewRouterWithConfig localID DefaultMaxPeers DefaultConnectionTimeout.

(** ** Addresses *)

(** [fmt.Sprintf] with [%x:%x:%x::/48] on the first three byte pairs. *)
Definition v6_subnet (ip : list Z) : string :=
  hex_bytes (take 2%nat ip) +:+ ":" +:+ hex_bytes (take 2%nat (drop 2%nat ip)) +:+ ":" +:+
  hex_bytes (take 2%nat (drop 4%nat ip)) +:+ "::/48".

Definition subnetFromAddress (address : string) : string :=
  let a := to_chars address in
  match a with
  | [] => EmptyString
  | _ =>
    let ip :=
      if has_prefix (to_chars "/ip4/") a || has_prefix (to_chars "/ip6/") a then
        match split_on "/"%char a with _ :: _ :: p :: _ => p | _ => a end
      else match SplitHostPort a with Some (host, _) => host | None => a end in
    match ParseIP ip with
    | None => EmptyString
    | Some parsed =>
        match To4 parsed with
        | Some (a :: b :: _) => pretty a +:+ "." +:+ pretty b +:+ ".0.0/16"
        | _ => v6_subnet parsed
        end
    end
  end.

(** [net.JoinHostPort] *)
Definition JoinHostPort (host port : chars) : chars :=
  if contains_char ":"%char host || contains_char "%"%char host
  then ("["%char :: host) ++ to_chars "]:" ++ port else host ++ to_chars ":" ++ port.

(** The loop of [extractTCPAddressFromMultiaddr]: each part but the last is a
    keyword for the part after it. *)
Fixpoint multiaddr_parts (parts : list chars) (ip port : chars) : chars * chars :=
  match parts with
  | key :: (next :: _) as rest =>
      if decide (key = to_chars "ip4" ∨ key = to_chars "ip6") then multiaddr_parts rest next port
      else if decide (key = to_chars "tcp") then multiaddr_parts rest ip next
      else multiaddr_parts rest ip port
  | _ => (ip, port)
  end.

Definition extractTCPAddressFromMultiaddr (addr : chars) : chars :=
  let '(ip, port) := multiaddr_parts (split_on "/"%char addr) [] [] in
  match ip, port with
  | _ :: _, _ :: _ => JoinHostPort ip port
  | _ :: _, [] => JoinHostPort ip (to_chars "9000")
  | [], _ => []
  end.

Definition resolveAddress (node : Node) : chars :=
  let a := to_chars (nd_Address node) in
  match a with
  | [] => []
  | _ =>
    if has_prefix (to_chars "/ip4/") a || has_prefix (to_chars "/ip6/") a then
      extractTCPAddressFromMultiaddr a
    else if contains_char ":"%char a then a
    else if 0 <? Port node then a ++ to_chars (":" +:+ pretty (Port node))
    else a ++ to_chars ":9000"
  end.

(** ** Operations on the table *)

Section Table.
Context {L : Type}.
Implicit Types (r : Router L) (node : Node) (nodeID : NodeID).

Definition set_peers (ps : gmap NodeID PeerConnection) r : Router L :=
  mkRouter L ps (maxPeers r) (connectionTimeout r) (peerLimiters r) (banList r)
    (violationCounters r) (stakeVerifier r) (nonceTracker r) (peerScorer r) (scorer_banList r)
    (scorer_stakeVerifier r) (diversityEnforcer r) (localNode r) (closed r).

Definition set_diversity (d : option PeerDiversityEnforcer) r : Router L :=
  mkRouter L (peers r) (maxPeers r) (connectionTimeout r) (peerLimiters r) (banList r)
    (violationCounters r) (stakeVerifier r) (nonceTracker r) (peerScorer r) (scorer_banList r)
    (scorer_stakeVerifier r) d (localNode r) (closed r).

(** What every removal does for the peer it drops: the diversity enforcer, the
    scorer and the stake verifier forget it and its connection is closed. *)
Definition forget nodeID (peer : PeerConnection) r : Router L :=
  let region := Region (pc_Node peer) in
  let subnet := subnetFromAddress (nd_Address (pc_Node peer)) in
  mkRouter L (peers r) (maxPeers r) (connectionTimeout r) (peerLimiters r) (banList r)
    (violationCounters r) (sv_RemovePeer nodeID <$> stakeVerifier r) (nonceTracker r)
    (ps_RemovePeer nodeID <$> peerScorer r) (scorer_banList r) (scorer_stakeVerifier r)
    (RemovePeer region subnet <$> diversityEnforcer r) (localNode r)
    (match Conn peer with Some _ => nodeID :: closed r | None => closed r end).

(** [delete(r.peers, nodeID)] *)
Definition drop_peer nodeID r : Router L := set_peers (delete nodeID (peers r)) r.

(** The search of [evictOldestIdlePeerLocked]. *)
Definition oldest_step r (best : option (NodeID * time)) nodeID : option (NodeID * time) :=
  match peers r !! nodeID with
  | None => best
  | Some peer =>
      if Connected peer then best
      else match best with
      | None => Some (nodeID, LastSeen peer)
      | Some (_, oldestTime) =>
          if LastSeen peer <? oldestTime then Some (nodeID, LastSeen peer) else best
      end
  end.

Definition evictOldestIdlePeerLocked (order : list NodeID) r : Router L * bool :=
  match foldl (oldest_step r) None order with
  | None => (r, false)
  | Some (oldestID, _) =>
      let r := match peers r !! oldestID with Some peer => forget oldestID peer r | None => r end in
      (drop_peer oldestID r, true)
  end.

Definition AddPeer (now : time) (order : list NodeID) node r : Router L * bool :=
  let subnet := subnetFromAddress (nd_Address node) in
  match peers r !! ID node with
  | Some existing =>
      (set_peers (<[ID node := mkPeer (pc_Node existing) (Conn existing) (Connected existing) now]>
        (peers r)) r, true)
  | None =>
      let allowed :=
        match diversityEnforcer r with
        | Some de => AllowPeer (Region node) subnet de
        | None => true
        end in
      if negb allowed then (r, false)
      else
        let '(r, room) :=
          if maxPeers r <=? Z.of_nat (size (peers r)) then evictOldestIdlePeerLocked order r
          else (r, true) in
        if negb room then (r, false)
        else
          let r := set_diversity (RecordPeer (Region node) subnet <$> diversityEnforcer r) r in
          (set_peers (<[ID node := mkPeer node None false now]> (peers r)) r, true)
  end.

Definition r_RemovePeer nodeID r : Router L :=
  match peers r !! nodeID with
  | Some peer => drop_peer nodeID (forget nodeID peer r)
  | None => r
  end.

(** One iteration of [CleanupStaleConnections]. *)
Definition cleanup_stale_one (now : time) (maxAge : duration) r nodeID : Router L :=
  match peers r !! nodeID with
  | Some peer =>
      if maxAge <? time_sub now (LastSeen peer) then drop_peer nodeID (forget nodeID peer r) else r
  | None => r
  end.

Definition CleanupStaleConnections (now : time) (maxAge : duration) (order : list NodeID) r : Router L :=
  foldl (cleanup_stale_one now maxAge) r order.

(** One iteration of [cleanupIdleConnections]. *)
Definition cleanup_idle_one (now : time) r nodeID : Router L :=
  match peers r !! nodeID with
  | Some peer =>
      if Connected peer && (connectionTimeout r <? time_sub now (LastSeen peer)) then
        match Conn peer with
        | Some _ =>
            let r' := set_peers (<[nodeID := mkPeer (pc_Node peer) None false (LastSeen peer)]> (peers r)) r in
            mkRouter L (peers r') (maxPeers r) (connectionTimeout r) (peerLimiters r) (banList r)
              (violationCounters r) (stakeVerifier r) (nonceTracker r) (peerScorer r) (scorer_banList r)
              (scorer_stakeVerifier r) (diversityEnforcer r) (localNode r) (nodeID :: closed r)
        | None => r
        end
      else r
  | None => r
  end.

Definition cleanupIdleConnections (now : time) (order : list NodeID) r : Router L :=
  foldl (cleanup_idle_one now) r order.

(** Removes the limiters and violation counters of nodes not in the table. *)
Definition CleanupStaleLimiters r : Router L :=
  mkRouter L (peers r) (maxPeers r) (connectionTimeout r)
    (filter (λ kv, is_Some (peers r !! kv.1)) (peerLimiters r)) (banList r)
    (filter (λ kv, is_Some (peers r !! kv.1)) (violationCounters r)) (stakeVerifier r)
    (nonceTracker r) (peerScorer r) (scorer_banList r) (scorer_stakeVerifier r)
    (diversityEnforcer r) (localNode r) (closed r).

Definition close_one r nodeID : Router L :=
  match peers r !! nodeID with Some peer => forget nodeID peer r | None => r end.

Definition Close (order : list NodeID) r : Router L :=
  set_peers ∅ (foldl close_one r order).

Definition GetPeersByRegion (region : string) r : list Node :=
  filter (λ n, Region n = region) (pc_Node <$> (map_to_list (peers r)).*2).

(** [PeerCount] of a router without a DHT. *)
Definition r_PeerCount r : Z := Z.of_nat (size (peers r)).
End Table.

(** ** Counting the table by region and by subnet *)

Definition region_of (p : PeerConnection) : string := Region (pc_Node p).
Definition subnet_of (p : PeerConnection) : string := subnetFromAddress (nd_Address (pc_Node p)).

(** The counters of a map from keys, the empty key not being counted. *)
Definition counts_match (key : PeerConnection → string) (counts : gmap string Z)
    (m : gmap NodeID PeerConnection) : Prop :=
  ∀ k, k ≠ EmptyString → counts.[k] = Z.of_nat (count_map (λ p, bool_decide (key p = k)) m).

Lemma counts_match_add key (counts : gmap string Z) (m : gmap NodeID PeerConnection) id p :
  m !! id = None → counts_match key counts m →
  counts_match key (count_up (key p) counts) (<[id := p]> m).
Proof.
  intros Hid Hm k Hk. rewrite count_up_zget, (Hm k Hk), count_map_insert_fresh by done.
  case_bool_decide as Hkey; [rewrite decide_True by naive_solver|rewrite decide_False by naive_solver]; lia.
Qed.

Lemma counts_match_remove key (counts : gmap string Z) (m : gmap NodeID PeerConnection) id p :
  m !! id = Some p → counts_match key counts m →
  counts_match key (count_down (key p) counts) (delete id m).
Proof.
  intros Hid Hm k Hk. rewrite count_down_zget, (Hm k Hk).
  rewrite (count_map_delete _ m id p Hid).
  case_bool_decide as Hkey; [rewrite decide_True by naive_solver|rewrite decide_False by naive_solver]; lia.
Qed.

Lemma counts_match_update key (counts : gmap string Z) (m : gmap NodeID PeerConnection) id p p' :
  m !! id = Some p → key p' = key p → counts_match key counts m →
  counts_match key counts (<[id := p']> m).
Proof.
  intros Hid Hkey Hm k Hk. rewrite (Hm k Hk), count_map_insert, (count_map_delete _ m id p Hid).
  by rewrite Hkey.
Qed.

Definition div_match (de : PeerDiversityEnforcer) (m : gmap NodeID PeerConnection) : Prop :=
  totalPeers de = Z.of_nat (size m) ∧
  counts_match region_of (regionCounts de) m ∧
  counts_match subnet_of (pde_subnetCounts de) m.

Lemma div_match_add de (m : gmap NodeID PeerConnection) id p :
  m !! id = None → div_match de m →
  div_match (RecordPeer (region_of p) (subnet_of p) de) (<[id := p]> m).
Proof.
  intros Hid (Ht & Hr & Hs). split_and!; cbn; [|by apply counts_match_add..].
  rewrite map_size_insert_None by done. lia.
Qed.

Lemma div_match_remove de (m : gmap NodeID PeerConnection) id p :
  m !! id = Some p → div_match de m →
  div_match (RemovePeer (region_of p) (subnet_of p) de) (delete id m).
Proof.
  intros Hid (Ht & Hr & Hs). split_and!; cbn; [|by apply counts_match_remove..].
  assert (size m ≠ 0%nat) by (intros Hz%map_size_empty_inv; subst; by rewrite lookup_empty in Hid).
  rewrite map_size_delete_Some by eauto. destruct (Z.ltb_spec (totalPeers de - 1) 0); lia.
Qed.

Lemma div_match_update de (m : gmap NodeID PeerConnection) id p p' :
  m !! id = Some p → pc_Node p' = pc_Node p → div_match de m → div_match de (<[id := p']> m).
Proof.
  intros Hid Hn (Ht & Hr & Hs). unfold div_match.
  rewrite map_size_insert_Some by eauto. split_and!; [done| |];
    eapply counts_match_update; eauto; unfold region_of, subnet_of; by rewrite Hn.
Qed.

(** ** The invariant of the table *)

Section Invariant.
Context {L : Type}.
Implicit Types (r : Router L).

(** The counters of the enforcer, when there is one, describe the table. *)
Definition div_exact r : Prop :=
  ∀ de, diversityEnforcer r = Some de → div_match de (peers r).

Lemma div_exact_drop r id p :
  peers r !! id = Some p → div_exact r → div_exact (drop_peer id (forget id p r)).
Proof.
  intros Hid Hex de. cbn. intros Hde. apply fmap_Some in Hde as (de0 & Hde0 & ->).
  apply (div_match_remove de0 (peers r) id p Hid), Hex, Hde0.
Qed.

(** What the search of [evictOldestIdlePeerLocked] finds. *)
Lemma oldest_found r order :
  match foldl (oldest_step r) None order with
  | Some (id, t) => ∃ p, peers r !! id = Some p ∧ Connected p = false ∧ LastSeen p = t ∧
      id ∈ order ∧
      ∀ id' p', id' ∈ order → peers r !! id' = Some p' → Connected p' = false → t ≤ LastSeen p'
  | None => ∀ id' p', id' ∈ order → peers r !! id' = Some p' → Connected p' = true
  end.
Proof.
  induction order as [|id order IH] using rev_ind; cbn.
  { intros ?? Hin. by apply not_elem_of_nil in Hin. }
  assert (Hin : ∀ x, x ∈ order ++ [id] ↔ x ∈ order ∨ x = id).
  { intros x. by rewrite elem_of_app, list_elem_of_singleton. }
  rewrite foldl_snoc.
  unfold oldest_step at 1. destruct (foldl (oldest_step r) None order) as [[b t]|].
  - destruct IH as (p & Hp & Hc & Ht & Hpin & Hmin).
    destruct (peers r !! id) as [q|] eqn:Hq; [destruct (Connected q) eqn:Hcq|].
    2: destruct (Z.ltb_spec (LastSeen q) t).
    2: exists q.
    1, 3, 4: exists p.
    all: split_and!; try done; [apply Hin; auto|]; intros id' p' [Hi| ->]%Hin Hp' Hc';
      [specialize (Hmin id' p' Hi Hp' Hc'); lia|simplify_eq; lia || congruence].
  - destruct (peers r !! id) as [q|] eqn:Hq; [destruct (Connected q) eqn:Hcq|].
    2: exists q; split_and!; try done; [apply Hin; auto|].
    all: intros id' p' [Hi| ->]%Hin Hp'; [specialize (IH id' p' Hi Hp'); congruence|].
    all: simplify_eq; lia || congruence.
Qed.

Definition visits (order : list NodeID) r : Prop := order ≡ₚ (map_to_list (peers r)).*1.

(** The operations on the table, for every order in which the loops may run. *)
Inductive pt_step : Router L → Router L → Prop :=
  | step_add now order node r : visits order r → pt_step r (AddPeer now order node r).1
  | step_remove nodeID r : pt_step r (r_RemovePeer nodeID r)
  | step_stale now maxAge order r : visits order r → pt_step r (CleanupStaleConnections now maxAge order r)
  | step_idle now order r : visits order r → pt_step r (cleanupIdleConnections now order r)
  | step_limiters r : pt_step r (CleanupStaleLimiters r)
  | step_close order r : visits order r → pt_step r (Close order r).

Definition table_ok r : Prop := Z.of_nat (size (peers r)) ≤ maxPeers r ∧ div_exact r.

Lemma table_ok_drop r id p :
  peers r !! id = Some p → table_ok r → table_ok (drop_peer id (forget id p r)).
Proof.
  intros Hid [Hsz Hex]. split; [|by apply div_exact_drop]. cbn.
  rewrite map_size_delete_Some by eauto. lia.
Qed.

Lemma size_drop r id p :
  peers r !! id = Some p →
  Z.of_nat (size (peers (drop_peer id (forget id p r)))) = Z.of_nat (size (peers r)) - 1.
Proof.
  intros Hid. cbn. rewrite map_size_delete_Some by eauto.
  assert (size (peers r) ≠ 0%nat); [|lia].
  intros Hz%map_size_empty_inv. rewrite Hz, lookup_empty in Hid. done.
Qed.

(** A successful eviction drops one peer. *)
Lemma evict_drops order r r' :
  evictOldestIdlePeerLocked order r = (r', true) →
  ∃ id p, peers r !! id = Some p ∧ r' = drop_peer id (forget id p r).
Proof.
  unfold evictOldestIdlePeerLocked. pose proof (oldest_found r order) as Hf.
  destruct (foldl _ _ _) as [[id t]|]; [|done]. destruct Hf as (p & Hp & _).
  rewrite Hp. intros [= <-]. eauto.
Qed.

Lemma table_ok_record r node now :
  peers r !! ID node = None → Z.of_nat (size (peers r)) < maxPeers r → div_exact r →
  let r' := set_diversity (RecordPeer (Region node) (subnetFromAddress (nd_Address node)) <$>
    diversityEnforcer r) r in
  table_ok (set_peers (<[ID node := mkPeer node None false now]> (peers r')) r').
Proof.
  intros Hid Hsz Hex r'. split; cbn.
  - rewrite map_size_insert_None by done. lia.
  - intros de Hde. cbn in *. apply fmap_Some in Hde as (de0 & Hde0 & ->).
    apply (div_match_add de0 (peers r) (ID node) (mkPeer node None false now)); [done|].
    by apply Hex.
Qed.

Lemma table_ok_add now order node r : table_ok r → table_ok (AddPeer now order node r).1.
Proof.
  intros Hok. unfold AddPeer.
  destruct (peers r !! ID node) as [p|] eqn:Hid.
  { destruct Hok as [Hsz Hex]. split; cbn.
    - rewrite map_size_insert_Some by eauto. done.
    - intros de Hde. eapply div_match_update; [done..|by apply Hex]. }
  destruct (match diversityEnforcer r with Some de => _ | None => _ end); cbn [negb]; [|done].
  destruct (Z.leb_spec (maxPeers r) (Z.of_nat (size (peers r)))); cbn [negb].
  2: { apply table_ok_record; [done|lia|apply Hok]. }
  destruct (evictOldestIdlePeerLocked order r) as [r' []] eqn:Hev; cbn [negb].
  2: { unfold evictOldestIdlePeerLocked in Hev. by destruct (foldl _ _ _) as [[]|]; simplify_eq. }
  apply evict_drops in Hev as (id & p & Hp & ->).
  pose proof (size_drop r id p Hp) as Hsize. destruct (table_ok_drop r id p Hp Hok) as [_ Hex].
  apply table_ok_record; [| |done].
  - cbn. rewrite lookup_delete_None. auto.
  - destruct Hok as [Hsz _]. rewrite Hsize. cbn. lia.
Qed.

Lemma foldl_preserves {A} (Inv : Router L → Prop) (f : Router L → A → Router L) l r :
  (∀ r x, Inv r → Inv (f r x)) → Inv r → Inv (foldl f r l).
Proof. intros Hf. revert r. induction l as [|x l IH]; cbn; eauto. Qed.

Lemma table_ok_stale now maxAge r id : table_ok r → table_ok (cleanup_stale_one now maxAge r id).
Proof.
  intros Hok. unfold cleanup_stale_one. destruct (peers r !! id) eqn:Hp; [|done].
  destruct (_ <? _); [by apply table_ok_drop|done].
Qed.

Lemma table_ok_idle now r id : table_ok r → table_ok (cleanup_idle_one now r id).
Proof.
  intros [Hsz Hex]. unfold cleanup_idle_one. destruct (peers r !! id) as [p|] eqn:Hp; [|done].
  destruct (_ && _); [|done]. destruct (Conn p); [|done]. split; cbn.
  - rewrite map_size_insert_Some by eauto. done.
  - intros de Hde. eapply div_match_update; [done..|by apply Hex].
Qed.

(** The loop of [Close] takes the counters down to those of the peers it has
    not visited; it does not touch the table. *)
Lemma close_counts order r m :
  NoDup order → (∀ id, id ∈ order → m !! id = peers r !! id) →
  (∀ de, diversityEnforcer r = Some de → div_match de m) →
  maxPeers (foldl close_one r order) = maxPeers r ∧
  ∀ de, diversityEnforcer (foldl close_one r order) = Some de →
    div_match de (foldl (λ m id, delete id m) m order).
Proof.
  intros Hnd; revert r m. induction Hnd as [|id order Hid Hnd IH]; intros r m Hm Hex; [done|].
  cbn [foldl]. specialize (Hm id ltac:(left)) as Hmid.
  assert (Hrest : ∀ id', id' ∈ order → delete id m !! id' = peers (close_one r id) !! id').
  { intros id' Hin. rewrite lookup_delete_ne by (intros ->; done).
    rewrite (Hm id') by (by right). unfold close_one. by destruct (peers r !! id). }
  destruct (IH (close_one r id) (delete id m) Hrest) as [IH1 IH2].
  - intros de. unfold close_one. destruct (peers r !! id) as [p|] eqn:Hp; cbn.
    + intros (de0 & Hde0 & ->)%fmap_Some. apply div_match_remove; auto.
    + intros Hde. rewrite delete_id; auto.
  - split; [rewrite IH1; unfold close_one; by destruct (peers r !! id)|done].
Qed.

Lemma foldl_delete_lookup {A} (l : list NodeID) (m : gmap NodeID A) k :
  foldl (λ m id, delete id m) m l !! k = if decide (k ∈ l) then None else m !! k.
Proof.
  revert m. induction l as [|x l IH]; intros m; cbn [foldl].
  { rewrite decide_False; [done|]. apply not_elem_of_nil. }
  rewrite IH. destruct (decide (k = x)) as [->|Hne].
  - rewrite lookup_delete_eq. by repeat case_decide; try done; exfalso; set_solver.
  - rewrite lookup_delete_ne by done. repeat case_decide; try done; exfalso; set_solver.
Qed.

Lemma table_ok_close order r : visits order r → 0 ≤ maxPeers r → div_exact r → table_ok (Close order r).
Proof.
  intros Hv Hmax Hex.
  destruct (close_counts order r (peers r)) as [Hm Hd]; [| |done|].
  { rewrite Hv. apply NoDup_fst_map_to_list. }
  { done. }
  split; cbn; [rewrite map_size_empty; lia|].
  intros de Hde. specialize (Hd de Hde).
  enough (foldl (λ m id, delete id m) (peers r) order = ∅) as He by (by rewrite He in Hd).
  apply map_empty. intros k. rewrite foldl_delete_lookup. case_decide as Hk; [done|].
  apply eq_None_not_Some. intros [p Hp]. apply Hk. rewrite Hv, list_elem_of_fmap.
  exists (k, p). split; [done|]. by apply elem_of_map_to_list.
Qed.

Lemma table_ok_step r r' : pt_step r r' → table_ok r → table_ok r'.
Proof.
  intros Hstep Hok. destruct Hstep.
  - by apply table_ok_add.
  - unfold r_RemovePeer. destruct (peers r !! nodeID) eqn:Hp; [by apply table_ok_drop|done].
  - unfold CleanupStaleConnections. apply foldl_preserves; [intros; by apply table_ok_stale|done].
  - unfold cleanupIdleConnections. apply foldl_preserves; [intros; by apply table_ok_idle|done].
  - done.
  - destruct Hok as [Hsz Hex]. apply table_ok_close; [done| |done]. lia.
Qed.

(** A router whose table is empty and whose enforcer, if any, is new. *)
Definition fresh_table r : Prop :=
  peers r = ∅ ∧ 0 ≤ maxPeers r ∧
  ∀ de, diversityEnforcer r = Some de →
    totalPeers de = 0 ∧ regionCounts de = ∅ ∧ pde_subnetCounts de = ∅.

Lemma table_ok_fresh r : fresh_table r → table_ok r.
Proof.
  intros (Hp & Hm & Hd). split; [rewrite Hp, map_size_empty; lia|].
  intros de Hde. destruct (Hd de Hde) as (H1 & H2 & H3). unfold div_match, counts_match.
  rewrite Hp, H1, H2, H3, map_size_empty.
  split_and!; [done|intros k _; by rewrite count_map_empty..].
Qed.

(** C8: invariant.  In every history of additions, removals, evictions, stale and
    idle cleanups and shutdowns, in whatever order the loops visit the table,
    the table holds at most [maxPeers] peers and the diversity enforcer's
    counters are exact: the total is the size of the table, and each region's
    and subnet's counter is the number of peers of the table there. *)
Theorem table_invariant r0 r :
  fresh_table r0 → rtc pt_step r0 r →
  Z.of_nat (size (peers r)) ≤ maxPeers r ∧
  ∀ de, diversityEnforcer r = Some de →
    totalPeers de = Z.of_nat (size (peers r)) ∧
    ∀ k, k ≠ EmptyString →
      (regionCounts de).[k] = Z.of_nat (count_map (λ p, bool_decide (region_of p = k)) (peers r)) ∧
      (pde_subnetCounts de).[k] = Z.of_nat (count_map (λ p, bool_decide (subnet_of p = k)) (peers r)).
Proof.
  intros Hfresh Hrtc. apply table_ok_fresh in Hfresh.
  assert (table_ok r) as [Hsz Hex].
  { induction Hrtc as [|r1 r2 r3 H12 _ IH]; [done|]. eauto using table_ok_step. }
  split; [done|]. intros de Hde. destruct (Hex de Hde) as (Ht & Hr & Hs). auto.
Qed.

(** Functional.  Whatever the iteration order, [evictOldestIdlePeerLocked]
    never evicts a connected peer: it fails exactly when every peer is
    connected, and otherwise drops a disconnected peer seen no later than any
    other disconnected peer, and nothing else. *)
Theorem evict_oldest_idle order r :
  visits order r →
  match evictOldestIdlePeerLocked order r with
  | (r', false) => r' = r ∧ ∀ id p, peers r !! id = Some p → Connected p = true
  | (r', true) => ∃ id p, peers r !! id = Some p ∧ Connected p = false ∧
      peers r' = delete id (peers r) ∧
      ∀ id' p', peers r !! id' = Some p' → Connected p' = false → LastSeen p ≤ LastSeen p'
  end.
Proof.
  intros Hv. assert (Hin : ∀ id p, peers r !! id = Some p → id ∈ order).
  { intros id p Hp. rewrite Hv, list_elem_of_fmap. exists (id, p). split; [done|].
    by apply elem_of_map_to_list. }
  unfold evictOldestIdlePeerLocked. pose proof (oldest_found r order) as Hf.
  destruct (foldl _ _ _) as [[id t]|].
  - destruct Hf as (p & Hp & Hc & Ht & _ & Hmin). rewrite Hp. exists id, p.
    split_and!; [done..|]. intros id' p' Hp' Hc'. rewrite Ht. eauto.
  - split; [done|]. intros id p Hp. eauto.
Qed.
End Invariant.

(** A table of one place with a diversity enforcer, and two peers for it. *)
Definition demo_router : Router unit :=
  set_diversity (Some NewPeerDiversityEnforcer) (NewRouterWithConfig None 1 DefaultConnectionTimeout).
Definition demo_node1 : Node := mkNode 1%N "10.1.2.3:9000" 0 "Europe".
Definition demo_node2 : Node := mkNode 2%N "/ip4/20.1.2.3/tcp/9000" 0 "Asia".
Definition demo_router1 : Router unit := (AddPeer 5 [] demo_node1 demo_router).1.
Definition demo_router2 : Router unit := (AddPeer 7 [1%N] demo_node2 demo_router1).1.

Lemma table_invariant_witness :
  (∃ p, peers demo_router2 = {[ 2%N := p ]} ∧ subnet_of p = "20.1.0.0/16") ∧
  Z.of_nat (size (peers demo_router2)) ≤ maxPeers demo_router2 ∧
  ∀ de, diversityEnforcer demo_router2 = Some de →
    totalPeers de = Z.of_nat (size (peers demo_router2)) ∧
    ∀ k, k ≠ EmptyString →
      (regionCounts de).[k] =
        Z.of_nat (count_map (λ p, bool_decide (region_of p = k)) (peers demo_router2)) ∧
      (pde_subnetCounts de).[k] =
        Z.of_nat (count_map (λ p, bool_decide (subnet_of p = k)) (peers demo_router2)).
Proof.
  split.
  - exists (mkPeer demo_node2 None false 7). split; vm_compute; reflexivity.
  - apply (table_invariant demo_router demo_router2).
    + split_and!; [reflexivity|vm_compute; discriminate|]. intros de [= <-]. split_and!; reflexivity.
    + eapply rtc_l; [apply (step_add 5 [] demo_node1); unfold visits; vm_compute; constructor|].
      eapply rtc_l; [apply (step_add 7 [1%N] demo_node2); unfold visits; vm_compute; reflexivity|].
      apply rtc_refl.
Defined.

Lemma evict_oldest_idle_witness :
  match evictOldestIdlePeerLocked [1%N] demo_router1 with
  | (r', false) => r' = demo_router1 ∧ ∀ id p, peers demo_router1 !! id = Some p → Connected p = true
  | (r', true) => ∃ id p, peers demo_router1 !! id = Some p ∧ Connected p = false ∧
      peers r' = delete id (peers demo_router1) ∧
      ∀ id' p', peers demo_router1 !! id' = Some p' → Connected p' = false → LastSeen p ≤ LastSeen p'
  end.
Proof. apply (evict_oldest_idle [1%N] demo_router1). unfold visits. vm_compute. reflexivity. Defined.
