(* ===== verification/RouterPipeline.v ===== *)
(** * The message pipeline of the router (internal/p2p/routing.go)

    [HandleMessage] takes an inbound message through rate limit, ban check,
    replay check, version check, signature check, stake gate and dispatch, and
    records the outcome with the scorer; [SendMessage] finds and dials the
    peer, completes, signs, frames and writes a message.

    Parameters, for code outside this repository or outside this model: the
    token bucket of golang.org/x/time/rate ([RateLimiter]); the payment service
    at each moment ([chain]); JSON ([marshal_signable], [marshal]); the signer
    ([MessageSigner], instantiated below by the key manager of
    internal/identity/keys.go over ed25519); the handlers, which may change the
    router and may panic.  Each call reads the clock once.  A connection's
    goroutine recovers from a panic (util.SafeGoWithName), so the router lives
    on in the state the panic left, and a panic is a result like the others.

    Theorems: a handler runs only on a message that passed every check, and no
    message is dispatched twice; the third rate-limit violation in five minutes
    bans; when exactly a call panics; what a sent frame decodes to. *)

From S2P Require Import Prelude NetAddr BanList NonceTracker Stake Float64 Diversity PeerScorer Framing PeerTable.
From Stdlib Require Import Ascii.
Local Open Scope Z_scope.

(** ** Data *)

Record Message := mkMsg {
  Type_ : string;
  msg_From : NodeID;
  msg_To : NodeID;
  Payload : bytes;
  Timestamp : time;
  Nonce : N;
  Signature : bytes;
  Version : Z
}.

(** The anonymous struct of [SignableBytes]: the message without its signature. *)
Record Signable := mkSignable {
  s_Type : string;
  s_From : NodeID;
  s_To : NodeID;
  s_Payload : bytes;
  s_Timestamp : time;
  s_Nonce : N;
  s_Version : Z
}.

Definition signable_of (m : Message) : Signable :=
  mkSignable (Type_ m) (msg_From m) (msg_To m) (Payload m) (Timestamp m) (Nonce m) (Version m).

Definition ProtocolVersion : Z := 1.
Definition MinSupportedVersion : Z := 1.

Definition violationWindow : duration := 5 * minute.
Definition violationThreshold : Z := 3.
Definition autoBanDuration : duration := 1 * hour.
Definition DefaultPeerMessageRate : Z := 100.
Definition DefaultPeerMessageBurst : Z := 200.

(** golang.org/x/time/rate *)
Class RateLimiter (L : Type) := {
  NewLimiter : Z → Z → L;
  limiter_Allow : time → L → L * bool
}.

Record MessageSigner := mkSigner {
  Sign : bytes → option bytes;
  Verify : bytes → bytes → bool
}.

Inductive route_error :=
  | RateLimited | SenderBanned | NonceFailed (e : NonceError)
  | VersionUnsupported | VersionOutdated
  | MissingSignature | NoSignableBytes | InvalidSignature
  | StakeRequired | NoHandler.

(** A message is rejected before its handler, or its handler runs and returns
    an error or not, or panics; or the log line of a rejection panics. *)
Inductive handled :=
  | Rejected (e : route_error) | Dispatched (failed : bool) | HandlerPanics | LogPanics.

Definition handler_ran (res : handled) : bool :=
  match res with Dispatched _ | HandlerPanics => true | Rejected _ | LogPanics => false end.

Definition panics (res : handled) : bool :=
  match res with HandlerPanics | LogPanics => true | Dispatched _ | Rejected _ => false end.

(** What a handler does: the router afterwards, and whether it returned an error. *)
Abbreviation handler L := (time → Message → option Node → Router L → Router L * outcome bool).

Inductive send_error :=
  | FindFailed | PeerNotFound | NoAddress | PeerBanned | NoTransport | Unresolvable | DialFailed
  | NonceGeneration | NoSignable | SignFailed | SerializeFailed | FrameFailed (e : FrameError).

Section Pipeline.
Context {L Ps : Type} `{RateLimiter L, PaymentService Ps}.
Context (chain : time → option Ps).
Context (marshal_signable : Signable → option bytes).
Context (marshal : Message → option bytes).
Context (keyManager : option MessageSigner).
Context (handlers : string → option (handler L)).
Implicit Types (r : Router L) (nodeID : NodeID) (msg : Message) (from : option Node).

(** [SignableBytes]; [None] is the nil slice of a failed [json.Marshal]. *)
Definition SignableBytes msg : option bytes := marshal_signable (signable_of msg).

(** ** Setters *)

Definition set_limiters ls r : Router L :=
  mkRouter L (peers r) (maxPeers r) (connectionTimeout r) ls (banList r)
    (violationCounters r) (stakeVerifier r) (nonceTracker r) (peerScorer r) (scorer_banList r)
    (scorer_stakeVerifier r) (diversityEnforcer r) (localNode r) (closed r).

Definition set_banList bl r : Router L :=
  mkRouter L (peers r) (maxPeers r) (connectionTimeout r) (peerLimiters r) bl
    (violationCounters r) (stakeVerifier r) (nonceTracker r) (peerScorer r) (scorer_banList r)
    (scorer_stakeVerifier r) (diversityEnforcer r) (localNode r) (closed r).

Definition set_violations vs r : Router L :=
  mkRouter L (peers r) (maxPeers r) (connectionTimeout r) (peerLimiters r) (banList r)
    vs (stakeVerifier r) (nonceTracker r) (peerScorer r) (scorer_banList r)
    (scorer_stakeVerifier r) (diversityEnforcer r) (localNode r) (closed r).

Definition set_verifier sv r : Router L :=
  mkRouter L (peers r) (maxPeers r) (connectionTimeout r) (peerLimiters r) (banList r)
    (violationCounters r) sv (nonceTracker r) (peerScorer r) (scorer_banList r)
    (scorer_stakeVerifier r) (diversityEnforcer r) (localNode r) (closed r).

Definition set_nonces nt r : Router L :=
  mkRouter L (peers r) (maxPeers r) (connectionTimeout r) (peerLimiters r) (banList r)
    (violationCounters r) (stakeVerifier r) nt (peerScorer r) (scorer_banList r)
    (scorer_stakeVerifier r) (diversityEnforcer r) (localNode r) (closed r).

Definition set_scorer ps r : Router L :=
  mkRouter L (peers r) (maxPeers r) (connectionTimeout r) (peerLimiters r) (banList r)
    (violationCounters r) (stakeVerifier r) (nonceTracker r) ps (scorer_banList r)
    (scorer_stakeVerifier r) (diversityEnforcer r) (localNode r) (closed r).

(** ** Rate limits and violations *)

(** The verifier's tier for a node; the query may fill its cache. *)
Definition tier_of (now : time) nodeID (sv : StakeVerifier) r : Router L * string :=
  let '(sv, tier) := GetTier now (chain now) nodeID sv in
  (set_verifier (Some sv) r, tier).

Definition NewTieredLimiter (tier : string) : L :=
  let rl := GetTierRateLimit tier in NewLimiter (Rate rl) (Burst rl).

Definition getPeerLimiter (now : time) nodeID r : Router L * L :=
  match peerLimiters r !! nodeID with
  | Some limiter => (r, limiter)
  | None =>
      let '(r, limiter) :=
        match stakeVerifier r with
        | Some sv => let '(r, tier) := tier_of now nodeID sv r in (r, NewTieredLimiter tier)
        | None => (r, NewLimiter DefaultPeerMessageRate DefaultPeerMessageBurst)
        end in
      (set_limiters (<[nodeID := limiter]> (peerLimiters r)) r, limiter)
  end.

Definition RefreshPeerLimiter (now : time) nodeID r : Router L :=
  match stakeVerifier r with
  | None => r
  | Some sv =>
      let '(r, tier) := tier_of now nodeID sv r in
      set_limiters (<[nodeID := NewTieredLimiter tier]> (peerLimiters r)) r
  end.

Definition recordViolation (now : time) nodeID r : Router L :=
  match violationCounters r !! nodeID with
  | None => set_violations (<[nodeID := mkViolation 1 now]> (violationCounters r)) r
  | Some entry =>
      if violationWindow <? time_sub now (FirstViolation entry) then
        set_violations (<[nodeID := mkViolation 1 now]> (violationCounters r)) r
      else
        let entry := mkViolation (Count entry + 1) (FirstViolation entry) in
        let r := set_violations (<[nodeID := entry]> (violationCounters r)) r in
        if violationThreshold <=? Count entry then
          let r :=
            match banList r with
            | None => r
            | Some _ =>
                let '(r, banDur) :=
                  match stakeVerifier r with
                  | Some sv => let '(r, tier) := tier_of now nodeID sv r in (r, GetTierBanDuration tier)
                  | None => (r, autoBanDuration)
                  end in
                set_banList (Ban now nodeID "auto-ban: repeated rate limit violations" banDur <$> banList r) r
            end in
          set_violations (delete nodeID (violationCounters r)) r
        else r
  end.

(** [r.peerScorer.RecordEvent] when the scorer is set. *)
Definition score_event (now : time) nodeID (event : string) r : Router L :=
  match peerScorer r with
  | None => r
  | Some ps =>
      let bl := if scorer_banList r then banList r else None in
      let sv := if scorer_stakeVerifier r then stakeVerifier r else None in
      let '(ps, bl) := RecordEvent now nodeID event sv ps bl in
      set_scorer (Some ps) (if scorer_banList r then set_banList bl r else r)
  end.

Definition score_from (now : time) from (event : string) r : Router L :=
  match from with Some n => score_event now (ID n) event r | None => r end.

(** ** [HandleMessage] *)

(** Step 1: the sender's token bucket; a message without sender is not limited. *)
Definition rate_check (now : time) from r : Router L * bool :=
  match from with
  | None => (r, true)
  | Some n =>
      let '(r, limiter) := getPeerLimiter now (ID n) r in
      let '(limiter, ok) := limiter_Allow now limiter in
      (set_limiters (<[ID n := limiter]> (peerLimiters r)) r, ok)
  end.

(** Step 2. *)
Definition sender_banned (now : time) from r : bool :=
  match from, banList r with
  | Some n, Some bl => IsBanned now (ID n) bl
  | _, _ => false
  end.

(** Step 5: [None] when the signature is accepted. *)
Definition signature_error msg : option route_error :=
  match keyManager with
  | None => None
  | Some km =>
      match Signature msg with
      | [] => Some MissingSignature
      | _ =>
          match SignableBytes msg with
          | None => Some NoSignableBytes
          | Some b => if Verify km b (Signature msg) then None else Some InvalidSignature
          end
      end
  end.

(** Step 6: the stake gate, which may fill the verifier's cache. *)
Definition stake_check (now : time) msg from r : Router L * bool :=
  match from, stakeVerifier r with
  | Some n, Some sv =>
      if RequiresStake (Type_ msg) then
        let '(sv, staked) := IsStaked now (chain now) (ID n) sv in
        (set_verifier (Some sv) r, staked)
      else (r, true)
  | _, _ => (r, true)
  end.

(** Steps 7 and 8. *)
Definition dispatch (now : time) msg from r : Router L * handled :=
  match handlers (Type_ msg) with
  | None => (r, Rejected NoHandler)
  | Some handler =>
      match handler now msg from r with
      | (r, Panics) => (r, HandlerPanics)
      | (r, Returns failed) =>
          (score_from now from
             (if failed : bool then PeerEventMalformedPayload else PeerEventValidMessage) r,
           Dispatched failed)
      end
  end.

(** Steps 4 to 8. *)
Definition handle_fresh (now : time) msg from r : Router L * handled :=
  if ProtocolVersion <? Version msg then (r, Rejected VersionUnsupported)
  else if Version msg <? MinSupportedVersion then (r, Rejected VersionOutdated)
  else match signature_error msg with
  | Some NoSignableBytes => (r, Rejected NoSignableBytes)
  | Some e => (score_from now from PeerEventInvalidMessage r, Rejected e)
  | None =>
      let '(r, staked) := stake_check now msg from r in
      if negb staked then (score_from now from PeerEventInvalidMessage r, Rejected StakeRequired)
      else dispatch now msg from r
  end.

(** The log line of a failed replay check reads [from.ID] of a nil sender. *)
Definition HandleMessage (now : time) msg from r : Router L * handled :=
  let '(r, ok) := rate_check now from r in
  if negb ok then
    match from with
    | Some n =>
        (score_event now (ID n) PeerEventRateLimitHit (recordViolation now (ID n) r),
         Rejected RateLimited)
    | None => (r, Rejected RateLimited)
    end
  else if sender_banned now from r then (r, Rejected SenderBanned)
  else
    match nonceTracker r with
    | None => handle_fresh now msg from r
    | Some nt =>
        let '(nt, err) := Check now (Nonce msg) (Timestamp msg) nt in
        let r := set_nonces (Some nt) r in
        match err with
        | None => handle_fresh now msg from r
        | Some e =>
            match from with
            | None => (r, LogPanics)
            | Some n => (score_event now (ID n) PeerEventInvalidMessage r, Rejected (NonceFailed e))
            end
        end
    end.

(** ** [SendMessage] *)

Definition set_peer nodeID (p : PeerConnection) r : Router L :=
  set_peers (<[nodeID := p]> (peers r)) r.

(** The entry of a peer; an unknown peer is looked up in the DHT ([find]) and
    entered in the table. *)
Definition peer_entry (now : time) (find : option (list Node)) (to : NodeID) r :
    send_error + (Router L * PeerConnection) :=
  match peers r !! to with
  | Some p => inr (r, p)
  | None =>
      match find with
      | None => inl FindFailed
      | Some [] => inl PeerNotFound
      | Some (node :: _) =>
          if bool_decide (nd_Address node = EmptyString) && (Port node =? 0) then inl NoAddress
          else let p := mkPeer node None false now in inr (set_peer to p r, p)
      end
  end.

(** [ensureConnection]; [dial] is the transport, [None] when it is not set. *)
Definition ensureConnection (now : time) (dial : option (NodeID → list ascii → option Writer))
    (p : PeerConnection) r : send_error + PeerConnection :=
  if match banList r with Some bl => IsBanned now (ID (pc_Node p)) bl | None => false end
  then inl PeerBanned
  else if Connected p && bool_decide (is_Some (Conn p)) then inr p
  else match dial with
  | None => inl NoTransport
  | Some dial =>
      match resolveAddress (pc_Node p) with
      | [] => inl Unresolvable
      | address =>
          match dial (ID (pc_Node p)) address with
          | None => inl DialFailed
          | Some conn => inr (mkPeer (pc_Node p) (Some conn) true now)
          end
      end
  end.

(** The metadata and the signature; [rand] is what [rand.Read] gives. *)
Definition complete (now : time) (rand : option N) (to : NodeID) msg r : send_error + Message :=
  let nonce := if decide (Nonce msg = 0%N) then rand else Some (Nonce msg) in
  match nonce with
  | None => inl NonceGeneration
  | Some nonce =>
      let msg := mkMsg (Type_ msg) (default (msg_From msg) (localNode r)) to (Payload msg)
        (if time_is_zero (Timestamp msg) then now else Timestamp msg) nonce (Signature msg)
        ProtocolVersion in
      match keyManager with
      | None => inr msg
      | Some km =>
          match SignableBytes msg with
          | None => inl NoSignable
          | Some b =>
              match Sign km b with
              | None => inl SignFailed
              | Some sig =>
                  inr (mkMsg (Type_ msg) (msg_From msg) (msg_To msg) (Payload msg) (Timestamp msg)
                    (Nonce msg) sig (Version msg))
              end
          end
      end
  end.

Definition SendMessage (now : time) (find : option (list Node))
    (dial : option (NodeID → list ascii → option Writer)) (rand : option N)
    (to : NodeID) msg r : Router L * option send_error :=
  match peer_entry now find to r with
  | inl e => (r, Some e)
  | inr (r, p) =>
      match ensureConnection now dial p r with
      | inl e => (r, Some e)
      | inr p =>
          let r := set_peer to p r in
          match complete now rand to msg r with
          | inl e => (r, Some e)
          | inr msg =>
              match marshal msg with
              | None => (r, Some SerializeFailed)
              | Some data =>
                  match sendLengthPrefixed (Conn p) data with
                  | (_, Some e) =>
                      (set_peer to (mkPeer (pc_Node p) None false (LastSeen p)) r, Some (FrameFailed e))
                  | (conn, None) =>
                      (set_peer to (mkPeer (pc_Node p) conn (Connected p) now) r, None)
                  end
              end
          end
      end
  end.

(** [broadcastToPeers]: one send per peer; [sends] lists the peers in the order
    their sends complete, each with what its send met.  The last error is
    returned. *)
Definition broadcastToPeers (now : time) msg
    (sends : list (NodeID * option (list Node) * option (NodeID → list ascii → option Writer) * option N))
    r : Router L * option send_error :=
  foldl (λ st s,
    let '(to, find, dial, rand) := s in
    let '(r, err) := SendMessage now find dial rand to msg st.1 in
    (r, match err with Some e => Some e | None => st.2 end)) (r, None) sends.

(** ** Two of the daemon's handlers (internal/daemon/node.go)

    Both read [from.ID] without checking [from]. *)

(** The handler of "ping" answers with a "pong"; [self] is the node's ID. *)
Definition ping_handler (self : NodeID) (find : option (list Node))
    (dial : option (NodeID → list ascii → option Writer)) (rand : option N) : handler L :=
  λ now msg from r,
    match from with
    | None => (r, Panics)
    | Some n =>
        let pong := mkMsg "pong" self (ID n) [] (Timestamp msg) 0%N [] 0 in
        let '(r, err) := SendMessage now find dial rand (ID n) pong r in
        (r, Returns (bool_decide (is_Some err)))
    end.

(** The handler of "bid" only logs the sender. *)
Definition bid_handler : handler L :=
  λ _ _ from r, match from with None => (r, Panics) | Some _ => (r, Returns false) end.
End Pipeline.
