(* ===== verification/RouterSafety.v ===== *)
(** * What the message pipeline guarantees

    The theorems on [RouterPipeline]: every check stands between a message and
    its handler; replay protection over whole histories of the router; the
    automatic ban; when a call panics; what the sender puts on the wire; and
    what the pipeline gets wrong. *)

From S2P Require Import Prelude NetAddr BanList NonceTracker Stake Float64 Diversity PeerScorer Framing PeerTable RouterPipeline.
From Stdlib Require Import Ascii.
Local Open Scope Z_scope.

Section Safety.
Context {L Ps : Type} `{RateLimiter L, PaymentService Ps}.
Context (chain : time → option Ps).
Context (marshal_signable : Signable → option bytes).
Context (marshal : Message → option bytes).
Context (keyManager : option MessageSigner).
Context (handlers : string → option (handler L)).
Implicit Types (r : Router L) (nodeID : NodeID) (msg : Message) (from : option Node).

Abbreviation Handle := (HandleMessage chain marshal_signable keyManager handlers).
Abbreviation Fresh := (handle_fresh chain marshal_signable keyManager handlers).

(** ** What the steps leave alone *)

(** The parts of the router a step does not touch. *)
Record same_gates r r' : Prop := {
  sg_peers : peers r' = peers r;
  sg_nonces : nonceTracker r' = nonceTracker r;
  sg_bans : banList r' = banList r;
  sg_verifier : peerWallets <$> stakeVerifier r' = peerWallets <$> stakeVerifier r
}.

Lemma same_gates_refl r : same_gates r r.
Proof. constructor; eauto. Qed.

Lemma GetTier_wallets now ps n sv : peerWallets (GetTier now ps n sv).1 = peerWallets sv.
Proof.
  unfold GetTier, getCachedOrFetch. repeat (case_match; simplify_eq/=); done.
Qed.

Lemma tier_of_gates now n sv r :
  stakeVerifier r = Some sv → same_gates r (tier_of chain now n sv r).1.
Proof.
  intros Hsv. unfold tier_of. pose proof (GetTier_wallets now (chain now) n sv) as Hw.
  destruct (GetTier now (chain now) n sv) as [sv' tier]; cbn in *.
  constructor; cbn; try done. rewrite Hsv; cbn. congruence.
Qed.

Lemma limiter_gates now n r : same_gates r (getPeerLimiter chain now n r).1.
Proof.
  unfold getPeerLimiter. destruct (peerLimiters r !! n); [apply same_gates_refl|].
  destruct (stakeVerifier r) as [sv|] eqn:Hsv.
  - pose proof (tier_of_gates now n sv r Hsv) as Hg. revert Hg.
    destruct (tier_of chain now n sv r) as [r' tier]; cbn. intros [? ? ? ?]. by constructor.
  - constructor; cbn; eauto.
Qed.

Lemma rate_gates now from r : same_gates r (rate_check chain now from r).1.
Proof.
  unfold rate_check. destruct from as [n|]; [|apply same_gates_refl].
  pose proof (limiter_gates now (ID n) r) as Hg. revert Hg.
  destruct (getPeerLimiter chain now (ID n) r) as [r' l]; cbn.
  destruct (limiter_Allow now l) as [l' ok]; cbn. intros [? ? ? ?]. by constructor.
Qed.

(** ** Every check stands before the handler *)

Lemma signature_ok msg :
  signature_error marshal_signable keyManager msg = None →
  ∀ km, keyManager = Some km → Signature msg ≠ [] ∧
    ∃ b, SignableBytes marshal_signable msg = Some b ∧ Verify km b (Signature msg) = true.
Proof.
  unfold signature_error. intros Hs km ->.
  destruct (Signature msg) eqn:Hsig; [done|]. destruct (SignableBytes _ _) as [b|]; [|done].
  split; [done|]. exists b. by destruct (Verify km b _).
Qed.

(** The stake gate passes a message of a known sender only on a positive answer. *)
Definition gate_passed (now : time) msg from r : Prop :=
  ∀ n sv, from = Some n → stakeVerifier r = Some sv → RequiresStake (Type_ msg) = true →
    (IsStaked now (chain now) (ID n) sv).2 = true.

Lemma stake_check_passed now msg from r r' :
  stake_check chain now msg from r = (r', true) → gate_passed now msg from r.
Proof.
  unfold stake_check. intros Hc n sv -> Hsv Hr. rewrite Hsv, Hr in Hc.
  by destruct (IsStaked now (chain now) (ID n) sv); simplify_eq/=.
Qed.

Lemma fresh_dispatched now msg from r :
  handler_ran (Fresh now msg from r).2 = true →
  Version msg = ProtocolVersion ∧
  signature_error marshal_signable keyManager msg = None ∧
  gate_passed now msg from r ∧ is_Some (handlers (Type_ msg)).
Proof.
  unfold handle_fresh. destruct (Z.ltb_spec ProtocolVersion (Version msg)); [done|].
  destruct (Z.ltb_spec (Version msg) MinSupportedVersion); [done|].
  unfold ProtocolVersion, MinSupportedVersion in *.
  destruct (signature_error _ _ msg) as [[]|] eqn:Hs; try done.
  destruct (stake_check chain now msg from r) as [r1 []] eqn:Hc; [|done].
  apply stake_check_passed in Hc. cbn [negb]. unfold dispatch.
  destruct (handlers (Type_ msg)); [|done]. intros _. split_and!; eauto. lia.
Qed.

(** What a call that dispatches has gone through. *)
Lemma Handle_dispatched now msg from r :
  handler_ran (Handle now msg from r).2 = true →
  let r1 := (rate_check chain now from r).1 in
  (rate_check chain now from r).2 = true ∧ sender_banned now from r1 = false ∧
  (∀ nt, nonceTracker r1 = Some nt → (Check now (Nonce msg) (Timestamp msg) nt).2 = None) ∧
  Handle now msg from r = Fresh now msg from
    (set_nonces ((λ nt, (Check now (Nonce msg) (Timestamp msg) nt).1) <$> nonceTracker r1) r1).
Proof.
  unfold HandleMessage. destruct (rate_check chain now from r) as [r1 ok]; cbn [fst snd].
  destruct ok; cbn [negb]; [|by destruct from].
  destruct (sender_banned now from r1) eqn:Hb; [done|].
  destruct (nonceTracker r1) as [nt|] eqn:Hnt.
  - destruct (Check now (Nonce msg) (Timestamp msg) nt) as [nt' [e|]] eqn:Hck; [by destruct from|].
    intros _. split_and!; [done..| |].
    + intros ? [= <-]. by rewrite Hck.
    + cbn. by rewrite Hck.
  - intros _. split_and!; [done..| |]; [done|]. cbn.
    replace (set_nonces None r1) with r1; [done|]. destruct r1; cbn in *; by subst.
Qed.

(** The verifier's cache is truthful and has its default lifetimes. *)
Definition verifier_ok (now : time) r : Prop :=
  ∀ sv, stakeVerifier r = Some sv →
    cache_true chain now sv ∧ cacheTTL sv = DefaultStakeCacheTTL ∧
    errorTTL sv = DefaultErrorStakeCacheTTL.

Lemma verifier_ok_limiter now n r :
  verifier_ok now r → verifier_ok now (getPeerLimiter chain now n r).1.
Proof.
  intros Hok. unfold getPeerLimiter. destruct (peerLimiters r !! n); [done|].
  destruct (stakeVerifier r) as [sv|] eqn:Hsv; [|intros sv; cbn; congruence].
  destruct (Hok sv Hsv) as (Hc & T1 & T2). unfold tier_of.
  pose proof (cache_true_query chain now n sv Hc) as [_ Hc'].
  pose proof (sv_step_ttl chain (SvGetTier now n) sv) as [T1' T2']; cbn in T1', T2'.
  destruct (GetTier now (chain now) n sv) as [sv' tier]; cbn in *.
  intros ? [= <-]. by rewrite T1', T2'.
Qed.

Lemma verifier_ok_rate now from r :
  verifier_ok now r → verifier_ok now (rate_check chain now from r).1.
Proof.
  intros Hok. unfold rate_check. destruct from as [n|]; [|done].
  pose proof (verifier_ok_limiter now (ID n) r Hok) as Hok'. revert Hok'.
  destruct (getPeerLimiter chain now (ID n) r) as [r' l]; cbn.
  by destruct (limiter_Allow now l).
Qed.

(** C1: safety.  A handler runs only on a message that passed every check: its
    sender was within its rate and not banned, its nonce was new and its
    timestamp in the window, its version is the supported one, its signature
    is not empty and verifies, and, when its type is privileged and a verifier
    is set, its sender's announced wallet had the minimum stake on the chain
    within the last five minutes. *)
Theorem dispatched_passed_all_checks now msg from r :
  verifier_ok now r →
  handler_ran (Handle now msg from r).2 = true →
  (∀ n, from = Some n → (rate_check chain now from r).2 = true ∧
     ∀ bl, banList r = Some bl → IsBanned now (ID n) bl = false) ∧
  (∀ nt, nonceTracker r = Some nt → (Check now (Nonce msg) (Timestamp msg) nt).2 = None) ∧
  Version msg = ProtocolVersion ∧
  (∀ km, keyManager = Some km → Signature msg ≠ [] ∧
     ∃ b, SignableBytes marshal_signable msg = Some b ∧ Verify km b (Signature msg) = true) ∧
  (∀ n sv, from = Some n → stakeVerifier r = Some sv → RequiresStake (Type_ msg) = true →
     ∃ w f ps, peerWallets sv !! ID n = Some w ∧ now - 5 * minute < f ≤ now ∧
       chain f = Some ps ∧ HasMinimumStake ps w = Some true).
Proof.
  intros Hok Hd. pose proof (verifier_ok_rate now from r Hok) as Hok1.
  pose proof (rate_gates now from r) as [_ Gn Gb Gv].
  pose proof (Handle_dispatched _ _ _ _ Hd) as (Hrate & Hban & Hnonce & Hfresh).
  rewrite Hfresh in Hd. apply fresh_dispatched in Hd as (Hver & Hsig & Hgate & _).
  split_and!; [|by rewrite <- Gn|done|by apply signature_ok|].
  - intros n ->. split; [done|]. intros bl Hbl. unfold sender_banned in Hban.
    by rewrite Gb, Hbl in Hban.
  - intros n sv -> Hsv Hreq.
    rewrite Hsv in Gv. apply fmap_Some in Gv as (sv1 & Hsv1 & Hw).
    destruct (Hok1 sv1 Hsv1) as (Hc & T1 & T2). rewrite Hw.
    apply (IsStaked_fresh chain now (ID n) sv1); [done..|]. by apply (Hgate n sv1).
Qed.

(** ** No message is dispatched twice *)

(** Handlers have no access to the replay cache: it is a private field of the
    router without an accessor. *)
Definition handlers_keep_nonces : Prop :=
  ∀ ty h now msg from r, handlers ty = Some h → nonceTracker (h now msg from r).1 = nonceTracker r.

Lemma score_event_nonces now n ev r : nonceTracker (score_event now n ev r) = nonceTracker r.
Proof.
  unfold score_event. destruct (peerScorer r); [|done].
  destruct (RecordEvent _ _ _ _ _ _). by destruct (scorer_banList r).
Qed.

Lemma score_from_nonces now from ev r : nonceTracker (score_from now from ev r) = nonceTracker r.
Proof. destruct from; [apply score_event_nonces|done]. Qed.

Lemma tier_of_nonces now n sv r : nonceTracker (tier_of chain now n sv r).1 = nonceTracker r.
Proof. unfold tier_of. by destruct (GetTier _ _ _ _). Qed.

Lemma recordViolation_nonces now n r : nonceTracker (recordViolation chain now n r) = nonceTracker r.
Proof.
  unfold recordViolation. destruct (violationCounters r !! n) as [e|]; [|done].
  destruct (_ <? _); [done|]. destruct (_ <=? _); [|done].
  destruct (banList _); [|done]. destruct (stakeVerifier _) as [sv|]; [|done].
  pose proof (tier_of_nonces now n sv (set_violations
    (<[n := mkViolation (Count e + 1) (FirstViolation e)]> (violationCounters r)) r)) as Ht.
  destruct (tier_of _ _ _ _ _). apply Ht.
Qed.

Lemma fresh_nonces now msg from r :
  handlers_keep_nonces → nonceTracker (Fresh now msg from r).1 = nonceTracker r.
Proof.
  intros Hk. unfold handle_fresh. destruct (_ <? _); [done|]. destruct (_ <? _); [done|].
  assert (Hsc : nonceTracker (stake_check chain now msg from r).1 = nonceTracker r).
  { unfold stake_check. destruct from, (stakeVerifier r); try done.
    destruct (RequiresStake _); [|done]. by destruct (IsStaked _ _ _ _). }
  destruct (signature_error _ _ msg) as [[]|]; cbn [fst]; rewrite ?score_from_nonces; try done.
  destruct (stake_check chain now msg from r) as [r1 []]; cbn [negb fst] in *;
    [|by rewrite score_from_nonces].
  unfold dispatch. destruct (handlers (Type_ msg)) as [h|] eqn:Hh; [|done].
  pose proof (Hk _ h now msg from r1 Hh) as Hn. destruct (h now msg from r1) as [r2 [f|]]; cbn in *;
    [rewrite score_from_nonces|]; congruence.
Qed.

(** A call runs at most one replay check, and a handler only if it passed. *)
Lemma Handle_nonces now msg from r r' res nt :
  handlers_keep_nonces → nonceTracker r = Some nt →
  Handle now msg from r = (r', res) →
  ∃ es, (es = [] ∨ es = [EvCheck now now (Nonce msg) (Timestamp msg)]) ∧
    nonceTracker r' = Some (run nt_step es nt) ∧
    (handler_ran res = true → accepted es nt = [(Nonce msg, Timestamp msg)]).
Proof.
  intros Hk Hnt Hres. destruct (rate_gates now from r) as [_ Gn _ _].
  unfold HandleMessage in Hres. destruct (rate_check chain now from r) as [r1 ok]; cbn [fst] in *.
  rewrite Hnt in Gn. destruct ok; cbn [negb] in Hres.
  2: { exists []. destruct from; simplify_eq/=; split_and!; auto; try done.
       by rewrite score_event_nonces, recordViolation_nonces. }
  destruct (sender_banned now from r1).
  { simplify_eq. exists []. split_and!; auto; done. }
  rewrite Gn in Hres. exists [EvCheck now now (Nonce msg) (Timestamp msg)]. rewrite run_cons, run_nil.
  cbn [accepted nt_step].
  destruct (Check now (Nonce msg) (Timestamp msg) nt) as [nt' [e|]]; cbn [fst snd].
  - destruct from; simplify_eq; (split_and!; [auto| |done]); by rewrite ?score_event_nonces.
  - split_and!; [auto| |done].
    pose proof (fresh_nonces now msg from (set_nonces (Some nt') r1) Hk) as Hn.
    by rewrite Hres in Hn.
Qed.

(** One step of a router: a message, a clean-up of the replay cache, an
    operation on the table, a send or a refresh of a limiter, with the
    (nonce, timestamp) pairs it gives to a handler. *)
Inductive rt_step (now : time) : Router L → list (N * time) → Router L → Prop :=
  | rt_handle msg from r r' res :
      Handle now msg from r = (r', res) →
      rt_step now r (if handler_ran res then [(Nonce msg, Timestamp msg)] else []) r'
  | rt_clean r : rt_step now r [] (set_nonces (CleanExpired now <$> nonceTracker r) r)
  | rt_table r r' : pt_step r r' → rt_step now r [] r'
  | rt_send find dial rand to msg r :
      rt_step now r []
        (SendMessage marshal_signable marshal keyManager now find dial rand to msg r).1
  | rt_refresh nodeID r : rt_step now r [] (RefreshPeerLimiter chain now nodeID r).

(** A history, from time [t], with everything it dispatches. *)
Inductive rt_run : time → Router L → list (N * time) → Prop :=
  | rt_nil t r : rt_run t r []
  | rt_cons t now r log r' logs :
      t ≤ now → rt_step now r log r' → rt_run now r' logs → rt_run t r (log ++ logs).

Lemma evict_nonces order r : nonceTracker (evictOldestIdlePeerLocked order r).1 = nonceTracker r.
Proof.
  unfold evictOldestIdlePeerLocked. destruct (foldl _ _ _) as [[id t]|]; [|done].
  by destruct (peers r !! id).
Qed.

Lemma pt_step_nonces r r' : pt_step r r' → nonceTracker r' = nonceTracker r.
Proof.
  destruct 1 as [now order node r _|n r|now age order r _|now order r _|r|order r _].
  - unfold AddPeer. destruct (peers r !! ID node); [done|].
    destruct (match diversityEnforcer r with Some _ => _ | None => _ end); [|done]. cbn [negb].
    pose proof (evict_nonces order r) as He.
    destruct (_ <=? _); [|done]. destruct (evictOldestIdlePeerLocked order r) as [r1 []]; exact He.
  - unfold r_RemovePeer. by destruct (peers r !! n).
  - apply (foldl_preserves (λ r', nonceTracker r' = nonceTracker r)); [|done].
    intros r1 x <-. unfold cleanup_stale_one. destruct (peers r1 !! x); [|done]. by destruct (_ <? _).
  - apply (foldl_preserves (λ r', nonceTracker r' = nonceTracker r)); [|done].
    intros r1 x <-. unfold cleanup_idle_one. destruct (peers r1 !! x) as [p|]; [|done].
    destruct (_ && _); [|done]. by destruct (Conn p).
  - done.
  - unfold Close. cbn.
    apply (foldl_preserves (λ r', nonceTracker r' = nonceTracker r)); [|done].
    intros r1 x <-. unfold close_one. by destruct (peers r1 !! x).
Qed.

Lemma send_nonces now find dial rand to msg r :
  nonceTracker (SendMessage marshal_signable marshal keyManager now find dial rand to msg r).1
  = nonceTracker r.
Proof.
  unfold SendMessage. assert (Hp : ∀ r1 p, peer_entry now find to r = inr (r1, p) →
    nonceTracker r1 = nonceTracker r).
  { unfold peer_entry. intros r1 p. repeat case_match; intros; simplify_eq; done. }
  destruct (peer_entry now find to r) as [|[r1 p]]; [done|]. specialize (Hp _ _ eq_refl).
  destruct (ensureConnection _ _ _ _) as [|p']; [done|].
  destruct (complete _ _ _ _ _ _ _) as [|m]; [done|]. destruct (marshal m) as [d|]; [|done].
  by destruct (sendLengthPrefixed (Conn p') d) as [? [|]].
Qed.

Lemma rt_step_nonces now r log r' nt :
  handlers_keep_nonces → nonceTracker r = Some nt → rt_step now r log r' →
  ∃ es, timely 0 now es ∧ Forall (λ e, ev_clock e = now) es ∧
    nonceTracker r' = Some (run nt_step es nt) ∧ log `sublist_of` accepted es nt.
Proof.
  intros Hk Hnt. destruct 1 as [msg from r r' res Hres|r|r r' Hp|find dial rand to msg r|n r].
  - destruct (Handle_nonces now msg from r r' res nt Hk Hnt Hres) as (es & Hes & Hn & Hd).
    exists es. split_and!; [| |done|].
    + destruct Hes as [->| ->]; repeat constructor; lia.
    + destruct Hes as [->| ->]; repeat constructor.
    + destruct (handler_ran res); [by rewrite Hd|apply sublist_nil_l].
  - exists [EvClean now]. rewrite Hnt, run_cons, run_nil. split_and!; repeat constructor; lia.
  - exists []. apply pt_step_nonces in Hp. rewrite Hp, run_nil. split_and!; repeat constructor; done.
  - exists []. rewrite send_nonces, run_nil. split_and!; repeat constructor; done.
  - exists []. rewrite run_nil. split_and!; [constructor|constructor| |constructor].
    unfold RefreshPeerLimiter. destruct (stakeVerifier r) as [sv|]; [|done].
    pose proof (tier_of_nonces now n sv r) as Ht. destruct (tier_of _ _ _ _ _); cbn in *. congruence.
Qed.

Lemma timely_app t now es1 es2 :
  t ≤ now → Forall (λ e, ev_clock e = now) es1 → timely 0 now es1 → timely 0 now es2 →
  timely 0 t (es1 ++ es2).
Proof.
  intros Htn Hall Ht1 Ht2. revert t Htn. induction es1 as [|e es1 IH]; intros t Htn; cbn.
  { inversion Ht2; subst; constructor; eauto; lia. }
  apply Forall_cons in Hall as [He Hall].
  inversion Ht1 as [|? c cn n ts ? H1 H2 H3 H4|? c ? H1 H2]; subst; cbn in *;
    constructor; auto; try lia; apply IH; auto; lia.
Qed.

Lemma rt_run_nonces t r log nt :
  handlers_keep_nonces → rt_run t r log → nonceTracker r = Some nt →
  ∃ es, timely 0 t es ∧ log `sublist_of` accepted es nt.
Proof.
  intros Hk Hrun; revert nt.
  induction Hrun as [t r|t now r log r' logs Ht Hstep Hrun IH]; intros nt Hnt.
  { exists []. split; constructor. }
  destruct (rt_step_nonces now r log r' nt Hk Hnt Hstep) as (es1 & Ht1 & Hc & Hn & Hs1).
  destruct (IH _ Hn) as (es2 & Ht2 & Hs2). exists (es1 ++ es2).
  split; [by eapply timely_app|]. rewrite accepted_app. by apply sublist_app.
Qed.

(** C4: safety.  Replay protection of the router.  In every history of a router,
    whatever messages arrive and whatever else it does in between, no message
    (nonce and timestamp) reaches a handler twice, as long as the replay cache
    is set and its window covers the accepted ages. *)
Theorem router_no_replay t r log nt :
  handlers_keep_nonces → nonceTracker r = Some nt → sane nt →
  maxAge nt + futureSkew nt ≤ nonceWindow nt →
  rt_run t r log → NoDup log.
Proof.
  intros Hk Hnt Hs Hw Hrun.
  destruct (rt_run_nonces t r log nt Hk Hrun Hnt) as (es & Ht & Hsub).
  eapply sublist_NoDup; [|exact Hsub]. eapply (accepted_NoDup 0 t); [done..| |done]. lia.
Qed.

(** ** The automatic ban *)

(** The duration of an automatic ban: by tier when a verifier is set. *)
Definition auto_ban (now : time) nodeID r : duration :=
  match stakeVerifier r with
  | Some sv => GetTierBanDuration (GetTier now (chain now) nodeID sv).2
  | None => autoBanDuration
  end.

Lemma in_window t0 t : t - t0 ≤ violationWindow → (violationWindow <? time_sub t t0) = false.
Proof.
  intros Ht. apply Z.ltb_ge. apply time_sub_le_iff; [..|done];
    unfold violationWindow, minute, second, max_int64, min_int64; lia.
Qed.

Lemma recordViolation_ban now n r bl first :
  violationCounters r !! n = Some (mkViolation 2 first) → banList r = Some bl →
  now - first ≤ violationWindow →
  banList (recordViolation chain now n r) =
    Some (Ban now n "auto-ban: repeated rate limit violations" (auto_ban now n r) bl) ∧
  violationCounters (recordViolation chain now n r) !! n = None.
Proof.
  intros Hv Hbl Hw. unfold recordViolation, auto_ban, tier_of. rewrite Hv; cbn.
  rewrite in_window by done. cbn. rewrite Hbl; cbn. destruct (stakeVerifier r) as [sv|]; cbn.
  - destruct (GetTier now (chain now) n sv); cbn. rewrite Hbl. split; [done|apply lookup_delete_eq].
  - rewrite Hbl. split; [done|apply lookup_delete_eq].
Qed.

(** Functional.  The automatic ban.  A peer's first two rate-limit violations
    in a five-minute window do not touch the ban list; the third bans it, for
    the duration of its staking tier (an hour without a verifier), and clears
    its counter. *)
Theorem third_violation_bans n t1 t2 t3 r bl :
  violationCounters r !! n = None → banList r = Some bl →
  t1 ≤ t2 ≤ t3 → t3 - t1 ≤ violationWindow →
  let r1 := recordViolation chain t1 n r in
  let r2 := recordViolation chain t2 n r1 in
  let r3 := recordViolation chain t3 n r2 in
  banList r1 = Some bl ∧ banList r2 = Some bl ∧
  banList r3 = Some (Ban t3 n "auto-ban: repeated rate limit violations" (auto_ban t3 n r) bl) ∧
  violationCounters r3 !! n = None.
Proof.
  intros Hv Hbl Ht Hw r1 r2 r3.
  assert (Hr1 : r1 = set_violations (<[n := mkViolation 1 t1]> (violationCounters r)) r).
  { unfold r1, recordViolation. by rewrite Hv. }
  assert (Hr2 : r2 = set_violations (<[n := mkViolation 2 t1]> (violationCounters r1)) r1).
  { unfold r2, recordViolation. rewrite Hr1; cbn. rewrite lookup_insert_eq; cbn.
    rewrite in_window by lia. done. }
  split_and!; [by rewrite Hr1|by rewrite Hr2, Hr1|..];
    destruct (recordViolation_ban t3 n r2 bl t1) as [Hb Hc]; rewrite ?Hr2, ?Hr1; cbn;
    rewrite ?lookup_insert_eq; try done; unfold r3; rewrite ?Hb, ?Hc; try done;
    unfold auto_ban; by rewrite Hr2, Hr1.
Qed.

(** ** Panics *)

(** The router a handler is given: after the rate limiter, the replay cache and
    the stake gate have been updated. *)
Definition admitted_router (now : time) msg from r : Router L :=
  let r := (rate_check chain now from r).1 in
  let r := set_nonces ((λ nt, (Check now (Nonce msg) (Timestamp msg) nt).1) <$> nonceTracker r) r in
  (stake_check chain now msg from r).1.

(** Every check of the pipeline, as one condition on the call. *)
Definition admissible (now : time) msg from r : Prop :=
  let r1 := (rate_check chain now from r).1 in
  (rate_check chain now from r).2 = true ∧ sender_banned now from r1 = false ∧
  (∀ nt, nonceTracker r1 = Some nt → (Check now (Nonce msg) (Timestamp msg) nt).2 = None) ∧
  Version msg = ProtocolVersion ∧ signature_error marshal_signable keyManager msg = None ∧
  (stake_check chain now msg from
    (set_nonces ((λ nt, (Check now (Nonce msg) (Timestamp msg) nt).1) <$> nonceTracker r1) r1)).2 = true.

Lemma Fresh_admitted now msg from r :
  Version msg = ProtocolVersion → signature_error marshal_signable keyManager msg = None →
  (stake_check chain now msg from r).2 = true →
  Fresh now msg from r = dispatch handlers now msg from (stake_check chain now msg from r).1.
Proof.
  intros Hv Hs Hst. unfold handle_fresh. rewrite Hv, Hs. cbn.
  destruct (stake_check chain now msg from r) as [r1 b]; cbn in *. by subst.
Qed.

Lemma admissible_Handle now msg from r :
  admissible now msg from r →
  Handle now msg from r = dispatch handlers now msg from (admitted_router now msg from r).
Proof.
  intros (Hrate & Hban & Hnonce & Hver & Hsig & Hst). unfold admitted_router.
  rewrite <- (Fresh_admitted now msg from _ Hver Hsig Hst). unfold HandleMessage.
  destruct (rate_check chain now from r) as [r1 ok]; cbn [fst snd] in *. subst ok. cbn [negb].
  rewrite Hban. destruct (nonceTracker r1) as [nt|] eqn:Hnt.
  - specialize (Hnonce nt eq_refl). cbn.
    destruct (Check now (Nonce msg) (Timestamp msg) nt) as [nt' err]; cbn in *. by subst.
  - cbn. replace (set_nonces None r1) with r1; [done|]. destruct r1; cbn in *; by subst.
Qed.

Lemma ran_admissible now msg from r :
  handler_ran (Handle now msg from r).2 = true → admissible now msg from r.
Proof.
  intros Hran. pose proof (Handle_dispatched _ _ _ _ Hran) as (Hrate & Hban & Hnonce & Hf).
  rewrite Hf in Hran. pose proof (fresh_dispatched _ _ _ _ Hran) as (Hver & Hsig & _).
  unfold admissible. split_and!; [done..|]. revert Hran. unfold handle_fresh. rewrite Hver, Hsig. cbn.
  by destruct (stake_check _ _ _ _ _) as [r1 []].
Qed.

Lemma Handle_log_panics now msg from r :
  (Handle now msg from r).2 = LogPanics ↔
  from = None ∧ ∃ nt e, nonceTracker r = Some nt ∧
    (Check now (Nonce msg) (Timestamp msg) nt).2 = Some e.
Proof.
  assert (Hfresh : ∀ r1, (Fresh now msg from r1).2 ≠ LogPanics).
  { intros r1. unfold handle_fresh, dispatch. repeat (case_match; try done). }
  split.
  - unfold HandleMessage. destruct from as [n|].
    + destruct (rate_check _ _ _ _) as [r1 []]; [|done]. cbn [negb].
      destruct (sender_banned _ _ _); [done|]. destruct (nonceTracker r1); [|by intros ?%Hfresh].
      destruct (Check _ _ _ _) as [? [|]]; [done|by intros ?%Hfresh].
    + cbn. destruct (nonceTracker r) as [nt|]; [|by intros ?%Hfresh].
      destruct (Check now (Nonce msg) (Timestamp msg) nt) as [? [e|]] eqn:Hc; [|by intros ?%Hfresh].
      intros _. split; [done|]. exists nt, e. by rewrite Hc.
  - intros (-> & nt & e & Hnt & He). unfold HandleMessage; cbn. rewrite Hnt.
    destruct (Check _ _ _ _) as [nt' err]; cbn in He. by rewrite He.
Qed.

(** C37: error.  When [HandleMessage] panics: exactly when a message without a
    sender fails the replay check, whose log line reads the sender's ID, or when
    a message passes every check and its handler panics on it. *)
Theorem HandleMessage_panics_iff now msg from r :
  panics (Handle now msg from r).2 = true ↔
  (from = None ∧ ∃ nt e, nonceTracker r = Some nt ∧
    (Check now (Nonce msg) (Timestamp msg) nt).2 = Some e) ∨
  (admissible now msg from r ∧ ∃ h, handlers (Type_ msg) = Some h ∧
    (h now msg from (admitted_router now msg from r)).2 = Panics).
Proof.
  rewrite <- Handle_log_panics. split.
  - intros Hp. destruct (Handle now msg from r).2 eqn:Hres; try done; [right|by left].
    assert (Hadm : admissible now msg from r) by (apply ran_admissible; by rewrite Hres).
    split; [done|]. rewrite (admissible_Handle _ _ _ _ Hadm) in Hres. unfold dispatch in Hres.
    destruct (handlers (Type_ msg)) as [h|]; [|done]. exists h. split; [done|].
    by destruct (h now msg from _) as [r' [f|]].
  - intros [-> |(Hadm & h & Hh & Hp)]; [done|].
    rewrite (admissible_Handle _ _ _ _ Hadm). unfold dispatch. rewrite Hh.
    destruct (h now msg from _) as [r' [f|]]; [done|done].
Qed.

(** Error.  A message without a sender for a handler that needs one never gets
    an answer: it is rejected by the version, the signature or the type, or the
    call panics.  The handlers of "ping" and "bid" need one. *)
Theorem senderless_never_served now msg r h :
  handlers (Type_ msg) = Some h → (∀ now msg r, (h now msg None r).2 = Panics) →
  match (Handle now msg None r).2 with
  | HandlerPanics | LogPanics => True
  | Rejected e => e = VersionUnsupported ∨ e = VersionOutdated ∨
      signature_error marshal_signable keyManager msg = Some e
  | Dispatched _ => False
  end.
Proof.
  intros Hh Hp. assert (Hf : ∀ r1, match (Fresh now msg None r1).2 with
    | HandlerPanics | LogPanics => True
    | Rejected e => e = VersionUnsupported ∨ e = VersionOutdated ∨
        signature_error marshal_signable keyManager msg = Some e
    | Dispatched _ => False end).
  { intros r1. unfold handle_fresh. destruct (_ <? _); [by left|]. destruct (_ <? _); [cbn; auto|].
    destruct (signature_error _ _ _) as [[]|]; cbn; auto. unfold dispatch. rewrite Hh.
    specialize (Hp now msg r1). by destruct (h now msg None r1) as [? []]. }
  unfold HandleMessage; cbn. destruct (nonceTracker r) as [nt|]; [|apply Hf].
  destruct (Check _ _ _ _) as [? [e|]]; [done|apply Hf].
Qed.

Lemma ping_needs_sender self find dial rand now msg r :
  (ping_handler marshal_signable marshal keyManager self find dial rand now msg None r).2 = Panics.
Proof. reflexivity. Qed.

Lemma bid_needs_sender now msg r : (bid_handler now msg None r).2 = Panics.
Proof. reflexivity. Qed.

(** ** The sending side *)

Lemma sendLengthPrefixed_frame w data :
  ∃ w' err, sendLengthPrefixed (Some w) data = (Some w', err) ∧
    (err = None → sent w' = sent w ++ frame data).
Proof.
  pose proof (write_short data w) as Hw. unfold sendLengthPrefixed, WriteLengthPrefixed in *.
  repeat (case_match; simplify_eq/=); naive_solver.
Qed.

Lemma complete_spec now rand to msg r m :
  (∀ km b s, keyManager = Some km → Sign km b = Some s → s ≠ [] ∧ Verify km b s = true) →
  complete marshal_signable keyManager now rand to msg r = inr m →
  Type_ m = Type_ msg ∧ Payload m = Payload msg ∧ msg_To m = to ∧
  msg_From m = default (msg_From msg) (localNode r) ∧ Version m = ProtocolVersion ∧
  signature_error marshal_signable keyManager m = None.
Proof.
  intros Hsign. unfold complete. destruct (if decide _ then _ else _) as [nonce|]; [|done].
  unfold signature_error. destruct keyManager as [km|] eqn:Hkm.
  - set (m0 := mkMsg _ _ _ _ _ _ _ _). destruct (SignableBytes _ m0) as [b|] eqn:Hb; [|done].
    destruct (Sign km b) as [sig|] eqn:Hs; [|done]. intros [= <-].
    destruct (Hsign km b sig eq_refl Hs) as [Hne Hv]. split_and!; try done. cbn.
    unfold SignableBytes, signable_of in *; cbn in *. rewrite Hb, Hv. by destruct sig.
  - intros [= <-]. done.
Qed.

(** Functional.  A successful [SendMessage] has put exactly one frame on the
    peer's connection, whose payload is the message completed with the local
    identity, the recipient, the current version, a timestamp and a nonce, and
    signed; with a signer whose signatures verify, the message passes the
    version and signature checks of a router with that signer. *)
Theorem SendMessage_frame now find dial rand to msg r r' :
  (∀ km b s, keyManager = Some km → Sign km b = Some s → s ≠ [] ∧ Verify km b s = true) →
  SendMessage marshal_signable marshal keyManager now find dial rand to msg r = (r', None) →
  ∃ m data p w0 w, peers r' !! to = Some p ∧ Conn p = Some w ∧ LastSeen p = now ∧
    marshal m = Some data ∧ sent w = sent w0 ++ frame data ∧
    Type_ m = Type_ msg ∧ Payload m = Payload msg ∧ msg_To m = to ∧
    msg_From m = default (msg_From msg) (localNode r) ∧ Version m = ProtocolVersion ∧
    signature_error marshal_signable keyManager m = None.
Proof.
  intros Hsign. unfold SendMessage.
  assert (Hlocal : ∀ r1 p, peer_entry now find to r = inr (r1, p) → localNode r1 = localNode r).
  { unfold peer_entry. intros r1 p. repeat case_match; intros; simplify_eq; done. }
  destruct (peer_entry now find to r) as [|[r1 p]]; [done|]. specialize (Hlocal _ _ eq_refl).
  destruct (ensureConnection _ _ _ _) as [|p']; [done|].
  destruct (complete _ _ _ _ _ _ _) as [|m] eqn:Hm; [done|].
  destruct (marshal m) as [data|] eqn:Hd; [|done].
  destruct (Conn p') as [w0|] eqn:Hw0; [|done].
  destruct (sendLengthPrefixed_frame w0 data) as (w & err & Hs & Hok). rewrite Hs.
  destruct err; [done|]. intros [= <-].
  exists m, data, (mkPeer (pc_Node p') (Some w) (Connected p') now), w0, w.
  assert (Hc := complete_spec now rand to msg (set_peer to p' r1) m Hsign Hm). cbn in Hc.
  rewrite Hlocal in Hc. destruct Hc as (? & ? & ? & ? & ? & ?).
  split_and!; try done; [apply lookup_insert_eq|by apply Hok].
Qed.
End Safety.

(** ** The key manager (internal/identity/keys.go)

    [KeyManager] signs with its private key and verifies with its own public
    key; ed25519 is a parameter. *)

Section KeyManager.
Context {PrivateKey PublicKey : Type}.
Context (ed25519_Sign : PrivateKey → bytes → bytes).
Context (ed25519_Verify : PublicKey → bytes → bytes → bool).
Context (public : PrivateKey → PublicKey).

Record KeyManager := mkKM { privateKey : PrivateKey; publicKey : PublicKey }.

Definition km_Sign (km : KeyManager) (message : bytes) : option bytes :=
  Some (ed25519_Sign (privateKey km) message).

Definition km_Verify (km : KeyManager) (message signature : bytes) : bool :=
  ed25519_Verify (publicKey km) message signature.

Definition km_signer (km : KeyManager) : MessageSigner := mkSigner (km_Sign km) (km_Verify km).

Context {L Ps : Type} `{RateLimiter L, PaymentService Ps}.
Context (chain : time → option Ps).
Context (marshal_signable : Signable → option bytes).
Context (handlers : string → option (handler L)).

(** Safety.  The signature check uses the receiver's own key: when ed25519
    rejects signatures of other keys, a router with a key manager never
    dispatches a message that another node signed with its own key, however
    valid that signature is. *)
Theorem foreign_signature_never_dispatched km sk now msg from (r : Router L) b :
  (∀ pk m, pk ≠ public sk → ed25519_Verify pk m (ed25519_Sign sk m) = false) →
  publicKey km ≠ public sk →
  SignableBytes marshal_signable msg = Some b → Signature msg = ed25519_Sign sk b →
  handler_ran (HandleMessage chain marshal_signable (Some (km_signer km)) handlers now msg from r).2 = false.
Proof.
  intros Hcross Hne Hb Hsig. apply not_true_is_false. intros Hd.
  pose proof (Handle_dispatched _ _ _ _ _ _ _ _ Hd) as (_ & _ & _ & Hf). rewrite Hf in Hd.
  apply fresh_dispatched in Hd as (_ & Hs & _).
  destruct (signature_ok _ _ _ Hs _ eq_refl) as (_ & b' & Hb' & Hv).
  cbn in Hv. unfold km_Verify in Hv. rewrite Hb in Hb'. injection Hb' as <-.
  rewrite Hsig, Hcross in Hv; done.
Qed.
End KeyManager.

(** ** Instances for the examples *)

(** A token bucket that is not refilled within the example. *)
#[local] Instance demo_limiter : RateLimiter Z := {|
  NewLimiter := λ _ burst, burst;
  limiter_Allow := λ _ l, if 0 <? l then (l - 1, true) else (l, false)
|}.

#[local] Instance demo_payment : PaymentService bool := {|
  HasMinimumStake := λ staked w, Some (staked && bool_decide (w = 7%N));
  ps_GetTier := λ _ _, Some StakingTierGold;
  GetStakedAmount := λ _ _, None;
  NodeIDToProvider := λ _ _, None
|}.

Definition demo_chain (_ : time) : option bool := Some true.
Definition demo_marshal (s : Signable) : option bytes := Some [Z.of_N (s_Nonce s); s_Version s].
Definition demo_marshal_msg (m : Message) : option bytes := Some (Payload m).
Definition demo_sign (sk : Z) (m : bytes) : bytes := sk :: m.
Definition demo_verify (pk : Z) (m s : bytes) : bool := bool_decide (s = pk :: m).
Definition demo_km (sk : Z) : KeyManager (PrivateKey:=Z) (PublicKey:=Z) := mkKM sk sk.
Definition demo_signer (sk : Z) : MessageSigner := km_signer demo_sign demo_verify (demo_km sk).

Definition demo_handlers (ty : string) : option (handler Z) :=
  if decide (ty = "deploy") then Some (λ _ _ _ r, (r, Returns false))
  else if decide (ty = "bid") then Some bid_handler else None.

(** Node 1 announced wallet 7. *)
Definition demo_gate : Router Z :=
  let r := NewRouter (Some 9%N) in
  let r := set_nonces (Some NewNonceTracker) r in
  let r := set_verifier (Some (RegisterPeerWallet 1%N 7%N NewStakeVerifier)) r in
  set_banList (Some ∅) r.

Definition demo_msg : Message := mkMsg "deploy" 1%N 9%N [1; 2] minute 5%N [3; 5; 1] 1.

Abbreviation demo_handle := (HandleMessage demo_chain demo_marshal (Some (demo_signer 3)) demo_handlers).

Lemma dispatched_passed_all_checks_witness :
  ∃ w f ps, peerWallets (RegisterPeerWallet 1%N 7%N NewStakeVerifier) !! 1%N = Some w ∧
    minute - 5 * minute < f ≤ minute ∧ demo_chain f = Some ps ∧
    HasMinimumStake ps w = Some true.
Proof.
  apply (dispatched_passed_all_checks demo_chain demo_marshal (Some (demo_signer 3)) demo_handlers
    minute demo_msg (Some demo_node1) demo_gate) with (n := demo_node1);
    [|vm_compute; reflexivity|reflexivity|reflexivity|reflexivity].
  intros sv [= <-]. split_and!; [apply map_Forall_empty|reflexivity|reflexivity].
Defined.

(** A history that dispatches a message and then sees it replayed. *)
Lemma router_no_replay_witness :
  ∃ log, log = [(5%N, minute)] ∧
    rt_run demo_chain demo_marshal demo_marshal_msg (Some (demo_signer 3)) demo_handlers 0 demo_gate log ∧
    NoDup log.
Proof.
  assert (Hrun : rt_run demo_chain demo_marshal demo_marshal_msg (Some (demo_signer 3)) demo_handlers
    0 demo_gate [(5%N, minute)]).
  { destruct (demo_handle minute demo_msg (Some demo_node1) demo_gate) as [r1 h1] eqn:H1.
    destruct (demo_handle (2 * minute) demo_msg (Some demo_node1) r1) as [r2 h2] eqn:H2.
    assert (h1 = Dispatched false) by (vm_compute in H1; by injection H1 as <- <-).
    assert (h2 = Rejected (NonceFailed DuplicateNonce)).
    { vm_compute in H1. injection H1 as <- <-. vm_compute in H2. by injection H2 as <- <-. }
    subst. change [(5%N, minute)] with ([(5%N, minute)] ++ [] ++ []).
    eapply rt_cons; [|exact (rt_handle _ _ _ _ _ _ _ _ _ _ _ H1)|]; [vm_compute; discriminate|].
    eapply rt_cons; [|exact (rt_handle _ _ _ _ _ _ _ _ _ _ _ H2)|apply rt_nil].
    vm_compute. discriminate. }
  exists [(5%N, minute)]. split; [reflexivity|]. split; [exact Hrun|].
  apply (router_no_replay demo_chain demo_marshal demo_marshal_msg (Some (demo_signer 3)) demo_handlers
    0 demo_gate [(5%N, minute)] NewNonceTracker); [|reflexivity| | |exact Hrun].
  - intros ty h now msg from r. unfold demo_handlers. case_decide; [by intros [= <-]|].
    case_decide; [|discriminate]. intros [= <-]. by destruct from.
  - vm_compute. repeat split; discriminate || reflexivity.
  - vm_compute. discriminate.
Defined.

Lemma third_violation_bans_witness :
  banList (recordViolation demo_chain 3 1%N (recordViolation demo_chain 2 1%N
    (recordViolation demo_chain 1 1%N demo_gate))) =
  Some (Ban 3 1%N "auto-ban: repeated rate limit violations" (5 * minute) ∅).
Proof.
  change (5 * minute) with (auto_ban demo_chain 3 1%N demo_gate).
  apply (third_violation_bans demo_chain 1%N 1 2 3 demo_gate ∅); [reflexivity|reflexivity|lia|].
  vm_compute. discriminate.
Defined.

Definition demo_dial : option (NodeID → list ascii → option Writer) :=
  Some (λ _ _, Some (mkWriter [] None)).

Lemma SendMessage_frame_witness :
  let '(r', err) := SendMessage demo_marshal demo_marshal_msg (Some (demo_signer 3)) minute
    (Some [demo_node2]) demo_dial (Some 8%N) 2%N demo_msg demo_gate in
  err = None ∧ ∃ m data p w0 w, peers r' !! 2%N = Some p ∧ Conn p = Some w ∧ LastSeen p = minute ∧
    demo_marshal_msg m = Some data ∧ sent w = sent w0 ++ frame data ∧
    Type_ m = Type_ demo_msg ∧ Payload m = Payload demo_msg ∧ msg_To m = 2%N ∧
    msg_From m = default (msg_From demo_msg) (localNode demo_gate) ∧ Version m = ProtocolVersion ∧
    signature_error demo_marshal (Some (demo_signer 3)) m = None.
Proof.
  destruct (SendMessage _ _ _ _ _ _ _ _ _ _) as [r' err] eqn:Hs.
  assert (Herr : err = None) by (vm_compute in Hs; by injection Hs as <- <-).
  split; [exact Herr|]. rewrite Herr in Hs.
  apply (SendMessage_frame demo_marshal demo_marshal_msg (Some (demo_signer 3)) minute
    (Some [demo_node2]) demo_dial (Some 8%N) 2%N demo_msg demo_gate r'); [|exact Hs].
  intros km b s [= <-] [= <-]. split; [discriminate|]. apply bool_decide_eq_true. reflexivity.
Defined.

Lemma foreign_signature_never_dispatched_witness :
  handler_ran (HandleMessage demo_chain demo_marshal (Some (demo_signer 4)) demo_handlers
    minute demo_msg (Some demo_node1) demo_gate).2 = false.
Proof.
  apply (foreign_signature_never_dispatched demo_sign demo_verify (λ sk, sk) demo_chain demo_marshal
    demo_handlers (demo_km 4) 3 minute demo_msg (Some demo_node1) demo_gate [5; 1]).
  - intros pk m Hne. unfold demo_verify, demo_sign. apply bool_decide_eq_false. congruence.
  - discriminate.
  - reflexivity.
  - reflexivity.
Defined.

(** A fresh "bid" without a sender, properly signed. *)
Lemma senderless_never_served_witness :
  let bid := mkMsg "bid" 1%N 9%N [] minute 5%N [3; 5; 1] 1 in
  (demo_handle minute bid None demo_gate).2 = HandlerPanics ∧
  match (demo_handle minute bid None demo_gate).2 with
  | HandlerPanics | LogPanics => True
  | Rejected e => e = VersionUnsupported ∨ e = VersionOutdated ∨
      signature_error demo_marshal (Some (demo_signer 3)) bid = Some e
  | Dispatched _ => False
  end.
Proof.
  split; [vm_compute; reflexivity|].
  apply (senderless_never_served demo_chain demo_marshal (Some (demo_signer 3)) demo_handlers minute
    (mkMsg "bid" 1%N 9%N [] minute 5%N [3; 5; 1] 1) demo_gate bid_handler); reflexivity.
Defined.

(** ** What the pipeline gets wrong *)

(** Node 1 is banned for ever and out of tokens. *)
Definition banned_for_ever : Router Z :=
  set_limiters {[1%N := 0]}
    (set_banList (Some (Ban 1 1%N "operator" 0 ∅)) (NewRouter (Some 9%N))).

Definition after_handle (now : time) (r : Router Z) : Router Z :=
  (demo_handle now demo_msg (Some demo_node1) r).1.

(** Safety.  The rate limit is checked before the ban, and the automatic ban
    overwrites the one there is: a peer banned for ever that keeps sending above
    its rate is unbanned an hour later. *)
Theorem flood_lifts_permanent_ban :
  let banned r u := match banList r with Some bl => IsBanned u 1%N bl | None => false end in
  let r := after_handle 4 (after_handle 3 (after_handle 2 banned_for_ever)) in
  banned banned_for_ever (2 * hour) = true ∧ banned r (2 * hour) = false.
Proof. vm_compute. split; reflexivity. Qed.

(** Bounds.  Sending to an unknown peer bypasses the table's limits: with a
    full table of one connected peer, [SendMessage] enters a second one although
    the dial fails, and the diversity counters do not count it. *)
Theorem send_unknown_overflows_table :
  let r := (AddPeer 5 [] demo_node1
    (set_diversity (Some NewPeerDiversityEnforcer)
      (NewRouterWithConfig (Some 9%N) 1 DefaultConnectionTimeout) : Router Z)).1 in
  let '(r', err) := SendMessage demo_marshal demo_marshal_msg None 6 (Some [demo_node2])
    (Some (λ _ _, None)) (Some 1%N) 2%N demo_msg r in
  err = Some DialFailed ∧ maxPeers r' = 1 ∧ size (peers r') = 2%nat ∧
  totalPeers <$> diversityEnforcer r' = Some 1.
Proof. vm_compute. repeat split; reflexivity. Qed.
