(* ===== verification/Consensus.v ===== *)
(** * Replica consensus (internal/redundancy/consensus.go)

    [ConsensusManager] keeps one state per container, with up to three replicas
    and a version, and merges the states other nodes gossip.

    [states] holds pointers, [GetState] hands them out, [MergeState] stores the
    pointer it is given, and [UpdateReplicaStatus] writes through the pointers
    to the replicas; so states and containers live in a store, and a manager
    maps container names to locations of it.

    Theorems: the reported status is the one at least two replicas agree on,
    whatever order the counting map is read in; versions never go back; nodes
    that have seen the same states, in any order, hold the one with the largest
    version when no two of them have the same, and may disagree otherwise. *)

From S2P Require Import Prelude.
Local Open Scope Z_scope.

(** ** The store *)

Abbreviation loc := N (only parsing).
Abbreviation ContainerStatus := string (only parsing).

(** The fields of [types.Container] the manager reads or writes. *)
Record Container := mkContainer {
  ct_ID : string;
  ct_Status : ContainerStatus
}.

Record ContainerState := mkState {
  ContainerID : string;
  Status : ContainerStatus;
  Replicas : list (option loc); (* [3]*types.Container *)
  st_Version : Z
}.

Record Store := mkStore {
  containers : gmap loc Container;
  state_objs : gmap loc ContainerState
}.

Abbreviation ConsensusManager := (gmap string loc).

Definition NewConsensusManager : ConsensusManager := ∅.

Definition put_state (l : loc) (s : ContainerState) (h : Store) : Store :=
  mkStore (containers h) (<[l := s]> (state_objs h)).

Definition put_container (l : loc) (c : Container) (h : Store) : Store :=
  mkStore (<[l := c]> (containers h)) (state_objs h).

Definition deref (cm : ConsensusManager) (h : Store) (id : string) : option (loc * ContainerState) :=
  l ← cm !! id; s ← state_objs h !! l; Some (l, s).

(** ** Operations *)

(** The state of a container, allocated when there is none. *)
Definition ensure_state (id : string) (cm : ConsensusManager) (h : Store) :
    ConsensusManager * Store * loc * ContainerState :=
  match deref cm h id with
  | Some (l, s) => (cm, h, l, s)
  | None =>
      let l := fresh (dom (state_objs h)) in
      let s := mkState id "" [None; None; None] 0 in
      (<[id := l]> cm, put_state l s h, l, s)
  end.

Definition UpdateState (id : string) (status : ContainerStatus) (replicas : list (option loc))
    (cm : ConsensusManager) (h : Store) : ConsensusManager * Store :=
  let '(cm, h, l, s) := ensure_state id cm h in
  (cm, put_state l (mkState (ContainerID s) status replicas (wrap64 (st_Version s + 1))) h).

Definition UpdateReplicaStatus (id : string) (replicaIdx : Z) (status : ContainerStatus)
    (cm : ConsensusManager) (h : Store) : ConsensusManager * Store :=
  let '(cm, h, l, s) := ensure_state id cm h in
  let '(h, replicas) :=
    if (0 <=? replicaIdx) && (replicaIdx <? 3) then
      let i := Z.to_nat replicaIdx in
      match mjoin (Replicas s !! i) with
      | None =>
          let c := fresh (dom (containers h)) in
          (put_container c (mkContainer id status) h, <[i := Some c]> (Replicas s))
      | Some c =>
          let h :=
            match containers h !! c with
            | Some old => put_container c (mkContainer (ct_ID old) status) h
            | None => h
            end in
          (h, Replicas s)
      end
    else (h, Replicas s) in
  (cm, put_state l (mkState (ContainerID s) status replicas (wrap64 (st_Version s + 1))) h).

Definition GetState (id : string) (cm : ConsensusManager) : option loc := cm !! id.

Definition MergeState (id : string) (other : loc) (cm : ConsensusManager) (h : Store) :
    ConsensusManager :=
  match deref cm h id with
  | None => <[id := other]> cm
  | Some (_, current) =>
      match state_objs h !! other with
      | Some o => if st_Version current <? st_Version o then <[id := other]> cm else cm
      | None => cm
      end
  end.

Definition RemoveState (id : string) (cm : ConsensusManager) : ConsensusManager := delete id cm.

(** The statuses of the replicas that are set. *)
Definition replica_statuses (h : Store) (s : ContainerState) : list ContainerStatus :=
  r ← Replicas s;
  match r with Some c => from_option (λ c, [ct_Status c]) [] (containers h !! c) | None => [] end.

Definition status_counts (sts : list ContainerStatus) : gmap ContainerStatus Z :=
  foldl (λ m st, <[st := zget m st + 1]> m) ∅ sts.

(** One iteration over the counting map. *)
Definition max_step (best : Z * ContainerStatus) (kv : ContainerStatus * Z) : Z * ContainerStatus :=
  if best.1 <? kv.2 then (kv.2, kv.1) else best.

(** [order] lists the counting map in the order the loop visits it. *)
Definition consensus_of (order : list (ContainerStatus * Z)) (s : ContainerState) : ContainerStatus :=
  let '(maxCount, consensusStatus) := foldl max_step (0, EmptyString) order in
  if 2 <=? maxCount then consensusStatus else Status s.

Inductive ConsensusError := StateNotFound.

Definition GetConsensusStatus (order : list (ContainerStatus * Z)) (id : string)
    (cm : ConsensusManager) (h : Store) : ContainerStatus * option ConsensusError :=
  match deref cm h id with
  | None => ("failed", Some StateNotFound)
  | Some (_, s) => (consensus_of order s, None)
  end.

(** ** The majority does not depend on the iteration order *)

Definition occurrences (st : ContainerStatus) (sts : list ContainerStatus) : Z :=
  len (filter (λ x, x = st) sts).

Lemma occurrences_cons st x sts :
  occurrences st (x :: sts) = (if decide (x = st) then 1 else 0) + occurrences st sts.
Proof. unfold occurrences. rewrite filter_cons. case_decide; cbn; lia. Qed.

Lemma occurrences_app st s1 s2 : occurrences st (s1 ++ s2) = occurrences st s1 + occurrences st s2.
Proof. unfold occurrences. rewrite filter_app, length_app. lia. Qed.

Lemma status_counts_snoc sts x :
  status_counts (sts ++ [x]) = <[x := zget (status_counts sts) x + 1]> (status_counts sts).
Proof. unfold status_counts. by rewrite foldl_snoc. Qed.

(** The map counts. *)
Lemma status_counts_zget sts st : zget (status_counts sts) st = occurrences st sts.
Proof.
  induction sts as [|x sts IH] using rev_ind; [done|].
  rewrite status_counts_snoc, zget_insert, occurrences_app, occurrences_cons, <- IH.
  change (occurrences st []) with 0. case_decide; [subst|]; lia.
Qed.

Lemma occurrences_two st1 st2 sts :
  st1 ≠ st2 → occurrences st1 sts + occurrences st2 sts ≤ len sts.
Proof.
  intros Hne. induction sts as [|x sts IH]; [done|]. rewrite !occurrences_cons; cbn.
  repeat case_decide; [congruence|lia..].
Qed.

Lemma replica_statuses_len h s : (length (replica_statuses h s) ≤ length (Replicas s))%nat.
Proof.
  unfold replica_statuses. induction (Replicas s) as [|[c|] rs IH]; [done| |].
  - rewrite bind_cons, length_app. destruct (containers h !! c); cbn in *; lia.
  - rewrite bind_cons. cbn in *. lia.
Qed.

(** The loop finds an entry with the largest count. *)
Lemma max_step_spec order m0 x0 :
  let '(m, x) := foldl max_step (m0, x0) order in
  m0 ≤ m ∧ Forall (λ kv, kv.2 ≤ m) order ∧ ((m, x) = (m0, x0) ∨ (x, m) ∈ order).
Proof.
  revert m0 x0. induction order as [|[k c] order IH]; intros m0 x0; cbn [foldl].
  { split_and!; auto with lia. }
  unfold max_step at 2; cbn [fst snd]. destruct (Z.ltb_spec m0 c).
  - specialize (IH c k). destruct (foldl _ _ _) as [m x]. destruct IH as (H1 & H2 & H3).
    split_and!; [lia|by constructor|]. right. destruct H3 as [[= -> ->]|H3]; set_solver.
  - specialize (IH m0 x0). destruct (foldl _ _ _) as [m x]. destruct IH as (H1 & H2 & H3).
    split_and!; [done|constructor; [cbn; lia|done]|]. set_solver.
Qed.

(** C18: functional.  Consensus on a status.  In whatever order the counting map
    is read, [GetConsensusStatus] reports the status that at least two of the
    three replicas have, when there is one, and the recorded status
    otherwise. *)
Theorem consensus_is_majority order id l s cm h :
  deref cm h id = Some (l, s) → length (Replicas s) = 3%nat →
  order ≡ₚ map_to_list (status_counts (replica_statuses h s)) →
  (∀ st, 2 ≤ occurrences st (replica_statuses h s) →
     GetConsensusStatus order id cm h = (st, None)) ∧
  ((∀ st, occurrences st (replica_statuses h s) < 2) →
     GetConsensusStatus order id cm h = (Status s, None)).
Proof.
  intros Hd Hlen Hord. unfold GetConsensusStatus, consensus_of. rewrite Hd.
  pose proof (max_step_spec order 0 EmptyString) as Hmax.
  destruct (foldl max_step (0, EmptyString) order) as [m x]. destruct Hmax as (H0 & Hall & Hin).
  pose proof (replica_statuses_len h s) as Hl. set (sts := replica_statuses h s) in *.
  assert (Hx : 2 ≤ m → occurrences x sts = m).
  { intros Hm. destruct Hin as [[= -> ->]|Hin]; [lia|]. rewrite Hord in Hin.
    apply elem_of_map_to_list in Hin. rewrite <- status_counts_zget. unfold zget. by rewrite Hin. }
  split.
  - intros st Hst. assert (Hm : occurrences st sts ≤ m).
    { rewrite <- status_counts_zget in *. unfold zget in *.
      destruct (status_counts sts !! st) as [c|] eqn:Hc; [|cbn in *; lia].
      rewrite Forall_forall in Hall. apply (Hall (st, c)). rewrite Hord.
      by apply elem_of_map_to_list. }
    destruct (Z.leb_spec 2 m); [|lia]. f_equal. destruct (decide (x = st)); [done|].
    pose proof (occurrences_two x st sts n). rewrite Hx in * by done. lia.
  - intros Hno. specialize (Hno x). destruct (Z.leb_spec 2 m); [|done]. rewrite Hx in Hno; lia.
Qed.

(** Two running replicas and a failed one. *)
Definition demo_store : Store :=
  mkStore (list_to_map [(1%N, mkContainer "c" "running"); (2%N, mkContainer "c" "failed");
    (3%N, mkContainer "c" "running")])
    {[1%N := mkState "c" "pending" [Some 1%N; Some 2%N; Some 3%N] 4]}.

Lemma consensus_is_majority_witness :
  GetConsensusStatus [("failed", 1); ("running", 2)] "c" {["c" := 1%N]} demo_store = ("running", None).
Proof.
  apply (consensus_is_majority [("failed", 1); ("running", 2)] "c" 1%N
    (mkState "c" "pending" [Some 1%N; Some 2%N; Some 3%N] 4)); [reflexivity|reflexivity| |].
  - vm_compute. first [reflexivity|apply perm_swap].
  - vm_compute. discriminate.
Defined.

(** ** Versions *)

Lemma deref_Some cm h id l s :
  deref cm h id = Some (l, s) → cm !! id = Some l ∧ state_objs h !! l = Some s.
Proof.
  unfold deref. destruct (cm !! id) as [l'|]; [|done]; cbn.
  destruct (state_objs h !! l') eqn:Hs; [|done]; cbn. intros [= <- <-]. done.
Qed.

Definition version_of (cm : ConsensusManager) (h : Store) (id : string) : Z :=
  from_option (λ ls, st_Version ls.2) 0 (deref cm h id).

Inductive cs_op :=
  | CsUpdate (id : string) (status : ContainerStatus) (replicas : list (option loc))
  | CsReplica (id : string) (idx : Z) (status : ContainerStatus)
  | CsMerge (id : string) (other : loc).

Definition cs_step (o : cs_op) (st : ConsensusManager * Store) : ConsensusManager * Store :=
  match o with
  | CsUpdate id status replicas => UpdateState id status replicas st.1 st.2
  | CsReplica id idx status => UpdateReplicaStatus id idx status st.1 st.2
  | CsMerge id other => (MergeState id other st.1 st.2, st.2)
  end.

(** Every name of the manager points to a state, and no version is close to
    overflowing; [budget] updates are still possible. *)
Definition cs_wf (budget : Z) (st : ConsensusManager * Store) : Prop :=
  budget ≤ max_int64 ∧
  (∀ id l, st.1 !! id = Some l → is_Some (state_objs st.2 !! l)) ∧
  map_Forall (λ _ s, 0 ≤ st_Version s ∧ st_Version s + budget ≤ max_int64) (state_objs st.2).

(** Writing a later version of a state through its location. *)
Lemma version_put cm h l s s' id :
  state_objs h !! l = Some s → st_Version s ≤ st_Version s' →
  version_of cm h id ≤ version_of cm (put_state l s' h) id.
Proof.
  intros Hl Hv. unfold version_of, deref. destruct (cm !! id) as [l'|]; [|done]; cbn.
  rewrite lookup_insert. case_decide; [subst; rewrite Hl; done|done].
Qed.

(** [ensure_state] changes no version. *)
Lemma ensure_state_spec id cm h budget :
  cs_wf budget (cm, h) →
  let '(cm', h', l, s) := ensure_state id cm h in
  cs_wf budget (cm', h') ∧ cm' !! id = Some l ∧ state_objs h' !! l = Some s ∧
  ∀ i, version_of cm' h' i = version_of cm h i.
Proof.
  intros (Hb & Hp & Hv); cbn in *. unfold ensure_state.
  destruct (deref cm h id) as [[l s]|] eqn:Hd.
  - unfold deref in Hd. destruct (cm !! id) as [l'|] eqn:Hl; [|done]; cbn in Hd.
    destruct (state_objs h !! l') eqn:Hs; simplify_eq/=. done.
  - assert (Hid : cm !! id = None).
    { destruct (cm !! id) as [l|] eqn:Hl; [|done]. destruct (Hp id l Hl) as [s Hs].
      unfold deref in Hd. rewrite Hl in Hd; cbn in Hd. by rewrite Hs in Hd. }
    set (l := fresh (dom (state_objs h))).
    assert (Hfr : state_objs h !! l = None) by (apply not_elem_of_dom, is_fresh).
    split_and!; [split_and!; cbn; [done| |]| | |]; try apply lookup_insert_eq.
    + intros i l'. rewrite !lookup_insert. repeat case_decide; intros; simplify_eq; eauto.
    + apply map_Forall_insert_2; [cbn; lia|done].
    + intros i. unfold version_of, deref; cbn. rewrite lookup_insert.
      case_decide; [subst; cbn; by rewrite Hid, lookup_insert_eq|].
      destruct (cm !! i) as [l'|] eqn:Hl'; [|done]; cbn.
      rewrite lookup_insert_ne; [done|]. intros <-. destruct (Hp i l Hl'). congruence.
Qed.

(** Overwriting the state of a name with the next version. *)
Lemma bump_spec cm h l s s' budget :
  cs_wf budget (cm, h) → 1 ≤ budget → state_objs h !! l = Some s →
  st_Version s' = wrap64 (st_Version s + 1) →
  cs_wf (budget - 1) (cm, put_state l s' h) ∧
  ∀ i, version_of cm h i ≤ version_of cm (put_state l s' h) i.
Proof.
  intros (Hb & Hp & Hv) Hbud Hl Hs'. cbn in *. destruct (Hv l s Hl) as [H0 H1].
  rewrite wrap64_id in Hs' by (unfold min_int64; lia). split.
  - split_and!; cbn; [lia| |].
    + intros i l' Hi. rewrite lookup_insert. case_decide; eauto.
    + apply map_Forall_insert_2; [lia|]. intros l' x Hx. destruct (Hv l' x Hx). lia.
  - intros i. eapply version_put; [done|lia].
Qed.

Lemma cs_wf_containers budget cm h c x :
  cs_wf budget (cm, h) → cs_wf budget (cm, put_container c x h).
Proof. done. Qed.

Lemma cs_step_mono budget o st i :
  1 ≤ budget → cs_wf budget st →
  (match o with CsMerge _ other => is_Some (state_objs st.2 !! other) | _ => True end) →
  cs_wf (budget - 1) (cs_step o st) ∧
  version_of st.1 st.2 i ≤ version_of (cs_step o st).1 (cs_step o st).2 i.
Proof.
  intros Hbud Hwf Ho. destruct st as [cm h]; cbn [fst snd] in *.
  destruct o as [id status replicas|id idx status|id other]; cbn [cs_step fst snd].
  - unfold UpdateState. pose proof (ensure_state_spec id cm h budget Hwf) as He.
    destruct (ensure_state id cm h) as [[[cm' h'] l] s]. destruct He as (Hwf' & _ & Hl & Hv).
    rewrite <- Hv. destruct (bump_spec cm' h' l s (mkState (ContainerID s) status replicas
      (wrap64 (st_Version s + 1))) budget Hwf' Hbud Hl eq_refl) as [H1 H2]. auto.
  - unfold UpdateReplicaStatus. pose proof (ensure_state_spec id cm h budget Hwf) as He.
    destruct (ensure_state id cm h) as [[[cm' h'] l] s]. destruct He as (Hwf' & _ & Hl & Hv).
    rewrite <- Hv. destruct (if _ && _ then _ else _) as [h2 reps] eqn:Hr.
    assert (Hobj : state_objs h2 = state_objs h').
    { repeat (case_match; simplify_eq/=; try done). }
    assert (Hwf2 : cs_wf budget (cm', h2)) by (unfold cs_wf in *; cbn in *; by rewrite Hobj).
    assert (Hver : version_of cm' h' i = version_of cm' h2 i)
      by (unfold version_of, deref; by rewrite Hobj).
    rewrite Hver. rewrite <- Hobj in Hl.
    destruct (bump_spec cm' h2 l s (mkState (ContainerID s) status reps
      (wrap64 (st_Version s + 1))) budget Hwf2 Hbud Hl eq_refl) as [H1 H2]. auto.
  - destruct Ho as [o Ho]. destruct Hwf as (Hb & Hp & Hv); cbn in *.
    unfold MergeState. destruct (deref cm h id) as [[l s]|] eqn:Hd; rewrite ?Ho.
    + destruct (Z.ltb_spec (st_Version s) (st_Version o)).
      2: { split; [|lia]. split_and!; cbn; [lia|done|]. intros l' x Hx. destruct (Hv l' x Hx). lia. }
      split; [split_and!; cbn; [lia| |]|].
      * intros j l'. rewrite lookup_insert. case_decide; intros; simplify_eq; eauto.
      * intros l' x Hx. destruct (Hv l' x Hx). lia.
      * unfold version_of, deref; cbn. rewrite lookup_insert. case_decide; [subst; cbn|done].
        rewrite Ho; cbn. unfold deref in Hd. rewrite Hd; cbn. lia.
    + split; [split_and!; cbn; [lia| |]|].
      * intros j l'. rewrite lookup_insert. case_decide; intros; simplify_eq; eauto.
      * intros l' x Hx. destruct (Hv l' x Hx). lia.
      * unfold version_of at 2, deref. rewrite lookup_insert. case_decide; [subst; cbn|].
        -- rewrite Ho; cbn. unfold version_of. rewrite Hd; cbn. by apply (Hv other).
        -- done.
Qed.

(** The states merged along a history exist in the store; updates only add
    states to it. *)
Definition merges_exist (ops : list cs_op) (h : Store) : Prop :=
  Forall (λ o, match o with CsMerge _ other => is_Some (state_objs h !! other) | _ => True end) ops.

Lemma ensure_keeps id cm h x l s h' cm' l' :
  ensure_state id cm h = (cm', h', l, s) →
  is_Some (state_objs h !! l') → is_Some (state_objs (put_state l x h') !! l').
Proof.
  unfold ensure_state. intros He Hl. assert (is_Some (state_objs h' !! l')).
  { destruct (deref cm h id) as [[? ?]|]; simplify_eq; [done|]. cbn. rewrite lookup_insert.
    case_decide; eauto. }
  cbn. rewrite lookup_insert. case_decide; eauto.
Qed.

Lemma cs_step_keeps o st l :
  is_Some (state_objs st.2 !! l) → is_Some (state_objs (cs_step o st).2 !! l).
Proof.
  intros Hl. destruct st as [cm h]; cbn in *. destruct o as [id status reps|id idx status|id other]; cbn.
  - unfold UpdateState. destruct (ensure_state id cm h) as [[[cm' h'] l'] s] eqn:He. cbn [snd].
    by eapply ensure_keeps.
  - unfold UpdateReplicaStatus. destruct (ensure_state id cm h) as [[[cm' h'] l'] s] eqn:He.
    destruct (if _ && _ then _ else _) as [h2 rs] eqn:Hr. cbn [snd].
    assert (Hobj : state_objs h2 = state_objs h') by (repeat (case_match; simplify_eq/=; try done)).
    pose proof (ensure_keeps id cm h (mkState (ContainerID s) status rs (wrap64 (st_Version s + 1)))
      l' s h' cm' l He Hl) as Hk. cbn in *. by rewrite Hobj.
  - done.
Qed.

(** Invariant.  The version of a container's state never goes back, whatever
    local updates and gossip merges happen, aliased states included, as long as
    fewer updates happen than fit in an int64. *)
Theorem versions_never_go_back ops st id :
  cs_wf (len ops) st → merges_exist ops st.2 →
  let st' := run cs_step ops st in
  version_of st.1 st.2 id ≤ version_of st'.1 st'.2 id.
Proof.
  revert st. induction ops as [|o ops IH]; intros st Hwf Hm st'; [done|].
  subst st'. rewrite run_cons. apply Forall_cons in Hm as [Ho Hm].
  destruct (cs_step_mono (len (o :: ops)) o st id) as [Hwf' Hv]; [cbn; lia|done..|].
  etrans; [exact Hv|]. apply IH.
  - replace (len ops) with (len (o :: ops) - 1) by (cbn; lia). done.
  - eapply Forall_impl; [exact Hm|]. intros []; [done..|]. apply cs_step_keeps.
Qed.

Lemma versions_never_go_back_witness :
  let st := ({["c" := 1%N]}, demo_store) in
  let st' := run cs_step [CsReplica "c" 1 "running"; CsUpdate "d" "pending" [None; None; None];
    CsMerge "d" 1%N] st in
  version_of st.1 st.2 "d" ≤ version_of st'.1 st'.2 "d".
Proof.
  apply versions_never_go_back.
  - split; [vm_compute; discriminate|]. split.
    + intros id l. cbn. rewrite lookup_singleton_Some. intros [_ <-]. vm_compute. eexists; reflexivity.
    + apply map_Forall_singleton. vm_compute. split; discriminate.
  - repeat constructor. vm_compute. eexists; reflexivity.
Defined.

(** ** Gossip *)

Definition merge_all (id : string) (others : list loc) (cm : ConsensusManager) (h : Store) :
    ConsensusManager :=
  foldl (λ cm other, MergeState id other cm h) cm others.

(** The states a node has seen: its own, if it has one, and those it merged. *)
Definition seen_states (id : string) (cm : ConsensusManager) (others : list loc) : list loc :=
  option_list (cm !! id) ++ others.

Lemma deref_self id l s cm h :
  cm !! id = Some l → state_objs h !! l = Some s → deref cm h id = Some (l, s).
Proof. intros Hl Hs. unfold deref. rewrite Hl; cbn. by rewrite Hs. Qed.

Lemma merge_all_other id id' others cm h :
  id' ≠ id → merge_all id others cm h !! id' = cm !! id'.
Proof.
  intros Hne. revert cm. induction others as [|o others IH]; intros cm; [done|].
  cbn. fold (merge_all id others (MergeState id o cm h) h). rewrite IH. unfold MergeState.
  repeat case_match; try done; by apply lookup_insert_ne.
Qed.

(** [d] is one of [ls] and no state of [ls] has a larger version. *)
Definition newest (h : Store) (ls : list loc) (d : loc) (s : ContainerState) : Prop :=
  d ∈ ls ∧ state_objs h !! d = Some s ∧
  (∀ l' s', l' ∈ ls → state_objs h !! l' = Some s' → st_Version s' ≤ st_Version s).

Lemma newest_single h l s : state_objs h !! l = Some s → newest h [l] l s.
Proof.
  intros Hs. split_and!; [set_solver|done|]. intros l' s' ->%list_elem_of_singleton ?. by simplify_eq.
Qed.

Lemma newest_pair h l s l1 s1 :
  state_objs h !! l = Some s → state_objs h !! l1 = Some s1 → st_Version s1 ≤ st_Version s →
  newest h [l; l1] l s ∧ newest h [l1; l] l s.
Proof.
  intros Hs Hs1 Hle. split; (split_and!; [set_solver|done|]); intros l' s' Hl' ?;
    apply elem_of_cons in Hl' as [->|Hl'%list_elem_of_singleton]; simplify_eq; lia.
Qed.

(** The newest of a list is found through the newest of its first part. *)
Lemma newest_app h ls ls' d sd l s :
  newest h ls d sd → newest h (d :: ls') l s → newest h (ls ++ ls') l s.
Proof.
  intros (Hd & Hsd & Hmax) (Hl & Hs & Hmax'). split_and!; [set_solver|done|].
  intros l' s' Hl' Hs'. assert (st_Version sd ≤ st_Version s) by (apply (Hmax' d); [set_solver|done]).
  apply elem_of_app in Hl' as [Hl'|Hl']; [|apply (Hmax' l'); [set_solver|done]].
  etrans; [by apply (Hmax l')|done].
Qed.

Lemma MergeState_newest id o cm h :
  Forall (λ l, is_Some (state_objs h !! l)) (seen_states id cm [o]) →
  ∃ d sd, MergeState id o cm h !! id = Some d ∧ newest h (seen_states id cm [o]) d sd.
Proof.
  unfold seen_states, MergeState, deref. intros [Hown [[so Hso] _]%Forall_cons]%Forall_app.
  destruct (cm !! id) as [l0|] eqn:Hl0; cbn in *.
  2: { exists o, so. split; [apply lookup_insert_eq|by apply newest_single]. }
  apply Forall_cons in Hown as [[s0 Hs0] _]. rewrite Hs0; cbn. rewrite Hso.
  destruct (Z.ltb_spec (st_Version s0) (st_Version so)).
  - exists o, so. split; [apply lookup_insert_eq|]. apply (newest_pair h o so l0 s0); [done|done|lia].
  - exists l0, s0. split; [done|]. by apply (newest_pair h l0 s0 o so).
Qed.

(** After the merges the name points to the newest state the node has seen. *)
Lemma merge_all_newest id others cm h :
  Forall (λ l, is_Some (state_objs h !! l)) (seen_states id cm others) →
  seen_states id cm others ≠ [] →
  ∃ l s, merge_all id others cm h !! id = Some l ∧ newest h (seen_states id cm others) l s.
Proof.
  revert cm. induction others as [|o others IH]; intros cm Hall Hne.
  { unfold seen_states in *. rewrite app_nil_r in *. cbn. destruct (cm !! id) as [l0|]; [|done].
    apply Forall_cons in Hall as [[s0 Hs0] _]. exists l0, s0. split; [done|by apply newest_single]. }
  assert (Hsplit : seen_states id cm (o :: others) = seen_states id cm [o] ++ others)
    by (unfold seen_states; by rewrite <- (assoc_L (++))).
  rewrite Hsplit in *. apply Forall_app in Hall as [Hfst Hrest].
  destruct (MergeState_newest id o cm h Hfst) as (d & sd & Hd & Hnew).
  assert (Hseen : seen_states id (MergeState id o cm h) others = d :: others)
    by (unfold seen_states; by rewrite Hd).
  cbn. fold (merge_all id others (MergeState id o cm h) h).
  destruct (IH (MergeState id o cm h)) as (l & s & Hl & Hls); rewrite Hseen in *; [|done|].
  - constructor; [|done]. destruct Hnew as (_ & Hsd & _). by eauto.
  - exists l, s. split; [done|by eapply newest_app].
Qed.

(** Different states have different versions. *)
Definition versions_distinct (ls : list loc) (h : Store) : Prop :=
  ∀ a b s s', a ∈ ls → b ∈ ls → state_objs h !! a = Some s → state_objs h !! b = Some s' →
    st_Version s = st_Version s' → a = b.

(** The newest is strictly newest, and so unique, when versions are distinct. *)
Lemma newest_strict h ls d s :
  newest h ls d s → versions_distinct ls h →
  ∀ l' s', l' ∈ ls → state_objs h !! l' = Some s' → l' ≠ d → st_Version s' < st_Version s.
Proof.
  intros (Hd & Hs & Hmax) Hdist l' s' Hl' Hs' Hne. pose proof (Hmax l' s' Hl' Hs').
  destruct (decide (st_Version s' = st_Version s)) as [Heq|]; [|lia].
  destruct Hne. by eapply Hdist.
Qed.

(** C26: equivalence.  Gossip converges to the last write.  Two nodes that have seen the
    same states of a container, each counting its own and those it merged, in
    any order and any number of times, whether or not they started with a state
    and whichever it was, hold the same state afterwards: the only one of the
    largest version, when no two of the states have the same version.  Merging
    changes no other container. *)
Theorem merge_converges id others others' cm cm' h :
  seen_states id cm others ≠ [] →
  (∀ l, l ∈ seen_states id cm others ↔ l ∈ seen_states id cm' others') →
  Forall (λ l, is_Some (state_objs h !! l)) (seen_states id cm others) →
  versions_distinct (seen_states id cm others) h →
  (∃ l s, l ∈ seen_states id cm others ∧ state_objs h !! l = Some s ∧
    (∀ l' s', l' ∈ seen_states id cm others → state_objs h !! l' = Some s' → l' ≠ l →
      st_Version s' < st_Version s) ∧
    deref (merge_all id others cm h) h id = Some (l, s) ∧
    deref (merge_all id others' cm' h) h id = Some (l, s)) ∧
  (∀ id', id' ≠ id → merge_all id others cm h !! id' = cm !! id').
Proof.
  intros Hne Hiff Hall Hdist. split; [|intros; by apply merge_all_other].
  destruct (merge_all_newest id others cm h Hall Hne) as (l & s & Hl & Hnew).
  destruct (merge_all_newest id others' cm' h) as (l1 & s1 & Hl1 & (Hin1 & Hs1 & Hmax1)).
  { rewrite Forall_forall in *. intros x Hx. by apply Hall, Hiff. }
  { destruct Hnew as [Hin _]. apply Hiff in Hin. by destruct (seen_states id cm' others'); [set_solver|]. }
  pose proof (newest_strict _ _ _ _ Hnew Hdist) as Hstrict. destruct Hnew as (Hin & Hs & Hmax).
  assert (l1 = l) as ->.
  { destruct (decide (l1 = l)) as [|Hd]; [done|].
    pose proof (Hstrict l1 s1 (proj2 (Hiff _) Hin1) Hs1 Hd).
    pose proof (Hmax1 l s (proj1 (Hiff _) Hin) Hs). lia. }
  exists l, s. split_and!; [done..| |]; by apply deref_self.
Qed.

(** Three states of container "c"; the last two have the same version. *)
Definition gossip_store : Store :=
  mkStore ∅ (list_to_map [(1%N, mkState "c" "pending" [None; None; None] 1);
    (2%N, mkState "c" "running" [None; None; None] 2);
    (3%N, mkState "c" "failed" [None; None; None] 2)]).

(** One node starts with the older state and hears of the newer; the other has
    no state and hears of both. *)
Lemma merge_converges_witness :
  ∃ l s, l ∈ [1%N; 2%N] ∧ state_objs gossip_store !! l = Some s ∧
    deref (merge_all "c" [2%N] {["c" := 1%N]} gossip_store) gossip_store "c" = Some (l, s) ∧
    deref (merge_all "c" [2%N; 1%N; 2%N] ∅ gossip_store) gossip_store "c" = Some (l, s).
Proof.
  destruct (merge_converges "c" [2%N] [2%N; 1%N; 2%N] {["c" := 1%N]} ∅ gossip_store) as [(l & s & H) _].
  - discriminate.
  - intros l. change (l ∈ [1%N; 2%N] ↔ l ∈ [2%N; 1%N; 2%N]). set_solver.
  - repeat constructor; vm_compute; eexists; reflexivity.
  - intros a b s s' Ha Hb. change (a ∈ [1%N; 2%N]) in Ha. change (b ∈ [1%N; 2%N]) in Hb.
    rewrite !elem_of_cons in Ha, Hb.
    destruct Ha as [->|[->|Ha]]; [..|by apply not_elem_of_nil in Ha];
    destruct Hb as [->|[->|Hb]]; try (by apply not_elem_of_nil in Hb);
    intros [= <-] [= <-]; intros [=]; reflexivity.
  - exists l, s. destruct H as (H1 & H2 & _ & H3 & H4). exact (conj H1 (conj H2 (conj H3 H4))).
Defined.

(** Safety.  Two updates of the same version are never reconciled: each node
    keeps the one it saw first, and merging them again changes nothing. *)
Theorem merge_tie_diverges :
  let a := merge_all "c" [2%N; 3%N; 2%N; 3%N] {["c" := 1%N]} gossip_store in
  let b := merge_all "c" [3%N; 2%N; 3%N; 2%N] {["c" := 1%N]} gossip_store in
  (Status ∘ snd) <$> deref a gossip_store "c" = Some "running" ∧
  (Status ∘ snd) <$> deref b gossip_store "c" = Some "failed".
Proof. vm_compute. split; reflexivity. Qed.
