(* ===== verification/Replicas.v ===== *)
(** * Replica sets, their health and failover

    [Replicator] (internal/redundancy/replicator.go), [HealthMonitor]
    (internal/redundancy/health.go) and [FailoverManager]
    (internal/redundancy/failover.go).

    Containers are pointers the managers only store and hand out, so a
    container is a location.  The loops over Go maps take the order in which
    they visit the map.  [checkHealth] is not atomic: it takes a snapshot and
    then treats the entries one by one ([check_one]), so other operations may
    run in between.

    Theorems: replica sets keep their shape; the monitor tracks at most 10000
    containers and marks exactly the silent replicas; a failover replaces
    exactly the unhealthy replicas, whatever the order; and where order or
    interleaving does matter. *)

From S2P Require Import Prelude Float64.
Local Open Scope Z_scope.

Abbreviation container := N (only parsing).

(** ** The replicator *)

Record ReplicaSet := mkSet {
  rs_ContainerID : string;
  rs_Replicas : list (option container);
  Regions : list string;
  rs_CreatedAt : time
}.

Abbreviation Replicator := (gmap string ReplicaSet).

Definition NewReplicator : Replicator := ∅.

Inductive ReplicaError :=
  | NoRegions | SetNotFound | InvalidIndex (i : Z) | ReplacementFailed.

Definition CreateReplicaSet (now : time) (id : string) (regions : list string) (r : Replicator) :
    Replicator * (ReplicaError + ReplicaSet) :=
  match regions with
  | [] => (r, inl NoRegions)
  | _ =>
      let regions := take 3 regions in
      let s := mkSet id (replicate (length regions) None) regions now in
      (<[id := s]> r, inr s)
  end.

Definition set_slot (id : string) (replicaIndex : Z) (c : option container) (r : Replicator) :
    Replicator * option ReplicaError :=
  match r !! id with
  | None => (r, Some SetNotFound)
  | Some s =>
      if (replicaIndex <? 0) || (len (rs_Replicas s) <=? replicaIndex)
      then (r, Some (InvalidIndex replicaIndex))
      else (<[id := mkSet (rs_ContainerID s) (<[Z.to_nat replicaIndex := c]> (rs_Replicas s))
              (Regions s) (rs_CreatedAt s)]> r, None)
  end.

Definition AddReplica (id : string) (replicaIndex : Z) (c : option container) (r : Replicator) :=
  set_slot id replicaIndex c r.

Definition RemoveReplica (id : string) (replicaIndex : Z) (r : Replicator) :=
  set_slot id replicaIndex None r.

Definition ReplaceReplica (id : string) (replicaIndex : Z) (c : option container) (r : Replicator) :=
  AddReplica id replicaIndex c r.

Definition GetReplicaSet (id : string) (r : Replicator) : option ReplicaSet := r !! id.

Definition DeleteReplicaSet (id : string) (r : Replicator) : Replicator := delete id r.

(** ** The health monitor *)

Definition maxTrackedContainers : Z := 10000.

Record HealthStatus := mkHealthStatus {
  CPUUsage : float64;
  MemoryUsage : Z;
  DiskUsage : Z;
  NetworkIn : Z;
  NetworkOut : Z;
  hs_LastUpdate : time;
  hs_Healthy : bool
}.

Record ReplicaHealth := mkHealth {
  rh_ContainerID : string;
  ReplicaIndex : Z;
  LastHeartbeat : time;
  Health : HealthStatus;
  Healthy : bool
}.

Record HealthMonitor := mkHM {
  hm_replicas : gmap string (gmap Z ReplicaHealth);
  timeout : duration
}.

Definition NewHealthMonitor : HealthMonitor := mkHM ∅ (30 * second).

(** Keep the containers with a heartbeat after the cutoff. *)
Definition cleanStaleLocked (now : time) (maxAge : duration) (hm : HealthMonitor) : HealthMonitor :=
  let cutoff := now - maxAge in
  mkHM (filter (λ kv, existsb (λ ih, cutoff <? LastHeartbeat ih.2) (map_to_list kv.2) = true)
    (hm_replicas hm))
    (timeout hm).

Definition CleanStale := cleanStaleLocked.

(** At capacity, drop the stale containers. *)
Definition make_room (now : time) (hm : HealthMonitor) : HealthMonitor :=
  if maxTrackedContainers <=? Z.of_nat (size (hm_replicas hm))
  then cleanStaleLocked now (timeout hm) hm else hm.

(** The entry of a replica of a tracked container. *)
Definition store_health (now : time) (id : string) (replicaIndex : Z) (health : HealthStatus)
    (hm : HealthMonitor) : HealthMonitor :=
  let lastHeartbeat := if time_is_zero (hs_LastUpdate health) then now else hs_LastUpdate health in
  let entry := mkHealth id replicaIndex lastHeartbeat health (hs_Healthy health) in
  mkHM (alter (<[replicaIndex := entry]>) id (hm_replicas hm)) (timeout hm).

Definition UpdateHealth (now : time) (id : string) (replicaIndex : Z) (health : HealthStatus)
    (hm : HealthMonitor) : HealthMonitor :=
  match hm_replicas hm !! id with
  | Some _ => store_health now id replicaIndex health hm
  | None =>
      let hm := make_room now hm in
      if maxTrackedContainers <=? Z.of_nat (size (hm_replicas hm)) then hm
      else store_health now id replicaIndex health
             (mkHM (<[id := ∅]> (hm_replicas hm)) (timeout hm))
  end.

Definition GetHealth (id : string) (replicaIndex : Z) (hm : HealthMonitor) : option ReplicaHealth :=
  rs ← hm_replicas hm !! id; rs !! replicaIndex.

Definition IsHealthy (now : time) (id : string) (replicaIndex : Z) (hm : HealthMonitor) : bool :=
  match GetHealth id replicaIndex hm with
  | None => false
  | Some h => Healthy h && (time_sub now (LastHeartbeat h) <? timeout hm)
  end.

Definition unhealthy (now : time) (hm : HealthMonitor) (h : ReplicaHealth) : bool :=
  negb (Healthy h) || (timeout hm <? time_sub now (LastHeartbeat h)).

Definition GetUnhealthyReplicas (now : time) (order : list Z) (id : string) (hm : HealthMonitor) : list Z :=
  filter (λ i, from_option (unhealthy now hm) false (GetHealth id i hm) = true) order.

Definition hm_RemoveContainer (id : string) (hm : HealthMonitor) : HealthMonitor :=
  mkHM (delete id (hm_replicas hm)) (timeout hm).

(** What [checkHealth] remembers of a replica. *)
Record snapshot := mkSnap {
  sn_id : string;
  sn_idx : Z;
  sn_healthy : bool;
  sn_heartbeat : time
}.

Definition snapshots (order : list (string * Z)) (hm : HealthMonitor) : list snapshot :=
  ki ← order;
  match GetHealth ki.1 ki.2 hm with
  | Some h => [mkSnap ki.1 ki.2 (Healthy h) (LastHeartbeat h)]
  | None => []
  end.

(** The verdict on one snapshot; [since] is the clock reading of [time.Since].
    A probe answers, or fails with an error. *)
Definition judged (since : time) (probe : option (string → option bool)) (to : duration)
    (s : snapshot) : bool :=
  match probe with
  | Some probe =>
      if sn_idx s =? 0 then default false (probe (sn_id s))
      else if to <? time_sub since (sn_heartbeat s) then false else sn_healthy s
  | None => if to <? time_sub since (sn_heartbeat s) then false else sn_healthy s
  end.

Definition mark (now : time) (healthy : bool) (h : ReplicaHealth) : ReplicaHealth :=
  mkHealth (rh_ContainerID h) (ReplicaIndex h) now (Health h) healthy.

(** The loop body of [checkHealth] for one snapshot: the verdict, and the write
    under the lock at [now] when it differs from the snapshot. *)
Definition check_one (since now : time) (probe : option (string → option bool)) (s : snapshot)
    (hm : HealthMonitor) : HealthMonitor :=
  let healthy := judged since probe (timeout hm) s in
  if Bool.eqb healthy (sn_healthy s) then hm
  else mkHM (alter (alter (mark now healthy) (sn_idx s)) (sn_id s) (hm_replicas hm)) (timeout hm).

(** A pass that nothing interrupts; [clock] gives the two readings made for
    each snapshot. *)
Definition checkHealth (clock : snapshot → time * time) (probe : option (string → option bool))
    (order : list (string * Z)) (hm : HealthMonitor) : HealthMonitor :=
  foldl (λ hm s, check_one (clock s).1 (clock s).2 probe s hm) hm (snapshots order hm).

(** ** Failover *)

Section Failover.
Context (onFailover : option (string → Z → string → option container)).
Context (verifyProvider : option (string → string → bool)).

(** The loop of [CheckAndFailover] over the unhealthy indices. *)
Fixpoint replace_all (id : string) (regions : list string) (idxs : list Z) (r : Replicator) :
    Replicator * option ReplicaError :=
  match idxs with
  | [] => (r, None)
  | i :: idxs =>
      if (i <? 0) || (len regions <=? i) then (r, Some (InvalidIndex i))
      else
        let region := nth (Z.to_nat i) regions EmptyString in
        if match verifyProvider with Some verify => negb (verify id region) | None => false end
        then replace_all id regions idxs r
        else match onFailover with
        | None => replace_all id regions idxs r
        | Some failover =>
            match failover id i region with
            | None => (r, Some ReplacementFailed)
            | Some c =>
                match AddReplica id i (Some c) r with
                | (r, Some e) => (r, Some e)
                | (r, None) => replace_all id regions idxs r
                end
            end
        end
  end.

Definition CheckAndFailover (now : time) (order : list Z) (id : string) (hm : HealthMonitor)
    (r : Replicator) : Replicator * option ReplicaError :=
  match GetUnhealthyReplicas now order id hm with
  | [] => (r, None)
  | idxs =>
      match GetReplicaSet id r with
      | None => (r, Some SetNotFound)
      | Some s => replace_all id (Regions s) idxs r
      end
  end.

(** [checkAllContainers]; a failed check is only logged.  [orders] gives the
    order for each container's health map. *)
Definition checkAllContainers (now : time) (ids : list string) (orders : string → list Z)
    (hm : HealthMonitor) (r : Replicator) : Replicator :=
  foldl (λ r id, (CheckAndFailover now (orders id) id hm r).1) r ids.
End Failover.

(** ** Shape of the replica sets *)

Definition set_ok (s : ReplicaSet) : Prop :=
  length (rs_Replicas s) = length (Regions s) ∧ (1 ≤ length (Regions s) ≤ 3)%nat.

Inductive rp_op :=
  | RpCreate (now : time) (id : string) (regions : list string)
  | RpSet (id : string) (i : Z) (c : option container)
  | RpDelete (id : string).

Definition rp_step (o : rp_op) (r : Replicator) : Replicator :=
  match o with
  | RpCreate now id regions => (CreateReplicaSet now id regions r).1
  | RpSet id i c => (set_slot id i c r).1
  | RpDelete id => DeleteReplicaSet id r
  end.

Lemma set_ok_step o (r : Replicator) :
  map_Forall (λ _ s, set_ok s) r → map_Forall (λ _ s, set_ok s) (rp_step o r).
Proof.
  intros Hr. destruct o as [now id regions|id i c|id]; cbn.
  - unfold CreateReplicaSet. destruct regions as [|x xs]; [done|]. cbn [fst].
    apply map_Forall_insert_2; [|done]. unfold set_ok; cbn [rs_Replicas Regions].
    rewrite length_replicate, !length_take. cbn [length]. lia.
  - unfold set_slot. destruct (r !! id) as [s|] eqn:Hs; [|done].
    destruct (_ || _); [done|]. apply map_Forall_insert_2; [|done].
    destruct (Hr id s Hs) as [H1 H2]. split; cbn; [by rewrite length_insert|done].
  - by apply map_Forall_delete.
Qed.

(** Invariant.  In every history of a replicator each replica set has one to
    three slots and exactly one region per slot; and a slot that was assigned
    is what [GetReplicaSet] returns for it until it is assigned again. *)
Theorem replica_sets_shape ops id s :
  GetReplicaSet id (run rp_step ops NewReplicator) = Some s →
  length (rs_Replicas s) = length (Regions s) ∧ (1 ≤ length (Regions s) ≤ 3)%nat ∧
  (∀ i c, 0 ≤ i < len (Regions s) →
     (AddReplica id i c (run rp_step ops NewReplicator)).2 = None ∧
     ∃ s', GetReplicaSet id (AddReplica id i c (run rp_step ops NewReplicator)).1 = Some s' ∧
       ∀ j, rs_Replicas s' !! j =
         if decide (j = Z.to_nat i) then Some c else rs_Replicas s !! j).
Proof.
  intros Hs. set (r := run rp_step ops NewReplicator) in *.
  assert (Hok : map_Forall (λ _ s, set_ok s) r).
  { apply run_preserves; [intros; by apply set_ok_step|apply map_Forall_empty]. }
  destruct (Hok id s Hs) as [H1 H2]. split_and!; [done|lia|lia|].
  intros i c Hi. unfold AddReplica, set_slot, GetReplicaSet in *. rewrite Hs.
  destruct ((i <? 0) || (len (rs_Replicas s) <=? i)) eqn:Hb.
  { apply orb_prop in Hb as [Hb|Hb]; zbool; lia. }
  split; [done|]. eexists. split; [apply lookup_insert_eq|]. intros j; cbn.
  rewrite list_lookup_insert. repeat case_decide; try done; naive_solver lia.
Qed.

Definition demo_replicator : Replicator := run rp_step [RpCreate 5 "c" ["eu"; "us"]] NewReplicator.
Definition demo_set : ReplicaSet := mkSet "c" [None; None] ["eu"; "us"] 5.

Lemma replica_sets_shape_witness :
  length (rs_Replicas demo_set) = length (Regions demo_set) ∧
  ((1 ≤ length (Regions demo_set) ≤ 3)%nat) ∧
  (∀ i c, 0 ≤ i < len (Regions demo_set) →
     (AddReplica "c" i c demo_replicator).2 = None ∧
     ∃ s', GetReplicaSet "c" (AddReplica "c" i c demo_replicator).1 = Some s' ∧
       ∀ j, rs_Replicas s' !! j = if decide (j = Z.to_nat i) then Some c else rs_Replicas demo_set !! j).
Proof. apply (replica_sets_shape [RpCreate 5 "c" ["eu"; "us"]] "c" demo_set). reflexivity. Defined.

(** ** The monitor's capacity *)

(** The locked sections of the monitor, in any interleaving: a pass is a
    snapshot followed by one [HmVerdict] per replica. *)
Inductive hm_op :=
  | HmUpdate (now : time) (id : string) (i : Z) (h : HealthStatus)
  | HmVerdict (since now : time) (probe : option (string → option bool)) (s : snapshot)
  | HmClean (now : time) (maxAge : duration)
  | HmRemove (id : string).

Definition hm_step (o : hm_op) (hm : HealthMonitor) : HealthMonitor :=
  match o with
  | HmUpdate now id i h => UpdateHealth now id i h hm
  | HmVerdict since now probe s => check_one since now probe s hm
  | HmClean now maxAge => CleanStale now maxAge hm
  | HmRemove id => hm_RemoveContainer id hm
  end.

Lemma size_alter {A} (f : A → A) (k : string) (m : gmap string A) : size (alter f k m) = size m.
Proof. rewrite <- !size_dom, dom_alter_L. done. Qed.

Lemma size_clean now maxAge hm :
  (size (hm_replicas (cleanStaleLocked now maxAge hm)) ≤ size (hm_replicas hm))%nat.
Proof. cbn. apply map_subseteq_size, map_filter_subseteq. Qed.

Lemma size_check since now probe s hm :
  size (hm_replicas (check_one since now probe s hm)) = size (hm_replicas hm).
Proof. unfold check_one. destruct (Bool.eqb _ _); [done|]. apply size_alter. Qed.

(** Bounds.  The monitor never tracks more than 10000 containers, whatever
    updates arrive, between the verdicts of a pass too. *)
Theorem health_capacity ops :
  Z.of_nat (size (hm_replicas (run hm_step ops NewHealthMonitor))) ≤ maxTrackedContainers.
Proof.
  apply (run_preserves hm_step (λ hm, Z.of_nat (size (hm_replicas hm)) ≤ maxTrackedContainers)).
  2: { cbn. rewrite map_size_empty. unfold maxTrackedContainers. lia. }
  intros o hm Hsz. destruct o as [now id i h|since now probe s|now maxAge|id]; cbn [hm_step].
  - unfold UpdateHealth. destruct (hm_replicas hm !! id) eqn:Hid; [cbn; by rewrite size_alter|].
    assert (Hr : (size (hm_replicas (make_room now hm)) ≤ size (hm_replicas hm))%nat).
    { unfold make_room. destruct (_ <=? _); [apply size_clean|done]. }
    destruct (Z.leb_spec maxTrackedContainers (Z.of_nat (size (hm_replicas (make_room now hm))))); [lia|].
    cbn [hm_replicas store_health]. rewrite size_alter, map_size_insert. case_match; cbn; lia.
  - by rewrite size_check.
  - pose proof (size_clean now maxAge hm). unfold CleanStale. lia.
  - cbn. etrans; [|exact Hsz]. apply inj_le, map_subseteq_size, delete_subseteq.
Qed.

(** ** A pass of the monitor *)

Lemma GetHealth_check_one since now probe s hm id i :
  GetHealth id i (check_one since now probe s hm) =
    if decide ((id, i) = (sn_id s, sn_idx s) ∧ judged since probe (timeout hm) s ≠ sn_healthy s)
    then mark now (judged since probe (timeout hm) s) <$> GetHealth id i hm
    else GetHealth id i hm.
Proof.
  unfold check_one. destruct (Bool.eqb _ _) eqn:He.
  { apply Bool.eqb_prop in He. rewrite decide_False; [done|]. naive_solver. }
  apply eqb_false_iff in He. unfold GetHealth; cbn [hm_replicas].
  destruct (decide (id = sn_id s)) as [->|Hid].
  - rewrite lookup_alter_eq. destruct (hm_replicas hm !! sn_id s) as [rs|]; cbn.
    2: { case_decide; done. }
    destruct (decide (i = sn_idx s)) as [->|Hi].
    + by rewrite lookup_alter_eq, decide_True.
    + rewrite lookup_alter_ne by done. rewrite decide_False; [done|]. naive_solver.
  - rewrite lookup_alter_ne by done. rewrite decide_False; [done|]. naive_solver.
Qed.

Lemma hm_step_timeout o hm : timeout (hm_step o hm) = timeout hm.
Proof.
  destruct o; cbn; try done.
  - unfold UpdateHealth, make_room. repeat case_match; done.
  - unfold check_one. by destruct (Bool.eqb _ _).
Qed.

(** The snapshot an operation gives its verdict on. *)
Definition verdict_on (o : hm_op) : option snapshot :=
  match o with HmVerdict _ _ _ s => Some s | _ => None end.

Definition uses_probe (probe : option (string → option bool)) (o : hm_op) : Prop :=
  match o with HmVerdict _ _ p _ => p = probe | _ => True end.

(** [ops] is a pass over [hm] with other operations in between: its verdicts are
    on the snapshots of [hm], in their order and with one probe. *)
Definition is_pass (probe : option (string → option bool)) (order : list (string * Z))
    (hm : HealthMonitor) (ops : list hm_op) : Prop :=
  omap verdict_on ops = snapshots order hm ∧ Forall (uses_probe probe) ops.

(** The operations of [ops] between the verdicts leave the entry of a replica as
    they find it. *)
Definition leave_alone (id : string) (i : Z) (ops : list hm_op) (hm : HealthMonitor) : Prop :=
  ∀ pre o post, ops = pre ++ o :: post → verdict_on o = None →
    GetHealth id i (hm_step o (run hm_step pre hm)) = GetHealth id i (run hm_step pre hm).

(** [checkHealth] on its own is such a pass. *)
Lemma checkHealth_pass clock probe order hm :
  let ops := (λ s, HmVerdict (clock s).1 (clock s).2 probe s) <$> snapshots order hm in
  checkHealth clock probe order hm = run hm_step ops hm ∧ is_pass probe order hm ops.
Proof.
  cbn. unfold checkHealth, is_pass. generalize (snapshots order hm). intros l. split_and!.
  - unfold run. revert hm. induction l as [|s l IH]; intros hm; cbn; [done|]. by rewrite IH.
  - induction l as [|s l IH]; cbn; [done|]. by rewrite IH.
  - rewrite Forall_fmap. by apply Forall_true.
Qed.

Lemma snapshots_keys order hm id i :
  (id, i) ∈ (λ s, (sn_id s, sn_idx s)) <$> snapshots order hm → (id, i) ∈ order.
Proof.
  unfold snapshots. rewrite list_elem_of_fmap. intros (s & Hs & Hin).
  apply list_elem_of_bind in Hin as ([id' i'] & Hin & Ho). cbn in Hin.
  destruct (GetHealth id' i' hm); [|by apply not_elem_of_nil in Hin].
  apply list_elem_of_singleton in Hin as ->. cbn in Hs. by simplify_eq.
Qed.

(** The snapshot of a replica occurs once. *)
Lemma snapshots_split order hm id i h :
  NoDup order → (id, i) ∈ order → GetHealth id i hm = Some h →
  ∃ l1 l2, snapshots order hm = l1 ++ mkSnap id i (Healthy h) (LastHeartbeat h) :: l2 ∧
    (id, i) ∉ (λ s, (sn_id s, sn_idx s)) <$> l1 ++ l2.
Proof.
  intros Hnd (o1 & o2 & ->)%list_elem_of_split Hh.
  apply NoDup_app in Hnd as (_ & Hdis & Hnd%NoDup_cons). destruct Hnd as [Hni _].
  exists (snapshots o1 hm), (snapshots o2 hm). split.
  - unfold snapshots. rewrite bind_app, bind_cons; cbn. by rewrite Hh.
  - rewrite fmap_app, elem_of_app. intros [Hin%snapshots_keys|Hin%snapshots_keys]; [|done].
    apply (Hdis _ Hin). left.
Qed.

(** Verdicts on other replicas and operations that leave the entry alone. *)
Lemma run_other ops id i hm :
  leave_alone id i ops hm → (id, i) ∉ (λ s, (sn_id s, sn_idx s)) <$> omap verdict_on ops →
  GetHealth id i (run hm_step ops hm) = GetHealth id i hm.
Proof.
  induction ops as [|o ops IH] using rev_ind; intros Hal Hni; [done|].
  rewrite omap_app, fmap_app, not_elem_of_app in Hni. destruct Hni as [Hni Ho].
  rewrite run_app, run_cons, run_nil. rewrite <- IH; [|intros pre o' post -> Hn; eapply (Hal pre o' (post ++ [o])); [|done];
    by rewrite <- (assoc_L (++))|done].
  destruct (verdict_on o) as [s|] eqn:Hv; [|by apply (Hal ops o [])].
  destruct o; simplify_eq/=. rewrite GetHealth_check_one, decide_False; [done|].
  intros [[= -> ->] _]. apply Ho. left.
Qed.

Lemma omap_split {A B} (f : A → option B) (ops : list A) l1 s l2 :
  omap f ops = l1 ++ s :: l2 →
  ∃ ops1 o ops2, ops = ops1 ++ o :: ops2 ∧ omap f ops1 = l1 ∧ f o = Some s ∧ omap f ops2 = l2.
Proof.
  revert l1. induction ops as [|o ops IH]; intros l1 H; cbn in H; [by destruct l1|].
  destruct (f o) as [x|] eqn:Hf.
  - destruct l1 as [|y l1]; simplify_eq/=; [by exists [], o, ops|].
    destruct (IH l1) as (ops1 & o' & ops2 & -> & <- & ? & <-); [done|].
    exists (o :: ops1), o', ops2. cbn. by rewrite Hf.
  - destruct (IH l1 H) as (ops1 & o' & ops2 & -> & <- & ? & <-).
    exists (o :: ops1), o', ops2. cbn. by rewrite Hf.
Qed.

Lemma leave_alone_prefix id i ops ops' hm :
  leave_alone id i (ops ++ ops') hm → leave_alone id i ops hm.
Proof. intros Hal pre o post -> Hn. eapply Hal; [|done]. by rewrite <- (assoc_L (++)). Qed.

Lemma leave_alone_suffix id i ops ops' hm :
  leave_alone id i (ops ++ ops') hm → leave_alone id i ops' (run hm_step ops hm).
Proof.
  intros Hal pre o post -> Hn. rewrite <- run_app. eapply Hal; [|done]. by rewrite <- (assoc_L (++)).
Qed.

Lemma run_timeout ops hm : timeout (run hm_step ops hm) = timeout hm.
Proof.
  apply (run_preserves hm_step (λ x, timeout x = timeout hm)); [|done].
  intros o x Hx. by rewrite hm_step_timeout.
Qed.

(** A pass comes down to the one verdict on the replica. *)
Lemma pass_verdict probe order hm ops id i h :
  let sn := mkSnap id i (Healthy h) (LastHeartbeat h) in
  NoDup order → (id, i) ∈ order → GetHealth id i hm = Some h →
  is_pass probe order hm ops → leave_alone id i ops hm →
  ∃ since now, HmVerdict since now probe sn ∈ ops ∧
    let v := judged since probe (timeout hm) sn in
    GetHealth id i (run hm_step ops hm) = Some (if Bool.eqb v (Healthy h) then h else mark now v h).
Proof.
  intros sn Hnd Hin Hh [Hpass Huse] Hal.
  destruct (snapshots_split order hm id i h Hnd Hin Hh) as (l1 & l2 & Hsn & Hni).
  rewrite Hsn in Hpass. rewrite fmap_app, not_elem_of_app in Hni. destruct Hni as [Hni1 Hni2].
  destruct (omap_split _ _ _ _ _ Hpass) as (ops1 & o & ops2 & -> & Hl1 & Ho & Hl2).
  destruct o as [|since now p s| |]; simplify_eq/=. fold sn in Huse, Hal |- *.
  apply Forall_app in Huse as [_ Huse]. apply Forall_cons in Huse as [Hp _]. cbn in Hp. subst p.
  exists since, now. split; [set_solver|]. cbn.
  rewrite (cons_middle _ ops1 ops2), (assoc_L (++)) in Hal |- *. rewrite run_app, run_other; [|by apply leave_alone_suffix|done].
  rewrite run_app, run_cons, run_nil. cbn [hm_step]. rewrite GetHealth_check_one, run_timeout.
  rewrite run_other; [|by do 2 eapply leave_alone_prefix|done]. rewrite Hh.
  destruct (Bool.eqb _ _) eqn:He.
  - apply Bool.eqb_prop in He. rewrite decide_False; [done|]. intros [_ Hn]. by apply Hn.
  - apply eqb_false_iff in He. by rewrite decide_True.
Qed.

(** C27: functional.  A pass of the health monitor, in any order and with other
    operations between its verdicts, gives its verdict on each replica exactly
    once, with a clock reading of its own.  The local replica (index 0, when
    there is a probe) is healthy afterwards exactly when its probe answers yes,
    an error counting as no; any other replica exactly when it was healthy and
    its last heartbeat is not older than the timeout.  A replica whose health
    changes is stamped with the time of the write and keeps everything else; a
    replica whose health does not change is left as it was. *)
Theorem checkHealth_judges_all probe order hm ops id i h :
  NoDup order → (id, i) ∈ order → GetHealth id i hm = Some h →
  is_pass probe order hm ops → leave_alone id i ops hm →
  ∃ since now h',
    HmVerdict since now probe (mkSnap id i (Healthy h) (LastHeartbeat h)) ∈ ops ∧
    GetHealth id i (run hm_step ops hm) = Some h' ∧
    (∀ p, probe = Some p → i = 0 → (Healthy h' = true ↔ p id = Some true)) ∧
    (probe = None ∨ i ≠ 0 →
      (Healthy h' = true ↔ Healthy h = true ∧ time_sub since (LastHeartbeat h) ≤ timeout hm)) ∧
    (Healthy h' = Healthy h → h' = h) ∧
    (Healthy h' ≠ Healthy h →
      h' = mkHealth (rh_ContainerID h) (ReplicaIndex h) now (Health h) (Healthy h')).
Proof.
  intros Hnd Hin Hh Hpass Hal.
  destruct (pass_verdict probe order hm ops id i h Hnd Hin Hh Hpass Hal) as (since & now & Hev & Hend).
  cbn in Hend. set (v := judged since probe (timeout hm) _) in *.
  exists since, now, (if Bool.eqb v (Healthy h) then h else mark now v h).
  assert (Hv : Healthy (if Bool.eqb v (Healthy h) then h else mark now v h) = v).
  { destruct (Bool.eqb v (Healthy h)) eqn:He; [by apply Bool.eqb_prop in He|done]. }
  rewrite Hv. split_and!; [done|done| | | |].
  - intros p -> ->. unfold v; cbn. destruct (p id) as [[]|]; cbn; naive_solver.
  - intros Hremote. assert (Hj : v = if timeout hm <? time_sub since (LastHeartbeat h) then false else Healthy h).
    { unfold v, judged; cbn. destruct probe; [|done]. destruct (Z.eqb_spec i 0); naive_solver. }
    rewrite Hj. destruct (Z.ltb_spec (timeout hm) (time_sub since (LastHeartbeat h))); [|naive_solver lia].
    split; [done|lia].
  - intros <-. by rewrite Bool.eqb_reflx.
  - intros Hne. by rewrite (proj2 (eqb_false_iff _ _) Hne).
Qed.

Definition quiet_status : HealthStatus := mkHealthStatus f0 0 0 0 0 0 true.
Definition demo_monitor : HealthMonitor :=
  run hm_step [HmUpdate second "c" 0 quiet_status; HmUpdate second "c" 1 quiet_status] NewHealthMonitor.

(** A pass during which another container reports. *)
Definition demo_pass : list hm_op :=
  [HmVerdict minute minute None (mkSnap "c" 1 true second);
   HmUpdate minute "d" 0 quiet_status;
   HmVerdict minute (minute + 1) None (mkSnap "c" 0 true second)].

Lemma checkHealth_judges_all_witness :
  ∃ h', GetHealth "c" 0 (run hm_step demo_pass demo_monitor) = Some h' ∧
    h' = mkHealth "c" 0 (minute + 1) quiet_status false.
Proof.
  destruct (checkHealth_judges_all None [("c", 1); ("c", 0)] demo_monitor demo_pass "c" 0
    (mkHealth "c" 0 second quiet_status true)) as (since & now & h' & Hev & Hget & _).
  - apply NoDup_cons. split; [|apply NoDup_singleton]. rewrite list_elem_of_singleton. discriminate.
  - right. left.
  - reflexivity.
  - split; [reflexivity|]. repeat constructor.
  - intros pre o post Heq Hn. unfold demo_pass in Heq. destruct pre as [|o1 [|o2 [|o3 [|o4 pre]]]]; simplify_eq/=.
    reflexivity.
  - exists h'. split; [exact Hget|]. vm_compute in Hget. by injection Hget as <-.
Defined.

(** Safety.  The monitor decides on a snapshot it took earlier: a replica
    whose heartbeat arrives between the snapshot and the verdict is marked
    unhealthy although it has just been heard of. *)
Theorem stale_snapshot_marks_live_replica :
  let late := 40 * second in
  let hm := UpdateHealth late "c" 1 quiet_status demo_monitor in
  let hm' := foldl (λ hm s, check_one late late None s hm) hm (snapshots [("c", 1)] demo_monitor) in
  IsHealthy late "c" 1 hm = true ∧ IsHealthy late "c" 1 hm' = false ∧
  GetUnhealthyReplicas late [0; 1] "c" hm' = [0; 1].
Proof. vm_compute. repeat split; reflexivity. Qed.

(** ** Failover *)

Lemma replace_all_ok failover verify id regions idxs (r : Replicator) s (new : Z → container) :
  r !! id = Some s → len regions = len (rs_Replicas s) →
  Forall (λ i, 0 ≤ i < len regions) idxs →
  (∀ i, i ∈ idxs → match verify with
     | Some v => v id (nth (Z.to_nat i) regions EmptyString) = true | None => True end) →
  (∀ i, i ∈ idxs → failover id i (nth (Z.to_nat i) regions EmptyString) = Some (new i)) →
  ∃ r' s', replace_all (Some failover) verify id regions idxs r = (r', None) ∧
    r' !! id = Some s' ∧ Regions s' = Regions s ∧ length (rs_Replicas s') = length (rs_Replicas s) ∧
    (∀ j, (j < length (rs_Replicas s))%nat → rs_Replicas s' !! j =
       if decide (Z.of_nat j ∈ idxs) then Some (Some (new (Z.of_nat j))) else rs_Replicas s !! j) ∧
    (∀ id', id' ≠ id → r' !! id' = r !! id').
Proof.
  revert r s. induction idxs as [|i idxs IH]; intros r s Hs Hlen Hall Hver Hnew.
  { exists r, s. split_and!; [done..| |done]. intros j _.
    rewrite decide_False; [done|]. apply not_elem_of_nil. }
  apply Forall_cons in Hall as [Hi Hall]. cbn [replace_all].
  destruct ((i <? 0) || (len regions <=? i)) eqn:Hb.
  { apply orb_prop in Hb as [Hb|Hb]; zbool; lia. }
  assert (Hv : match verify with
    | Some v => negb (v id (nth (Z.to_nat i) regions EmptyString)) | None => false end = false).
  { specialize (Hver i ltac:(left)). destruct verify; [by rewrite Hver|done]. }
  rewrite Hv, (Hnew i) by left. unfold AddReplica, set_slot. rewrite Hs.
  rewrite <- Hlen, Hb.
  set (s1 := mkSet _ _ _ _).
  destruct (IH (<[id := s1]> r) s1) as (r' & s' & H1 & H2 & H3 & H4 & H5 & H6).
  { apply lookup_insert_eq. }
  { cbn. by rewrite length_insert. }
  { done. }
  { intros k Hk. apply Hver. by right. }
  { intros k Hk. apply Hnew. by right. }
  cbn [rs_Replicas s1] in H4, H5. rewrite length_insert in H4, H5.
  exists r', s'. split_and!; [done..| |].
  - intros j Hj. rewrite H5 by done. rewrite list_lookup_insert.
    destruct (decide (Z.of_nat j ∈ idxs)) as [Hin|Hin].
    + rewrite decide_True by (by right). done.
    + destruct (decide (Z.to_nat i = j ∧ (Z.to_nat i < length (rs_Replicas s))%nat)) as [[Hj1 _]|Hj1].
      * assert (Z.of_nat j = i) as -> by lia. case_decide as Hc; [done|]. exfalso. apply Hc. left.
      * rewrite decide_False; [done|]. intros [Heq|?]%elem_of_cons; [|done]. apply Hj1. lia.
  - intros id' Hne. rewrite H6 by done. apply lookup_insert_ne. congruence.
Qed.

(** C28: functional.  Failover.  When every unhealthy replica of a container has a
    slot, a verified provider and a replacement, [CheckAndFailover] succeeds in
    whatever order it sees them: exactly the unhealthy slots hold their
    replacements, and nothing else changes. *)
Theorem failover_replaces_unhealthy failover verify now order id hm r s new :
  GetReplicaSet id r = Some s → length (Regions s) = length (rs_Replicas s) →
  Forall (λ i, 0 ≤ i < len (Regions s)) (GetUnhealthyReplicas now order id hm) →
  (∀ i, i ∈ GetUnhealthyReplicas now order id hm → match verify with
     | Some v => v id (nth (Z.to_nat i) (Regions s) EmptyString) = true | None => True end) →
  (∀ i, i ∈ GetUnhealthyReplicas now order id hm →
     failover id i (nth (Z.to_nat i) (Regions s) EmptyString) = Some (new i)) →
  ∃ r' s', CheckAndFailover (Some failover) verify now order id hm r = (r', None) ∧
    GetReplicaSet id r' = Some s' ∧
    (∀ j, (j < length (rs_Replicas s))%nat → rs_Replicas s' !! j =
       if decide (Z.of_nat j ∈ GetUnhealthyReplicas now order id hm)
       then Some (Some (new (Z.of_nat j))) else rs_Replicas s !! j) ∧
    (∀ id', id' ≠ id → GetReplicaSet id' r' = GetReplicaSet id' r).
Proof.
  intros Hs Hlen Hall Hver Hnew. unfold CheckAndFailover.
  destruct (GetUnhealthyReplicas now order id hm) as [|i idxs] eqn:Hu.
  { exists r, s. split_and!; [done..| |done]. intros j _.
    rewrite decide_False; [done|]. apply not_elem_of_nil. }
  rewrite Hs.
  destruct (replace_all_ok failover verify id (Regions s) (i :: idxs) r s new)
    as (r' & s' & H1 & H2 & _ & _ & H5 & H6); eauto with lia.
  exists r', s'. auto.
Qed.

(** The replacement of slot [i] is container [100 + i]. *)
Definition demo_failover (_ : string) (i : Z) (_ : string) : option container := Some (Z.to_N (100 + i)).

Lemma failover_replaces_unhealthy_witness :
  ∃ r' s', CheckAndFailover (Some demo_failover) None minute [1; 0] "c" demo_monitor demo_replicator =
      (r', None) ∧ GetReplicaSet "c" r' = Some s' ∧
    (∀ j, (j < length (rs_Replicas demo_set))%nat → rs_Replicas s' !! j =
       if decide (Z.of_nat j ∈ GetUnhealthyReplicas minute [1; 0] "c" demo_monitor)
       then Some (Some (Z.to_N (100 + Z.of_nat j))) else rs_Replicas demo_set !! j) ∧
    (∀ id', id' ≠ "c" → GetReplicaSet id' r' = GetReplicaSet id' demo_replicator).
Proof.
  apply (failover_replaces_unhealthy demo_failover None minute [1; 0] "c" demo_monitor
    demo_replicator demo_set (λ i, Z.to_N (100 + i))); try reflexivity.
  - vm_compute. repeat constructor; discriminate.
Defined.

(** Error.  A health entry without a slot (a heartbeat for replica 2 of a
    one-region container) makes failover depend on the order of a map: the loop
    stops at the invalid index, so the failed replica is replaced in one order
    and not in the other. *)
Theorem failover_depends_on_order :
  let hm := run hm_step [HmUpdate second "c" 0 quiet_status; HmUpdate second "c" 2 quiet_status]
    NewHealthMonitor in
  let r := run rp_step [RpCreate 5 "c" ["eu"]] NewReplicator in
  let slot order := rs_Replicas <$>
    GetReplicaSet "c" (CheckAndFailover (Some demo_failover) None minute order "c" hm r).1 in
  slot [0; 2] = Some [Some 100%N] ∧ slot [2; 0] = Some [None].
Proof. vm_compute. split; reflexivity. Qed.
