(* ===== verification/Lifecycle.v ===== *)
(** * Start, Stop and Reset of the background loops

    [HealthMonitor] (internal/redundancy/health.go) and [FailoverManager]
    (internal/redundancy/failover.go) run a loop in the goroutine that called
    [Start]: it selects on the context it was given, on [stopCh] and on a
    ticker.  [Stop] closes [stopCh] and [Reset] replaces it.

    The interleavings matter, so this is a step relation.  A loop is either
    between two selects (it has just started or is running a check) or blocked
    in a select on the channel that [stopCh] was when it entered.  It leaves the
    select by a tick, by the stop channel when that is closed, or by its context
    when that is cancelled; the last is a step of the environment and not of the
    manager.  The two managers differ in what a loop does when it ends: the
    health monitor clears [running], the failover manager does not.

    Theorems: [Stop] lets every loop end, without help of the contexts, when
    [Reset] is called only after the loops have ended; what a cancelled context
    and an early [Reset] do to a later [Start]. *)

From S2P Require Import Prelude.

(** Where a loop is. *)
Inductive loop := Between | Selecting (ch : nat).

(** A loop and the context it was started with. *)
Record task := mkTask { at_loop : loop; task_ctx : nat }.

Record lifecycle := mkLC {
  running : bool;
  stopCh : nat;
  closed_chs : gset nat;
  cancelled : gset nat;
  loops : list task
}.

Definition with_loops (run : bool) (ls : list task) (s : lifecycle) : lifecycle :=
  mkLC run (stopCh s) (closed_chs s) (cancelled s) ls.

(** What distinguishes the two managers. *)
Inductive manager := HealthLoop | FailoverLoop.

Definition on_exit (m : manager) (run : bool) : bool :=
  match m with HealthLoop => false | FailoverLoop => run end.

(** Loop [k] returns from [Start]. *)
Definition exit_loop (m : manager) (k : nat) (s : lifecycle) : lifecycle :=
  with_loops (on_exit m (running s)) (delete k (loops s)) s.

Definition lc_new : lifecycle := mkLC false 0 ∅ ∅ [].

(** [Start] up to its loop. *)
Definition lc_Start (ctx : nat) (s : lifecycle) : lifecycle :=
  if running s then s else with_loops true (loops s ++ [mkTask Between ctx]) s.

Definition lc_Stop (s : lifecycle) : lifecycle :=
  if running s
  then mkLC false (stopCh s) ({[stopCh s]} ∪ closed_chs s) (cancelled s) (loops s) else s.

(** [make(chan struct{})] is a channel that was never closed. *)
Definition lc_Reset (s : lifecycle) : lifecycle :=
  if running s then s
  else mkLC false (fresh ({[stopCh s]} ∪ closed_chs s)) (closed_chs s) (cancelled s) (loops s).

(** The steps of the loops themselves. *)
Inductive loop_step (m : manager) : lifecycle → lifecycle → Prop :=
  | lc_select s k c :
      loops s !! k = Some (mkTask Between c) →
      loop_step m s (with_loops (running s) (<[k := mkTask (Selecting (stopCh s)) c]> (loops s)) s)
  | lc_tick s k ch c :
      loops s !! k = Some (mkTask (Selecting ch) c) →
      loop_step m s (with_loops (running s) (<[k := mkTask Between c]> (loops s)) s)
  | lc_stopped s k ch c :
      loops s !! k = Some (mkTask (Selecting ch) c) → ch ∈ closed_chs s →
      loop_step m s (exit_loop m k s).

(** The steps of the contexts: one is cancelled, and a loop sees it. *)
Inductive ctx_step (m : manager) : lifecycle → lifecycle → Prop :=
  | lc_cancel s c :
      ctx_step m s (mkLC (running s) (stopCh s) (closed_chs s) ({[c]} ∪ cancelled s) (loops s))
  | lc_cancelled s k ch c :
      loops s !! k = Some (mkTask (Selecting ch) c) → c ∈ cancelled s →
      ctx_step m s (exit_loop m k s).

Inductive lc_step (m : manager) : lifecycle → lifecycle → Prop :=
  | lc_start s c : lc_step m s (lc_Start c s)
  | lc_stop s : lc_step m s (lc_Stop s)
  | lc_reset s : lc_step m s (lc_Reset s)
  | lc_loop s s' : loop_step m s s' → lc_step m s s'
  | lc_ctx s s' : ctx_step m s s' → lc_step m s s'.

(** ** A stopped loop ends *)

(** A loop that can still be stopped: it has not entered a select on a channel
    that nobody will close. *)
Definition stoppable (s : lifecycle) (t : task) : Prop :=
  match at_loop t with Between => True | Selecting ch => ch ∈ closed_chs s ∨ ch = stopCh s end.

Lemma stoppable_with_loops run ls ls' s :
  Forall (stoppable (with_loops run ls' s)) ls ↔ Forall (stoppable s) ls.
Proof. apply Forall_iff. by intros [[] ?]. Qed.

Lemma stoppable_loop_step m s s' :
  loop_step m s s' → Forall (stoppable s) (loops s) → Forall (stoppable s') (loops s').
Proof.
  intros [s0 k c Hk|s0 k ch c Hk|s0 k ch c Hk Hc] Hall; unfold exit_loop; rewrite stoppable_with_loops; cbn.
  - apply Forall_insert; [done|]. by right.
  - by apply Forall_insert.
  - by apply Forall_delete.
Qed.

Lemma stoppable_ctx_step m s s' :
  ctx_step m s s' → Forall (stoppable s) (loops s) → Forall (stoppable s') (loops s').
Proof.
  intros [s0 c|s0 k ch c Hk Hc] Hall; cbn.
  - eapply Forall_impl; [exact Hall|]. by intros [[] ?].
  - unfold exit_loop. rewrite stoppable_with_loops. by apply Forall_delete.
Qed.

Lemma stoppable_Stop s : Forall (stoppable s) (loops s) → Forall (stoppable (lc_Stop s)) (loops (lc_Stop s)).
Proof.
  unfold lc_Stop. destruct (running s); [|done]. intros Hall. cbn.
  eapply Forall_impl; [exact Hall|]. intros [[|ch] c]; unfold stoppable; cbn; set_solver.
Qed.

(** Histories in which [Reset] is called only when no loop is left. *)
Inductive tidy (m : manager) : lifecycle → Prop :=
  | tidy_new : tidy m lc_new
  | tidy_start s c : tidy m s → tidy m (lc_Start c s)
  | tidy_stop s : tidy m s → tidy m (lc_Stop s)
  | tidy_reset s : tidy m s → loops s = [] → tidy m (lc_Reset s)
  | tidy_loop s s' : tidy m s → loop_step m s s' → tidy m s'
  | tidy_ctx s s' : tidy m s → ctx_step m s s' → tidy m s'.

Lemma tidy_stoppable m s : tidy m s → Forall (stoppable s) (loops s).
Proof.
  induction 1 as [|s c H IH|s H IH|s H IH Hno|s s' H IH Hs|s s' H IH Hs]; [constructor|..].
  - unfold lc_Start. destruct (running s); [done|]. rewrite stoppable_with_loops.
    apply Forall_app. split; [done|by repeat constructor].
  - by apply stoppable_Stop.
  - unfold lc_Reset. destruct (running s); [done|]. cbn. by rewrite Hno.
  - by eapply stoppable_loop_step.
  - by eapply stoppable_ctx_step.
Qed.

(** The manager is stopped: its channel is closed and every loop can see that. *)
Definition stopped (s : lifecycle) : Prop :=
  running s = false ∧ stopCh s ∈ closed_chs s ∧ Forall (stoppable s) (loops s).

Lemma stopped_step m s s' : stopped s → loop_step m s s' ∨ ctx_step m s s' → stopped s'.
Proof.
  intros (Hr & Hc & Hall) Hstep. split_and!.
  - destruct Hstep as [Hs|Hs]; destruct Hs; cbn; try done; by destruct m.
  - by destruct Hstep as [Hs|Hs]; destruct Hs.
  - destruct Hstep; [by eapply stoppable_loop_step|by eapply stoppable_ctx_step].
Qed.

(** A loop in a select of a stopped manager can leave it. *)
Lemma stopped_exits m s k ch c :
  stopped s → loops s !! k = Some (mkTask (Selecting ch) c) → loop_step m s (exit_loop m k s).
Proof.
  intros (_ & Hc & Hall) Hk. eapply lc_stopped; [exact Hk|].
  rewrite Forall_lookup in Hall. specialize (Hall k _ Hk). destruct Hall as [?|Heq]; cbn in *; [done|].
  by rewrite Heq.
Qed.

Lemma stopped_drains m s :
  stopped s → ∃ s', bsteps (loop_step m) (2 * length (loops s)) s s' ∧ loops s' = [] ∧ running s' = false.
Proof.
  remember (length (loops s)) as n eqn:Hn. revert s Hn. induction n as [|n IH]; intros s Hn Hst.
  { exists s. split_and!; [apply bsteps_refl|by apply nil_length_inv|apply Hst]. }
  destruct (loops s) as [|[l c] ls] eqn:Hl; [done|].
  assert (Hend : ∃ s1, bsteps (loop_step m) 2 s s1 ∧ length (loops s1) = n ∧ stopped s1).
  { destruct l as [|ch].
    - set (s0 := with_loops (running s) (<[0 := mkTask (Selecting (stopCh s)) c]> (loops s)) s).
      assert (H0 : loop_step m s s0) by (apply (lc_select _ s 0 c); by rewrite Hl).
      assert (Hst0 : stopped s0) by (eapply stopped_step; eauto).
      assert (H1 : loop_step m s0 (exit_loop m 0 s0))
        by (eapply stopped_exits; [done|]; cbn; by rewrite Hl).
      exists (exit_loop m 0 s0). split_and!; [|cbn; rewrite Hl; cbn; by injection Hn|eapply stopped_step; eauto].
      eapply bsteps_l; [exact H0|]. by apply bsteps_once.
    - assert (H1 : loop_step m s (exit_loop m 0 s)) by (eapply stopped_exits; [done|]; by rewrite Hl).
      exists (exit_loop m 0 s). split_and!; [|cbn; rewrite Hl; cbn; by injection Hn|eapply stopped_step; eauto].
      by apply bsteps_once. }
  destruct Hend as (s1 & H1 & Hlen & Hst1). destruct (IH s1) as (s' & Hs' & ?); [done..|].
  exists s'. split; [|done]. replace (2 * S n) with (2 + 2 * n) by lia. by eapply bsteps_trans.
Qed.

(** C35: liveness.  [Stop] ends the loops.  When [Reset] was called only after the
    loops had ended, then from any state the loops and the contexts can reach
    after a [Stop], every loop in a select has the stop channel ready, and the
    loops can all end within two steps of their own each, no context being
    cancelled for it; the manager is then not running. *)
Theorem stop_ends_every_loop m s s1 :
  tidy m s → running s = true → rtc (λ a b, loop_step m a b ∨ ctx_step m a b) (lc_Stop s) s1 →
  (∀ k ch c, loops s1 !! k = Some (mkTask (Selecting ch) c) → ch ∈ closed_chs s1) ∧
  ∃ s2, bsteps (loop_step m) (2 * length (loops s1)) s1 s2 ∧ loops s2 = [] ∧ running s2 = false.
Proof.
  intros Ht Hr Hreach. assert (Hst : stopped s1).
  { assert (H0 : stopped (lc_Stop s)).
    { split_and!; [|unfold lc_Stop; rewrite Hr; cbn; set_solver|by apply stoppable_Stop, (tidy_stoppable m)].
      unfold lc_Stop. by rewrite Hr. }
    induction Hreach as [|a b d Hab _ IH]; [done|]. apply IH. by eapply stopped_step. }
  split; [|by apply stopped_drains]. intros k ch c Hk. destruct Hst as (_ & Hc & Hall).
  rewrite Forall_lookup in Hall. destruct (Hall k _ Hk) as [?|Heq]; cbn in *; [done|by rewrite Heq].
Qed.

(** A loop in a select, and one that was just running a check. *)
Lemma stop_ends_every_loop_witness :
  let s := with_loops true [mkTask (Selecting 0) 7] lc_new in
  (∀ k ch c, loops (lc_Stop s) !! k = Some (mkTask (Selecting ch) c) → ch ∈ closed_chs (lc_Stop s)) ∧
  ∃ s2, bsteps (loop_step HealthLoop) 2 (lc_Stop s) s2 ∧ loops s2 = [] ∧ running s2 = false.
Proof.
  apply (stop_ends_every_loop HealthLoop (with_loops true [mkTask (Selecting 0) 7] lc_new)).
  - eapply (tidy_loop _ (lc_Start 7 lc_new)); [apply tidy_start, tidy_new|].
    exact (lc_select HealthLoop (lc_Start 7 lc_new) 0 7 eq_refl).
  - reflexivity.
  - apply rtc_refl.
Defined.

(** ** The failover manager after its context ends *)

(** Dead: it believes to be running and has no loop. *)
Definition dead (s : lifecycle) : Prop := running s = true ∧ loops s = [].

Lemma dead_step s s' :
  dead s → lc_step FailoverLoop s s' → s' ≠ lc_Stop s → dead s'.
Proof.
  intros [Hr Hl] Hstep Hns. destruct Hstep as [s c|s|s|s s' Hs|s s' Hs].
  - unfold lc_Start. by rewrite Hr.
  - done.
  - unfold lc_Reset. by rewrite Hr.
  - destruct Hs as [s k c Hk|s k ch c Hk|s k ch c Hk _]; by rewrite Hl in Hk.
  - destruct Hs as [s c|s k ch c Hk _]; [done|by rewrite Hl in Hk].
Qed.

(** Histories without [Stop]. *)
Inductive unstopped (m : manager) : lifecycle → lifecycle → Prop :=
  | un_refl s : unstopped m s s
  | un_step s1 s2 s3 : lc_step m s1 s2 → s2 ≠ lc_Stop s1 → unstopped m s2 s3 → unstopped m s1 s3.

(** Liveness.  When the context of a failover manager's only loop ends, the
    manager stays dead: it still says it is running, so no [Start] and no
    [Reset], in any order and number, ever starts a loop again until [Stop] is
    called. *)
Theorem failover_dead_after_cancel s s' ch c :
  running s = true → loops s = [mkTask (Selecting ch) c] → c ∈ cancelled s →
  ctx_step FailoverLoop s (exit_loop FailoverLoop 0 s) ∧
  (unstopped FailoverLoop (exit_loop FailoverLoop 0 s) s' → running s' = true ∧ loops s' = []).
Proof.
  intros Hr Hl Hc. split; [by eapply lc_cancelled; [rewrite Hl|]|]. intros Hun.
  assert (Hd : dead (exit_loop FailoverLoop 0 s)) by (split; cbn; [done|by rewrite Hl]).
  revert Hun Hd. generalize (exit_loop FailoverLoop 0 s). intros s0 Hun.
  induction Hun as [s0|s1 s2 s3 H12 Hns H23 IH]; [done|]. intros Hd. apply IH.
  by eapply dead_step.
Qed.

Lemma failover_dead_after_cancel_witness :
  running (lc_Start 8 (mkLC true 0 ∅ {[7]} [])) = true ∧ loops (lc_Start 8 (mkLC true 0 ∅ {[7]} [])) = [].
Proof.
  apply (failover_dead_after_cancel (mkLC true 0 ∅ {[7]} [mkTask (Selecting 0) 7])
    (lc_Start 8 (mkLC true 0 ∅ {[7]} [])) 0 7); [reflexivity|reflexivity|cbn; set_solver|].
  cbn. eapply un_step; [apply (lc_start _ _ 8)|discriminate|apply un_refl].
Defined.

(** Safety.  The health monitor, by contrast, can be restarted after its
    context ends; but a [Stop], [Reset], [Start] while a check is running leaves
    the old loop alive: it comes back to a select on the new channel, and two
    loops run until the next [Stop]. *)
Theorem health_reset_leaks_loop :
  ∃ s, rtc (lc_step HealthLoop) lc_new s ∧ running s = true ∧ cancelled s = ∅ ∧
    loops s = [mkTask (Selecting (stopCh s)) 7; mkTask (Selecting (stopCh s)) 8] ∧
    stopCh s ∉ closed_chs s.
Proof.
  set (s1 := lc_Start 7 lc_new). set (s2 := lc_Stop s1). set (s3 := lc_Reset s2).
  set (s4 := lc_Start 8 s3).
  exists (with_loops true [mkTask (Selecting (stopCh s4)) 7; mkTask (Selecting (stopCh s4)) 8] s4).
  split.
  - eapply rtc_l; [apply (lc_start _ _ 7)|]. fold s1. eapply rtc_l; [apply lc_stop|]. fold s2.
    eapply rtc_l; [apply lc_reset|]. fold s3. eapply rtc_l; [apply (lc_start _ _ 8)|]. fold s4.
    eapply rtc_l; [apply lc_loop, (lc_select _ s4 0 7); reflexivity|].
    eapply rtc_l; [apply lc_loop, (lc_select _ _ 1 8); reflexivity|]. apply rtc_refl.
  - split_and!; [done|done|done|]. cbn. intros Hin.
    apply (is_fresh ({[0]} ∪ (({[0]} ∪ ∅) : gset nat))). set_solver.
Qed.
