(* ===== verification/BigNum.v ===== *)
(** * math/big

    What the payment code uses of Go's [math/big]: [Int.SetString] in base 10,
    and [Float] with its correctly rounded quotient and product.  A [Float] is a
    sign-magnitude binary number of unbounded exponent; a finite one is
    [m * 2^e] with an integer [m], rounded to the receiver's precision to
    nearest even.

    Lemmas: rounding never passes a number that is representable at the
    precision, and its error is at most half a unit in the last place. *)

From S2P Require Import Prelude NetAddr.
From Stdlib Require Import Ascii.
Local Open Scope Z_scope.

(** ** [Int.SetString(s, 10)] *)

Fixpoint decimal (acc : Z) (s : chars) : option Z :=
  match s with
  | [] => Some acc
  | c :: s => d ← dec_digit c; decimal (acc * 10 + d) s
  end.

(** An optional sign and at least one digit. *)
Definition SetString10 (s : string) : option Z :=
  match to_chars s with
  | [] => None
  | (c :: rest) as all =>
      if decide (c = "-"%char) then
        match rest with [] => None | _ => Z.opp <$> decimal 0 rest end
      else if decide (c = "+"%char) then
        match rest with [] => None | _ => decimal 0 rest end
      else decimal 0 all
  end.

Lemma SetString10_samples :
  SetString10 "150" = Some 150 ∧ SetString10 "-7" = Some (-7) ∧ SetString10 "+42" = Some 42 ∧
  SetString10 "" = None ∧ SetString10 "-" = None ∧ SetString10 "1x" = None.
Proof. by vm_compute. Qed.

(** ** Rounding *)

(** [a / b] rounded to the nearest integer, ties to even ([b] positive). *)
Definition rne_div (a b : Z) : Z :=
  let q := a / b in
  let r := a mod b in
  if 2 * r <? b then q
  else if b <? 2 * r then q + 1
  else if Z.even q then q else q + 1.

Definition pow2 (e : Z) : Z := 2 ^ Z.max 0 e.

(** The exponent of the last place of a [p]-bit result for [num / den]: the
    quotient is between [2^(p-1)] and [2^p] times [2^e]. *)
Definition ulp_exp (p num den : Z) : Z :=
  let e := Z.log2 num - Z.log2 den - p + 1 in
  if num * pow2 (- e) <? 2 ^ (p - 1) * den * pow2 e then e - 1 else e.

(** [num / den] rounded to [p] bits, for positive [num] and [den]: mantissa and
    exponent. *)
Definition round_quo (p num den : Z) : Z * Z :=
  let e := ulp_exp p num den in
  (rne_div (num * pow2 (- e)) (den * pow2 e), e).

Lemma pow2_pos e : 0 < pow2 e.
Proof. unfold pow2. lia. Qed.

Lemma pow2_nonpos e : e ≤ 0 → pow2 e = 1.
Proof. intros He. unfold pow2. by rewrite Z.max_l by lia. Qed.

Lemma pow2_nonneg e : 0 ≤ e → pow2 e = 2 ^ e.
Proof. intros He. unfold pow2. by rewrite Z.max_r by lia. Qed.

Lemma rne_div_le a b n : 0 < b → a ≤ n * b → rne_div a b ≤ n.
Proof.
  intros Hb Ha. unfold rne_div. pose proof (Z.div_mod a b ltac:(lia)) as Hdm.
  pose proof (Z.mod_pos_bound a b Hb) as Hr.
  assert (a / b ≤ n) by (apply Z.div_le_upper_bound; lia).
  destruct (decide (a / b = n)) as [Hq|Hq].
  - assert (a mod b = 0) by nia. rewrite H0. destruct (Z.ltb_spec (2 * 0) b); lia.
  - destruct (Z.ltb_spec (2 * (a mod b)) b); [lia|]. destruct (Z.ltb_spec b (2 * (a mod b))); [lia|].
    destruct (Z.even (a / b)); lia.
Qed.

Lemma rne_div_exact n b : 0 < b → rne_div (n * b) b = n.
Proof.
  intros Hb. unfold rne_div. rewrite Z.div_mul, Z.mod_mul by lia.
  destruct (Z.ltb_spec (2 * 0) b); lia.
Qed.

Lemma rne_div_nonneg a b : 0 < b → 0 ≤ a → 0 ≤ rne_div a b.
Proof.
  intros Hb Ha. unfold rne_div. pose proof (Z.div_pos a b Ha Hb).
  destruct (_ <? _); [lia|]. destruct (_ <? _); [lia|]. destruct (Z.even _); lia.
Qed.

(** The error is at most half of the divisor. *)
Lemma rne_div_error a b : 0 < b → Z.abs (2 * (rne_div a b * b - a)) ≤ b.
Proof.
  intros Hb. unfold rne_div. pose proof (Z.div_mod a b ltac:(lia)) as Hdm.
  pose proof (Z.mod_pos_bound a b Hb) as Hr.
  destruct (Z.ltb_spec (2 * (a mod b)) b); [nia|].
  destruct (Z.ltb_spec b (2 * (a mod b))); [nia|]. destruct (Z.even (a / b)); nia.
Qed.

(** The quotient has at least [p] bits before the point. *)
Lemma ulp_exp_lower p num den :
  0 < num → 0 < den → 1 ≤ p →
  let e := ulp_exp p num den in 2 ^ (p - 1) * den * pow2 e ≤ num * pow2 (- e).
Proof.
  intros Hn Hd Hp e. subst e. unfold ulp_exp.
  set (e := Z.log2 num - Z.log2 den - p + 1).
  destruct (Z.ltb_spec (num * pow2 (- e)) (2 ^ (p - 1) * den * pow2 e)) as [_|Hge]; [|done].
  pose proof (Z.log2_spec num Hn) as [Hn1 _]. pose proof (Z.log2_spec den Hd) as [_ Hd2].
  assert (He : Z.log2 num = Z.log2 den + p + (e - 1)) by (unfold e; lia).
  pose proof (Z.log2_nonneg num). pose proof (Z.log2_nonneg den).
  (* den < 2^(log2 den + 1) and 2^(log2 num) <= num *)
  destruct (Z.le_gt_cases 0 (e - 1)).
  - rewrite (pow2_nonpos (- (e - 1))), (pow2_nonneg (e - 1)) by lia.
    assert (2 ^ (p - 1) * 2 ^ Z.succ (Z.log2 den) * 2 ^ (e - 1) = 2 ^ Z.log2 num) as Hpow.
    { rewrite <- !Z.pow_add_r by lia. f_equal. lia. }
    assert (0 < 2 ^ (p - 1) * 2 ^ (e - 1)) by (apply Z.mul_pos_pos; lia). nia.
  - rewrite (pow2_nonneg (- (e - 1))), (pow2_nonpos (e - 1)) by lia.
    assert (2 ^ (p - 1) * 2 ^ Z.succ (Z.log2 den) = 2 ^ Z.log2 num * 2 ^ (- (e - 1))) as Hpow.
    { rewrite <- !Z.pow_add_r by lia. f_equal. lia. }
    assert (0 < 2 ^ (p - 1)) by lia. assert (0 < 2 ^ (- (e - 1))) by lia. nia.
Qed.

(** The exponent of a result below [2^p] is not positive. *)
Lemma ulp_exp_nonpos p num den n :
  0 < num → 0 < den → 1 ≤ p → n < 2 ^ p → num ≤ n * den → ulp_exp p num den ≤ 0.
Proof.
  intros Hn Hd Hp Hb Hle. pose proof (ulp_exp_lower p num den Hn Hd Hp) as Hlow. cbv zeta in Hlow.
  set (e := ulp_exp p num den) in *. destruct (Z.le_gt_cases e 0); [done|]. exfalso.
  rewrite (pow2_nonpos (- e)), (pow2_nonneg e) in Hlow by lia.
  assert (2 ^ e = 2 * 2 ^ (e - 1)) by (rewrite <- Z.pow_succ_r by lia; f_equal; lia).
  assert (2 ^ p = 2 * 2 ^ (p - 1)) by (rewrite <- Z.pow_succ_r by lia; f_equal; lia).
  assert (0 < 2 ^ (e - 1)) by lia. assert (0 < 2 ^ (p - 1)) by lia.
  assert (2 ^ (p - 1) * 2 ^ e ≤ n) by (apply (Z.mul_le_mono_pos_r _ _ den); lia). nia.
Qed.

(** A [p]-bit integer bound is not passed by rounding, *)
Lemma round_quo_le p num den n :
  0 < num → 0 < den → 1 ≤ p → n < 2 ^ p → num ≤ n * den →
  let '(m, e) := round_quo p num den in m * pow2 e ≤ n * pow2 (- e).
Proof.
  intros Hn Hd Hp Hb Hle. unfold round_quo.
  pose proof (ulp_exp_nonpos p num den n Hn Hd Hp Hb Hle) as He. set (e := ulp_exp p num den) in *.
  rewrite (pow2_nonpos e) by lia. rewrite !Z.mul_1_r.
  apply rne_div_le; [lia|]. pose proof (pow2_pos (- e)). nia.
Qed.

(** and a [p]-bit integer is not changed. *)
Lemma round_quo_exact p den n :
  0 < n → 0 < den → 1 ≤ p → n < 2 ^ p →
  let '(m, e) := round_quo p (n * den) den in m * pow2 e = n * pow2 (- e).
Proof.
  intros Hn Hd Hp Hb. unfold round_quo.
  pose proof (ulp_exp_nonpos p (n * den) den n ltac:(nia) Hd Hp Hb ltac:(lia)) as He.
  set (e := ulp_exp p (n * den) den) in *. rewrite (pow2_nonpos e) by lia. rewrite !Z.mul_1_r.
  replace (n * den * pow2 (- e)) with (n * pow2 (- e) * den) by ring. by apply rne_div_exact.
Qed.

(** The relative error is at most [2^-p]. *)
Lemma round_quo_error p num den :
  0 < num → 0 < den → 1 ≤ p →
  let '(m, e) := round_quo p num den in
  Z.abs (m * (den * pow2 e) - num * pow2 (- e)) * 2 ^ p ≤ num * pow2 (- e).
Proof.
  intros Hn Hd Hp. unfold round_quo. set (e := ulp_exp p num den).
  pose proof (ulp_exp_lower p num den Hn Hd Hp) as Hlow. cbv zeta in Hlow. fold e in Hlow.
  pose proof (pow2_pos e). assert (Hb : 0 < den * pow2 e) by nia.
  pose proof (rne_div_error (num * pow2 (- e)) (den * pow2 e) Hb) as Herr.
  assert (2 ^ p = 2 * 2 ^ (p - 1)) as -> by (rewrite <- Z.pow_succ_r by lia; f_equal; lia).
  assert (0 < 2 ^ (p - 1)) by lia. nia.
Qed.

Lemma round_quo_nonneg p num den : 0 < num → 0 < den → 0 ≤ (round_quo p num den).1.
Proof.
  intros Hn Hd. unfold round_quo; cbn [fst]. set (e := ulp_exp p num den).
  pose proof (pow2_pos e). pose proof (pow2_pos (- e)). apply rne_div_nonneg; nia.
Qed.
