(* ===== verification/Escrow.v ===== *)
(** * Escrow (internal/payment/escrow.go)

    [EscrowManager] releases an escrow in proportion to the uptime, computed
    with [big.Float].  Amounts are [big.Int]s, durations int64 nanoseconds.  The
    prepaid credits of the same file are in [Credits].

    Theorems: releases never exceed the escrow and reach it exactly at full
    uptime; each is the pro-rata share up to a relative error of [2^-62] and one
    wei; a release panics exactly for a zero duration. *)

From S2P Require Import Prelude BigNum.
Local Open Scope Z_scope.

(** ** [big.Float] values as the code builds them *)

Inductive bigfloat := BInf (neg : bool) | BFin (neg : bool) (m e : Z).

(** [Quo] of two [SetInt64] values, 64 bits; 0/0 panics with [ErrNaN]. *)
Definition Quo64 (x y : Z) : outcome bigfloat :=
  if y =? 0 then if x =? 0 then Panics else Returns (BInf (x <? 0))
  else if x =? 0 then Returns (BFin false 0 0)
  else let '(m, e) := round_quo 64 (Z.abs x) (Z.abs y) in
       Returns (BFin (xorb (x <? 0) (y <? 0)) m e).

Definition bit_len (n : Z) : Z := if n =? 0 then 0 else Z.log2 (Z.abs n) + 1.

(** [Mul] of a [SetInt] value, whose precision is at least 64 and enough for
    all its bits, with a 64-bit one; 0 times infinity panics. *)
Definition MulInt (amount : Z) (f : bigfloat) : outcome bigfloat :=
  match f with
  | BInf neg => if amount =? 0 then Panics else Returns (BInf (xorb (amount <? 0) neg))
  | BFin neg m e =>
      if (amount =? 0) || (m =? 0) then Returns (BFin false 0 0)
      else let '(m', e') := round_quo (Z.max 64 (bit_len amount)) (Z.abs amount * m * pow2 e) (pow2 (- e)) in
           Returns (BFin (xorb (amount <? 0) neg) m' e')
  end.

(** [Float.Int], truncating towards zero; nil for an infinity. *)
Definition ToInt (f : bigfloat) : option Z :=
  match f with
  | BInf _ => None
  | BFin neg m e => let n := m * pow2 e / pow2 (- e) in Some (if neg : bool then - n else n)
  end.

(** ** The escrow manager *)

Record Escrow := mkEscrow {
  ReservationID : string;
  Amount : Z;
  Duration : duration;
  StartTime : time;
  Released : Z
}.

Abbreviation EscrowManager := (gmap string Escrow).

Definition NewEscrowManager : EscrowManager := ∅.

Definition CreateEscrow (now : time) (id : string) (amount : Z) (d : duration) (em : EscrowManager) :
    EscrowManager * Escrow :=
  let e := mkEscrow id amount d now 0 in (<[id := e]> em, e).

Definition GetEscrow (id : string) (em : EscrowManager) : option Escrow := em !! id.

Inductive EscrowError := EscrowNotFound.

(** The amount the uptime entitles to; [Panics] when big.Float panics or the
    subtraction gets a nil integer. *)
Definition entitled (amount : Z) (d uptime : duration) : outcome Z :=
  let elapsed := if d <? uptime then d else uptime in
  match Quo64 elapsed d with
  | Panics => Panics
  | Returns proportion =>
      match MulInt amount proportion with
      | Panics => Panics
      | Returns releaseFloat =>
          match ToInt releaseFloat with None => Panics | Some n => Returns n end
      end
  end.

Definition ReleasePayment (id : string) (uptime : duration) (em : EscrowManager) :
    outcome (EscrowManager * (EscrowError + Z)) :=
  match em !! id with
  | None => Returns (em, inl EscrowNotFound)
  | Some e =>
      match entitled (Amount e) (Duration e) uptime with
      | Panics => Panics
      | Returns releaseAmount =>
          let toRelease := releaseAmount - Released e in
          if toRelease <=? 0 then Returns (em, inr 0)
          else Returns (<[id := mkEscrow (ReservationID e) (Amount e) (Duration e) (StartTime e)
                  (Released e + toRelease)]> em, inr toRelease)
      end
  end.

(** ** What an uptime entitles to *)

Lemma bit_len_bound n : 0 < n → n < 2 ^ bit_len n.
Proof.
  intros Hn. unfold bit_len. destruct (Z.eqb_spec n 0); [lia|]. rewrite Z.abs_eq by lia.
  apply (Z.log2_spec n Hn).
Qed.

(** The computation for positive amounts and durations. *)
Lemma entitled_eq A D u :
  0 < A → 0 < D → 0 < u → u ≤ D →
  let '(m1, e1) := round_quo 64 u D in
  entitled A D u =
    Returns (if m1 =? 0 then 0 else
      let '(m2, e2) := round_quo (Z.max 64 (bit_len A)) (A * m1 * pow2 e1) (pow2 (- e1)) in
      m2 * pow2 e2 / pow2 (- e2)).
Proof.
  intros HA HD Hu Hle. unfold entitled. destruct (Z.ltb_spec D u); [lia|]. unfold Quo64.
  destruct (Z.eqb_spec D 0); [lia|]. destruct (Z.eqb_spec u 0); [lia|].
  rewrite !Z.abs_eq by lia. destruct (round_quo 64 u D) as [m1 e1].
  destruct (Z.ltb_spec u 0), (Z.ltb_spec D 0); try lia. cbn [xorb MulInt].
  destruct (Z.eqb_spec A 0); [lia|]. cbn [orb]. destruct (m1 =? 0); [done|].
  rewrite Z.abs_eq by lia. destruct (round_quo _ _ _) as [m2 e2].
  destruct (Z.ltb_spec A 0); [lia|]. done.
Qed.

Lemma entitled_pos A D u :
  0 < A → 0 < D → 0 < u → u ≤ D →
  ∃ n, entitled A D u = Returns n ∧ 0 ≤ n ≤ A ∧ (u = D → n = A).
Proof.
  intros HA HD Hu Hle. pose proof (entitled_eq A D u HA HD Hu Hle) as Heq.
  pose proof (round_quo_le 64 u D 1 Hu HD ltac:(lia) ltac:(lia) ltac:(lia)) as H1.
  pose proof (round_quo_nonneg 64 u D Hu HD) as Hm1.
  pose proof (round_quo_exact 64 D 1 ltac:(lia) HD ltac:(lia) ltac:(lia)) as Hex.
  rewrite Z.mul_1_l in Hex. pose proof (bit_len_bound A HA) as HbA.
  set (p := Z.max 64 (bit_len A)) in *.
  assert (HAp : A < 2 ^ p).
  { eapply Z.lt_le_trans; [exact HbA|]. apply Z.pow_le_mono_r; lia. }
  destruct (round_quo 64 u D) as [m1 e1] eqn:Hr1. cbn [fst] in Hm1.
  pose proof (pow2_pos e1). pose proof (pow2_pos (- e1)).
  destruct (Z.eqb_spec m1 0) as [->|Hm0].
  { exists 0. split_and!; [done|lia|lia|]. intros ->. rewrite Hr1 in Hex. lia. }
  assert (Hnum : 0 < A * m1 * pow2 e1) by nia.
  pose proof (round_quo_le p (A * m1 * pow2 e1) (pow2 (- e1)) A Hnum ltac:(lia) ltac:(lia) HAp
    ltac:(nia)) as H2.
  pose proof (round_quo_nonneg p (A * m1 * pow2 e1) (pow2 (- e1)) Hnum ltac:(lia)) as Hm2.
  pose proof (round_quo_exact p (pow2 (- e1)) A HA ltac:(lia) ltac:(lia) HAp) as Hex2.
  destruct (round_quo p (A * m1 * pow2 e1) (pow2 (- e1))) as [m2 e2] eqn:Hr2. cbn [fst] in Hm2.
  pose proof (pow2_pos e2). pose proof (pow2_pos (- e2)).
  eexists. split; [exact Heq|]. split; [split|].
  - apply Z.div_pos; nia.
  - apply Z.div_le_upper_bound; lia.
  - intros ->. rewrite Hr1 in Hex. replace (A * m1 * pow2 e1) with (A * pow2 (- e1)) in Hr2 by nia.
    rewrite Hr2 in Hex2. rewrite Hex2. apply Z.div_mul. lia.
Qed.

Lemma entitled_nonpos A D u :
  0 ≤ A → 0 < D → u ≤ 0 → ∃ n, entitled A D u = Returns n ∧ n ≤ 0 ∧ (u = 0 → n = 0).
Proof.
  intros HA HD Hu. unfold entitled. destruct (Z.ltb_spec D u); [lia|]. unfold Quo64.
  destruct (Z.eqb_spec D 0); [lia|]. destruct (Z.eqb_spec u 0) as [->|Hu0].
  { cbn. rewrite orb_true_r. exists 0. done. }
  pose proof (round_quo_nonneg 64 (Z.abs u) (Z.abs D) ltac:(lia) ltac:(lia)) as Hm1.
  destruct (round_quo 64 (Z.abs u) (Z.abs D)) as [m1 e1]. cbn [fst] in Hm1.
  destruct (Z.ltb_spec u 0), (Z.ltb_spec D 0); try lia. cbn [xorb MulInt].
  destruct ((A =? 0) || (m1 =? 0)) eqn:Hz; [exists 0; split_and!; [done|lia|done]|].
  apply orb_false_elim in Hz as [HA0 Hm0]. apply Z.eqb_neq in HA0, Hm0.
  pose proof (pow2_pos e1). pose proof (pow2_pos (- e1)).
  pose proof (round_quo_nonneg (Z.max 64 (bit_len A)) (Z.abs A * m1 * pow2 e1) (pow2 (- e1))
    ltac:(nia) ltac:(lia)) as Hm2.
  destruct (round_quo _ _ _) as [m2 e2]. cbn [fst] in Hm2. destruct (Z.ltb_spec A 0); [lia|].
  cbn [xorb ToInt]. eexists. split_and!; [reflexivity| |lia].
  pose proof (pow2_pos e2). pose proof (pow2_pos (- e2)).
  assert (0 ≤ m2 * pow2 e2 / pow2 (- e2)) by (apply Z.div_pos; nia). lia.
Qed.

(** An uptime past the duration counts as the duration. *)
Lemma entitled_cap A D u : D ≤ u → entitled A D u = entitled A D D.
Proof.
  intros Hu. unfold entitled. rewrite Z.ltb_irrefl. destruct (Z.ltb_spec D u); [done|].
  by replace u with D by lia.
Qed.

(** Between nothing and everything, and everything at full uptime. *)
Lemma entitled_range A D u :
  0 ≤ A → 0 < D →
  ∃ n, entitled A D u = Returns n ∧ n ≤ A ∧ (0 ≤ u → 0 ≤ n) ∧ (D ≤ u → n = A).
Proof.
  intros HA HD. destruct (decide (u ≤ 0)) as [Hu|Hu].
  { destruct (entitled_nonpos A D u HA HD Hu) as (n & Hn & Hle & H0). exists n.
    split_and!; [done|lia|lia|lia]. }
  destruct (decide (A = 0)) as [->|HA0].
  { exists 0. split_and!; [|lia..]. unfold entitled, Quo64.
    destruct (Z.eqb_spec D 0); [lia|].
    destruct (_ =? 0); [done|]. by destruct (round_quo _ _ _). }
  destruct (decide (D ≤ u)) as [Hfull|Hpart].
  - destruct (entitled_pos A D D ltac:(lia) HD HD ltac:(lia)) as (n & Hn & Hr & Hx).
    rewrite entitled_cap by done. exists n. split_and!; [done|lia|lia|auto].
  - destruct (entitled_pos A D u ltac:(lia) HD ltac:(lia) ltac:(lia)) as (n & Hn & Hr & Hx).
    exists n. split_and!; [done|lia|lia|lia].
Qed.

(** ** Histories of releases *)

(** A sequence of releases of one escrow, with the amounts paid. *)
Fixpoint releases (id : string) (us : list duration) (em : EscrowManager) :
    outcome (EscrowManager * list Z) :=
  match us with
  | [] => Returns (em, [])
  | u :: us =>
      match ReleasePayment id u em with
      | Returns (em, inr n) =>
          match releases id us em with
          | Returns (em, paid) => Returns (em, n :: paid)
          | Panics => Panics
          end
      | Returns (em, inl _) => Returns (em, [])
      | Panics => Panics
      end
  end.

Definition total (paid : list Z) : Z := foldr Z.add 0 paid.

Lemma ReleasePayment_step id (em : EscrowManager) e u :
  em !! id = Some e → 0 ≤ Amount e → 0 < Duration e → 0 ≤ Released e ≤ Amount e →
  ∃ em' e' n, ReleasePayment id u em = Returns (em', inr n) ∧ em' !! id = Some e' ∧
    Amount e' = Amount e ∧ Duration e' = Duration e ∧
    0 ≤ n ∧ Released e' = Released e + n ∧ Released e' ≤ Amount e ∧
    (Duration e ≤ u → Released e' = Amount e).
Proof.
  intros He HA HD HR. unfold ReleasePayment. rewrite He.
  destruct (entitled_range (Amount e) (Duration e) u HA HD) as (n & -> & Hn & _ & Hfull).
  destruct (Z.leb_spec (n - Released e) 0).
  - exists em, e, 0. split_and!; try done; try lia.
  - do 3 eexists. split; [reflexivity|]. split; [apply lookup_insert_eq|].
    cbn [Amount Duration Released]. split_and!; try done; lia.
Qed.

Lemma releases_spec id us (em : EscrowManager) e :
  em !! id = Some e → 0 ≤ Amount e → 0 < Duration e → 0 ≤ Released e ≤ Amount e →
  ∃ em' e' paid, releases id us em = Returns (em', paid) ∧ em' !! id = Some e' ∧
    Forall (Z.le 0) paid ∧ Released e' = Released e + total paid ∧ Released e' ≤ Amount e ∧
    (Exists (Z.le (Duration e)) us → Released e' = Amount e).
Proof.
  revert em e. induction us as [|u us IH]; intros em e He HA HD HR; cbn [releases].
  { exists em, e, []. split_and!; try done; [cbn; lia|lia|by intros ?%Exists_nil]. }
  destruct (ReleasePayment_step id em e u He HA HD HR)
    as (em1 & e1 & n & -> & He1 & HA1 & HD1 & Hn & HR1 & Hle & Hfull).
  destruct (IH em1 e1 He1) as (em2 & e2 & paid & -> & He2 & Hpos & Hsum & Hle2 & Hfull2); [lia..|].
  assert (Htot : 0 ≤ total paid).
  { clear -Hpos. induction Hpos; [done|]. unfold total in *; cbn; lia. }
  exists em2, e2, (n :: paid). split; [done|]. split; [done|]. split; [by constructor|].
  split; [unfold total in *; cbn; lia|]. split; [lia|].
  rewrite Exists_cons. intros [Hu|Hus]; [specialize (Hfull Hu); lia|].
  rewrite <- HA1. apply Hfull2. by rewrite HD1.
Qed.

(** C5: safety.  An escrow is never overpaid.  Whatever uptimes are reported and
    in whatever order, the releases are never negative, their sum is what the
    escrow records as released and never exceeds the deposit; and once an uptime
    covers the whole duration the sum is exactly the deposit, although the
    shares are computed in floating point. *)
Theorem escrow_never_overpaid now id A D us (em : EscrowManager) :
  0 ≤ A → 0 < D →
  ∃ em' e' paid, releases id us (CreateEscrow now id A D em).1 = Returns (em', paid) ∧
    GetEscrow id em' = Some e' ∧ Released e' = total paid ∧
    Forall (Z.le 0) paid ∧ total paid ≤ A ∧ (Exists (Z.le D) us → total paid = A).
Proof.
  intros HA HD.
  destruct (releases_spec id us (CreateEscrow now id A D em).1 (mkEscrow id A D now 0))
    as (em' & e' & paid & Hr & He & Hpos & Hsum & Hle & Hfull);
    [apply lookup_insert_eq|cbn; lia..|]. cbn in *.
  exists em', e', paid. split_and!; try done; try lia.
  intros Hex. specialize (Hfull Hex). lia.
Qed.

Lemma escrow_never_overpaid_witness :
  ∃ em' e' paid, releases "r" [hour; 30 * minute; 3 * hour]
      (CreateEscrow 0 "r" 1000000000000000000 (2 * hour) ∅).1 = Returns (em', paid) ∧
    GetEscrow "r" em' = Some e' ∧ Released e' = total paid ∧ Forall (Z.le 0) paid ∧
    total paid ≤ 1000000000000000000 ∧
    (Exists (Z.le (2 * hour)) [hour; 30 * minute; 3 * hour] → total paid = 1000000000000000000).
Proof.
  apply (escrow_never_overpaid 0 "r" 1000000000000000000 (2 * hour) [hour; 30 * minute; 3 * hour] ∅);
    [lia|vm_compute; reflexivity].
Defined.

(** Error.  [ReleasePayment] panics exactly when the escrow was created with
    a zero duration, for every uptime and amount. *)
Theorem ReleasePayment_panics_iff id u (em : EscrowManager) :
  ReleasePayment id u em = Panics ↔ ∃ e, em !! id = Some e ∧ Duration e = 0.
Proof.
  unfold ReleasePayment. destruct (em !! id) as [e|]; [|naive_solver].
  assert (He : entitled (Amount e) (Duration e) u = Panics ↔ Duration e = 0).
  { unfold entitled, Quo64. destruct (Z.eqb_spec (Duration e) 0) as [->|HD].
    - split; [done|intros _]. destruct (Z.ltb_spec 0 u); [done|].
      destruct (u =? 0); [done|]. cbn. by destruct (Amount e =? 0).
    - split; [|done]. generalize (if Duration e <? u then Duration e else u). intros v.
      destruct (v =? 0); [cbn; by rewrite orb_true_r|].
      destruct (round_quo 64 (Z.abs v) (Z.abs (Duration e))) as [m1 e1]. unfold MulInt.
      destruct (_ || _); [done|]. by destruct (round_quo _ (Z.abs (Amount e) * m1 * pow2 e1) _). }
  destruct (entitled _ _ _); [|naive_solver].
  split; [by destruct (_ <=? _)|]. intros (e' & [= <-] & HD). apply He in HD. done.
Qed.

(** Two roundings with relative error [2^-64] and a truncation. *)
Lemma shares_compose A D u n1 d1 n2 d2 n p :
  0 < A → 0 < D → 0 < u → 0 < n1 → 0 < d1 → 0 < d2 → 64 ≤ p →
  Z.abs (n1 * D - u * d1) * 2 ^ 64 ≤ u * d1 →
  Z.abs (n2 * d1 - A * n1 * d2) * 2 ^ p ≤ A * n1 * d2 →
  n * d2 ≤ n2 < (n + 1) * d2 →
  n * D * 2 ^ 62 ≤ A * u * (2 ^ 62 + 1) ∧ A * u * (2 ^ 62 - 1) ≤ (n + 1) * D * 2 ^ 62.
Proof.
  intros HA HD Hu Hn1 Hd1 Hd2 Hp H1 H2 Hn. set (T := 2 ^ 64) in *.
  assert (HT : T ≤ 2 ^ p) by (apply Z.pow_le_mono_r; lia).
  assert (H2' : Z.abs (n2 * d1 - A * n1 * d2) * T ≤ A * n1 * d2) by nia. clear H2 HT.
  assert (HT : T = 2 ^ 64) by done. clearbody T.
  assert (Hu1 : n1 * D * T ≤ u * d1 * (T + 1)) by nia.
  assert (Hl1 : u * d1 * (T - 1) ≤ n1 * D * T) by nia.
  assert (Hu2 : n2 * d1 * T ≤ A * n1 * d2 * (T + 1)) by nia.
  assert (Hl2 : A * n1 * d2 * (T - 1) ≤ n2 * d1 * T) by nia.
  assert (Hup : n * D * (T * T) ≤ A * u * ((T + 1) * (T + 1))).
  { apply (Z.mul_le_mono_pos_r _ _ (d1 * d2)); [nia|].
    transitivity (n2 * d1 * T * (D * T)); [|transitivity (A * n1 * d2 * (T + 1) * (D * T))].
    - replace (n * D * (T * T) * (d1 * d2)) with (n * d2 * (d1 * T * (D * T))) by ring.
      replace (n2 * d1 * T * (D * T)) with (n2 * (d1 * T * (D * T))) by ring.
      apply Z.mul_le_mono_nonneg_r; [|lia]. assert (0 < T) by lia. nia.
    - apply Z.mul_le_mono_nonneg_r; [|done]. assert (0 < T) by lia. nia.
    - replace (A * n1 * d2 * (T + 1) * (D * T)) with (n1 * D * T * (A * d2 * (T + 1))) by ring.
      replace (A * u * ((T + 1) * (T + 1)) * (d1 * d2)) with (u * d1 * (T + 1) * (A * d2 * (T + 1))) by ring.
      apply Z.mul_le_mono_nonneg_r; [|done]. assert (0 < T) by lia. nia. }
  assert (Hlo : A * u * ((T - 1) * (T - 1)) ≤ (n + 1) * D * (T * T)).
  { apply (Z.mul_le_mono_pos_r _ _ (d1 * d2)); [nia|].
    transitivity (n2 * d1 * T * (D * T)); [transitivity (A * n1 * d2 * (T - 1) * (D * T))|].
    - replace (A * n1 * d2 * (T - 1) * (D * T)) with (n1 * D * T * (A * d2 * (T - 1))) by ring.
      replace (A * u * ((T - 1) * (T - 1)) * (d1 * d2)) with (u * d1 * (T - 1) * (A * d2 * (T - 1))) by ring.
      apply Z.mul_le_mono_nonneg_r; [|done]. assert (0 ≤ T - 1) by lia. nia.
    - apply Z.mul_le_mono_nonneg_r; [|done]. assert (0 < T) by lia. nia.
    - replace ((n + 1) * D * (T * T) * (d1 * d2)) with ((n + 1) * d2 * (d1 * T * (D * T))) by ring.
      replace (n2 * d1 * T * (D * T)) with (n2 * (d1 * T * (D * T))) by ring.
      apply Z.mul_le_mono_nonneg_r; [|lia]. assert (0 < T) by lia. nia. }
  subst T. split; nia.
Qed.

(** Bounds.  The share is accurate: for an uptime within the duration, what
    the code computes differs from the exact pro-rata share by a relative error
    below [2^-62] and the fraction of a unit that truncation drops. *)
Theorem entitled_accuracy A D u :
  0 < A → 0 < D → 0 < u → u ≤ D →
  ∃ n, entitled A D u = Returns n ∧
    n * D * 2 ^ 62 ≤ A * u * (2 ^ 62 + 1) ∧ A * u * (2 ^ 62 - 1) ≤ (n + 1) * D * 2 ^ 62.
Proof.
  intros HA HD Hu Hle. pose proof (entitled_eq A D u HA HD Hu Hle) as Heq.
  pose proof (round_quo_error 64 u D Hu HD ltac:(lia)) as H1.
  pose proof (round_quo_nonneg 64 u D Hu HD) as Hm1.
  destruct (round_quo 64 u D) as [m1 e1]. cbn [fst] in Hm1.
  pose proof (pow2_pos e1) as Hp1. pose proof (pow2_pos (- e1)) as Hq1.
  set (n1 := m1 * pow2 e1) in *. set (d1 := pow2 (- e1)) in *.
  replace (m1 * (D * pow2 e1)) with (n1 * D) in H1 by (unfold n1; ring).
  assert (Hm0 : m1 ≠ 0) by (intros ->; unfold n1 in H1; nia).
  destruct (Z.eqb_spec m1 0); [done|].
  replace (A * m1 * pow2 e1) with (A * n1) in Heq by (unfold n1; ring).
  set (p := Z.max 64 (bit_len A)) in *.
  pose proof (round_quo_error p (A * n1) d1 ltac:(unfold n1; nia) Hq1 ltac:(lia)) as H2.
  destruct (round_quo p (A * n1) d1) as [m2 e2].
  pose proof (pow2_pos e2) as Hp2. pose proof (pow2_pos (- e2)) as Hq2.
  set (n2 := m2 * pow2 e2) in *. set (d2 := pow2 (- e2)) in *.
  replace (m2 * (d1 * pow2 e2)) with (n2 * d1) in H2 by (unfold n2; ring).
  eexists. split; [exact Heq|].
  pose proof (Z.div_mod n2 d2 ltac:(lia)). pose proof (Z.mod_pos_bound n2 d2 Hq2).
  assert (Hn1 : 0 < n1) by (unfold n1; nia).
  apply (shares_compose A D u n1 d1 n2 d2 (n2 / d2) p); try done; lia.
Qed.

Lemma entitled_accuracy_witness :
  ∃ n, entitled 1000000000000000000 (3 * hour) hour = Returns n ∧
    n * (3 * hour) * 2 ^ 62 ≤ 1000000000000000000 * hour * (2 ^ 62 + 1) ∧
    1000000000000000000 * hour * (2 ^ 62 - 1) ≤ (n + 1) * (3 * hour) * 2 ^ 62.
Proof. apply entitled_accuracy; [lia|vm_compute; reflexivity|vm_compute; reflexivity|vm_compute; discriminate]. Defined.
