(* ===== verification/Credits.v ===== *)
(** * Prepaid invocation credits ([MoltCreditManager], internal/payment/escrow.go)

    The manager maps a requester to a credit object.  The map and the objects
    have separate locks: each method looks the object up under the first lock
    and works on it under the second.  A method is therefore two atomic steps
    on a store, and calls of different goroutines interleave at that point.

    Theorems: under every interleaving no credit is created or destroyed and no
    balance is negative; a method called alone does what it says; a deposit that
    races with a refund is lost to its owner. *)

From S2P Require Import Prelude.
Local Open Scope Z_scope.

Abbreviation credit_loc := N (only parsing).

Record MoltCredit := mkCredit {
  RequesterAddress : string;
  Balance : Z;
  TotalDeposited : Z;
  TotalSpent : Z;
  mc_CreatedAt : time;
  LastInvocation : time
}.

Record MoltCreditManager := mkMCM {
  credits : gmap string credit_loc;
  credit_objs : gmap credit_loc MoltCredit
}.

Definition NewMoltCreditManager : MoltCreditManager := mkMCM ∅ ∅.

Definition put_credit (l : credit_loc) (c : MoltCredit) (m : MoltCreditManager) : MoltCreditManager :=
  mkMCM (credits m) (<[l := c]> (credit_objs m)).

(** ** The halves of the methods *)

(** The object of a requester, created when there is none. *)
Definition deposit_open (now : time) (addr : string) (m : MoltCreditManager) :
    MoltCreditManager * credit_loc :=
  match credits m !! addr with
  | Some l => (m, l)
  | None =>
      let l := fresh (dom (credit_objs m)) in
      (mkMCM (<[addr := l]> (credits m)) (<[l := mkCredit addr 0 0 0 now 0]> (credit_objs m)), l)
  end.

Definition deposit_add (l : credit_loc) (amount : Z) (m : MoltCreditManager) : MoltCreditManager :=
  match credit_objs m !! l with
  | Some c => put_credit l (mkCredit (RequesterAddress c) (Balance c + amount)
      (TotalDeposited c + amount) (TotalSpent c) (mc_CreatedAt c) (LastInvocation c)) m
  | None => m
  end.

Inductive CreditError := NoCredits | InsufficientCredits (have need : Z).

Definition deduct_locked (now : time) (l : credit_loc) (cost : Z) (m : MoltCreditManager) :
    MoltCreditManager * option CreditError :=
  match credit_objs m !! l with
  | Some c =>
      if Balance c <? cost then (m, Some (InsufficientCredits (Balance c) cost))
      else (put_credit l (mkCredit (RequesterAddress c) (Balance c - cost) (TotalDeposited c)
              (TotalSpent c + cost) (mc_CreatedAt c) now) m, None)
  | None => (m, Some NoCredits)
  end.

Definition refund_take (addr : string) (m : MoltCreditManager) : MoltCreditManager * option credit_loc :=
  (mkMCM (delete addr (credits m)) (credit_objs m), credits m !! addr).

Definition refund_zero (l : credit_loc) (m : MoltCreditManager) : MoltCreditManager * Z :=
  match credit_objs m !! l with
  | Some c => (put_credit l (mkCredit (RequesterAddress c) 0 (TotalDeposited c) (TotalSpent c)
      (mc_CreatedAt c) (LastInvocation c)) m, Balance c)
  | None => (m, 0)
  end.

(** ** The methods, called alone *)

Definition Deposit (now : time) (addr : string) (amount : Z) (m : MoltCreditManager) : MoltCreditManager :=
  let '(m, l) := deposit_open now addr m in deposit_add l amount m.

Definition Deduct (now : time) (addr : string) (cost : Z) (m : MoltCreditManager) :
    MoltCreditManager * option CreditError :=
  match credits m !! addr with
  | None => (m, Some NoCredits)
  | Some l => deduct_locked now l cost m
  end.

Definition GetBalance (addr : string) (m : MoltCreditManager) : Z :=
  match credits m !! addr with
  | None => 0
  | Some l => from_option Balance 0 (credit_objs m !! l)
  end.

Definition GetCredit (addr : string) (m : MoltCreditManager) : option credit_loc := credits m !! addr.

Definition RefundAll (addr : string) (m : MoltCreditManager) : MoltCreditManager * Z :=
  match refund_take addr m with
  | (m, None) => (m, 0)
  | (m, Some l) => refund_zero l m
  end.

(** ** Interleavings *)

(** A call between its two halves. *)
Inductive call := CDeposit (l : credit_loc) (amount : Z) | CDeduct (l : credit_loc) (cost : Z) | CRefund (l : credit_loc).

(** The manager, the calls in progress, and what has been deposited, spent and
    refunded so far. *)
Record world := mkWorld {
  mgr : MoltCreditManager;
  calls : list call;
  deposited : Z;
  spent : Z;
  refunded : Z
}.

Inductive credit_step : world → world → Prop :=
  | begin_deposit now addr amount m l m' cs d s f :
      0 ≤ amount → deposit_open now addr m = (m', l) →
      credit_step (mkWorld m cs d s f) (mkWorld m' (cs ++ [CDeposit l amount]) d s f)
  | end_deposit k l amount m cs d s f :
      cs !! k = Some (CDeposit l amount) →
      credit_step (mkWorld m cs d s f)
        (mkWorld (deposit_add l amount m) (delete k cs) (d + amount) s f)
  | begin_deduct addr cost m l cs d s f :
      0 ≤ cost → credits m !! addr = Some l →
      credit_step (mkWorld m cs d s f) (mkWorld m (cs ++ [CDeduct l cost]) d s f)
  | end_deduct now k l cost m m' err cs d s f :
      cs !! k = Some (CDeduct l cost) → deduct_locked now l cost m = (m', err) →
      credit_step (mkWorld m cs d s f)
        (mkWorld m' (delete k cs) d (match err with None => s + cost | Some _ => s end) f)
  | begin_refund addr m m' l cs d s f :
      refund_take addr m = (m', Some l) →
      credit_step (mkWorld m cs d s f) (mkWorld m' (cs ++ [CRefund l]) d s f)
  | end_refund k l m m' n cs d s f :
      cs !! k = Some (CRefund l) → refund_zero l m = (m', n) →
      credit_step (mkWorld m cs d s f) (mkWorld m' (delete k cs) d s (f + n)).

Definition world0 : world := mkWorld NewMoltCreditManager [] 0 0 0.

Definition call_loc (c : call) : credit_loc :=
  match c with CDeposit l _ | CDeduct l _ | CRefund l => l end.

Definition call_ok (c : call) : Prop :=
  match c with CDeposit _ a | CDeduct _ a => 0 ≤ a | CRefund _ => True end.

(** Every object in use exists, balances are not negative, and the books
    balance. *)
Definition credit_inv (w : world) : Prop :=
  (∀ a l, credits (mgr w) !! a = Some l → is_Some (credit_objs (mgr w) !! l)) ∧
  Forall (λ c, is_Some (credit_objs (mgr w) !! call_loc c) ∧ call_ok c) (calls w) ∧
  map_Forall (λ _ c, 0 ≤ Balance c) (credit_objs (mgr w)) ∧
  sum_map Balance (credit_objs (mgr w)) + spent w + refunded w = deposited w.

(** Replacing an object. *)
Lemma inv_put m cs l c c' d s f d' s' f' k :
  credit_inv (mkWorld m cs d s f) → credit_objs m !! l = Some c → 0 ≤ Balance c' →
  Balance c' - Balance c + (s' - s) + (f' - f) = d' - d →
  credit_inv (mkWorld (put_credit l c' m) (delete k cs) d' s' f').
Proof.
  intros (H1 & H2 & H3 & H4) Hl Hc Hb. unfold credit_inv in *; cbn in *. split_and!.
  - intros a l' Ha. rewrite lookup_insert. case_decide; eauto.
  - apply Forall_delete. eapply Forall_impl; [exact H2|]. intros x [Hx Hok]. split; [|done].
    rewrite lookup_insert. case_decide; eauto.
  - by apply map_Forall_insert_2.
  - rewrite (sum_map_update _ _ _ c) by done. lia.
Qed.

Lemma inv_same m cs d s f k :
  credit_inv (mkWorld m cs d s f) → credit_inv (mkWorld m (delete k cs) d s f).
Proof.
  intros (H1 & H2 & H3 & H4). unfold credit_inv in *; cbn in *. split_and!; try done.
  by apply Forall_delete.
Qed.

Lemma credit_inv_step w w' : credit_step w w' → credit_inv w → credit_inv w'.
Proof.
  intros Hstep Hinv.
  destruct Hstep as [now addr amount m l m' cs d s f Ha Ho|k l amount m cs d s f Hk
    |addr cost m l cs d s f Hc Hl|now k l cost m m' err cs d s f Hk Hd
    |addr m m' l cs d s f Ht|k l m m' n cs d s f Hk Hz];
    pose proof Hinv as (H1 & H2 & H3 & H4); cbn in H1, H2, H3, H4.
  - unfold deposit_open in Ho. destruct (credits m !! addr) as [l'|] eqn:Hl; simplify_eq.
    + unfold credit_inv; cbn. split_and!; try done. apply Forall_app. split; [done|].
      repeat constructor; cbn; eauto.
    + set (l := fresh _) in *.
      assert (Hfr : credit_objs m !! l = None) by (apply not_elem_of_dom, is_fresh).
      unfold credit_inv; cbn. split_and!.
      * intros a l'. rewrite !lookup_insert. repeat case_decide; intros; simplify_eq; eauto.
      * apply Forall_app. split.
        -- eapply Forall_impl; [exact H2|]. intros x [Hx Hok]. split; [|done].
           rewrite lookup_insert. case_decide; eauto.
        -- repeat constructor; cbn; [rewrite lookup_insert_eq; eauto|done].
      * apply map_Forall_insert_2; [cbn; lia|done].
      * rewrite sum_map_insert_fresh by done. cbn. lia.
  - rewrite Forall_lookup in H2. destruct (H2 k _ Hk) as [[c Hc] Hok]; cbn in *.
    unfold deposit_add. rewrite Hc. specialize (H3 l c Hc); cbn in H3.
    eapply inv_put; [exact Hinv|done|cbn; lia|cbn; lia].
  - unfold credit_inv; cbn. split_and!; try done. apply Forall_app. split; [done|].
    repeat constructor; cbn; eauto.
  - rewrite Forall_lookup in H2. destruct (H2 k _ Hk) as [[c Hc] Hok]; cbn in *.
    unfold deduct_locked in Hd. rewrite Hc in Hd. specialize (H3 l c Hc); cbn in H3.
    destruct (Z.ltb_spec (Balance c) cost); simplify_eq; [by apply inv_same|].
    eapply inv_put; [exact Hinv|done|cbn; lia|cbn; lia].
  - unfold refund_take in Ht. simplify_eq. unfold credit_inv; cbn. split_and!; try done.
    + intros a l' Ha. apply lookup_delete_Some in Ha as [_ Ha]. eauto.
    + apply Forall_app. split; [done|]. repeat constructor; cbn; eauto.
  - rewrite Forall_lookup in H2. destruct (H2 k _ Hk) as [[c Hc] _]; cbn in *.
    unfold refund_zero in Hz. rewrite Hc in Hz. simplify_eq. specialize (H3 l c Hc); cbn in H3.
    eapply inv_put; [exact Hinv|done|cbn; lia|cbn; lia].
Qed.

Lemma credit_inv_0 : credit_inv world0.
Proof. unfold credit_inv; cbn. split_and!; [by intros ? ?|constructor|apply map_Forall_empty|done]. Qed.

Lemma credit_inv_reachable w : rtc credit_step world0 w → credit_inv w.
Proof.
  intros Hr. pose proof credit_inv_0 as H0. revert H0.
  induction Hr as [|w1 w2 w3 Hs _ IH]; eauto using credit_inv_step.
Qed.

(** ** A sequence of calls against a map from requester to balance *)

Inductive credit_op :=
  | OpDeposit (now : time) (addr : string) (amount : Z)
  | OpDeduct (now : time) (addr : string) (cost : Z)
  | OpRefundAll (addr : string).

(** What a call returns. *)
Inductive credit_result := RUnit | RErr (e : option CreditError) | RAmount (n : Z).

Definition credit_exec (o : credit_op) (m : MoltCreditManager) : MoltCreditManager * credit_result :=
  match o with
  | OpDeposit now a n => (Deposit now a n m, RUnit)
  | OpDeduct now a n => let '(m, e) := Deduct now a n m in (m, RErr e)
  | OpRefundAll a => let '(m, n) := RefundAll a m in (m, RAmount n)
  end.

Fixpoint credit_execs (os : list credit_op) (m : MoltCreditManager) :
    MoltCreditManager * list credit_result :=
  match os with
  | [] => (m, [])
  | o :: os => let '(m, r) := credit_exec o m in
               let '(m, rs) := credit_execs os m in (m, r :: rs)
  end.

Definition spec_exec (o : credit_op) (b : gmap string Z) : gmap string Z * credit_result :=
  match o with
  | OpDeposit _ a n => (<[a := default 0 (b !! a) + n]> b, RUnit)
  | OpDeduct _ a n =>
      match b !! a with
      | None => (b, RErr (Some NoCredits))
      | Some v => if v <? n then (b, RErr (Some (InsufficientCredits v n)))
                  else (<[a := v - n]> b, RErr None)
      end
  | OpRefundAll a => (delete a b, RAmount (default 0 (b !! a)))
  end.

Fixpoint spec_execs (os : list credit_op) (b : gmap string Z) : gmap string Z * list credit_result :=
  match os with
  | [] => (b, [])
  | o :: os => let '(b, r) := spec_exec o b in
               let '(b, rs) := spec_execs os b in (b, r :: rs)
  end.

(** The simulation: every requester has an object of its own that holds the
    balance the map gives. *)
Definition credit_sim (m : MoltCreditManager) (b : gmap string Z) : Prop :=
  (∀ a, b !! a = (credits m !! a) ≫= λ l, Balance <$> credit_objs m !! l) ∧
  (∀ a l, credits m !! a = Some l → is_Some (credit_objs m !! l)) ∧
  (∀ a a' l, credits m !! a = Some l → credits m !! a' = Some l → a = a').

Lemma sim_lookup m b a l c :
  credit_sim m b → credits m !! a = Some l → credit_objs m !! l = Some c → b !! a = Some (Balance c).
Proof. intros [H _] Hl Hc. by rewrite H, Hl; cbn; rewrite Hc. Qed.

Lemma sim_put m b a l c c' :
  credit_sim m b → credits m !! a = Some l → credit_objs m !! l = Some c →
  credit_sim (put_credit l c' m) (<[a := Balance c']> b).
Proof.
  intros (H1 & H2 & H3) Hl Hc. split_and!; cbn; [|intros a' l' Ha'|done].
  - intros a'. rewrite (lookup_insert b). case_decide as Ha; simplify_eq.
    + rewrite Hl; cbn. by rewrite lookup_insert_eq.
    + rewrite H1. destruct (credits m !! a') as [l'|] eqn:Hl'; [|done]. cbn.
      rewrite lookup_insert_ne; [done|]. intros ->. eauto.
  - rewrite lookup_insert. case_decide; eauto.
Qed.

Lemma sim_open now m b a m' l :
  credit_sim m b → deposit_open now a m = (m', l) →
  credit_sim m' (<[a := default 0 (b !! a)]> b) ∧ credits m' !! a = Some l ∧
  ∃ c, credit_objs m' !! l = Some c ∧ Balance c = default 0 (b !! a).
Proof.
  intros Hsim Ho. pose proof Hsim as (H1 & H2 & H3). unfold deposit_open in Ho.
  destruct (credits m !! a) as [l'|] eqn:Hl; simplify_eq.
  - destruct (H2 _ _ Hl) as [c Hc]. rewrite (sim_lookup _ _ _ _ _ Hsim Hl Hc). cbn.
    rewrite insert_id by (by eapply sim_lookup). eauto.
  - rewrite H1, Hl; cbn. set (l := fresh _).
    assert (Hfr : credit_objs m !! l = None) by (apply not_elem_of_dom, is_fresh).
    clearbody l.
    rewrite !lookup_insert_eq. split_and!; eauto.
    split_and!; cbn; [intros a'|intros a' l'|intros a' a'' l'].
    + rewrite !lookup_insert. case_decide; simplify_eq; cbn; [by rewrite lookup_insert_eq|].
      rewrite H1. destruct (credits m !! a') as [l'|] eqn:Hl'; [|done]. cbn.
      rewrite lookup_insert_ne; [done|]. intros <-. destruct (H2 _ _ Hl') as [? ?]. congruence.
    + rewrite !lookup_insert. repeat case_decide; intros; simplify_eq; eauto.
    + rewrite !lookup_insert. repeat case_decide; intros; simplify_eq; eauto;
        exfalso; match goal with H : credits m !! _ = Some _ |- _ =>
          destruct (H2 _ _ H) as [? ?]; congruence end.
Qed.

Lemma sim_exec o m b m' r b' r' :
  credit_sim m b → credit_exec o m = (m', r) → spec_exec o b = (b', r') →
  credit_sim m' b' ∧ r = r'.
Proof.
  intros Hsim. pose proof Hsim as (H1 & H2 & H3). destruct o as [now a n|now a n|a]; cbn.
  - unfold Deposit. destruct (deposit_open now a m) as [m1 l] eqn:Ho. intros ??; simplify_eq.
    destruct (sim_open _ _ _ _ _ _ Hsim Ho) as (Hs & Hl & c & Hc & Hb). split; [|done].
    unfold deposit_add. rewrite Hc. rewrite <- Hb in *. rewrite <- (insert_insert_eq b a _ (Balance c)).
    by eapply (sim_put _ _ _ _ c (mkCredit _ (Balance c + n) _ _ _ _)).
  - unfold Deduct. rewrite H1. destruct (credits m !! a) as [l|] eqn:Hl; cbn; [|by intros; simplify_eq].
    destruct (H2 _ _ Hl) as [c Hc]. unfold deduct_locked. rewrite Hc; cbn.
    destruct (Balance c <? n); intros; simplify_eq; [done|]. split; [|done].
    by eapply (sim_put _ _ _ _ c (mkCredit _ (Balance c - n) _ _ _ _)).
  - unfold RefundAll, refund_take. rewrite H1. destruct (credits m !! a) as [l|] eqn:Hl; cbn.
    + destruct (H2 _ _ Hl) as [c Hc]. unfold refund_zero; cbn. rewrite Hc; cbn. intros; simplify_eq.
      split; [|done]. split_and!; cbn.
      * intros a'. rewrite !lookup_delete. case_decide; [done|]. rewrite H1.
        destruct (credits m !! a') as [l'|] eqn:Hl'; [|done]. cbn.
        rewrite lookup_insert_ne; [done|]. intros ->. eauto.
      * intros a' l' [_ Ha']%lookup_delete_Some. rewrite lookup_insert. case_decide; eauto.
      * intros a' a'' l' [_ ?]%lookup_delete_Some [_ ?]%lookup_delete_Some. eauto.
    + intros; simplify_eq. split; [|done]. rewrite !delete_id by (rewrite ?H1, ?Hl; done).
      by destruct m.
Qed.

(** C10: refinement.  Called one after another, the methods are operations on a
    map from requester to balance: a deposit adds, a deduction fails with the
    right error and no effect unless the balance covers it, a refund returns
    the whole balance and removes the account, and no call touches another
    requester; every result of every sequence of calls agrees. *)
Theorem credits_refine_ledger os :
  let '(m, rs) := credit_execs os NewMoltCreditManager in
  let '(b, rs') := spec_execs os ∅ in
  rs = rs' ∧ ∀ a, GetBalance a m = default 0 (b !! a).
Proof.
  assert (Hgen : ∀ m b, credit_sim m b →
    (credit_execs os m).2 = (spec_execs os b).2 ∧ credit_sim (credit_execs os m).1 (spec_execs os b).1).
  { induction os as [|o os IH]; intros m b Hsim; cbn; [done|].
    destruct (credit_exec o m) as [m1 r] eqn:Hm, (spec_exec o b) as [b1 r'] eqn:Hb.
    destruct (sim_exec _ _ _ _ _ _ _ Hsim Hm Hb) as [Hs ->]. destruct (IH _ _ Hs) as [Hr Hs'].
    destruct (credit_execs os m1), (spec_execs os b1); cbn in *. by subst. }
  destruct (Hgen NewMoltCreditManager ∅) as [Hr (H1 & H2 & _)].
  { by split_and!; cbn; [intros a| |]; rewrite ?lookup_empty. }
  destruct (credit_execs _ _) as [m rs], (spec_execs _ _) as [b rs']; cbn in *.
  split; [done|]. intros a. unfold GetBalance. rewrite H1.
  destruct (credits m !! a) as [l|] eqn:Hl; [|done]. cbn. by destruct (H2 _ _ Hl) as [c ->].
Qed.

(** Safety.  However the calls of any number of goroutines interleave, no
    balance is ever negative and no credit is created or destroyed: what is
    left in the credit objects, what has been spent and what has been refunded
    sum to what has been deposited. *)
Theorem credits_conserved w :
  rtc credit_step world0 w →
  map_Forall (λ _ c, 0 ≤ Balance c) (credit_objs (mgr w)) ∧
  sum_map Balance (credit_objs (mgr w)) + spent w + refunded w = deposited w.
Proof. intros Hr. by destruct (credit_inv_reachable w Hr) as (_ & _ & ? & ?). Qed.

(** A deposit of 5 in progress while its requester asks for a refund. *)
Definition race : list credit_op := [OpDeposit 1 "0xa" 5; OpRefundAll "0xa"].

Lemma race_run :
  ∃ w, rtc credit_step world0 w ∧ calls w = [] ∧ deposited w = 5 ∧ spent w = 0 ∧ refunded w = 0 ∧
       GetBalance "0xa" (mgr w) = 0 ∧ credits (mgr w) = ∅.
Proof.
  eexists. split.
  - eapply rtc_l; [eapply (begin_deposit 1 "0xa" 5); [done|reflexivity]|].
    eapply rtc_l; [eapply (begin_refund "0xa"); reflexivity|].
    eapply rtc_l; [eapply (end_refund 1%nat); reflexivity|].
    eapply rtc_l; [eapply (end_deposit 0%nat); reflexivity|]. apply rtc_refl.
  - by vm_compute.
Qed.

Lemma credits_conserved_witness : ∃ w,
  rtc credit_step world0 w ∧ deposited w = 5 ∧
  sum_map Balance (credit_objs (mgr w)) + spent w + refunded w = deposited w.
Proof.
  destruct race_run as (w & Hr & _ & Hd & _). exists w.
  split; [exact Hr|]. split; [exact Hd|]. exact (proj2 (credits_conserved w Hr)).
Defined.

(** C40: error.  A deposit that races with a refund of the same requester can be
    lost: all calls have returned, 5 has been deposited, nothing has been spent
    or refunded, and the requester's balance is 0, where the same two calls one
    after the other in either order leave or refund the 5. *)
Theorem deposit_lost_in_race :
  (∃ w, rtc credit_step world0 w ∧ calls w = [] ∧ deposited w = 5 ∧ spent w = 0 ∧ refunded w = 0 ∧
        GetBalance "0xa" (mgr w) = 0) ∧
  (credit_execs race NewMoltCreditManager).2 = [RUnit; RAmount 5] ∧
  GetBalance "0xa" (credit_execs (rev race) NewMoltCreditManager).1 = 5.
Proof. split; [destruct race_run as (w & ? & ? & ? & ? & ? & ? & _); eauto 10|]. by vm_compute. Qed.
