(* ===== verification/Staking.v ===== *)
(** * Provider staking ([StakingManager], internal/payment/staking.go, and the
      tier table of pkg/types/economics.go)

    The in-memory ledger of stakes, rewards, beneficiaries and unstake
    requests.  Every method holds the manager's mutex, so a use of it is a
    sequence of calls; the clock reading of a call ([nowFunc]) is its [now].

    Theorems: the beneficiary is the provider or one requested at least 24 hours
    before; a stake is what was staked minus what was slashed, paid out or
    dropped; a completed unstake waits seven days, pays at most the stake and
    never panics; the tier is the highest whose minimum the stake reaches.  An
    unstake call that executes an expired request pays nothing and can make the
    stake negative, and a matured beneficiary change can be overwritten before
    it is ever applied. *)

From S2P Require Import Prelude NetAddr Float64 BigNum Stake.
Local Open Scope Z_scope.

Abbreviation Address := N (only parsing).

Record beneficiaryChange := mkBC { NewBeneficiary : Address; bc_RequestedAt : time }.
Record unstakeRequest := mkUR { ur_Amount : Z; ur_RequestedAt : time }.

Definition BeneficiaryTimelockDuration : duration := 24 * hour.
Definition UnstakeCooldownDuration : duration := 7 * 24 * hour.

Record StakingManager := mkSM {
  stakes : gmap Address Z;
  beneficiaries : gmap Address Address;
  pendingBeneficiary : gmap Address beneficiaryChange;
  rewards : gmap Address Z;
  unstakeRequests : gmap Address unstakeRequest;
  minStake : Z
}.

Inductive StakingError :=
  | StakeBelowMinimum
  | NoStake
  | ZeroBeneficiary
  | NoRewards
  | NonPositiveUnstake
  | UnstakeExceedsStake
  | UnstakePending
  | UnstakeExceedsAfterPending
  | NoUnstakeRequest
  | CooldownNotElapsed.

Definition NewStakingManager (minStake : Z) : StakingManager := mkSM ∅ ∅ ∅ ∅ ∅ minStake.

Definition set_stakes (f : gmap Address Z → gmap Address Z) (sm : StakingManager) : StakingManager :=
  mkSM (f (stakes sm)) (beneficiaries sm) (pendingBeneficiary sm) (rewards sm) (unstakeRequests sm)
    (minStake sm).
Definition set_requests (f : gmap Address unstakeRequest → gmap Address unstakeRequest)
    (sm : StakingManager) : StakingManager :=
  mkSM (stakes sm) (beneficiaries sm) (pendingBeneficiary sm) (rewards sm) (f (unstakeRequests sm))
    (minStake sm).
Definition set_rewards (f : gmap Address Z → gmap Address Z) (sm : StakingManager) : StakingManager :=
  mkSM (stakes sm) (beneficiaries sm) (pendingBeneficiary sm) (f (rewards sm)) (unstakeRequests sm)
    (minStake sm).

Definition StakeTokens (provider : Address) (amount : Z) (sm : StakingManager) :
    StakingManager * option StakingError :=
  if amount <? minStake sm then (sm, Some StakeBelowMinimum)
  else (set_stakes (λ st, match st !! provider with
                          | None => <[provider := amount]> st
                          | Some cur => <[provider := cur + amount]> st
                          end) sm, None).

Definition GetStake (provider : Address) (sm : StakingManager) : Z :=
  match stakes sm !! provider with None => 0 | Some stake => stake end.

Definition Slash (provider : Address) (amount : Z) (sm : StakingManager) :
    StakingManager * option StakingError :=
  match stakes sm !! provider with
  | None => (sm, Some NoStake)
  | Some currentStake =>
      let amount := if amount >? currentStake then currentStake else amount in
      (set_stakes <[provider := currentStake - amount]> sm, None)
  end.

Definition HasMinimumStake (provider : Address) (sm : StakingManager) : bool :=
  GetStake provider sm >=? minStake sm.

(** ** Beneficiaries and rewards *)

Definition SetBeneficiary (now : time) (provider beneficiary : Address) (sm : StakingManager) :
    StakingManager * option StakingError :=
  if (beneficiary =? 0)%N then (sm, Some ZeroBeneficiary)
  else match stakes sm !! provider with
  | None => (sm, Some NoStake)
  | Some stake =>
      if stake =? 0 then (sm, Some NoStake)
      else (mkSM (stakes sm) (beneficiaries sm)
              (<[provider := mkBC beneficiary now]> (pendingBeneficiary sm))
              (rewards sm) (unstakeRequests sm) (minStake sm), None)
  end.

Definition apply_matured (now : time) (provider : Address) (sm : StakingManager) : StakingManager :=
  match pendingBeneficiary sm !! provider with
  | Some pending =>
      if time_sub now (bc_RequestedAt pending) >=? BeneficiaryTimelockDuration
      then mkSM (stakes sm) (<[provider := NewBeneficiary pending]> (beneficiaries sm))
             (delete provider (pendingBeneficiary sm)) (rewards sm) (unstakeRequests sm) (minStake sm)
      else sm
  | None => sm
  end.

Definition GetBeneficiary (now : time) (provider : Address) (sm : StakingManager) :
    StakingManager * Address :=
  let sm := apply_matured now provider sm in
  (sm, match beneficiaries sm !! provider with Some b => b | None => provider end).

(** The result is the amount and the beneficiary it is sent to. *)
Definition ClaimRewards (now : time) (provider : Address) (sm : StakingManager) :
    StakingManager * (Z * Address + StakingError) :=
  let '(sm, beneficiary) := GetBeneficiary now provider sm in
  match rewards sm !! provider with
  | None => (sm, inr NoRewards)
  | Some reward =>
      if reward =? 0 then (sm, inr NoRewards)
      else (set_rewards <[provider := 0]> sm, inl (reward, beneficiary))
  end.

Definition AddRewards (provider : Address) (amount : Z) (sm : StakingManager) : StakingManager :=
  set_rewards (λ r, match r !! provider with
                    | None => <[provider := amount]> r
                    | Some cur => <[provider := cur + amount]> r
                    end) sm.

(** ** Unstaking *)

Definition Unstake (now : time) (provider : Address) (amount : Z) (sm : StakingManager) :
    StakingManager * option StakingError :=
  if amount <=? 0 then (sm, Some NonPositiveUnstake)
  else match stakes sm !! provider with
  | None => (sm, Some NoStake)
  | Some currentStake =>
      if currentStake =? 0 then (sm, Some NoStake)
      else if amount >? currentStake then (sm, Some UnstakeExceedsStake)
      else
        let request sm := (set_requests <[provider := mkUR amount now]> sm, None) in
        match unstakeRequests sm !! provider with
        | Some existing =>
            let elapsed := time_sub now (ur_RequestedAt existing) in
            if elapsed <? UnstakeCooldownDuration then (sm, Some UnstakePending)
            else
              let left := currentStake - ur_Amount existing in
              let sm := set_requests (delete provider) (set_stakes <[provider := left]> sm) in
              if amount >? left then (sm, Some UnstakeExceedsAfterPending) else request sm
        | None => request sm
        end
  end.

(** A request without a stake entry would compare with a nil pointer. *)
Definition CompleteUnstake (now : time) (provider : Address) (sm : StakingManager) :
    outcome (StakingManager * (Z + StakingError)) :=
  match unstakeRequests sm !! provider with
  | None => Returns (sm, inr NoUnstakeRequest)
  | Some request =>
      if time_sub now (ur_RequestedAt request) <? UnstakeCooldownDuration
      then Returns (sm, inr CooldownNotElapsed)
      else match stakes sm !! provider with
      | None => Panics
      | Some currentStake =>
          let unstakeAmount := if ur_Amount request >? currentStake then currentStake
                               else ur_Amount request in
          Returns (set_requests (delete provider)
                     (set_stakes <[provider := currentStake - unstakeAmount]> sm),
                   inl unstakeAmount)
      end
  end.

(** ** Tiers *)

Record StakingTierConfig := mkTier {
  st_Name : string;
  st_MinStake : option Z;      (** nil until parsed *)
  MinStakeString : string;
  MaxConcurrentJobs : Z;
  RewardMultiplier : float64;
  PriorityQueue : bool;
  Governance : bool;
  RevenueShare : bool
}.

(** When [SetString] fails the value of its receiver is undefined: [junk]. *)
Definition ParseMinStake (junk : Z) (s : StakingTierConfig) : StakingTierConfig * bool :=
  let with_min v := mkTier (st_Name s) (Some v) (MinStakeString s) (MaxConcurrentJobs s)
    (RewardMultiplier s) (PriorityQueue s) (Governance s) (RevenueShare s) in
  if decide (MinStakeString s = "") then (with_min 0, true)
  else match SetString10 (MinStakeString s) with
       | Some v => (with_min v, true)
       | None => (with_min junk, false)
       end.

Definition DefaultStakingTiers : gmap string StakingTierConfig := list_to_map [
  (StakingTierStarter, mkTier StakingTierStarter None "1000000000000000000000000" 3
     f1 false false false);
  (StakingTierBronze, mkTier StakingTierBronze None "5000000000000000000000000" 10
     f1 false false false);
  (StakingTierSilver, mkTier StakingTierSilver None "10000000000000000000000000" 50
     (f_const 105 100) true false false);
  (StakingTierGold, mkTier StakingTierGold None "100000000000000000000000000" 200
     (f_const 11 10) true true false);
  (StakingTierPlatinum, mkTier StakingTierPlatinum None "1000000000000000000000000000" (-1)
     (f_const 12 10) true true true) ].

Definition tierOrder : list string :=
  [StakingTierPlatinum; StakingTierGold; StakingTierSilver; StakingTierBronze; StakingTierStarter].

Definition qualifies (tiers : gmap string StakingTierConfig) (stake : Z) (tier : string) : bool :=
  match tiers !! tier with
  | Some cfg => match st_MinStake cfg with Some m => stake >=? m | None => false end
  | None => false
  end.

Definition GetTier (junk : Z) (provider : Address) (sm : StakingManager) : string :=
  let stake := GetStake provider sm in
  let tiers := (λ cfg, (ParseMinStake junk cfg).1) <$> DefaultStakingTiers in
  default "" (List.find (qualifies tiers stake) tierOrder).

(** The fields that [GetProviderState] fills in; the others keep their zero
    values.  The beneficiary is kept as an address where the code prints it. *)
Record ProviderState := mkPS {
  WalletAddress : Address;
  StakedAmount : Z;
  ps_Tier : string;
  TotalEarnings : Z;
  UnstakeInitiated : option time
}.

Definition GetProviderState (junk : Z) (now : time) (provider : Address) (sm : StakingManager) :
    StakingManager * ProviderState :=
  let stake := GetStake provider sm in
  let tier := GetTier junk provider sm in
  let '(sm, beneficiary) := GetBeneficiary now provider sm in
  (sm, mkPS beneficiary stake tier (rewards sm).[provider]%go
         (ur_RequestedAt <$> unstakeRequests sm !! provider)).

(** ** Histories *)

Inductive st_op :=
  | OpStake (p : Address) (amount : Z)
  | OpSlash (p : Address) (amount : Z)
  | OpSetBeneficiary (now : time) (p b : Address)
  | OpGetBeneficiary (now : time) (p : Address)
  | OpClaimRewards (now : time) (p : Address)
  | OpAddRewards (p : Address) (amount : Z)
  | OpUnstake (now : time) (p : Address) (amount : Z)
  | OpCompleteUnstake (now : time) (p : Address).

(** What happened to a provider's tokens: staked, slashed, paid out, and
    subtracted from the stake without being paid to anyone. *)
Record ledger := mkLedger { l_staked : Z; l_slashed : Z; l_paid : Z; l_dropped : Z }.

Record books := mkBooks { sm_of : StakingManager; ledgers : gmap Address ledger }.

Definition ledger_of (p : Address) (b : books) : ledger := default (mkLedger 0 0 0 0) (ledgers b !! p).

Definition post (p : Address) (f : ledger → ledger) (b : books) (sm : StakingManager) : books :=
  mkBooks sm (<[p := f (ledger_of p b)]> (ledgers b)).

(** Whether a call of [Unstake] gets to the request it finds and executes it. *)
Definition executes_pending (now : time) (p : Address) (amount : Z) (sm : StakingManager) : option Z :=
  match stakes sm !! p, unstakeRequests sm !! p with
  | Some stake, Some r =>
      if (0 <? amount) && negb (stake =? 0) && (amount <=? stake) &&
         (UnstakeCooldownDuration <=? time_sub now (ur_RequestedAt r))
      then Some (ur_Amount r) else None
  | _, _ => None
  end.

Definition st_step (o : st_op) (b : books) : books :=
  let sm := sm_of b in
  match o with
  | OpStake p a => match StakeTokens p a sm with
      | (sm', None) => post p (λ l, mkLedger (l_staked l + a) (l_slashed l) (l_paid l) (l_dropped l)) b sm'
      | (sm', Some _) => mkBooks sm' (ledgers b)
      end
  | OpSlash p a => match Slash p a sm with
      | (sm', None) => post p (λ l, mkLedger (l_staked l) (l_slashed l + Z.min a (GetStake p sm))
                                      (l_paid l) (l_dropped l)) b sm'
      | (sm', Some _) => mkBooks sm' (ledgers b)
      end
  | OpSetBeneficiary now p x => mkBooks (SetBeneficiary now p x sm).1 (ledgers b)
  | OpGetBeneficiary now p => mkBooks (GetBeneficiary now p sm).1 (ledgers b)
  | OpClaimRewards now p => mkBooks (ClaimRewards now p sm).1 (ledgers b)
  | OpAddRewards p a => mkBooks (AddRewards p a sm) (ledgers b)
  | OpUnstake now p a =>
      let sm' := (Unstake now p a sm).1 in
      match executes_pending now p a sm with
      | Some d => post p (λ l, mkLedger (l_staked l) (l_slashed l) (l_paid l) (l_dropped l + d)) b sm'
      | None => mkBooks sm' (ledgers b)
      end
  | OpCompleteUnstake now p => match CompleteUnstake now p sm with
      | Returns (sm', inl a) => post p (λ l, mkLedger (l_staked l) (l_slashed l) (l_paid l + a) (l_dropped l)) b sm'
      | Returns (sm', inr _) => mkBooks sm' (ledgers b)
      | Panics => b
      end
  end.

Definition books0 (minStake : Z) : books := mkBooks (NewStakingManager minStake) ∅.

(** Amounts staked and slashed are not negative. *)
Definition st_ok (o : st_op) : Prop :=
  match o with OpStake _ a | OpSlash _ a => 0 ≤ a | _ => True end.

(** ** The ledger invariant *)

Definition row_ok (stake : option Z) (req : option unstakeRequest) (l : ledger) : Prop :=
  default 0 stake = l_staked l - l_slashed l - l_paid l - l_dropped l ∧
  0 ≤ l_dropped l ∧
  (l_dropped l = 0 → 0 ≤ default 0 stake ∧ 0 ≤ l_slashed l ∧ 0 ≤ l_paid l) ∧
  match req with Some r => 0 < ur_Amount r ∧ is_Some stake | None => True end.

Definition st_inv (b : books) : Prop :=
  ∀ p, row_ok (stakes (sm_of b) !! p) (unstakeRequests (sm_of b) !! p) (ledger_of p b).

(** A call that changes only the row of [p]. *)
Lemma st_inv_row p b sm' L' :
  st_inv b →
  (∀ q, q ≠ p → stakes sm' !! q = stakes (sm_of b) !! q ∧
                unstakeRequests sm' !! q = unstakeRequests (sm_of b) !! q ∧
                default (mkLedger 0 0 0 0) (L' !! q) = ledger_of q b) →
  row_ok (stakes sm' !! p) (unstakeRequests sm' !! p) (default (mkLedger 0 0 0 0) (L' !! p)) →
  st_inv (mkBooks sm' L').
Proof.
  intros Hinv Hq Hp q. destruct (decide (q = p)) as [->|Hne]; [done|].
  unfold ledger_of; cbn. destruct (Hq q Hne) as (-> & -> & ->). apply Hinv.
Qed.

Ltac row_tac p :=
  eapply (st_inv_row p); [eassumption
    |intros q Hq; cbn; rewrite ?lookup_insert_ne, ?lookup_delete_ne by done; done
    |cbn; rewrite ?lookup_insert_eq, ?lookup_delete_eq; cbn].

Lemma GetBeneficiary_frame now p sm :
  stakes (GetBeneficiary now p sm).1 = stakes sm ∧
  unstakeRequests (GetBeneficiary now p sm).1 = unstakeRequests sm ∧
  rewards (GetBeneficiary now p sm).1 = rewards sm.
Proof. unfold GetBeneficiary, apply_matured. cbn. by split_ifs. Qed.

Lemma ClaimRewards_frame now p sm :
  stakes (ClaimRewards now p sm).1 = stakes sm ∧
  unstakeRequests (ClaimRewards now p sm).1 = unstakeRequests sm.
Proof.
  unfold ClaimRewards. pose proof (GetBeneficiary_frame now p sm) as (H1 & H2 & H3).
  destruct (GetBeneficiary now p sm) as [sm' x]; cbn in *. by split_ifs.
Qed.

Lemma SetBeneficiary_frame now p x sm :
  stakes (SetBeneficiary now p x sm).1 = stakes sm ∧
  unstakeRequests (SetBeneficiary now p x sm).1 = unstakeRequests sm.
Proof. unfold SetBeneficiary. by split_ifs. Qed.

Lemma st_inv_frame sm' b :
  stakes sm' = stakes (sm_of b) → unstakeRequests sm' = unstakeRequests (sm_of b) →
  st_inv b → st_inv (mkBooks sm' (ledgers b)).
Proof. intros H1 H2 Hinv p. cbn. rewrite H1, H2. apply Hinv. Qed.

(** What a call of [Unstake] does to the stakes and the requests. *)
Lemma Unstake_effect now p a sm :
  let sm' := (Unstake now p a sm).1 in
  match executes_pending now p a sm with
  | Some d => ∃ s, stakes sm !! p = Some s ∧ stakes sm' = <[p := s - d]> (stakes sm) ∧
      (∃ r, unstakeRequests sm !! p = Some r ∧ ur_Amount r = d) ∧
      (unstakeRequests sm' = delete p (unstakeRequests sm) ∨
       0 < a ∧ unstakeRequests sm' = <[p := mkUR a now]> (delete p (unstakeRequests sm)))
  | None => stakes sm' = stakes sm ∧
      (unstakeRequests sm' = unstakeRequests sm ∨
       0 < a ∧ is_Some (stakes sm !! p) ∧ unstakeRequests sm' = <[p := mkUR a now]> (unstakeRequests sm))
  end.
Proof.
  unfold Unstake, executes_pending.
  destruct (Z.leb_spec a 0), (Z.ltb_spec 0 a); try lia; cbn.
  { destruct (stakes sm !! p), (unstakeRequests sm !! p); eauto. }
  destruct (stakes sm !! p) as [s|]; [|by eauto].
  destruct (Z.eqb_spec s 0); cbn; [destruct (unstakeRequests sm !! p); eauto|].
  rewrite Z.gtb_ltb. destruct (Z.ltb_spec s a), (Z.leb_spec a s); try lia; cbn.
  { destruct (unstakeRequests sm !! p); eauto. }
  destruct (unstakeRequests sm !! p) as [r|] eqn:Hr; cbn; [|split; [done|]; right; eauto].
  destruct (Z.ltb_spec (time_sub now (ur_RequestedAt r)) UnstakeCooldownDuration),
    (Z.leb_spec UnstakeCooldownDuration (time_sub now (ur_RequestedAt r))); try lia; cbn; [eauto|].
  exists s. destruct (a >? s - ur_Amount r); cbn; eauto 10.
Qed.

Lemma st_inv_step o b : st_ok o → st_inv b → st_inv (st_step o b).
Proof.
  intros Hok Hinv. destruct o as [p a|p a|now p x|now p|now p|p a|now p a|now p]; cbn in Hok |- *.
  - pose proof (Hinv p) as (H1 & H2 & H3 & H4). unfold StakeTokens. destruct (_ <? _); [done|].
    unfold post, set_stakes. destruct (stakes (sm_of b) !! p) as [s|] eqn:Hs; row_tac p;
      cbn in *; unfold row_ok; cbn; (split_and!; [lia|lia|lia|]);
      destruct (unstakeRequests _ !! p); naive_solver.
  - pose proof (Hinv p) as (H1 & H2 & H3 & H4). unfold Slash, GetStake.
    destruct (stakes (sm_of b) !! p) as [s|] eqn:Hs; [|done]. unfold post. row_tac p.
    rewrite Z.gtb_ltb. cbn in *. unfold row_ok; cbn.
    destruct (Z.ltb_spec s a); (split_and!; [lia|lia|lia|]); destruct (unstakeRequests _ !! p); naive_solver.
  - destruct (SetBeneficiary_frame now p x (sm_of b)). by apply st_inv_frame.
  - destruct (GetBeneficiary_frame now p (sm_of b)) as (? & ? & _). by apply st_inv_frame.
  - destruct (ClaimRewards_frame now p (sm_of b)). by apply st_inv_frame.
  - by apply st_inv_frame.
  - pose proof (Hinv p) as (H1 & H2 & H3 & H4). pose proof (Unstake_effect now p a (sm_of b)) as Heff.
    destruct (executes_pending now p a (sm_of b)) as [d|]; cbn in Heff.
    + destruct Heff as (s & Hs & Hst & (r & Hr & Hd) & Hreq). rewrite Hs, Hr in *. cbn in *.
      unfold post. eapply (st_inv_row p); [exact Hinv| |]; rewrite Hst.
      * intros q Hq. rewrite !lookup_insert_ne by done. split_and!; try done.
        destruct Hreq as [->|[_ ->]]; by rewrite ?lookup_insert_ne, lookup_delete_ne by done.
      * rewrite !lookup_insert_eq. unfold row_ok; cbn. split_and!; try lia.
        destruct Hreq as [->|[? ->]]; rewrite ?lookup_insert_eq, ?lookup_delete_eq; cbn; eauto.
    + destruct Heff as [Hst Hreq]. eapply (st_inv_row p); [exact Hinv| |]; rewrite Hst.
      * intros q Hq. split_and!; try done. destruct Hreq as [->|(_ & _ & ->)]; [done|].
        by rewrite lookup_insert_ne.
      * destruct Hreq as [->|(? & ? & ->)]; [apply Hinv|]. rewrite lookup_insert_eq.
        unfold row_ok; cbn; eauto.
  - pose proof (Hinv p) as (H1 & H2 & H3 & H4). unfold CompleteUnstake.
    destruct (unstakeRequests (sm_of b) !! p) as [r|] eqn:Hr; [|done].
    destruct (_ <? _); [done|]. destruct (stakes (sm_of b) !! p) as [s|] eqn:Hs; [|done].
    cbn in *. unfold post. row_tac p. rewrite Z.gtb_ltb. unfold row_ok; cbn.
    destruct (Z.ltb_spec s (ur_Amount r)); (split_and!; [lia|lia|lia|done]).
Qed.

Lemma st_inv_run minStake ops : Forall st_ok ops → st_inv (run st_step ops (books0 minStake)).
Proof.
  intros Hok. eapply run_invariant; [|exact Hok|]; [by intros; apply st_inv_step|].
  intros p. unfold row_ok, ledger_of; cbn. rewrite !lookup_empty; cbn. lia.
Qed.

(** C16: invariant.  Whatever calls are made with amounts that are not negative,
    each provider's stake is what it staked minus what was slashed, paid out by
    [CompleteUnstake], or dropped by an [Unstake] that executed an expired
    request; as long as nothing was dropped the stake is not negative, and
    slashes and payments together never exceed what was staked. *)
Theorem stake_ledger_balances minStake ops p :
  Forall st_ok ops →
  let b := run st_step ops (books0 minStake) in
  let l := ledger_of p b in
  GetStake p (sm_of b) = l_staked l - l_slashed l - l_paid l - l_dropped l ∧
  (l_dropped l = 0 → 0 ≤ GetStake p (sm_of b) ∧ 0 ≤ l_slashed l ∧ 0 ≤ l_paid l ∧
                     l_slashed l + l_paid l ≤ l_staked l).
Proof.
  intros Hok b l. destruct (st_inv_run minStake ops Hok p) as (H1 & H2 & H3 & H4). fold b l in H1, H2, H3.
  unfold GetStake. destruct (stakes (sm_of b) !! p); cbn in *; lia.
Qed.

Definition day : duration := 24 * hour.

(** A stake of 10, slashed by 3 during the cooldown of an unstake of 8. *)
Definition slashed_unstake : list st_op :=
  [OpStake 1 10; OpUnstake 0 1 8; OpSlash 1 3; OpCompleteUnstake (7 * day) 1].

Lemma stake_ledger_balances_witness :
  let b := run st_step slashed_unstake (books0 5) in
  Forall st_ok slashed_unstake ∧ ledger_of 1 b = mkLedger 10 3 7 0 ∧
  GetStake 1 (sm_of b) = 10 - 3 - 7 - 0.
Proof.
  intros b. assert (Hok : Forall st_ok slashed_unstake) by (repeat constructor; cbn; lia).
  split; [exact Hok|]. split; [by vm_compute|].
  exact (proj1 (stake_ledger_balances 5 slashed_unstake 1%N Hok)).
Defined.

(** ** Completing an unstake *)

Lemma request_origin_step o b p r :
  unstakeRequests (sm_of (st_step o b)) !! p = Some r →
  unstakeRequests (sm_of b) !! p = Some r ∨ o = OpUnstake (ur_RequestedAt r) p (ur_Amount r).
Proof.
  destruct o as [q a|q a|now q x|now q|now q|q a|now q a|now q]; cbn [st_step sm_of].
  - unfold StakeTokens. destruct (_ <? _); eauto.
  - unfold Slash. destruct (stakes _ !! q); eauto.
  - destruct (SetBeneficiary_frame now q x (sm_of b)) as [_ ->]. eauto.
  - destruct (GetBeneficiary_frame now q (sm_of b)) as (_ & -> & _). eauto.
  - destruct (ClaimRewards_frame now q (sm_of b)) as [_ ->]. eauto.
  - eauto.
  - pose proof (Unstake_effect now q a (sm_of b)) as Heff.
    destruct (executes_pending now q a (sm_of b)); cbn in *.
    + destruct Heff as (s & _ & _ & _ & [->|[_ ->]]); [intros [_ ?]%lookup_delete_Some; eauto|].
      rewrite lookup_insert. case_decide; intros; simplify_eq; [eauto|].
      match goal with H : delete _ _ !! _ = _ |- _ => apply lookup_delete_Some in H as [_ ?] end. eauto.
    + destruct Heff as [_ [->|(_ & _ & ->)]]; [eauto|].
      rewrite lookup_insert. case_decide; intros; simplify_eq; eauto.
  - unfold CompleteUnstake. destruct (unstakeRequests (sm_of b) !! q) as [r'|]; [|eauto].
    destruct (_ <? _); [eauto|]. destruct (stakes (sm_of b) !! q); [|eauto]. cbn.
    intros [_ ?]%lookup_delete_Some. eauto.
Qed.

Lemma request_origin minStake ops p r :
  unstakeRequests (sm_of (run st_step ops (books0 minStake))) !! p = Some r →
  OpUnstake (ur_RequestedAt r) p (ur_Amount r) ∈ ops.
Proof.
  induction ops as [|o ops IH] using rev_ind; [done|]. rewrite run_app, run_cons, run_nil.
  intros [H| ->]%request_origin_step; rewrite elem_of_app, list_elem_of_singleton; eauto.
Qed.

(** Functional.  In every state the methods can reach, [CompleteUnstake]
    never panics; it pays only for a call of [Unstake] at least seven days old,
    exactly its amount or the whole stake when slashing left less, takes that
    from the stake and closes the request; otherwise it changes nothing and
    the error says which condition failed. *)
Theorem CompleteUnstake_pays minStake ops now p :
  Forall st_ok ops →
  let sm := sm_of (run st_step ops (books0 minStake)) in
  match CompleteUnstake now p sm with
  | Panics => False
  | Returns (sm', inl paid) => ∃ t n, OpUnstake t p n ∈ ops ∧ 7 * 24 * hour ≤ now - t ∧
      paid = Z.min n (GetStake p sm) ∧ GetStake p sm' = GetStake p sm - paid ∧
      unstakeRequests sm' !! p = None ∧ ∀ q, q ≠ p → GetStake q sm' = GetStake q sm
  | Returns (sm', inr e) => sm' = sm ∧
      (e = NoUnstakeRequest ∧ unstakeRequests sm !! p = None ∨
       e = CooldownNotElapsed ∧
         ∃ r, unstakeRequests sm !! p = Some r ∧ now - ur_RequestedAt r < 7 * 24 * hour)
  end.
Proof.
  intros Hok sm. destruct (st_inv_run minStake ops Hok p) as (_ & _ & _ & H4). fold sm in H4.
  unfold CompleteUnstake. destruct (unstakeRequests sm !! p) as [r|] eqn:Hr; [|by eauto].
  destruct (Z.ltb_spec (time_sub now (ur_RequestedAt r)) UnstakeCooldownDuration) as [Hlt|Hge].
  { split; [done|]. right. split; [done|]. exists r. split; [done|]. revert Hlt.
    unfold time_sub, UnstakeCooldownDuration, min_int64, max_int64, hour, minute, second. lia. }
  destruct H4 as [_ [s Hs]]. rewrite Hs. exists (ur_RequestedAt r), (ur_Amount r).
  split_and!; [by eapply request_origin| | | | |].
  - revert Hge. unfold time_sub, UnstakeCooldownDuration, min_int64, max_int64, hour, minute, second. lia.
  - unfold GetStake. rewrite Hs, Z.gtb_ltb. destruct (Z.ltb_spec s (ur_Amount r)); lia.
  - unfold GetStake; cbn. by rewrite lookup_insert_eq, Hs.
  - cbn. by rewrite lookup_delete_eq.
  - intros q Hq. unfold GetStake; cbn. by rewrite lookup_insert_ne.
Qed.

Definition slashed_cooldown : list st_op := [OpStake 1 10; OpUnstake 0 1 8; OpSlash 1 3].

Lemma CompleteUnstake_pays_witness :
  Forall st_ok slashed_cooldown ∧
  ∃ sm' t n, CompleteUnstake (7 * day) 1 (sm_of (run st_step slashed_cooldown (books0 5))) = Returns (sm', inl 7) ∧
          OpUnstake t 1 n ∈ slashed_cooldown ∧ 7 * 24 * hour ≤ 7 * day - t.
Proof.
  assert (Hok : Forall st_ok slashed_cooldown) by (repeat constructor; cbn; lia).
  split; [exact Hok|]. pose proof (CompleteUnstake_pays 5 slashed_cooldown (7 * day) 1%N Hok) as H.
  cbv zeta in H. destruct (CompleteUnstake _ _ _) as [[sm' [a|e]]|] eqn:Hc; vm_compute in Hc; simplify_eq.
  destruct H as (t & n & Hin & Ht & _). eauto 10.
Defined.

(** Error.  A provider that stakes 10, asks to unstake 8, is slashed by 5
    and calls [Unstake] again after the cooldown is left with a stake of -3:
    the first request is executed without the cap that [CompleteUnstake]
    applies, nothing is paid, and there is no request left to complete. *)
Theorem Unstake_drops_tokens :
  let b := run st_step [OpStake 1 10; OpUnstake 0 1 8; OpSlash 1 5; OpUnstake (8 * day) 1 2] (books0 5) in
  GetStake 1 (sm_of b) = -3 ∧ ledger_of 1 b = mkLedger 10 5 0 8 ∧
  CompleteUnstake (16 * day) 1 (sm_of b) = Returns (sm_of b, inr NoUnstakeRequest).
Proof. by vm_compute. Qed.

(** ** The beneficiary timelock *)

Definition op_time (o : st_op) : option time :=
  match o with
  | OpSetBeneficiary now _ _ | OpGetBeneficiary now _ | OpClaimRewards now _
  | OpUnstake now _ _ | OpCompleteUnstake now _ => Some now
  | _ => None
  end.

(** The calls made so far were made no later than [now]. *)
Definition made_by (now : time) (o : st_op) : Prop :=
  match op_time o with Some t => t ≤ now | None => True end.

(** The two maps of beneficiaries change in three ways. *)
Lemma beneficiary_step o b :
  let sm := sm_of b in
  let sm' := sm_of (st_step o b) in
  (beneficiaries sm' = beneficiaries sm ∧ pendingBeneficiary sm' = pendingBeneficiary sm) ∨
  (∃ now p x, o = OpSetBeneficiary now p x ∧ beneficiaries sm' = beneficiaries sm ∧
     pendingBeneficiary sm' = <[p := mkBC x now]> (pendingBeneficiary sm)) ∨
  (∃ now p c, op_time o = Some now ∧ pendingBeneficiary sm !! p = Some c ∧
     24 * hour ≤ now - bc_RequestedAt c ∧
     beneficiaries sm' = <[p := NewBeneficiary c]> (beneficiaries sm) ∧
     pendingBeneficiary sm' = delete p (pendingBeneficiary sm)).
Proof.
  assert (Hget : ∀ now p sm,
    let sm' := (GetBeneficiary now p sm).1 in
    (beneficiaries sm' = beneficiaries sm ∧ pendingBeneficiary sm' = pendingBeneficiary sm) ∨
    (∃ c, pendingBeneficiary sm !! p = Some c ∧ 24 * hour ≤ now - bc_RequestedAt c ∧
      beneficiaries sm' = <[p := NewBeneficiary c]> (beneficiaries sm) ∧
      pendingBeneficiary sm' = delete p (pendingBeneficiary sm))).
  { intros now p sm. unfold GetBeneficiary, apply_matured. cbn.
    destruct (pendingBeneficiary sm !! p) as [c|]; [|by left]. rewrite Z.geb_leb.
    destruct (Z.leb_spec BeneficiaryTimelockDuration (time_sub now (bc_RequestedAt c))) as [Hge|]; [|by left].
    right. exists c. split_and!; try done. revert Hge.
    unfold time_sub, BeneficiaryTimelockDuration, min_int64, max_int64, hour, minute, second. lia. }
  destruct o as [q a|q a|now q x|now q|now q|q a|now q a|now q]; cbn [st_step sm_of].
  - left. unfold StakeTokens. by destruct (_ <? _).
  - left. unfold Slash. by destruct (stakes _ !! q).
  - unfold SetBeneficiary. destruct (_ =? _)%N; [by left|].
    destruct (stakes _ !! q) as [s|]; [|by left]. destruct (s =? 0); [by left|]. right; left. by eauto 10.
  - destruct (Hget now q (sm_of b)) as [?|(c & ?)]; [by left|right; right]. exists now, q, c. done.
  - unfold ClaimRewards. pose proof (Hget now q (sm_of b)) as Hg.
    destruct (GetBeneficiary now q (sm_of b)) as [sm' x]; cbn [fst] in Hg.
    assert (Hs : ∀ sm1, beneficiaries sm1 = beneficiaries sm' → pendingBeneficiary sm1 = pendingBeneficiary sm' → _)
      by (intros sm1 E1 E2; rewrite <- E1, <- E2 in Hg; exact Hg).
    clear Hg. destruct (rewards sm' !! q) as [r|]; [destruct (r =? 0)|]; cbn [fst];
      match goal with |- context [beneficiaries ?s = _] =>
        destruct (Hs s eq_refl eq_refl) as [?|(c & ?)] end;
      (by left) || (right; right; exists now, q, c; done).
  - left. done.
  - left. destruct (executes_pending _ _ _ _); unfold Unstake, post; cbn [sm_of];
      repeat match goal with |- context [if ?c then _ else _] => destruct c
        | |- context [match ?m !! q with _ => _ end] => destruct (m !! q) end; done.
  - left. unfold CompleteUnstake. destruct (unstakeRequests _ !! q) as [r|]; [|done].
    destruct (_ <? _); [done|]. by destruct (stakes _ !! q).
Qed.

Definition requested (ops : list st_op) (now : time) (p x : Address) : Prop :=
  ∃ s, OpSetBeneficiary s p x ∈ ops ∧ 24 * hour ≤ now - s.

Lemma beneficiary_origin minStake ops now :
  Forall (made_by now) ops →
  let sm := sm_of (run st_step ops (books0 minStake)) in
  (∀ p c, pendingBeneficiary sm !! p = Some c →
     OpSetBeneficiary (bc_RequestedAt c) p (NewBeneficiary c) ∈ ops) ∧
  (∀ p x, beneficiaries sm !! p = Some x → requested ops now p x).
Proof.
  induction ops as [|o ops IH] using rev_ind; [done|]. rewrite run_app, run_cons, run_nil.
  intros [Hops Ho]%Forall_app. rewrite Forall_singleton in Ho. destruct (IH Hops) as [IH1 IH2].
  assert (Hmon : ∀ p x, requested ops now p x → requested (ops ++ [o]) now p x)
    by (intros p x (s & ? & ?); exists s; split; [apply elem_of_app; by left|done]).
  destruct (beneficiary_step o (run st_step ops (books0 minStake)))
    as [[Hb Hp]|[(t & q & x & -> & Hb & Hp)|(t & q & c & Ht & Hq & Hage & Hb & Hp)]]; cbn zeta;
    rewrite Hb, Hp; split; intros p y Hy.
  - apply elem_of_app; left; eauto.
  - eauto.
  - apply lookup_insert_Some in Hy as [[-> <-]|[_ Hy]]; apply elem_of_app;
      [right; by apply list_elem_of_singleton|left; eauto].
  - eauto.
  - apply lookup_delete_Some in Hy as [_ Hy]. apply elem_of_app; left; eauto.
  - apply lookup_insert_Some in Hy as [[-> <-]|[_ Hy]]; [|eauto]. apply Hmon.
    exists (bc_RequestedAt c). split; [by apply IH1|].
    unfold made_by in Ho. rewrite Ht in Ho. lia.
Qed.

(** Safety.  Whatever was called before, the address that rewards go to is
    the provider's own or one that the provider asked for at least 24 hours
    ago. *)
Theorem beneficiary_timelock minStake ops now p :
  Forall (made_by now) ops →
  let x := (GetBeneficiary now p (sm_of (run st_step ops (books0 minStake)))).2 in
  x = p ∨ ∃ s, OpSetBeneficiary s p x ∈ ops ∧ 24 * hour ≤ now - s.
Proof.
  intros Hops x.
  destruct (beneficiary_origin minStake (ops ++ [OpGetBeneficiary now p]) now) as [_ H].
  { apply Forall_app. split; [done|]. apply Forall_singleton. unfold made_by; cbn. lia. }
  rewrite run_app, run_cons, run_nil in H. cbn [st_step sm_of] in H. specialize (H p).
  subst x. unfold GetBeneficiary in *. cbn [fst snd] in *.
  destruct (beneficiaries (apply_matured now p _) !! p) as [x|]; [|by left]. right.
  destruct (H x eq_refl) as (s & Hin & Hs). exists s. split; [|done].
  apply elem_of_app in Hin as [?|Hin]; [done|]. apply list_elem_of_singleton in Hin. done.
Qed.

Definition redirect : list st_op := [OpStake 1 10; OpSetBeneficiary 0 1 7; OpGetBeneficiary (2 * hour) 1].

Lemma beneficiary_timelock_witness :
  Forall (made_by (24 * hour)) redirect ∧
  (GetBeneficiary (24 * hour) 1 (sm_of (run st_step redirect (books0 5)))).2 = 7%N ∧
  (7%N = 1%N ∨ ∃ s, OpSetBeneficiary s 1 7 ∈ redirect ∧ 24 * hour ≤ 24 * hour - s).
Proof.
  assert (Hok : Forall (made_by (24 * hour)) redirect)
    by (repeat constructor; unfold made_by, hour, minute, second; cbn; lia).
  split; [exact Hok|]. split; [by vm_compute|].
  exact (beneficiary_timelock 5 redirect (24 * hour) 1%N Hok).
Defined.

(** Error.  A change that has passed its timelock is applied only when
    somebody asks for the beneficiary: a second [SetBeneficiary] overwrites it,
    so 48 hours after the first request the rewards still go to the provider,
    where a single read in between would have sent them to the first choice. *)
Theorem matured_change_lost :
  let before := [OpStake 1 10; OpSetBeneficiary 0 1 7] in
  let again := OpSetBeneficiary (47 * hour) 1 8 in
  let at48 ops := (GetBeneficiary (48 * hour) 1 (sm_of (run st_step ops (books0 5)))).2 in
  at48 (before ++ [again]) = 1%N ∧
  at48 (before ++ [OpGetBeneficiary (47 * hour) 1; again]) = 7%N.
Proof. by vm_compute. Qed.

(** ** Tiers *)

Definition tier_minimum (tier : string) : Z :=
  match (tier : string) with
  | "starter" => 10 ^ 24
  | "bronze" => 5 * 10 ^ 24
  | "silver" => 10 ^ 25
  | "gold" => 10 ^ 26
  | "platinum" => 10 ^ 27
  | _ => 0
  end%string.

(** All the configured minimums parse. *)
Lemma qualifies_minimum junk stake tier :
  tier ∈ tierOrder →
  qualifies ((λ cfg, (ParseMinStake junk cfg).1) <$> DefaultStakingTiers) stake tier =
  (tier_minimum tier <=? stake).
Proof.
  unfold tierOrder. rewrite !elem_of_cons, elem_of_nil.
  intros [-> |[-> |[-> |[-> |[-> | []]]]]]; unfold qualifies; rewrite lookup_fmap;
    match goal with |- context [DefaultStakingTiers !! ?t] =>
      let v := eval vm_compute in (DefaultStakingTiers !! t) in
      replace (DefaultStakingTiers !! t) with v by (vm_compute; reflexivity) end;
    cbn [fmap option_fmap option_map]; unfold ParseMinStake;
    match goal with |- context [SetString10 ?t] =>
      let v := eval vm_compute in (SetString10 t) in
      replace (SetString10 t) with v by (vm_compute; reflexivity) end;
    rewrite decide_False by done; apply Z.geb_leb.
Qed.

Lemma GetTier_ladder junk p sm :
  let s := GetStake p sm in
  GetTier junk p sm =
    if 10 ^ 27 <=? s then StakingTierPlatinum
    else if 10 ^ 26 <=? s then StakingTierGold
    else if 10 ^ 25 <=? s then StakingTierSilver
    else if 5 * 10 ^ 24 <=? s then StakingTierBronze
    else if 10 ^ 24 <=? s then StakingTierStarter else "".
Proof.
  intros s. unfold GetTier. fold s.
  set (q := qualifies _ s).
  assert (Hq : ∀ t, t ∈ tierOrder → q t = (tier_minimum t <=? s)) by (intros; by apply qualifies_minimum).
  clearbody q. unfold tierOrder, List.find in *.
  rewrite !Hq by set_solver. cbn [tier_minimum].
  change (tier_minimum StakingTierPlatinum) with (10 ^ 27). change (tier_minimum StakingTierGold) with (10 ^ 26).
  change (tier_minimum StakingTierSilver) with (10 ^ 25).
  change (tier_minimum StakingTierBronze) with (5 * 10 ^ 24).
  change (tier_minimum StakingTierStarter) with (10 ^ 24).
  by repeat match goal with |- context [?a <=? s] => destruct (a <=? s) end.
Qed.

(** Functional.  A provider's tier is decided by its stake alone, and more
    stake never means a worse one: the message rate and burst the router gives
    the tier never decrease with the stake, and the ban for flooding never gets
    longer. *)
Theorem more_stake_no_worse junk junk' p p' sm sm' :
  GetStake p sm ≤ GetStake p' sm' →
  let t := GetTier junk p sm in
  let t' := GetTier junk' p' sm' in
  Rate (GetTierRateLimit t) ≤ Rate (GetTierRateLimit t') ∧
  Burst (GetTierRateLimit t) ≤ Burst (GetTierRateLimit t') ∧
  GetTierBanDuration t' ≤ GetTierBanDuration t.
Proof.
  intros Hle t t'. subst t t'. rewrite !GetTier_ladder.
  generalize dependent (GetStake p sm). generalize dependent (GetStake p' sm'). intros s' s Hle.
  repeat match goal with
    | |- context [?a <=? s] => destruct (Z.leb_spec a s)
    | |- context [?a <=? s'] => destruct (Z.leb_spec a s')
    end; try lia; vm_compute; intuition congruence.
Qed.

Lemma more_stake_no_worse_witness :
  let sm := sm_of (run st_step [OpStake 1 (10 ^ 24); OpStake 2 (10 ^ 26)] (books0 1)) in
  GetTier 0 1 sm = "starter" ∧ GetTier 0 2 sm = "gold" ∧
  Rate (GetTierRateLimit (GetTier 0 1 sm)) ≤ Rate (GetTierRateLimit (GetTier 0 2 sm)).
Proof.
  intros sm. split; [by vm_compute|]. split; [by vm_compute|].
  apply (more_stake_no_worse 0 0 1%N 2%N sm sm). by vm_compute.
Defined.
