(* ===== verification/Pricing.v ===== *)
(** * Prices (internal/payment/pricing.go, [PricingConfig] of
      pkg/types/economics.go)

    The price of a deployment and a provider's bid for it, and the price of one
    function invocation.  Amounts are unbounded integers; sizes and milliseconds
    are 64-bit; [Duration.Hours] is a float64 that is truncated to whole hours.

    Theorems: an invocation costs at least 1 wei, follows the documented
    formula and never gets cheaper with time or memory; a bid lies between 1
    and the base price and falls with the stake; whole hours are billed exactly.
    A job below one hour is free, and memory is billed at the per-gigabyte rate
    for every megabyte. *)

From S2P Require Import Prelude NetAddr Float64 BigNum.
Local Open Scope Z_scope.

Record ResourceLimits := mkRes {
  CPUQuota : Z;
  CPUPeriod : Z;
  MemoryLimit : Z;
  DiskLimit : Z;
  NetworkBW : Z;
  PIDLimit : Z
}.

Record PricingConfig := mkPricing {
  CPUPerCoreHour : string;
  MemoryPerGBHour : string;
  StoragePerGBMonth : string;
  NetworkPerGB : string;
  GPUBasicPerHour : string;
  GPUPremiumPerHour : string;
  RedundancyMultiplier : float64;
  TorMultiplier : float64;
  PremiumSLAMultiplier : float64;
  SpotMultiplier : float64;
  MinimumServiceHours : Z;
  MinimumJobMinutes : Z;
  MinimumFunctionMillis : Z
}.

Definition DefaultPricingConfig : PricingConfig :=
  mkPricing "500000000000000000" "100000000000000000" "50000000000000000" "20000000000000000"
    "5000000000000000000" "15000000000000000000"
    (f_of_int 3) (f_const 12 10) (f_const 15 10) (f_const 5 10) 1 1 100.

(** [Int.Div] is Euclidean division: the remainder is never negative. *)
Definition big_Div (x y : Z) : Z := if 0 <=? y then x / y else - (x / - y).

(** ** Hours *)

(** [Duration.Hours]. *)
Definition Hours (d : duration) : float64 :=
  fadd (f_of_int (Z.quot d hour)) (fdiv (f_of_int (Z.rem d hour)) (f_of_int (60 * 60 * 10 ^ 9))).

(** [int64(x)] truncates; outside the range of the type the result is left to
    the implementation ([undef]). *)
Definition f_to_int64 (undef : Z) (x : float64) : Z :=
  match x with
  | S754_zero _ => 0
  | S754_finite s m e =>
      let n := if 0 <=? e then Z.pos m * 2 ^ e else Z.pos m / 2 ^ (- e) in
      let v := if s then - n else n in
      if (min_int64 <=? v) && (v <=? max_int64) then v else undef
  | _ => undef
  end.

(** ** The operations *)

Definition CalculatePrice (undef : Z) (resources : ResourceLimits) (d : duration) : Z :=
  let cpuPrice := CPUQuota resources * 1000 in
  let memoryPrice := big_Div (MemoryLimit resources) (1024 * 1024 * 1024) in
  let diskPrice := big_Div (DiskLimit resources) (1024 * 1024 * 1024) in
  let networkPrice := big_Div (NetworkBW resources) (1024 * 1024) in
  let totalPrice := cpuPrice + memoryPrice + diskPrice + networkPrice in
  let hoursInt := f_to_int64 undef (Hours d) in
  totalPrice * hoursInt.

Definition defaultRate (resource : string) : Z :=
  if decide (resource = "cpu") then default 0 (SetString10 "500000000000000000")
  else if decide (resource = "memory") then default 0 (SetString10 "100000000000000000")
  else 0.

Definition parsePricingRate (cfg : option PricingConfig) (resource : string) : Z :=
  match cfg with
  | None => defaultRate resource
  | Some cfg =>
      let rate rateStr := match SetString10 rateStr with
                          | None => defaultRate resource
                          | Some rate => if rate <=? 0 then defaultRate resource else rate
                          end in
      if decide (resource = "cpu") then rate (CPUPerCoreHour cfg)
      else if decide (resource = "memory") then rate (MemoryPerGBHour cfg)
      else 0
  end.

(** The milliseconds and the megabytes that are billed. *)
Definition billed_ms (cfg : option PricingConfig) (d : duration) : Z :=
  let minimumMs := match cfg with
                   | Some cfg => if MinimumFunctionMillis cfg >? 0 then MinimumFunctionMillis cfg else 100
                   | None => 100
                   end in
  let ms := Z.quot d millisecond in
  if ms <? minimumMs then minimumMs else ms.

Definition billed_mb (memoryUsedBytes : Z) : Z :=
  let memMB := Z.quot (wrap64 (memoryUsedBytes + 1024 * 1024 - 1)) (1024 * 1024) in
  if memMB <? 1 then 1 else memMB.

Definition CalculateMoltInvocationPrice (d : duration) (memoryUsedBytes : Z)
    (cfg : option PricingConfig) : Z :=
  let billedMs := billed_ms cfg d in
  let cpuRate := parsePricingRate cfg "cpu" in
  let memRate := parsePricingRate cfg "memory" in
  let msPerHour := 3600000 in
  let cpuCost := big_Div (cpuRate * billedMs) msPerHour in
  let memMB := billed_mb memoryUsedBytes in
  let memCost := big_Div (memRate * memMB * billedMs) msPerHour in
  let total := cpuCost + memCost in
  if total <=? 0 then 1 else total.

(** A division by zero panics. *)
Definition CalculateBid (undef : Z) (resources : ResourceLimits) (d : duration) (stake : Z) : outcome Z :=
  let basePrice := CalculatePrice undef resources d in
  let normalizer := 10 ^ 18 in
  let numerator := basePrice * normalizer in
  let denominator := normalizer + stake in
  if denominator =? 0 then Panics
  else
    let adjustedPrice := big_Div numerator denominator in
    if (adjustedPrice <=? 0) && (basePrice >? 0) then Returns 1 else Returns adjustedPrice.

(** ** Invocations *)

Lemma parsePricingRate_pos cfg r : r = "cpu" ∨ r = "memory" → 0 < parsePricingRate cfg r.
Proof.
  intros Hr. assert (Hd : 0 < defaultRate r) by (destruct Hr as [-> | ->]; vm_compute; reflexivity).
  unfold parsePricingRate. destruct cfg as [cfg|]; [|exact Hd].
  generalize dependent (defaultRate r). intros dflt Hd.
  assert (Hrate : ∀ o : option Z, 0 < match o with
    | None => dflt | Some v => if v <=? 0 then dflt else v end).
  { intros [v|]; [|exact Hd]. destruct (Z.leb_spec v 0); lia. }
  destruct Hr as [-> | ->]; [rewrite decide_True by done; apply Hrate|].
  rewrite decide_False, decide_True by done. apply Hrate.
Qed.

Lemma billed_ms_pos cfg d : 1 ≤ billed_ms cfg d.
Proof.
  unfold billed_ms. destruct cfg as [cfg|].
  - rewrite Z.gtb_ltb. destruct (Z.ltb_spec 0 (MinimumFunctionMillis cfg)), (Z.ltb_spec (Z.quot d millisecond)
      (MinimumFunctionMillis cfg)); destruct (Z.ltb_spec (Z.quot d millisecond) 100); lia.
  - destruct (Z.ltb_spec (Z.quot d millisecond) 100); lia.
Qed.

Lemma billed_ms_mono cfg d d' : d ≤ d' → billed_ms cfg d ≤ billed_ms cfg d'.
Proof.
  intros Hd. unfold billed_ms.
  assert (Z.quot d millisecond ≤ Z.quot d' millisecond) by (apply Z.quot_le_mono; [by vm_compute|done]).
  set (m := match cfg with Some _ => _ | None => _ end).
  destruct (Z.ltb_spec (Z.quot d millisecond) m), (Z.ltb_spec (Z.quot d' millisecond) m); lia.
Qed.

(** Memory that an int64 can count with the rounding term is billed by the
    megabyte begun, and at least one. *)
Lemma billed_mb_spec n :
  0 ≤ n ≤ max_int64 - 1024 * 1024 →
  1 ≤ billed_mb n ∧ n ≤ billed_mb n * (1024 * 1024) ∧
  (1 < billed_mb n → (billed_mb n - 1) * (1024 * 1024) < n).
Proof.
  intros Hn. unfold billed_mb. rewrite wrap64_id by (unfold min_int64, max_int64 in *; lia).
  rewrite Z.quot_div_nonneg by lia.
  pose proof (Z.div_mod (n + 1024 * 1024 - 1) (1024 * 1024) ltac:(lia)).
  pose proof (Z.mod_pos_bound (n + 1024 * 1024 - 1) (1024 * 1024) ltac:(lia)).
  destruct (Z.ltb_spec ((n + 1024 * 1024 - 1) / (1024 * 1024)) 1); lia.
Qed.

Lemma invocation_price_formula d n cfg :
  CalculateMoltInvocationPrice d n cfg =
  Z.max 1 (parsePricingRate cfg "cpu" * billed_ms cfg d / 3600000 +
           parsePricingRate cfg "memory" * billed_mb n * billed_ms cfg d / 3600000).
Proof.
  unfold CalculateMoltInvocationPrice, big_Div. cbn [Z.leb Z.compare].
  destruct (Z.leb_spec (parsePricingRate cfg "cpu" * billed_ms cfg d / 3600000 +
    parsePricingRate cfg "memory" * billed_mb n * billed_ms cfg d / 3600000) 0); lia.
Qed.

(** Functional.  An invocation costs at least 1 wei for every configuration,
    and a longer one that uses at least as much memory never costs less, as
    long as the memory is below the 64-bit rounding limit. *)
Theorem invocation_price_monotone d d' n n' cfg :
  d ≤ d' → 0 ≤ n ≤ n' → n' ≤ max_int64 - 1024 * 1024 →
  1 ≤ CalculateMoltInvocationPrice d n cfg ≤ CalculateMoltInvocationPrice d' n' cfg.
Proof.
  intros Hd Hn Hmax. rewrite !invocation_price_formula.
  pose proof (billed_ms_mono cfg d d' Hd). pose proof (billed_ms_pos cfg d).
  pose proof (parsePricingRate_pos cfg "cpu" ltac:(by left)).
  pose proof (parsePricingRate_pos cfg "memory" ltac:(by right)).
  assert (1 ≤ billed_mb n ≤ billed_mb n').
  { destruct (billed_mb_spec n ltac:(lia)) as (? & ? & ?), (billed_mb_spec n' ltac:(lia)) as (? & ? & ?).
    destruct (decide (1 < billed_mb n)); lia. }
  generalize dependent (parsePricingRate cfg "cpu"). generalize dependent (parsePricingRate cfg "memory").
  generalize dependent (billed_ms cfg d). generalize dependent (billed_ms cfg d').
  generalize dependent (billed_mb n). generalize dependent (billed_mb n'). intros b b' Hb t t' Ht Ht1 r Hr c Hc.
  assert (c * t' / 3600000 ≤ c * t / 3600000) by (apply Z.div_le_mono; nia).
  assert (r * b' * t' / 3600000 ≤ r * b * t / 3600000).
  { apply Z.div_le_mono; [lia|]. apply Z.mul_le_mono_nonneg; nia. }
  lia.
Qed.

Lemma invocation_price_monotone_witness :
  CalculateMoltInvocationPrice (250 * millisecond) (3 * 1024 * 1024) (Some DefaultPricingConfig) =
    55555555555555 ∧
  1 ≤ CalculateMoltInvocationPrice (250 * millisecond) (3 * 1024 * 1024) (Some DefaultPricingConfig)
    ≤ CalculateMoltInvocationPrice (500 * millisecond) (4 * 1024 * 1024) (Some DefaultPricingConfig).
Proof.
  split; [by vm_compute|]. apply invocation_price_monotone; [by vm_compute|lia|].
  unfold max_int64; lia.
Defined.

(** Error.  The per-gigabyte rate is multiplied by megabytes: one gibibyte
    used for one hour at the default rates costs 0.5 BUNKER for the core plus
    1024 times the 0.1 BUNKER that a gigabyte-hour is configured to cost. *)
Theorem memory_billed_per_megabyte :
  CalculateMoltInvocationPrice hour (1024 * 1024 * 1024) (Some DefaultPricingConfig) =
    5 * 10 ^ 17 + 1024 * 10 ^ 17 ∧
  parsePricingRate (Some DefaultPricingConfig) "memory" = 10 ^ 17.
Proof. by vm_compute. Qed.

(** ** Whole hours *)

Lemma binary_round_aux_exact s m e :
  0 < m → Zdigits2 m = 53 → -1074 ≤ e ≤ 971 →
  binary_round_aux fprec femax s m e loc_Exact = S754_finite s (Z.to_pos m) e.
Proof.
  intros Hm Hdig He.
  assert (Hs : shr_fexp fprec femax m e loc_Exact = (shr_record_of_loc m loc_Exact, e)).
  { unfold shr_fexp. rewrite Hdig.
    replace (fexp fprec femax (53 + e) - e) with 0 by (unfold fexp, emin, fprec, femax; lia). done. }
  unfold binary_round_aux. rewrite Hs. cbn [shr_record_of_loc shr_m]. unfold loc_of_shr_record, round_nearest_even.
  rewrite Hs. cbn [shr_record_of_loc shr_m]. destruct m as [|p|p]; try lia.
  destruct (Z.leb_spec e (femax - fprec)); [done|]. unfold femax, fprec in *. lia.
Qed.

Lemma f_of_int_exact p :
  Z.pos p < 2 ^ 53 →
  ∃ m e, f_of_int (Z.pos p) = S754_finite false m e ∧ e ≤ 0 ∧ Z.pos m = Z.pos p * 2 ^ (- e).
Proof.
  intros Hp. unfold f_of_int. cbn [binary_normalize]. unfold binary_round.
  change (Z.pos (digits2_pos p)) with (Zdigits2 (Z.pos p)).
  pose proof (Zdigits2_le (Z.pos p) 53 ltac:(lia) Hp) as Hd.
  destruct (Zdigits2_bounds (Z.pos p) ltac:(lia)) as (Hd0 & Hlo & Hhi).
  set (e' := fexp _ _ _). assert (He' : e' = Zdigits2 (Z.pos p) - 53)
    by (unfold e', fexp, emin, fprec, femax; lia). clearbody e'.
  destruct (shl_align_value p 0 e') as [H2 H1].
  destruct (shl_align p 0 e') as [m2 e2]; cbn [fst snd] in *.
  rewrite Z.min_r in H1, H2 by lia. subst e2. replace (0 - e') with (- e') in H1 by lia.
  rewrite binary_round_aux_exact; [|lia| |lia].
  - exists m2, e'. split; [done|]. split; [lia|]. exact H1.
  - assert (Hm : 2 ^ 52 ≤ Z.pos m2 < 2 ^ 53).
    { rewrite H1. replace (2 ^ 52) with (2 ^ (Zdigits2 (Z.pos p) - 1) * 2 ^ (- e'))
        by (rewrite <- Z.pow_add_r by lia; f_equal; lia).
      replace (2 ^ 53) with (2 ^ Zdigits2 (Z.pos p) * 2 ^ (- e'))
        by (rewrite <- Z.pow_add_r by lia; f_equal; lia).
      assert (0 < 2 ^ (- e')) by lia. nia. }
    pose proof (Zdigits2_le (Z.pos m2) 53 ltac:(lia) ltac:(lia)).
    destruct (Zdigits2_bounds (Z.pos m2) ltac:(lia)) as (_ & _ & Hh).
    destruct (decide (Zdigits2 (Z.pos m2) = 53)); [done|].
    assert (2 ^ Zdigits2 (Z.pos m2) ≤ 2 ^ 52) by (apply Z.pow_le_mono_r; lia). lia.
Qed.

Lemma f_to_int64_of_int undef h : 0 ≤ h < 2 ^ 53 → f_to_int64 undef (f_of_int h) = h.
Proof.
  intros Hh. destruct h as [|p|p]; [done| |lia].
  destruct (f_of_int_exact p ltac:(lia)) as (m & e & -> & He & Hm). unfold f_to_int64.
  assert (Hv : (if 0 <=? e then Z.pos m * 2 ^ e else Z.pos m / 2 ^ (- e)) = Z.pos p).
  { destruct (Z.leb_spec 0 e).
    - assert (e = 0) as -> by lia. cbn in *. lia.
    - rewrite Hm. by rewrite Z.div_mul by lia. }
  rewrite Hv. destruct (Z.leb_spec min_int64 (Z.pos p)), (Z.leb_spec (Z.pos p) max_int64); try done;
    unfold min_int64, max_int64 in *; lia.
Qed.

Lemma Hours_whole h : 0 ≤ h < 2 ^ 53 → Hours (h * hour) = f_of_int h.
Proof.
  intros Hh. unfold Hours. rewrite Z.quot_mul, Z.rem_mul by (by unfold hour, minute, second).
  replace (fdiv (f_of_int 0) (f_of_int (60 * 60 * 10 ^ 9))) with f0 by (by vm_compute).
  destruct h as [|p|p]; [done| |lia].
  by destruct (f_of_int_exact p ltac:(lia)) as (m & e & -> & _).
Qed.

(** Functional.  A whole number of hours is billed exactly: the price is the
    hourly rate, 1000 per CPU unit plus one per whole gigabyte of memory and of
    disk and per whole megabyte per second of network, times the hours; the
    float64 in between loses nothing. *)
Theorem whole_hours_billed_exactly undef r h :
  0 ≤ h < 2 ^ 53 →
  CalculatePrice undef r (h * hour) =
  (1000 * CPUQuota r + MemoryLimit r / 2 ^ 30 + DiskLimit r / 2 ^ 30 + NetworkBW r / 2 ^ 20) * h.
Proof.
  intros Hh. unfold CalculatePrice, big_Div. rewrite Hours_whole, f_to_int64_of_int by done.
  cbn -[Z.div Z.mul]. rewrite (Z.mul_comm 1000). done.
Qed.

Definition small_job : ResourceLimits := mkRes 2 100000 (2 ^ 31) (2 ^ 33) (2 ^ 23) 100.

Lemma whole_hours_billed_exactly_witness :
  0 ≤ 24 < 2 ^ 53 ∧ CalculatePrice 0 small_job (24 * hour) = (1000 * 2 + 2 + 8 + 8) * 24.
Proof. split; [lia|]. apply (whole_hours_billed_exactly 0 small_job 24). lia. Defined.

(** Bounds.  A bid with a stake that is not negative does not panic; it is
    at most the base price, at least 1 when the base price is positive, and
    another provider with a higher stake does not bid more. *)
Theorem bid_within_base undef r d s s' :
  0 ≤ s ≤ s' → 0 ≤ CalculatePrice undef r d →
  ∃ bid bid', CalculateBid undef r d s = Returns bid ∧ CalculateBid undef r d s' = Returns bid' ∧
    0 ≤ bid' ≤ bid ∧ bid ≤ CalculatePrice undef r d ∧ (0 < CalculatePrice undef r d → 1 ≤ bid').
Proof.
  intros Hs. unfold CalculateBid. generalize (CalculatePrice undef r d). intros base Hb.
  set (k := 10 ^ 18). assert (Hk : 0 < k) by (unfold k; lia). clearbody k.
  destruct (Z.eqb_spec (k + s) 0), (Z.eqb_spec (k + s') 0); try lia.
  unfold big_Div. destruct (Z.leb_spec 0 (k + s)), (Z.leb_spec 0 (k + s')); try lia.
  assert (base * k / (k + s) ≤ base) by (apply Z.div_le_upper_bound; nia).
  assert (base * k / (k + s') ≤ base * k / (k + s)) by (apply Z.div_le_compat_l; nia).
  assert (0 ≤ base * k / (k + s')) by (apply Z.div_pos; nia).
  rewrite !Z.gtb_ltb. destruct (Z.leb_spec (base * k / (k + s)) 0), (Z.leb_spec (base * k / (k + s')) 0),
    (Z.ltb_spec 0 base); cbn; do 2 eexists; split_and!; try reflexivity; lia.
Qed.

Lemma bid_within_base_witness :
  CalculateBid 0 small_job (24 * hour) 0 = Returns 48432 ∧
  ∃ bid bid', CalculateBid 0 small_job (24 * hour) 0 = Returns bid ∧
    CalculateBid 0 small_job (24 * hour) (10 ^ 18) = Returns bid' ∧
    0 ≤ bid' ≤ bid ∧ bid ≤ CalculatePrice 0 small_job (24 * hour) ∧
    (0 < CalculatePrice 0 small_job (24 * hour) → 1 ≤ bid').
Proof. split; [by vm_compute|]. apply bid_within_base; [lia|by vm_compute]. Defined.

(** Error.  A job of one nanosecond less than an hour is free, and so is the
    bid for it, whatever the resources of the job. *)
Theorem below_one_hour_is_free undef r s :
  0 ≤ s →
  CalculatePrice undef r (hour - 1) = 0 ∧ CalculateBid undef r (hour - 1) s = Returns 0.
Proof.
  intros Hs. assert (H0 : CalculatePrice undef r (hour - 1) = 0).
  { unfold CalculatePrice. replace (f_to_int64 undef (Hours (hour - 1))) with 0 by (by vm_compute). lia. }
  split; [done|]. unfold CalculateBid. rewrite H0. destruct (Z.eqb_spec (10 ^ 18 + s) 0); [lia|].
  unfold big_Div. destruct (Z.leb_spec 0 (10 ^ 18 + s)); [|lia]. by rewrite Z.div_0_l by lia.
Qed.

Lemma below_one_hour_is_free_witness :
  CalculatePrice 0 small_job (hour - 1) = 0 ∧ CalculateBid 0 small_job (hour - 1) 7 = Returns 0.
Proof. apply (below_one_hour_is_free 0 small_job 7). lia. Defined.
