(* ===== verification/Solidity.v ===== *)
(** * Transactions of the Solidity contracts (src/contracts/src)

    What the models of the contracts share: transactions that either commit or
    revert, the checked arithmetic of Solidity 0.8 on 256-bit words, and the two
    interfaces to code outside the repository: the ERC-20 token and the
    OpenZeppelin base contracts.

    A transaction is a function from the world to a new world and a result, or a
    revert; a revert leaves the world as it was.  The world of a contract is its
    own storage, the token's and that of its base contracts.  The token never
    calls back (its operations are functions of its own state alone), so the
    [nonReentrant] guards never fire and are not part of the model.  Events are
    not modelled. *)

From S2P Require Import Prelude.
Local Open Scope Z_scope.

(** An address is the number its 20 bytes spell; [address(0)] is 0. *)
Abbreviation Addr := N (only parsing).

Definition max_uint (bits : Z) : Z := 2 ^ bits - 1.
Definition max_uint256 : Z := max_uint 256.
Definition max_uint128 : Z := max_uint 128.
Definition max_uint48 : Z := max_uint 48.

(** An explicit conversion [uintN(x)] keeps the low bits. *)
Definition uint (bits x : Z) : Z := x mod 2 ^ bits.

Definition minutes : Z := 60.
Definition hours : Z := 60 * minutes.
Definition days : Z := 24 * hours.

(** ** Transactions *)

(** A failed transaction: an error of the contract, a panic (overflow, division
    by zero, array index) or a failed call into a library or another contract. *)
Inductive reverted (E : Type) : Type :=
  | Error (e : E)
  | ArithmeticPanic
  | DivisionPanic
  | IndexPanic
  | ExternalRevert.
Arguments Error {E} e.
Arguments ArithmeticPanic {E}.
Arguments DivisionPanic {E}.
Arguments IndexPanic {E}.
Arguments ExternalRevert {E}.

Inductive result (E A : Type) : Type :=
  | Ok (a : A)
  | Revert (e : reverted E).
Arguments Ok {E A} a.
Arguments Revert {E A} e.

Definition tx (W E A : Type) : Type := W → result E (W * A).

#[export] Instance tx_ret {W E} : MRet (tx W E) := λ A a w, Ok (w, a).
#[export] Instance tx_bind {W E} : MBind (tx W E) := λ A B k m w,
  match m w with
  | Ok (w', a) => k a w'
  | Revert e => Revert e
  end.

Section Tx.
Context {W E : Type}.

Definition fail {A} (e : reverted E) : tx W E A := λ _, Revert e.
Definition revert {A} (e : E) : tx W E A := fail (Error e).
Definition read {A} (f : W → A) : tx W E A := λ w, Ok (w, f w).
Definition write (f : W → W) : tx W E unit := λ w, Ok (f w, tt).

(** [if (b) revert e()] *)
Definition revert_if (b : bool) (e : E) : tx W E unit := if b then revert e else mret tt.
Definition when (b : bool) (m : tx W E unit) : tx W E unit := if b then m else mret tt.

Definition of_option {A} (e : reverted E) (o : option A) : tx W E A :=
  match o with Some a => mret a | None => fail e end.

(** Checked arithmetic on [uint256]. *)
Definition add (x y : Z) : tx W E Z :=
  if x + y <=? max_uint256 then mret (x + y) else fail ArithmeticPanic.
Definition sub (x y : Z) : tx W E Z :=
  if y <=? x then mret (x - y) else fail ArithmeticPanic.
Definition mul (x y : Z) : tx W E Z :=
  if x * y <=? max_uint256 then mret (x * y) else fail ArithmeticPanic.
Definition div (x y : Z) : tx W E Z :=
  if y =? 0 then fail DivisionPanic else mret (x / y).

(** [+=] on a narrower word. *)
Definition add_width (bits x y : Z) : tx W E Z :=
  if x + y <=? max_uint bits then mret (x + y) else fail ArithmeticPanic.

(** The world after a transaction: a revert leaves no trace. *)
Definition commit {A} (m : tx W E A) (w : W) : W :=
  match m w with Ok (w', _) => w' | Revert _ => w end.

Lemma tx_bind_Ok {A B} (m : tx W E A) (k : A → tx W E B) w r :
  (m ≫= k) w = Ok r ↔ ∃ w' a, m w = Ok (w', a) ∧ k a w' = Ok r.
Proof.
  unfold mbind, tx_bind. destruct (m w) as [[w' a]|e]; [|naive_solver].
  split; [eauto|]. intros (? & ? & [= <- <-] & ?). done.
Qed.

Lemma ret_Ok {A} (a : A) w r : (mret a : tx W E A) w = Ok r ↔ r = (w, a).
Proof. unfold mret, tx_ret. naive_solver. Qed.

Lemma read_Ok {A} (f : W → A) w r : read f w = Ok r ↔ r = (w, f w).
Proof. unfold read. naive_solver. Qed.

Lemma write_Ok f w r : write f w = Ok r ↔ r = (f w, tt).
Proof. unfold write. naive_solver. Qed.

Lemma revert_if_Ok b e w r : revert_if b e w = Ok r ↔ b = false ∧ r = (w, tt).
Proof. destruct b; cbn; unfold mret, tx_ret, revert, fail; naive_solver. Qed.

Lemma when_Ok b m w r : when b m w = Ok r ↔ (b = true ∧ m w = Ok r) ∨ (b = false ∧ r = (w, tt)).
Proof. destruct b; cbn; unfold mret, tx_ret; naive_solver. Qed.

Lemma of_option_Ok {A} e (o : option A) w r : of_option e o w = Ok r ↔ ∃ a, o = Some a ∧ r = (w, a).
Proof. destruct o; cbn; unfold mret, tx_ret, fail; naive_solver. Qed.

Lemma add_Ok x y w r : add x y w = Ok r ↔ x + y ≤ max_uint256 ∧ r = (w, x + y).
Proof. unfold add. destruct (Z.leb_spec (x + y) max_uint256); unfold mret, tx_ret, fail; naive_solver lia. Qed.

Lemma sub_Ok x y w r : sub x y w = Ok r ↔ y ≤ x ∧ r = (w, x - y).
Proof. unfold sub. destruct (Z.leb_spec y x); unfold mret, tx_ret, fail; naive_solver lia. Qed.

Lemma mul_Ok x y w r : mul x y w = Ok r ↔ x * y ≤ max_uint256 ∧ r = (w, x * y).
Proof. unfold mul. destruct (Z.leb_spec (x * y) max_uint256); unfold mret, tx_ret, fail; naive_solver lia. Qed.

Lemma div_Ok x y w r : div x y w = Ok r ↔ y ≠ 0 ∧ r = (w, x / y).
Proof. unfold div. destruct (Z.eqb_spec y 0); unfold mret, tx_ret, fail; naive_solver. Qed.

Lemma add_width_Ok bits x y w r :
  add_width bits x y w = Ok r ↔ x + y ≤ max_uint bits ∧ r = (w, x + y).
Proof.
  unfold add_width. destruct (Z.leb_spec (x + y) (max_uint bits)); unfold mret, tx_ret, fail; naive_solver lia.
Qed.

(** What the checked operations do out of range. *)
Lemma sub_panic x y w : x < y → sub x y w = Revert ArithmeticPanic.
Proof. intros Hlt. unfold sub. by rewrite (proj2 (Z.leb_gt _ _) Hlt). Qed.

Lemma mul_panic x y w : max_uint256 < x * y → mul x y w = Revert ArithmeticPanic.
Proof. intros Hlt. unfold mul. by rewrite (proj2 (Z.leb_gt _ _) Hlt). Qed.

Lemma add_panic x y w : max_uint256 < x + y → add x y w = Revert ArithmeticPanic.
Proof. intros Hlt. unfold add. by rewrite (proj2 (Z.leb_gt _ _) Hlt). Qed.

Lemma add_width_panic bits x y w : max_uint bits < x + y → add_width bits x y w = Revert ArithmeticPanic.
Proof. intros Hlt. unfold add_width. by rewrite (proj2 (Z.leb_gt _ _) Hlt). Qed.

Lemma revert_if_true b e w : b = true → revert_if b e w = Revert (Error e).
Proof. by intros ->. Qed.

(** Running a sequence step by step. *)
Lemma bind_run {A B} (m : tx W E A) (k : A → tx W E B) w w' a :
  m w = Ok (w', a) → (m ≫= k) w = k a w'.
Proof. unfold mbind, tx_bind. by intros ->. Qed.

Lemma bind_revert {A B} (m : tx W E A) (k : A → tx W E B) w e :
  m w = Revert e → (m ≫= k) w = Revert e.
Proof. unfold mbind, tx_bind. by intros ->. Qed.

(** An invariant that every successful transaction keeps is kept by [commit]. *)
Lemma commit_inv {A} (m : tx W E A) (Inv : W → Prop) w :
  (∀ w' a, m w = Ok (w', a) → Inv w') → Inv w → Inv (commit m w).
Proof. intros Hm Hw. unfold commit. destruct (m w) as [[w' a]|e]; eauto. Qed.
End Tx.
#[global] Typeclasses Opaque tx.
#[global] Opaque add sub mul div add_width revert_if when of_option read write.

(** Equations between pairs, and projections of the storage. *)
Ltac tx_simpl := cbn [fst snd] in *.
Ltac tx_clean := simplify_eq; tx_simpl.

(** The leaves of [tx_inv] that later definitions add. *)
Ltac tx_leaf H := idtac.

(** [tx_inv H] takes a successful run [H : m w = Ok r] apart: one equation or
    inequality per step of [m]. *)
Ltac tx_inv H :=
  cbn beta iota zeta in H;
  lazymatch type of H with
  | (mbind _ _) _ = Ok _ =>
      let w := fresh "w" in let a := fresh "a" in let H1 := fresh "Hs" in
      apply tx_bind_Ok in H as (w & a & H1 & H); tx_inv H1; tx_inv H
  | (mret _) _ = Ok _ => apply ret_Ok in H; tx_clean
  | read _ _ = Ok _ => apply read_Ok in H; tx_clean
  | write _ _ = Ok _ => apply write_Ok in H; tx_clean
  | revert_if _ _ _ = Ok _ =>
      let E := fresh "E" in apply revert_if_Ok in H as [H E]; tx_clean
  | add _ _ _ = Ok _ => let E := fresh "E" in apply add_Ok in H as [H E]; tx_clean
  | sub _ _ _ = Ok _ => let E := fresh "E" in apply sub_Ok in H as [H E]; tx_clean
  | mul _ _ _ = Ok _ => let E := fresh "E" in apply mul_Ok in H as [H E]; tx_clean
  | div _ _ _ = Ok _ => let E := fresh "E" in apply div_Ok in H as [H E]; tx_clean
  | add_width _ _ _ _ = Ok _ =>
      let E := fresh "E" in apply add_width_Ok in H as [H E]; tx_clean
  | of_option _ _ _ = Ok _ =>
      let a := fresh "o" in let E := fresh "E" in apply of_option_Ok in H as (a & H & E); tx_clean
  | when _ _ _ = Ok _ =>
      let E := fresh "E" in apply when_Ok in H as [[E H]|[E H]]; [tx_inv H|tx_clean]
  | revert _ _ = Ok _ => discriminate H
  | fail _ _ = Ok _ => discriminate H
  | (if ?b then _ else _) _ = Ok _ => let E := fresh "E" in destruct b eqn:E; tx_inv H
  | _ => tx_leaf H
  end.

(** ** The token

    The part of ERC-20 (and ERC20Burnable) the contracts call.  [transfer] and
    [burn] are called by the account that pays; [None] is a revert. *)
Class Token (T : Type) := {
  balanceOf : T → Addr → Z;
  transfer : Addr → Addr → Z → T → option T;            (** from, to, amount *)
  transferFrom : Addr → Addr → Addr → Z → T → option T; (** spender, from, to, amount *)
  burn : Addr → Z → T → option T
}.

(** What the ERC-20 standard and OpenZeppelin document: balances are not
    negative, a transfer moves the amount from the payer to the payee and fails
    unless the payer has it, a burn removes it. *)
Definition moved (from to : Addr) (n : Z) (bal bal' : Addr → Z) : Prop :=
  ∀ a, bal' a = bal a - (if decide (a = from) then n else 0) + (if decide (a = to) then n else 0).

Class TokenLaws (T : Type) `{Token T} : Prop := {
  balance_nonneg t a : 0 ≤ balanceOf t a;
  transfer_moves from to n t t' :
    0 ≤ n → transfer from to n t = Some t' →
    n ≤ balanceOf t from ∧ moved from to n (balanceOf t) (balanceOf t');
  transferFrom_moves spender from to n t t' :
    0 ≤ n → transferFrom spender from to n t = Some t' →
    n ≤ balanceOf t from ∧ moved from to n (balanceOf t) (balanceOf t');
  burn_removes from n t t' :
    0 ≤ n → burn from n t = Some t' →
    n ≤ balanceOf t from ∧ ∀ a, balanceOf t' a = balanceOf t a - (if decide (a = from) then n else 0);
  transfer_succeeds from to n t :
    0 ≤ n ≤ balanceOf t from → from ≠ 0%N → to ≠ 0%N → is_Some (transfer from to n t);
  burn_succeeds from n t :
    0 ≤ n ≤ balanceOf t from → from ≠ 0%N → is_Some (burn from n t)
}.

(** ** The base contracts

    Ownable2Step, AccessControl and Pausable: who owns the contract, who has
    which role, and whether it is paused. *)
Class BaseContracts (G : Type) := {
  owner : G → Addr;
  hasRole : G → string → Addr → bool;
  paused : G → bool;
  set_paused : bool → G → option G    (** [_pause], [_unpause] *)
}.

(** A call: who sends it and when it is executed. *)
Record message := mkMsg { sender : Addr; timestamp : Z }.

(** The storage a call can reach. *)
Record chain (S T G : Type) := mkChain { self : S; tok : T; base : G }.
Arguments mkChain {S T G} self tok base.
Arguments self {S T G} c.
Arguments tok {S T G} c.
Arguments base {S T G} c.

Section Contract.
Context {S T G E : Type} `{Token T} `{BaseContracts G}.
Abbreviation M := (tx (chain S T G) E).

Definition get {A} (f : S → A) : M A := read (λ w, f (self w)).
Definition put (f : S → S) : M unit := write (λ w, mkChain (f (self w)) (tok w) (base w)).

Definition onlyRole (role : string) (msg : message) : M unit :=
  ok ← read (λ w, hasRole (base w) role (sender msg));
  if (ok : bool) then mret tt else fail ExternalRevert.
Definition onlyOwner (msg : message) : M unit :=
  o ← read (λ w, owner (base w));
  if decide (sender msg = o) then mret tt else fail ExternalRevert.
Definition whenNotPaused : M unit :=
  p ← read (λ w, paused (base w));
  if (p : bool) then fail ExternalRevert else mret tt.
Definition set_pause (b : bool) : M unit :=
  g ← read base;
  g' ← of_option ExternalRevert (set_paused b g);
  write (λ w, mkChain (self w) (tok w) g').

(** [token.safeTransfer], [safeTransferFrom] and [burn] of the contract at
    address [this]. *)
Definition with_tok (f : T → option T) : M unit :=
  t ← read tok;
  t' ← of_option ExternalRevert (f t);
  write (λ w, mkChain (self w) t' (base w)).
Definition safeTransfer (this to : Addr) (n : Z) : M unit := with_tok (transfer this to n).
Definition safeTransferFrom (this from to : Addr) (n : Z) : M unit :=
  with_tok (transferFrom this from to n).
Definition burnTokens (this : Addr) (n : Z) : M unit := with_tok (burn this n).
Definition token_balance (a : Addr) : M Z := read (λ w, balanceOf (tok w) a).

(** [if (n > 0) token.safeTransfer(to, n)], and the same for [burn]. *)
Definition pay (this to : Addr) (n : Z) : M unit := when (0 <? n) (safeTransfer this to n).
Definition burn_some (this : Addr) (n : Z) : M unit := when (0 <? n) (burnTokens this n).

Lemma get_Ok {A} (f : S → A) w r : get f w = Ok r ↔ r = (w, f (self w)).
Proof. unfold get. by rewrite read_Ok. Qed.

Lemma put_Ok f w r : put f w = Ok r ↔ r = (mkChain (f (self w)) (tok w) (base w), tt).
Proof. unfold put. by rewrite write_Ok. Qed.

Lemma onlyRole_Ok role msg w r :
  onlyRole role msg w = Ok r ↔ hasRole (base w) role (sender msg) = true ∧ r = (w, tt).
Proof.
  split; [intros Hr; unfold onlyRole in Hr; by tx_inv Hr|]. intros [Hr ->].
  unfold onlyRole. apply tx_bind_Ok. exists w, true. rewrite read_Ok, Hr. done.
Qed.

Lemma onlyRole_fail role msg w :
  hasRole (base w) role (sender msg) = false → onlyRole role msg w = Revert ExternalRevert.
Proof. intros Hr. unfold onlyRole. erewrite bind_run by (apply read_Ok; reflexivity). by rewrite Hr. Qed.

Lemma onlyOwner_Ok msg w r : onlyOwner msg w = Ok r ↔ sender msg = owner (base w) ∧ r = (w, tt).
Proof.
  split; [intros Hr; unfold onlyOwner in Hr; tx_inv Hr; by repeat case_decide|]. intros [Hr ->].
  unfold onlyOwner. apply tx_bind_Ok. exists w, (owner (base w)). rewrite read_Ok.
  rewrite decide_True by done. done.
Qed.

Lemma whenNotPaused_Ok w r : whenNotPaused w = Ok r ↔ paused (base w) = false ∧ r = (w, tt).
Proof.
  split; [intros Hr; unfold whenNotPaused in Hr; by tx_inv Hr|]. intros [Hr ->].
  unfold whenNotPaused. apply tx_bind_Ok. exists w, false. rewrite read_Ok, Hr. done.
Qed.

Lemma with_tok_Ok f w r :
  with_tok f w = Ok r ↔ ∃ t', f (tok w) = Some t' ∧ r = (mkChain (self w) t' (base w), tt).
Proof.
  split; [intros Hr; unfold with_tok in Hr; tx_inv Hr; eauto|]. intros (t' & Hf & ->).
  unfold with_tok. apply tx_bind_Ok. exists w, (tok w). rewrite read_Ok. split; [done|].
  apply tx_bind_Ok. exists w, t'. rewrite of_option_Ok, write_Ok. eauto.
Qed.

Lemma token_balance_Ok a w r : token_balance a w = Ok r ↔ r = (w, balanceOf (tok w) a).
Proof. unfold token_balance. by rewrite read_Ok. Qed.
End Contract.
#[global] Opaque get put onlyRole onlyOwner whenNotPaused with_tok token_balance.

Ltac tx_simpl ::= cbn [self tok base fst snd] in *.

Ltac tx_leaf H ::=
  lazymatch type of H with
  | get _ _ = Ok _ => apply get_Ok in H; tx_clean
  | put _ _ = Ok _ => apply put_Ok in H; tx_clean
  | onlyRole _ _ _ = Ok _ =>
      let E := fresh "E" in apply onlyRole_Ok in H as [H E]; tx_clean
  | onlyOwner _ _ = Ok _ =>
      let E := fresh "E" in apply onlyOwner_Ok in H as [H E]; tx_clean
  | whenNotPaused _ = Ok _ =>
      let E := fresh "E" in apply whenNotPaused_Ok in H as [H E]; tx_clean
  | token_balance _ _ = Ok _ => apply token_balance_Ok in H; tx_clean
  | _ => idtac
  end.

(** ** What payments do to balances *)

(** [n] if [a] is the account [b]. *)
Definition share (a b : Addr) (n : Z) : Z := if decide (a = b) then n else 0.

Lemma share_nonneg a b n : 0 ≤ n → 0 ≤ share a b n.
Proof. unfold share. case_decide; lia. Qed.

Lemma share_self a n : share a a n = n.
Proof. unfold share. by rewrite decide_True. Qed.

Section Payments.
Context {S T G E : Type} `{TokenLaws T} `{BaseContracts G}.
Implicit Types w : chain S T G.

Lemma safeTransfer_Ok this to n w w' r :
  0 ≤ n → (safeTransfer this to n : tx (chain S T G) E unit) w = Ok (w', r) →
  self w' = self w ∧ base w' = base w ∧ n ≤ balanceOf (tok w) this ∧
  ∀ a, balanceOf (tok w') a = balanceOf (tok w) a - share a this n + share a to n.
Proof. intros Hn Hp. apply with_tok_Ok in Hp as (t & Hp & ?). simplify_eq.
  by destruct (transfer_moves _ _ _ _ _ Hn Hp). Qed.

Lemma safeTransferFrom_Ok this from to n w w' r :
  0 ≤ n → (safeTransferFrom this from to n : tx (chain S T G) E unit) w = Ok (w', r) →
  self w' = self w ∧ base w' = base w ∧ n ≤ balanceOf (tok w) from ∧
  ∀ a, balanceOf (tok w') a = balanceOf (tok w) a - share a from n + share a to n.
Proof. intros Hn Hp. apply with_tok_Ok in Hp as (t & Hp & ?). simplify_eq.
  by destruct (transferFrom_moves _ _ _ _ _ _ Hn Hp). Qed.

Lemma burnTokens_Ok this n w w' r :
  0 ≤ n → (burnTokens this n : tx (chain S T G) E unit) w = Ok (w', r) →
  self w' = self w ∧ base w' = base w ∧ n ≤ balanceOf (tok w) this ∧
  ∀ a, balanceOf (tok w') a = balanceOf (tok w) a - share a this n.
Proof. intros Hn Hp. apply with_tok_Ok in Hp as (t & Hp & ?). simplify_eq.
  by destruct (burn_removes _ _ _ _ Hn Hp). Qed.

Lemma pay_Ok this to n w w' r :
  0 ≤ n → (pay this to n : tx (chain S T G) E unit) w = Ok (w', r) →
  self w' = self w ∧ base w' = base w ∧ n ≤ balanceOf (tok w) this ∧
  ∀ a, balanceOf (tok w') a = balanceOf (tok w) a - share a this n + share a to n.
Proof.
  intros Hn Hp. unfold pay in Hp. apply when_Ok in Hp as [[E1 Hp]|[E1 Hp]]; [by eapply safeTransfer_Ok|].
  simplify_eq. apply Z.ltb_ge in E1. assert (n = 0) as -> by lia.
  pose proof (balance_nonneg (tok w) this). split_and!; try done. intros a. unfold share. repeat case_decide; lia.
Qed.

Lemma burn_some_Ok this n w w' r :
  0 ≤ n → (burn_some this n : tx (chain S T G) E unit) w = Ok (w', r) →
  self w' = self w ∧ base w' = base w ∧ n ≤ balanceOf (tok w) this ∧
  ∀ a, balanceOf (tok w') a = balanceOf (tok w) a - share a this n.
Proof.
  intros Hn Hp. unfold burn_some in Hp. apply when_Ok in Hp as [[E1 Hp]|[E1 Hp]]; [by eapply burnTokens_Ok|].
  simplify_eq. apply Z.ltb_ge in E1. assert (n = 0) as -> by lia.
  pose proof (balance_nonneg (tok w) this). split_and!; try done. intros a. unfold share. case_decide; lia.
Qed.
End Payments.

(** ** Transactions that succeed *)

Definition succeeds {E A} (r : result E A) : Prop := match r with Ok _ => True | Revert _ => False end.

Lemma succeeds_bind {W E A B} (m : tx W E A) (k : A → tx W E B) w w' a :
  m w = Ok (w', a) → succeeds (k a w') → succeeds ((m ≫= k) w).
Proof. unfold mbind, tx_bind. by intros ->. Qed.

Lemma succeeds_Ok {E A} (r : result E A) : succeeds r → ∃ a, r = Ok a.
Proof. destruct r; [eauto|done]. Qed.

Section Success.
Context {S T G E : Type} `{TokenLaws T} `{BaseContracts G}.
Implicit Types w : chain S T G.

Lemma pay_succeeds this to n w :
  0 ≤ n ≤ balanceOf (tok w) this → this ≠ 0%N → to ≠ 0%N →
  ∃ w', (pay this to n : tx (chain S T G) E unit) w = Ok (w', tt).
Proof.
  intros Hn Ht Hto. unfold pay. destruct (0 <? n) eqn:E1.
  - destruct (transfer_succeeds this to n (tok w) Hn Ht Hto) as [t' Ht'].
    exists (mkChain (self w) t' (base w)). apply when_Ok. left. split; [done|].
    apply with_tok_Ok. eauto.
  - exists w. apply when_Ok. by right.
Qed.

Lemma safeTransfer_succeeds this to n w :
  0 ≤ n ≤ balanceOf (tok w) this → this ≠ 0%N → to ≠ 0%N →
  succeeds ((safeTransfer this to n : tx (chain S T G) E unit) w).
Proof.
  intros Hn Ht Hto. destruct (transfer_succeeds this to n (tok w) Hn Ht Hto) as [t' Ht'].
  assert (Hw : (safeTransfer this to n : tx (chain S T G) E unit) w = Ok (mkChain (self w) t' (base w), tt))
    by (apply with_tok_Ok; eauto). by rewrite Hw.
Qed.

Lemma burn_some_succeeds this n w :
  0 ≤ n ≤ balanceOf (tok w) this → this ≠ 0%N →
  ∃ w', (burn_some this n : tx (chain S T G) E unit) w = Ok (w', tt).
Proof.
  intros Hn Ht. unfold burn_some. destruct (0 <? n) eqn:E1.
  - destruct (burn_succeeds this n (tok w) Hn Ht) as [t' Ht'].
    exists (mkChain (self w) t' (base w)). apply when_Ok. left. split; [done|].
    apply with_tok_Ok. eauto.
  - exists w. apply when_Ok. by right.
Qed.

(** A payment that the contract can afford, and what follows it. *)
Lemma pay_then {A} this to n (k : unit → tx (chain S T G) E A) w :
  0 ≤ n ≤ balanceOf (tok w) this → this ≠ 0%N → to ≠ 0%N →
  (∀ w', self w' = self w → balanceOf (tok w) this - n ≤ balanceOf (tok w') this → succeeds (k tt w')) →
  succeeds ((pay this to n ≫= k) w).
Proof.
  intros Hn Ht Hto Hk. destruct (pay_succeeds this to n w Hn Ht Hto) as [w' Hp].
  eapply succeeds_bind; [exact Hp|]. apply pay_Ok in Hp as (HS & _ & _ & HM); [|lia].
  apply Hk; [done|]. rewrite HM, share_self. pose proof (share_nonneg this to n ltac:(lia)). lia.
Qed.

Lemma burn_then {A} this n (k : unit → tx (chain S T G) E A) w :
  0 ≤ n ≤ balanceOf (tok w) this → this ≠ 0%N →
  (∀ w', self w' = self w → balanceOf (tok w) this - n ≤ balanceOf (tok w') this → succeeds (k tt w')) →
  succeeds ((burn_some this n ≫= k) w).
Proof.
  intros Hn Ht Hk. destruct (burn_some_succeeds this n w Hn Ht) as [w' Hp].
  eapply succeeds_bind; [exact Hp|]. apply burn_some_Ok in Hp as (HS & _ & _ & HM); [|lia].
  apply Hk; [done|]. rewrite HM, share_self. lia.
Qed.
End Success.

(** [tx_ok] runs a transaction forward through the steps that cannot fail or
    whose bounds [lia] proves. *)
Ltac tx_ok :=
  repeat (cbn beta iota zeta;
  lazymatch goal with
  | |- succeeds ((mbind _ (get _)) _) => eapply succeeds_bind; [apply get_Ok; reflexivity|]
  | |- succeeds ((mbind _ (put _)) _) => eapply succeeds_bind; [apply put_Ok; reflexivity|]
  | |- succeeds ((mbind _ (read _)) _) => eapply succeeds_bind; [apply read_Ok; reflexivity|]
  | |- succeeds ((mbind _ (mret _)) _) => eapply succeeds_bind; [apply ret_Ok; reflexivity|]
  | |- succeeds ((mbind _ (add _ _)) _) =>
      eapply succeeds_bind; [apply add_Ok; split; [|reflexivity]; try lia|]
  | |- succeeds ((mbind _ (sub _ _)) _) =>
      eapply succeeds_bind; [apply sub_Ok; split; [|reflexivity]; try lia|]
  | |- succeeds ((mbind _ (mul _ _)) _) =>
      eapply succeeds_bind; [apply mul_Ok; split; [|reflexivity]; try lia|]
  | |- succeeds ((mbind _ (div _ _)) _) =>
      eapply succeeds_bind; [apply div_Ok; split; [|reflexivity]; try (lia || done)|]
  | |- succeeds ((mbind _ (add_width _ _ _)) _) =>
      eapply succeeds_bind; [apply add_width_Ok; split; [|reflexivity]; try lia|]
  | |- succeeds ((mbind _ (revert_if _ _)) _) =>
      eapply succeeds_bind; [apply revert_if_Ok; split; [|reflexivity]; try done|]
  | |- succeeds ((mret _) _) => exact I
  end; cbn [self tok base fst snd]).

(** [tx_run] computes a transaction up to the first step that needs a choice. *)
Ltac tx_run :=
  repeat (cbn beta iota zeta; cbn [self tok base];
  lazymatch goal with
  | |- (mbind _ (get _)) _ = _ => erewrite bind_run by (apply get_Ok; reflexivity)
  | |- (mbind _ (put _)) _ = _ => erewrite bind_run by (apply put_Ok; reflexivity)
  | |- (mbind _ (sub _ _)) _ = _ => erewrite bind_run by (apply sub_Ok; split; [lia|reflexivity])
  | |- (mbind _ (add _ _)) _ = _ => erewrite bind_run by (apply add_Ok; split; [lia|reflexivity])
  | |- (mbind _ (mul _ _)) _ = _ => erewrite bind_run by (apply mul_Ok; split; [lia|reflexivity])
  | |- (mbind _ (div _ _)) _ = _ => erewrite bind_run by (apply div_Ok; split; [done|reflexivity])
  | |- (mbind _ (revert_if _ _)) _ = _ => erewrite bind_run by (apply revert_if_Ok; split; [done|reflexivity])
  | |- (mbind _ (onlyRole _ _)) _ = _ => erewrite bind_run by (apply onlyRole_Ok; split; [done|reflexivity])
  | |- (mbind _ (onlyOwner _)) _ = _ => erewrite bind_run by (apply onlyOwner_Ok; split; [done|reflexivity])
  end); cbn beta iota zeta; cbn [self tok base].

(** [token_inv] replaces each call of the token in the context by what it does:
    [HS] and [HB] (storage and base contracts unchanged), [HL] (the amount was
    there) and [HM] (the balances after it). *)
Ltac token_inv :=
  repeat match goal with
  | H : ?m ?w = Ok (?w', ?r) |- _ =>
      let lem := lazymatch m with
        | safeTransfer _ _ _ => uconstr:(safeTransfer_Ok)
        | safeTransferFrom _ _ _ _ => uconstr:(safeTransferFrom_Ok)
        | burnTokens _ _ => uconstr:(burnTokens_Ok)
        | pay _ _ _ => uconstr:(pay_Ok)
        | burn_some _ _ => uconstr:(burn_some_Ok)
        end in
      let HS := fresh "HS" in let HB := fresh "HB" in let HL := fresh "HL" in let HM := fresh "HM" in
      apply lem in H as (HS & HB & HL & HM); [|try (lia || done)..]; cbn [self tok base] in HS, HB, HL, HM
  end.

Lemma uint_id bits x : 0 ≤ x ≤ max_uint bits → uint bits x = x.
Proof. unfold uint, max_uint. intros Hx. apply Z.mod_small. lia. Qed.

Lemma uint_range bits x : 0 ≤ bits → 0 ≤ uint bits x ≤ max_uint bits.
Proof. intros Hb. unfold uint, max_uint. pose proof (Z.mod_pos_bound x (2 ^ bits) ltac:(lia)). lia. Qed.

(** ** What transactions leave alone

    [keeps f m]: a successful run of [m] does not change the view [f] of the
    world.  The hints of the database [frame] prove it step by step. *)
Definition keeps {W E A X} (f : W → X) (m : tx W E A) : Prop :=
  ∀ w w' a, m w = Ok (w', a) → f w' = f w.

Section Keeps.
Context {W E X : Type} (f : W → X).

Lemma keeps_bind {A B} (m : tx W E A) (k : A → tx W E B) :
  keeps f m → (∀ a, keeps f (k a)) → keeps f (m ≫= k).
Proof. intros Hm Hk w w' a Hr. apply tx_bind_Ok in Hr as (w1 & a1 & H1 & H2). by rewrite (Hk _ _ _ _ H2), (Hm _ _ _ H1). Qed.
Lemma keeps_ret {A} (a : A) : keeps f (mret a : tx W E A).
Proof. intros w w' a' Hr. by tx_inv Hr. Qed.
Lemma keeps_read {A} (g : W → A) : keeps f (read g : tx W E A).
Proof. intros w w' a' Hr. by tx_inv Hr. Qed.
Lemma keeps_revert_if b e : keeps f (revert_if b e : tx W E unit).
Proof. intros w w' a' Hr. by tx_inv Hr. Qed.
Lemma keeps_when b m : keeps f m → keeps f (when b m : tx W E unit).
Proof. intros Hm w w' a' Hr. apply when_Ok in Hr as [[_ Hr]|[_ Hr]]; [by eapply Hm|]. by simplify_eq. Qed.
Lemma keeps_of_option {A} e (o : option A) : keeps f (of_option e o : tx W E A).
Proof. intros w w' a' Hr. by tx_inv Hr. Qed.
Lemma keeps_add x y : keeps f (add x y : tx W E Z).
Proof. intros w w' a' Hr. by tx_inv Hr. Qed.
Lemma keeps_sub x y : keeps f (sub x y : tx W E Z).
Proof. intros w w' a' Hr. by tx_inv Hr. Qed.
Lemma keeps_mul x y : keeps f (mul x y : tx W E Z).
Proof. intros w w' a' Hr. by tx_inv Hr. Qed.
Lemma keeps_div x y : keeps f (div x y : tx W E Z).
Proof. intros w w' a' Hr. by tx_inv Hr. Qed.
Lemma keeps_add_width b x y : keeps f (add_width b x y : tx W E Z).
Proof. intros w w' a' Hr. by tx_inv Hr. Qed.
Lemma keeps_fail {A} e : keeps f (fail e : tx W E A).
Proof. intros w w' a' Hr. discriminate. Qed.
End Keeps.

Section KeepsContract.
Context {S T G E X : Type} `{Token T} `{BaseContracts G} (f : chain S T G → X).
Abbreviation M := (tx (chain S T G) E).

Lemma keeps_get {A} (g : S → A) : keeps f (get g : M A).
Proof. intros w w' a' Hr. by tx_inv Hr. Qed.
Lemma keeps_token_balance a : keeps f (token_balance a : M Z).
Proof. intros w w' a' Hr. by tx_inv Hr. Qed.
Lemma keeps_put g :
  (∀ w, f (mkChain (g (self w)) (tok w) (base w)) = f w) → keeps f (put g : M unit).
Proof. intros Hg w w' a' Hr. by tx_inv Hr. Qed.
Lemma keeps_onlyRole r msg : keeps f (onlyRole r msg : M unit).
Proof. intros w w' a' Hr. by tx_inv Hr. Qed.
Lemma keeps_onlyOwner msg : keeps f (onlyOwner msg : M unit).
Proof. intros w w' a' Hr. by tx_inv Hr. Qed.
Lemma keeps_whenNotPaused : keeps f (whenNotPaused : M unit).
Proof. intros w w' a' Hr. by tx_inv Hr. Qed.
Lemma keeps_set_pause b :
  (∀ w g, f (mkChain (self w) (tok w) g) = f w) → keeps f (set_pause b : M unit).
Proof. intros Hf w w' a' Hr. unfold set_pause in Hr. by tx_inv Hr. Qed.

Context (Hf : ∀ w t, f (mkChain (self w) t (base w)) = f w).
Lemma keeps_with_tok g : keeps f (with_tok g : M unit).
Proof. intros w w' a' Hr. apply with_tok_Ok in Hr as (t & _ & Hr). by simplify_eq. Qed.
Lemma keeps_safeTransfer this to n : keeps f (safeTransfer this to n : M unit).
Proof. apply keeps_with_tok. Qed.
Lemma keeps_safeTransferFrom this from to n : keeps f (safeTransferFrom this from to n : M unit).
Proof. apply keeps_with_tok. Qed.
Lemma keeps_burnTokens this n : keeps f (burnTokens this n : M unit).
Proof. apply keeps_with_tok. Qed.
Lemma keeps_pay this to n : keeps f (pay this to n : M unit).
Proof. apply keeps_when, keeps_with_tok. Qed.
Lemma keeps_burn_some this n : keeps f (burn_some this n : M unit).
Proof. apply keeps_when, keeps_with_tok. Qed.
End KeepsContract.
#[global] Opaque pay burn_some safeTransfer safeTransferFrom burnTokens.

Create HintDb frame discriminated.
#[export] Hint Resolve keeps_ret keeps_read keeps_revert_if keeps_when keeps_of_option keeps_add keeps_sub
  keeps_mul keeps_div keeps_add_width keeps_fail keeps_get keeps_token_balance keeps_onlyRole
  keeps_onlyOwner keeps_whenNotPaused : frame.

(** [frame] proves [keeps f m] by following the code of [m]; what it leaves are
    the writes that do touch [f]. *)
Ltac frame_leaf :=
  first [ by eauto with frame nocore
        | apply keeps_put; intros []; reflexivity
        | apply keeps_set_pause; intros [] ?; reflexivity
        | apply keeps_safeTransfer; intros [] ?; reflexivity
        | apply keeps_safeTransferFrom; intros [] ?; reflexivity
        | apply keeps_burnTokens; intros [] ?; reflexivity
        | apply keeps_pay; intros [] ?; reflexivity
        | apply keeps_burn_some; intros [] ?; reflexivity ].
Ltac frame :=
  cbn beta iota zeta;
  lazymatch goal with
  | |- keeps _ (mbind _ _) => apply keeps_bind; [frame|intros ?; frame]
  | |- keeps _ (when _ _) => apply keeps_when; frame
  | |- keeps _ (if ?b then _ else _) => destruct b; frame
  | |- keeps _ (match ?b with _ => _ end) => destruct b; frame
  | |- keeps _ _ => try frame_leaf
  end.

(** ** Ownership and roles

    The staking contract and the edge registry override [_transferOwnership] so
    that the role that administers the others follows the owner.  The base
    contracts' own operations are parameters with their documented behaviour. *)
Definition DEFAULT_ADMIN_ROLE : string := "DEFAULT_ADMIN_ROLE".

Class RoleAdmin (G : Type) := {
  set_owner : Addr → G → G;             (** [super._transferOwnership] *)
  _grantRole : string → Addr → G → G;
  _revokeRole : string → Addr → G → G
}.

Class RoleLaws (G : Type) `{BaseContracts G} `{!RoleAdmin G} : Prop := {
  owner_set a g : owner (set_owner a g) = a;
  hasRole_set a g r b : hasRole (set_owner a g) r b = hasRole g r b;
  owner_grant r a g : owner (_grantRole r a g) = owner g;
  owner_revoke r a g : owner (_revokeRole r a g) = owner g;
  hasRole_grant r a g r' a' :
    hasRole (_grantRole r a g) r' a' = hasRole g r' a' || bool_decide ((r, a) = (r', a'));
  hasRole_revoke r a g r' a' :
    hasRole (_revokeRole r a g) r' a' = hasRole g r' a' && negb (bool_decide ((r, a) = (r', a')))
}.

Definition _transferOwnership `{BaseContracts G} `{!RoleAdmin G} (newOwner : Addr) (g : G) : G :=
  let oldOwner := owner g in
  let g := set_owner newOwner g in
  let g := _revokeRole DEFAULT_ADMIN_ROLE oldOwner g in
  _grantRole DEFAULT_ADMIN_ROLE newOwner g.

(** Functional.  After a transfer of ownership the new owner owns the contract and
    holds the admin role, the old owner (if another) no longer does, and no other
    role of any account changes. *)
Theorem admin_role_follows_owner `{RoleLaws G} (newOwner : Addr) (g : G) :
  let g' := _transferOwnership newOwner g in
  owner g' = newOwner ∧
  hasRole g' DEFAULT_ADMIN_ROLE newOwner = true ∧
  (owner g ≠ newOwner → hasRole g' DEFAULT_ADMIN_ROLE (owner g) = false) ∧
  ∀ r a, r ≠ DEFAULT_ADMIN_ROLE ∨ (a ≠ owner g ∧ a ≠ newOwner) → hasRole g' r a = hasRole g r a.
Proof.
  cbn zeta. unfold _transferOwnership. split_and!.
  - by rewrite owner_grant, owner_revoke, owner_set.
  - rewrite hasRole_grant, (bool_decide_eq_true_2 (_ = _)) by done. apply orb_true_r.
  - intros Hne. rewrite hasRole_grant, hasRole_revoke, (bool_decide_eq_true_2 (_ = _)) by done.
    rewrite bool_decide_eq_false_2 by naive_solver. by rewrite andb_false_r.
  - intros r a Hra. rewrite hasRole_grant, hasRole_revoke, hasRole_set.
    rewrite !bool_decide_eq_false_2 by naive_solver. by rewrite andb_true_r, orb_false_r.
Qed.

(** ** A token and base contracts

    A plain ledger of balances in which every spender is approved, and a
    contract with one owner that holds every role: the instances on which the
    theorems are evaluated. *)

Abbreviation ledger := (gmap Addr N).

Definition credit (a : Addr) (n : N) (t : ledger) : ledger := <[a := (default 0 (t !! a) + n)%N]> t.

Definition debit (a : Addr) (n : N) (t : ledger) : option ledger :=
  let b := default 0%N (t !! a) in
  if (n <=? b)%N then Some (<[a := (b - n)%N]> t) else None.

Definition ledger_transfer (from to : Addr) (n : Z) (t : ledger) : option ledger :=
  if decide (from = 0%N ∨ to = 0%N) then None
  else credit to (Z.to_N n) <$> debit from (Z.to_N n) t.

#[export] Instance ledger_token : Token ledger := {|
  balanceOf t a := Z.of_N (default 0%N (t !! a));
  transfer := ledger_transfer;
  transferFrom _ := ledger_transfer;
  burn from n t := if decide (from = 0%N) then None else debit from (Z.to_N n) t
|}.

Lemma debit_spec a n t :
  match debit a n t with
  | Some t' => (n ≤ default 0 (t !! a))%N ∧
      ∀ b, default 0%N (t' !! b) = (if decide (b = a) then default 0 (t !! a) - n else default 0 (t !! b))%N
  | None => (default 0 (t !! a) < n)%N
  end.
Proof.
  unfold debit. destruct (N.leb_spec n (default 0%N (t !! a))); [|done]. split; [done|].
  intros b. rewrite lookup_insert. repeat case_decide; simplify_eq; done.
Qed.

Lemma ledger_transfer_moves from to n (t t' : ledger) :
  0 ≤ n → ledger_transfer from to n t = Some t' →
  n ≤ balanceOf t from ∧ moved from to n (balanceOf t) (balanceOf t').
Proof.
  intros Hn. unfold ledger_transfer. case_decide; [done|].
  pose proof (debit_spec from (Z.to_N n) t) as Hd. destruct (debit _ _ _) as [t1|]; [|done].
  destruct Hd as [Hle Hd]. intros [= <-]. cbn. split; [lia|]. intros a. unfold credit.
  rewrite lookup_insert. case_decide; simplify_eq; cbn; rewrite Hd; repeat case_decide; simplify_eq; lia.
Qed.

#[export] Instance ledger_token_laws : TokenLaws ledger.
Proof.
  split.
  - cbn. lia.
  - apply ledger_transfer_moves.
  - intros spender. apply ledger_transfer_moves.
  - intros from n t t' Hn. cbn. case_decide; [done|].
    pose proof (debit_spec from (Z.to_N n) t) as Hd. destruct (debit _ _ _) as [t1|]; [|done].
    destruct Hd as [Hle Hd]. intros [= <-]. split; [lia|]. intros a. rewrite Hd. case_decide; simplify_eq; lia.
  - intros from to n t Hn Hf Ht. cbn in *. unfold ledger_transfer.
    rewrite decide_False by naive_solver. pose proof (debit_spec from (Z.to_N n) t) as Hd.
    destruct (debit _ _ _); [by eexists|lia].
  - intros from n t Hn Hf. cbn in *. rewrite decide_False by done.
    pose proof (debit_spec from (Z.to_N n) t) as Hd. destruct (debit _ _ _); [by eexists|lia].
Qed.

Record admin := mkAdmin { admin_owner : Addr; admin_paused : bool }.

#[export] Instance admin_base : BaseContracts admin := {|
  owner := admin_owner;
  hasRole g _ a := bool_decide (a = admin_owner g);
  paused := admin_paused;
  set_paused b g := if Bool.eqb b (admin_paused g) then None else Some (mkAdmin (admin_owner g) b)
|}.
