(* ===== verification/BunkerToken.v ===== *)
(** * The token contract (src/contracts/src/BunkerToken.sol)

    The contract adds capped minting by the owner to OpenZeppelin's ERC-20, whose
    operations are parameters with their documented behaviour.  The theorem is
    the cap, which the other contracts rely on for their 128-bit amounts. *)

From S2P Require Import Prelude Solidity.
Local Open Scope Z_scope.

(** What OpenZeppelin's ERC20 and ERC20Burnable add to [Token]: the supply,
    [_mint], and [burnFrom], by which a spender burns with an allowance. *)
Class Mintable (T : Type) := {
  totalSupply : T → Z;
  _mint : Addr → Z → T → option T;
  burnFrom : Addr → Addr → Z → T → option T
}.

Class MintableLaws (T : Type) `{Token T} `{!Mintable T} : Prop := {
  supply_nonneg t : 0 ≤ totalSupply t;
  balance_le_supply t a : balanceOf t a ≤ totalSupply t;
  transfer_supply from to n t t' : 0 ≤ n → transfer from to n t = Some t' → totalSupply t' = totalSupply t;
  transferFrom_supply sp from to n t t' :
    0 ≤ n → transferFrom sp from to n t = Some t' → totalSupply t' = totalSupply t;
  burn_supply from n t t' : 0 ≤ n → burn from n t = Some t' → totalSupply t' = totalSupply t - n;
  burnFrom_supply sp from n t t' : 0 ≤ n → burnFrom sp from n t = Some t' → totalSupply t' = totalSupply t - n;
  mint_supply to n t t' : 0 ≤ n → _mint to n t = Some t' → totalSupply t' = totalSupply t + n
}.

Definition SUPPLY_CAP : Z := 100000000000 * 10 ^ 18.

Module Bunker.

Inductive TokenErr := SupplyCapExceeded | MintAmountZero.

Section Operations.
Context {T G : Type} `{Token T} `{!Mintable T} `{BaseContracts G}.
(** The contract has no storage of its own beside its base contracts'. *)
Abbreviation M := (tx (chain unit T G) TokenErr).

Definition mint (msg : message) (to : Addr) (amount : Z) : M unit :=
  onlyOwner msg;;
  revert_if (amount =? 0) MintAmountZero;;
  supply ← read (λ w, totalSupply (tok w));
  available ← sub SUPPLY_CAP supply;
  revert_if (available <? amount) SupplyCapExceeded;;
  with_tok (_mint to amount).

Definition mintableSupply : M Z :=
  supply ← read (λ w, totalSupply (tok w)); sub SUPPLY_CAP supply.

(** The calls of the token: minting, and what ERC20 and ERC20Burnable offer. *)
Inductive call :=
  | CallMint (to : Addr) (amount : Z)
  | CallTransfer (to : Addr) (amount : Z)
  | CallTransferFrom (from to : Addr) (amount : Z)
  | CallBurn (amount : Z)
  | CallBurnFrom (from : Addr) (amount : Z).

Definition exec (msg : message) (c : call) : M unit :=
  match c with
  | CallMint to n => mint msg to n
  | CallTransfer to n => with_tok (transfer (sender msg) to n)
  | CallTransferFrom from to n => with_tok (transferFrom (sender msg) from to n)
  | CallBurn n => with_tok (burn (sender msg) n)
  | CallBurnFrom from n => with_tok (burnFrom (sender msg) from n)
  end.

Definition call_wf (c : call) : Prop :=
  match c with
  | CallMint _ n | CallTransfer _ n | CallTransferFrom _ _ n | CallBurn n | CallBurnFrom _ n => 0 ≤ n
  end.

Inductive step : chain unit T G → chain unit T G → Prop :=
  | step_call msg c w : call_wf c → step w (commit (exec msg c) w)
  | step_base w g' : step w (mkChain (self w) (tok w) g')
  (** [approve] and [permit] change allowances, and neither balances nor supply. *)
  | step_allowance w t' : (∀ a, balanceOf t' a = balanceOf (tok w) a) → totalSupply t' = totalSupply (tok w) →
      step w (mkChain (self w) t' (base w)).
End Operations.

Section Cap.
Context {T G : Type} `{MintableLaws T} `{BaseContracts G}.
Implicit Types w : chain unit T G.

Lemma exec_supply msg c w w' u :
  call_wf c → exec msg c w = Ok (w', u) → totalSupply (tok w) ≤ SUPPLY_CAP → totalSupply (tok w') ≤ SUPPLY_CAP.
Proof.
  intros Hwf Hc Hle. destruct c; cbn [exec call_wf] in *; unfold mint in Hc; tx_inv Hc; zbool;
    match goal with Hx : with_tok _ _ = Ok _ |- _ => apply with_tok_Ok in Hx as (t & Hx & ?); simplify_eq; cbn end.
  - rewrite (mint_supply _ _ _ _ Hwf Hc). lia.
  - by rewrite (transfer_supply _ _ _ _ _ Hwf Hc).
  - by rewrite (transferFrom_supply _ _ _ _ _ _ Hwf Hc).
  - rewrite (burn_supply _ _ _ _ Hwf Hc). lia.
  - rewrite (burnFrom_supply _ _ _ _ _ Hwf Hc). lia.
Qed.

(** C31: bounds.  However the token is minted, transferred and burned, its supply never
    exceeds the cap of 100 billion tokens, the remaining mintable supply never
    underflows, and no account ever holds more than the cap. *)
Theorem supply_capped w w' :
  totalSupply (tok w) ≤ SUPPLY_CAP → rtc step w w' →
  totalSupply (tok w') ≤ SUPPLY_CAP ∧ succeeds (E := TokenErr) (mintableSupply w') ∧
  ∀ a, balanceOf (tok w') a ≤ SUPPLY_CAP.
Proof.
  intros H0' Hsteps. assert (Hcap : totalSupply (tok w') ≤ SUPPLY_CAP).
  { revert H0'. induction Hsteps as [|x y z Hstep _ IH]; [done|]. intros Hx. apply IH. destruct Hstep as [msg c x Hwf|x g'|x t' _ Ht]; [|done|cbn; lia].
    by apply (commit_inv _ (λ w, totalSupply (tok w) ≤ SUPPLY_CAP)); [intros ? ? ?; eapply exec_supply|]. }
  split_and!; [done| |intros a; by etrans; [apply balance_le_supply|]].
  unfold mintableSupply. eapply succeeds_bind; [by apply read_Ok|].
  by rewrite (proj2 (sub_Ok SUPPLY_CAP (totalSupply (tok w')) w' _) (conj Hcap eq_refl)).
Qed.
End Cap.
End Bunker.

(** ** A concrete token *)

#[export] Instance ledger_mintable : Mintable ledger := {|
  totalSupply := sum_map Z.of_N;
  _mint to n t := if decide (to = 0%N) then None else Some (credit to (Z.to_N n) t);
  burnFrom sp from n t := burn from n t
|}.

Lemma ledger_credit_supply a n t : sum_map Z.of_N (credit a n t) = sum_map Z.of_N t + Z.of_N n.
Proof.
  rewrite (sum_map_change Z.of_N 0%N t (credit a n t) a); [|done|].
  - unfold credit. rewrite lookup_insert_eq. cbn. lia.
  - intros k Hk. unfold credit. by rewrite lookup_insert_ne.
Qed.

Lemma ledger_debit_supply a n t t' : debit a n t = Some t' → sum_map Z.of_N t' = sum_map Z.of_N t - Z.of_N n.
Proof.
  unfold debit. intros Hd. destruct (N.leb_spec n (default 0%N (t !! a))) as [Hle|]; [|done]. injection Hd as <-.
  rewrite (sum_map_change Z.of_N 0%N t _ a); [|done|intros k Hk; by rewrite lookup_insert_ne].
  rewrite lookup_insert_eq. cbn. lia.
Qed.

Lemma ledger_transfer_supply from to n (t t' : ledger) :
  0 ≤ n → ledger_transfer from to n t = Some t' → totalSupply t' = totalSupply t.
Proof.
  unfold ledger_transfer. intros Hn Ht. case_decide; [done|]. apply fmap_Some in Ht as (t1 & Hd & ->).
  cbn. rewrite ledger_credit_supply, (ledger_debit_supply _ _ _ _ Hd). lia.
Qed.

#[export] Instance ledger_mintable_laws : MintableLaws ledger.
Proof.
  split.
  - intros t. apply sum_map_nonneg. intros k v _. lia.
  - intros t a. apply (sum_map_default_ge Z.of_N 0%N t a); [intros k; lia|done].
  - exact ledger_transfer_supply.
  - intros sp. exact ledger_transfer_supply.
  - intros from n t t' Hn Hb. cbn in Hb. case_decide; [done|]. cbn. rewrite (ledger_debit_supply _ _ _ _ Hb). lia.
  - intros sp from n t t' Hn Hb. cbn in Hb. case_decide; [done|]. cbn. rewrite (ledger_debit_supply _ _ _ _ Hb). lia.
  - intros to n t t' Hn Hm. cbn in Hm. case_decide; [done|]. injection Hm as <-.
    cbn. rewrite ledger_credit_supply. lia.
Qed.

(** The owner 1 mints to account 7, which sends some on. *)
Example supply_capped_witness :
  let w : chain unit ledger admin := mkChain tt ∅ (mkAdmin 1 false) in
  let w1 := commit (Bunker.exec (mkMsg 1 0) (Bunker.CallMint 7 1000)) w in
  let w2 := commit (Bunker.exec (mkMsg 7 0) (Bunker.CallTransfer 8 5)) w1 in
  balanceOf (tok w2) 8%N = 5 ∧ totalSupply (tok w2) ≤ SUPPLY_CAP.
Proof.
  intros w w1 w2. split; [vm_compute; reflexivity|].
  assert (H0 : totalSupply (tok w) ≤ SUPPLY_CAP) by (vm_compute; discriminate).
  refine (proj1 (Bunker.supply_capped w w2 H0 _)).
  refine (rtc_l _ _ w1 _ _ (rtc_once _ _ _)).
  - by apply (Bunker.step_call (mkMsg 1 0) (Bunker.CallMint 7 1000) w).
  - by apply (Bunker.step_call (mkMsg 7 0) (Bunker.CallTransfer 8 5) w1).
Defined.
