(* ===== verification/BunkerEscrow.v ===== *)
(** * The escrow contract (src/contracts/src/BunkerEscrow.sol)

    A requester deposits tokens for a reservation; an operator selects three
    providers; payments are released in proportion to time, with a protocol fee
    that is partly burnt; what is left is refunded, settled or paid out at the
    end.

    Theorems: a payment leaves the contract exactly, dust included; in every
    history the contract holds at least what it owes to all open reservations,
    so a requester can always get a refund; a reservation only moves forward
    through its states and pays out exactly its deposit; fees are bounded. *)

From S2P Require Import Prelude Solidity.
Local Open Scope Z_scope.

Module Escrow.

Definition OPERATOR_ROLE : string := "OPERATOR_ROLE".
Definition PROVIDERS_PER_RESERVATION : Z := 3.
Definition MAX_PROTOCOL_FEE_BPS : Z := 2000.
Definition BPS_DENOMINATOR : Z := 10000.

Inductive Status := None_ | Created | Active | Completed | Refunded | Disputed.
#[export] Instance Status_eq_dec : EqDecision Status.
Proof. solve_decision. Defined.

Record Reservation := mkRes {
  requester : Addr;
  totalAmount : Z;       (** uint128 *)
  releasedAmount : Z;    (** uint128 *)
  duration : Z;          (** uint48 *)
  startTime : Z;         (** uint48 *)
  status : Status;
  providers : Addr * Addr * Addr
}.

(** What a mapping holds at a key never written. *)
Definition no_reservation : Reservation := mkRes 0 0 0 0 0 None_ (0, 0, 0)%N.

Record State := mkState {
  feeBurnBps : Z;
  feeTreasuryBps : Z;
  treasury : Addr;
  protocolFeeBps : Z;
  nextReservationId : Z;
  totalBurned : Z;
  totalTreasuryFees : Z;
  lowBalanceThresholdBps : Z;
  stakingContract : Addr;
  reservations : gmap Z Reservation;
  reservationFeeBps : gmap Z Z
}.

Inductive EscrowErr :=
  | ZeroAmount | ZeroAddress | ZeroDuration
  | AmountOverflow | DurationOverflow
  | InvalidReservation | InvalidStatus
  | SettledDurationExceedsTotal | NothingToRelease
  | ProtocolFeeTooHigh | NotRequesterOrOperator | InvalidDisputeAmounts
  | NotRequester | ThresholdTooHigh | NotProvider | ProviderNotStaked
  | DuplicateProvider | CannotDisableStakingVerification | InvalidFeeSplit.

(** The storage after the constructor. *)
Definition constructor (_token _treasury _initialOwner : Addr) : option State :=
  if (_token =? 0)%N || (_treasury =? 0)%N || (_initialOwner =? 0)%N then None
  else Some (mkState 8000 2000 _treasury 500 1 0 0 2000 0 ∅ ∅).

Definition reservation (id : Z) (s : State) : Reservation := default no_reservation (reservations s !! id).
Definition fee_of (id : Z) (s : State) : Z := default 0 (reservationFeeBps s !! id).

Definition set_reservation (id : Z) (r : Reservation) (s : State) : State :=
  mkState (feeBurnBps s) (feeTreasuryBps s) (treasury s) (protocolFeeBps s) (nextReservationId s)
    (totalBurned s) (totalTreasuryFees s) (lowBalanceThresholdBps s) (stakingContract s)
    (<[id := r]> (reservations s)) (reservationFeeBps s).

Definition set_released (n : Z) (r : Reservation) : Reservation :=
  mkRes (requester r) (totalAmount r) n (duration r) (startTime r) (status r) (providers r).
Definition set_total (n : Z) (r : Reservation) : Reservation :=
  mkRes (requester r) n (releasedAmount r) (duration r) (startTime r) (status r) (providers r).
Definition set_status (st : Status) (r : Reservation) : Reservation :=
  mkRes (requester r) (totalAmount r) (releasedAmount r) (duration r) (startTime r) st (providers r).

Definition is_status (st : Status) (r : Reservation) : bool := bool_decide (status r = st).

Section Operations.
Context {T G : Type} `{Token T} `{BaseContracts G}.
(** The address of the contract. *)
Context (this : Addr).
Abbreviation M := (tx (chain State T G) EscrowErr).

Definition _distributePayment (id : Z) (res : Reservation) (grossAmount : Z) : M (Z * Z * Z) :=
  feeBps ← get (fee_of id);
  x ← mul grossAmount feeBps;
  fee ← div x BPS_DENOMINATOR;
  netToProviders ← sub grossAmount fee;
  burnBps ← get feeBurnBps;
  y ← mul fee burnBps;
  burnAmount ← div y BPS_DENOMINATOR;
  treasuryAmount ← sub fee burnAmount;
  burned ← get totalBurned;
  burned ← add burned burnAmount;
  fees ← get totalTreasuryFees;
  fees ← add fees treasuryAmount;
  put (λ s, mkState (feeBurnBps s) (feeTreasuryBps s) (treasury s) (protocolFeeBps s)
    (nextReservationId s) burned fees (lowBalanceThresholdBps s) (stakingContract s)
    (reservations s) (reservationFeeBps s));;
  burn_some this burnAmount;;
  to ← get treasury;
  pay this to treasuryAmount;;
  perProvider ← div netToProviders PROVIDERS_PER_RESERVATION;
  spread ← mul perProvider PROVIDERS_PER_RESERVATION;
  dust ← sub netToProviders spread;
  first ← add perProvider dust;
  pay this (providers res).1.1 first;;
  pay this (providers res).1.2 perProvider;;
  pay this (providers res).2 perProvider;;
  mret (fee, burnAmount, treasuryAmount).

(** Whether the [LowBalance] event is emitted. *)
Definition _checkLowBalance (id : Z) : M bool :=
  res ← get (reservation id);
  remaining ← sub (totalAmount res) (releasedAmount res);
  bps ← get lowBalanceThresholdBps;
  x ← mul (totalAmount res) bps;
  threshold ← div x BPS_DENOMINATOR;
  mret (remaining <? threshold).

Definition createReservation (msg : message) (amount duration : Z) : M Z :=
  whenNotPaused;;
  revert_if (amount =? 0) ZeroAmount;;
  revert_if (duration =? 0) ZeroDuration;;
  revert_if (max_uint128 <? amount) AmountOverflow;;
  revert_if (max_uint48 <? duration) DurationOverflow;;
  id ← get nextReservationId;
  put (λ s, mkState (feeBurnBps s) (feeTreasuryBps s) (treasury s) (protocolFeeBps s)
    (uint 256 (id + 1)) (totalBurned s) (totalTreasuryFees s) (lowBalanceThresholdBps s)
    (stakingContract s)
    (<[id := mkRes (sender msg) (uint 128 amount) 0 (uint 48 duration) 0 Created (0, 0, 0)%N]>
      (reservations s))
    (<[id := uint 16 (protocolFeeBps s)]> (reservationFeeBps s)));;
  safeTransferFrom this (sender msg) this amount;;
  mret id.

Definition increaseDeposit (msg : message) (id amount : Z) : M unit :=
  whenNotPaused;;
  revert_if (amount =? 0) ZeroAmount;;
  res ← get (reservation id);
  revert_if (requester res =? 0)%N InvalidReservation;;
  revert_if (negb (sender msg =? requester res)%N) NotRequester;;
  revert_if (negb (is_status Created res) && negb (is_status Active res)) InvalidStatus;;
  newTotal ← add (totalAmount res) amount;
  revert_if (max_uint128 <? newTotal) AmountOverflow;;
  put (set_reservation id (set_total (uint 128 newTotal) res));;
  safeTransferFrom this (sender msg) this amount.

(** The proportional share of a settled time, and its release. *)
Definition release_upto (id : Z) (res : Reservation) (settled : Z) : M unit :=
  x ← mul (totalAmount res) settled;
  proportionalTotal ← div x (duration res);
  revert_if (proportionalTotal <=? releasedAmount res) NothingToRelease;;
  grossRelease ← sub proportionalTotal (releasedAmount res);
  released ← add_width 128 (releasedAmount res) (uint 128 grossRelease);
  let res := set_released released res in
  put (set_reservation id res);;
  parts ← _distributePayment id res grossRelease;
  _checkLowBalance id;;
  sub grossRelease parts.1.1;;
  mret tt.

Definition is_provider (a : Addr) (res : Reservation) : bool :=
  (((providers res).1.1 =? a) || ((providers res).1.2 =? a) || ((providers res).2 =? a))%N.

Definition claim (msg : message) (id : Z) : M unit :=
  whenNotPaused;;
  res ← get (reservation id);
  revert_if (negb (is_status Active res)) InvalidStatus;;
  revert_if (negb (is_provider (sender msg) res)) NotProvider;;
  elapsed ← sub (timestamp msg) (startTime res);
  let elapsed := if duration res <? elapsed then duration res else elapsed in
  release_upto id res elapsed.

(** [isActive] is the staking contract at its configured address. *)
Definition check_provider (isActive : Addr → Addr → option bool) (p : Addr) : M unit :=
  revert_if (p =? 0)%N ZeroAddress;;
  staking ← get stakingContract;
  if (staking =? 0)%N then mret tt
  else ok ← of_option ExternalRevert (isActive staking p); revert_if (negb ok) ProviderNotStaked.

Definition selectProviders (msg : message) (isActive : Addr → Addr → option bool) (id : Z)
    (addrs : Addr * Addr * Addr) : M unit :=
  onlyRole OPERATOR_ROLE msg;;
  whenNotPaused;;
  res ← get (reservation id);
  revert_if (negb (is_status Created res)) InvalidStatus;;
  check_provider isActive addrs.1.1;;
  check_provider isActive addrs.1.2;;
  check_provider isActive addrs.2;;
  revert_if ((addrs.1.1 =? addrs.1.2) || (addrs.1.1 =? addrs.2) || (addrs.1.2 =? addrs.2))%N
    DuplicateProvider;;
  put (set_reservation id (mkRes (requester res) (totalAmount res) (releasedAmount res) (duration res)
    (uint 48 (timestamp msg)) Active addrs)).

Definition releasePayment (msg : message) (id settledDuration : Z) : M unit :=
  onlyRole OPERATOR_ROLE msg;;
  whenNotPaused;;
  res ← get (reservation id);
  revert_if (negb (is_status Active res)) InvalidStatus;;
  revert_if (duration res <? settledDuration) SettledDurationExceedsTotal;;
  release_upto id res settledDuration.

Definition finalizeReservation (msg : message) (id : Z) : M unit :=
  onlyRole OPERATOR_ROLE msg;;
  res ← get (reservation id);
  revert_if (negb (is_status Active res)) InvalidStatus;;
  remaining ← sub (totalAmount res) (releasedAmount res);
  let res := set_status Completed (set_released (totalAmount res) res) in
  put (set_reservation id res);;
  when (0 <? remaining) (_distributePayment id res remaining;; mret tt);;
  _checkLowBalance id;;
  mret tt.

(** For an active reservation, the earned part goes to the providers first. *)
Definition release_earned (msg : message) (id : Z) (res : Reservation) : M Reservation :=
  elapsed ← sub (timestamp msg) (startTime res);
  let elapsed := if duration res <? elapsed then duration res else elapsed in
  x ← mul (totalAmount res) elapsed;
  proportionalTotal ← div x (duration res);
  if releasedAmount res <? proportionalTotal then
    earnedUnreleased ← sub proportionalTotal (releasedAmount res);
    _distributePayment id res earnedUnreleased;;
    released ← add_width 128 (releasedAmount res) (uint 128 earnedUnreleased);
    mret (set_released released res)
  else mret res.

Definition refund (msg : message) (id : Z) : M unit :=
  res ← get (reservation id);
  revert_if (negb (is_status Active res) && negb (is_status Created res)) InvalidStatus;;
  operator ← read (λ w, hasRole (base w) OPERATOR_ROLE (sender msg));
  revert_if (negb (sender msg =? requester res)%N && negb operator) NotRequesterOrOperator;;
  res ← (if is_status Active res then release_earned msg id res else mret res);
  remaining ← sub (totalAmount res) (releasedAmount res);
  put (set_reservation id (set_status Refunded (set_released (totalAmount res) res)));;
  pay this (requester res) remaining.

Definition settleDispute (msg : message) (id requesterAmount providerAmount : Z) : M unit :=
  onlyRole OPERATOR_ROLE msg;;
  res ← get (reservation id);
  revert_if (negb (is_status Active res)) InvalidStatus;;
  remaining ← sub (totalAmount res) (releasedAmount res);
  total ← add requesterAmount providerAmount;
  revert_if (negb (total =? remaining)) InvalidDisputeAmounts;;
  let res := set_status Disputed (set_released (totalAmount res) res) in
  put (set_reservation id res);;
  pay this (requester res) requesterAmount;;
  when (0 <? providerAmount) (_distributePayment id res providerAmount;; mret tt).

Definition getReservation (id : Z) : M Reservation := get (reservation id).
Definition getProviders (id : Z) : M (Addr * Addr * Addr) := get (λ s, providers (reservation id s)).
Definition calculateProtocolFee (amount : Z) : M Z :=
  bps ← get protocolFeeBps; x ← mul amount bps; div x BPS_DENOMINATOR.

(** ** Administration *)

Definition set_config (burnBps treasuryBps : Z) (tr : Addr) (fee low : Z) (st : Addr) (s : State) : State :=
  mkState burnBps treasuryBps tr fee (nextReservationId s) (totalBurned s) (totalTreasuryFees s)
    low st (reservations s) (reservationFeeBps s).

Definition setProtocolFee (msg : message) (newFeeBps : Z) : M unit :=
  onlyOwner msg;;
  revert_if (MAX_PROTOCOL_FEE_BPS <? newFeeBps) ProtocolFeeTooHigh;;
  put (λ s, set_config (feeBurnBps s) (feeTreasuryBps s) (treasury s) newFeeBps
    (lowBalanceThresholdBps s) (stakingContract s) s).

Definition setTreasury (msg : message) (newTreasury : Addr) : M unit :=
  onlyOwner msg;;
  revert_if (newTreasury =? 0)%N ZeroAddress;;
  put (λ s, set_config (feeBurnBps s) (feeTreasuryBps s) newTreasury (protocolFeeBps s)
    (lowBalanceThresholdBps s) (stakingContract s) s).

Definition setLowBalanceThreshold (msg : message) (newThresholdBps : Z) : M unit :=
  onlyOwner msg;;
  revert_if (5000 <? newThresholdBps) ThresholdTooHigh;;
  put (λ s, set_config (feeBurnBps s) (feeTreasuryBps s) (treasury s) (protocolFeeBps s)
    newThresholdBps (stakingContract s) s).

Definition setStakingContract (msg : message) (_stakingContract : Addr) : M unit :=
  onlyOwner msg;;
  old ← get stakingContract;
  revert_if (negb (old =? 0)%N && (_stakingContract =? 0)%N) CannotDisableStakingVerification;;
  put (λ s, set_config (feeBurnBps s) (feeTreasuryBps s) (treasury s) (protocolFeeBps s)
    (lowBalanceThresholdBps s) _stakingContract s).

Definition setFeeSplit (msg : message) (burnBps treasuryBps : Z) : M unit :=
  onlyOwner msg;;
  revert_if (negb (burnBps + treasuryBps =? BPS_DENOMINATOR)) InvalidFeeSplit;;
  put (λ s, set_config burnBps treasuryBps (treasury s) (protocolFeeBps s)
    (lowBalanceThresholdBps s) (stakingContract s) s).

Definition pause (msg : message) : M unit := onlyOwner msg;; set_pause true.
Definition unpause (msg : message) : M unit := onlyOwner msg;; set_pause false.

(** ** Calls

    Every state-changing call, with its arguments at their types: amounts are
    [uint256], basis points [uint16]. *)

Inductive call :=
  | CallCreate (amount duration : Z)
  | CallIncrease (id amount : Z)
  | CallClaim (id : Z)
  | CallSelect (isActive : Addr → Addr → option bool) (id : Z) (addrs : Addr * Addr * Addr)
  | CallRelease (id settled : Z)
  | CallFinalize (id : Z)
  | CallRefund (id : Z)
  | CallSettle (id requesterAmount providerAmount : Z)
  | CallSetFee (bps : Z)
  | CallSetTreasury (a : Addr)
  | CallSetThreshold (bps : Z)
  | CallSetStaking (a : Addr)
  | CallSetSplit (burnBps treasuryBps : Z)
  | CallPause (b : bool).

Definition call_wf (c : call) : Prop :=
  match c with
  | CallCreate a d => 0 ≤ a ∧ 0 ≤ d
  | CallIncrease _ a | CallRelease _ a => 0 ≤ a
  | CallSettle _ a b => 0 ≤ a ∧ 0 ≤ b
  | CallSetSplit a b => 0 ≤ a ∧ 0 ≤ b
  | CallSetFee a | CallSetThreshold a => 0 ≤ a
  | _ => True
  end.

Definition exec (msg : message) (c : call) : M unit :=
  match c with
  | CallCreate a d => createReservation msg a d;; mret tt
  | CallIncrease id a => increaseDeposit msg id a
  | CallClaim id => claim msg id
  | CallSelect f id ps => selectProviders msg f id ps
  | CallRelease id d => releasePayment msg id d
  | CallFinalize id => finalizeReservation msg id
  | CallRefund id => refund msg id
  | CallSettle id a b => settleDispute msg id a b
  | CallSetFee b => setProtocolFee msg b
  | CallSetTreasury a => setTreasury msg a
  | CallSetThreshold b => setLowBalanceThreshold msg b
  | CallSetStaking a => setStakingContract msg a
  | CallSetSplit a b => setFeeSplit msg a b
  | CallPause true => pause msg
  | CallPause false => unpause msg
  end.

(** A history: calls, which commit or revert, and what happens elsewhere: the
    token moves (the contract's own tokens move only through its calls, but
    anybody may send it some) and roles and ownership change. *)
Inductive step : chain State T G → chain State T G → Prop :=
  | step_call msg c w : call_wf c → sender msg ≠ this → sender msg ≠ 0%N → step w (commit (exec msg c) w)
  | step_token w t' : balanceOf (tok w) this ≤ balanceOf t' this →
      step w (mkChain (self w) t' (base w))
  | step_base w g' : step w (mkChain (self w) (tok w) g').
End Operations.

(** ** Payments *)

Section Payments.
Context {T G : Type} `{TokenLaws T} `{BaseContracts G}.
Context (this : Addr).
Implicit Types w : chain State T G.

(** The parts of a payment. *)
Record parts := mkParts {
  p_burn : Z; p_treasury : Z; p_first : Z; p_each : Z
}.

Definition parts_of (gross feeBps burnBps : Z) : parts :=
  let fee := gross * feeBps / BPS_DENOMINATOR in
  let burnt := fee * burnBps / BPS_DENOMINATOR in
  let net := gross - fee in
  let each := net / PROVIDERS_PER_RESERVATION in
  mkParts burnt (fee - burnt) (each + (net - each * PROVIDERS_PER_RESERVATION)) each.

Arguments parts_of : simpl never.

Definition bps (n : Z) : Prop := 0 ≤ n ≤ 10000.

(** The parts are not negative and make up the payment exactly. *)
Lemma parts_sum gross feeBps burnBps :
  0 ≤ gross → bps feeBps → bps burnBps →
  let p := parts_of gross feeBps burnBps in
  0 ≤ p_burn p ∧ 0 ≤ p_treasury p ∧ 0 ≤ p_each p ≤ p_first p ∧ p_first p ≤ p_each p + 2 ∧
  p_burn p + p_treasury p + p_first p + p_each p + p_each p = gross.
Proof.
  unfold bps, parts_of, BPS_DENOMINATOR, PROVIDERS_PER_RESERVATION. cbn. intros Hg Hf Hb.
  set (fee := gross * feeBps / 10000).
  assert (0 ≤ fee ≤ gross) by (split; [apply Z.div_pos; nia|apply Z.div_le_upper_bound; nia]).
  assert (0 ≤ fee * burnBps / 10000 ≤ fee)
    by (split; [apply Z.div_pos; nia|apply Z.div_le_upper_bound; nia]).
  pose proof (Z.div_mod (gross - fee) 3 ltac:(lia)). pose proof (Z.mod_pos_bound (gross - fee) 3 ltac:(lia)).
  lia.
Qed.

(** What a payment does: the storage changes only in its two totals, and each
    account gets its part. *)
Lemma distribute_Ok id res gross w w' r :
  0 ≤ gross → bps (fee_of id (self w)) → bps (feeBurnBps (self w)) →
  _distributePayment this id res gross w = Ok (w', r) →
  let s := self w in
  let p := parts_of gross (fee_of id s) (feeBurnBps s) in
  self w' = mkState (feeBurnBps s) (feeTreasuryBps s) (treasury s) (protocolFeeBps s)
    (nextReservationId s) (totalBurned s + p_burn p) (totalTreasuryFees s + p_treasury p)
    (lowBalanceThresholdBps s) (stakingContract s) (reservations s) (reservationFeeBps s) ∧
  base w' = base w ∧
  ∀ a, balanceOf (tok w') a = balanceOf (tok w) a - share a this gross +
    share a (treasury s) (p_treasury p) + share a (providers res).1.1 (p_first p) +
    share a (providers res).1.2 (p_each p) + share a (providers res).2 (p_each p).
Proof.
  intros Hg Hf Hb Hd s p. unfold _distributePayment in Hd. tx_inv Hd.
  destruct (parts_sum gross _ _ Hg Hf Hb) as (P1 & P2 & P3 & P4 & P5).
  change (parts_of _ _ _) with p in P1, P2, P3, P4, P5.
  destruct (burn_some_Ok _ (p_burn p) _ _ _ ltac:(lia) Hs7) as (S1 & B1 & _ & M1).
  destruct (pay_Ok _ _ (p_treasury p) _ _ _ ltac:(lia) Hs8) as (S2 & B2 & _ & M2).
  destruct (pay_Ok _ _ (p_first p) _ _ _ ltac:(lia) Hs13) as (S3 & B3 & _ & M3).
  destruct (pay_Ok _ _ (p_each p) _ _ _ ltac:(lia) Hs14) as (S4 & B4 & _ & M4).
  destruct (pay_Ok _ _ (p_each p) _ _ _ ltac:(lia) Hs15) as (S5 & B5 & _ & M5).
  split_and!; [by rewrite S5, S4, S3, S2, S1|by rewrite B5, B4, B3, B2, B1|].
  intros acc. assert (Ht : treasury (self w0) = treasury s) by (by rewrite S1).
  rewrite M5, M4, M3, M2, M1, Ht. cbn [tok]. clear - P5. clearbody p.
  unfold share. repeat case_decide; lia.
Qed.

(** The running totals grow by at most one deposit. *)
Definition grown (s s' : State) : Prop :=
  totalBurned s ≤ totalBurned s' ≤ totalBurned s + max_uint128 ∧
  totalTreasuryFees s ≤ totalTreasuryFees s' ≤ totalTreasuryFees s + max_uint128.

Lemma grown_same s s' :
  totalBurned s' = totalBurned s → totalTreasuryFees s' = totalTreasuryFees s → grown s s'.
Proof. unfold grown, max_uint128, max_uint. lia. Qed.

(** The part of it that matters for solvency. *)
Lemma distribute_frame id res gross w w' r :
  0 ≤ gross ≤ max_uint128 → bps (fee_of id (self w)) → bps (feeBurnBps (self w)) →
  _distributePayment this id res gross w = Ok (w', r) →
  reservations (self w') = reservations (self w) ∧ treasury (self w') = treasury (self w) ∧
  grown (self w) (self w') ∧
  reservationFeeBps (self w') = reservationFeeBps (self w) ∧
  nextReservationId (self w') = nextReservationId (self w) ∧
  feeBurnBps (self w') = feeBurnBps (self w) ∧ protocolFeeBps (self w') = protocolFeeBps (self w) ∧
  balanceOf (tok w) this - gross ≤ balanceOf (tok w') this.
Proof.
  intros [Hg Hm] Hf Hb Hd. destruct (distribute_Ok _ _ _ _ _ _ Hg Hf Hb Hd) as (-> & _ & Hbal).
  destruct (parts_sum gross _ _ Hg Hf Hb) as (P1 & P2 & P3 & P4 & P5).
  split_and!; try done; [unfold grown; cbn [totalBurned totalTreasuryFees]; lia|]. rewrite Hbal, share_self.
  pose proof (share_nonneg this (treasury (self w)) _ P2).
  pose proof (share_nonneg this (providers res).1.1 _ ltac:(by etrans; apply P3)).
  pose proof (share_nonneg this (providers res).1.2 _ (proj1 P3)).
  pose proof (share_nonneg this (providers res).2 _ (proj1 P3)). lia.
Qed.
End Payments.

(** ** The life of a reservation *)

(** What the contract still owes on a reservation. *)
Definition due (r : Reservation) : Z := totalAmount r - releasedAmount r.

Definition terminal (st : Status) : bool :=
  match st with Completed | Refunded | Disputed => true | _ => false end.

Definition forward (a b : Status) : bool :=
  match a, b with
  | Created, (Created | Active | Refunded) => true
  | Active, (Active | Completed | Refunded | Disputed) => true
  | _, _ => false
  end.

Record res_ok (r : Reservation) : Prop := {
  ok_amounts : 0 ≤ releasedAmount r ≤ totalAmount r ∧ totalAmount r ≤ max_uint128;
  ok_duration : 0 < duration r ≤ max_uint48;
  ok_requester : requester r ≠ 0%N;
  ok_providers : status r = Active →
    (providers r).1.1 ≠ 0%N ∧ (providers r).1.2 ≠ 0%N ∧ (providers r).2 ≠ 0%N;
  ok_status : status r ≠ None_;
  ok_created : status r = Created → releasedAmount r = 0;
  ok_terminal : terminal (status r) = true → releasedAmount r = totalAmount r
}.

(** A reservation only moves forward. *)
Record res_step (r r' : Reservation) : Prop := {
  st_requester : requester r' = requester r;
  st_duration : duration r' = duration r;
  st_total : totalAmount r ≤ totalAmount r';
  st_released : releasedAmount r ≤ releasedAmount r';
  st_forward : forward (status r) (status r') = true;
  st_providers : status r = Active → providers r' = providers r ∧ startTime r' = startTime r
}.

Record config_ok (s : State) : Prop := {
  ok_treasury : treasury s ≠ 0%N;
  ok_burn : bps (feeBurnBps s);
  ok_fee : 0 ≤ protocolFeeBps s ≤ MAX_PROTOCOL_FEE_BPS;
  ok_fees : map_Forall (λ _ b, 0 ≤ b ≤ MAX_PROTOCOL_FEE_BPS) (reservationFeeBps s)
}.

Record state_ok (s : State) : Prop := {
  ok_config : config_ok s;
  ok_next : 1 ≤ nextReservationId s;
  ok_reservations : map_Forall (λ id r, 1 ≤ id < nextReservationId s ∧ res_ok r) (reservations s)
}.

Lemma fee_of_bps id s : config_ok s → bps (fee_of id s).
Proof.
  intros [_ _ _ Hf]. unfold fee_of, bps. destruct (reservationFeeBps s !! id) as [b|] eqn:Hb; cbn; [|lia].
  specialize (Hf _ _ Hb). unfold MAX_PROTOCOL_FEE_BPS in Hf. cbn in Hf. lia.
Qed.

Lemma reservation_exists id s :
  status (reservation id s) ≠ None_ → reservations s !! id = Some (reservation id s).
Proof. unfold reservation. by destruct (reservations s !! id). Qed.

Lemma is_status_true st r : is_status st r = true ↔ status r = st.
Proof. apply bool_decide_eq_true. Qed.

(** The effect of a call on the storage and on the contract's balance. *)
Section Effects.
Context {T G : Type} `{TokenLaws T} `{BaseContracts G}.
Context (this : Addr).
Implicit Types w : chain State T G.

Record kept (s s' : State) : Prop := {
  k_treasury : treasury s' = treasury s;
  k_burn : feeBurnBps s' = feeBurnBps s;
  k_fee : protocolFeeBps s' = protocolFeeBps s;
  k_fees : reservationFeeBps s' = reservationFeeBps s;
  k_next : nextReservationId s' = nextReservationId s;
  k_grown : grown s s'
}.

Inductive effect w w' : Prop :=
  | effect_admin :
      reservations (self w') = reservations (self w) →
      nextReservationId (self w') = nextReservationId (self w) → config_ok (self w') →
      grown (self w) (self w') → tok w' = tok w → effect w w'
  | effect_update id r r' :
      reservations (self w) !! id = Some r → kept (self w) (self w') →
      reservations (self w') = <[id := r']> (reservations (self w)) →
      res_step r r' → res_ok r' →
      balanceOf (tok w) this - (due r - due r') ≤ balanceOf (tok w') this → effect w w'
  | effect_create r :
      let id := nextReservationId (self w) in
      reservations (self w') = <[id := r]> (reservations (self w)) →
      nextReservationId (self w') = uint 256 (id + 1) → config_ok (self w') →
      grown (self w) (self w') → status r = Created → res_ok r → balanceOf (tok w) this + due r ≤ balanceOf (tok w') this →
      effect w w'.

Lemma kept_config s s' : kept s s' → config_ok s → config_ok s'.
Proof. intros [E0 E1 E2 E3 E4 _] []. split; rewrite ?E0, ?E1, ?E2, ?E3; done. Qed.

(** Facts the guards leave, in the form [lia] reads. *)
Ltac guards :=
  repeat match goal with
  | H : negb _ = false |- _ => apply negb_false_iff in H
  | H : is_status _ _ = true |- _ => apply is_status_true in H
  | H : andb _ _ = false |- _ => apply andb_false_iff in H
  | H : (_ =? _)%N = false |- _ => apply N.eqb_neq in H
  end; zbool.

(** What a call leaves alone. *)
Ltac keep :=
  split; cbn; first [done|by apply grown_same|match goal with D : grown _ _ |- _ => exact D end].

Lemma createReservation_effect msg amount d w w' r :
  0 ≤ amount → 0 ≤ d → sender msg ≠ this → sender msg ≠ 0%N → state_ok (self w) →
  createReservation this msg amount d w = Ok (w', r) → effect w w'.
Proof.
  intros Ha Hd Hthis Hz Hok Hc. unfold createReservation in Hc. tx_inv Hc. guards.
  token_inv.
  assert (Hu : uint 128 amount = amount).
  { unfold uint. apply Z.mod_small. unfold max_uint128, max_uint in *. lia. }
  assert (Hu' : uint 48 d = d).
  { unfold uint. apply Z.mod_small. unfold max_uint48, max_uint in *. lia. }
  eapply (effect_create _ _ (mkRes (sender msg) (uint 128 amount) 0 (uint 48 d) 0 Created _)); rewrite ?HS; cbn.
  - reflexivity.
  - reflexivity.
  - destruct Hok as [[Ht Hb Hf Hfs] _ _]. split; cbn; try done. apply map_Forall_insert_2; [|done].
    unfold uint, MAX_PROTOCOL_FEE_BPS in *. rewrite Z.mod_small; lia.
  - by apply grown_same.
  - done.
  - split; cbn; rewrite ?Hu, ?Hu'; try done; lia.
  - rewrite HM, share_self. unfold share. rewrite decide_False by done.
    unfold due; cbn. lia.
Qed.

Lemma increaseDeposit_effect msg id amount w w' r :
  0 ≤ amount → sender msg ≠ this → state_ok (self w) →
  increaseDeposit this msg id amount w = Ok (w', r) → effect w w'.
Proof.
  intros Ha Hthis Hok Hc. unfold increaseDeposit in Hc. tx_inv Hc. guards.
  token_inv.
  set (res := reservation id (self w)) in *.
  assert (Hst : status res = Created ∨ status res = Active) by (destruct Hs3 as [?|?]; guards; auto).
  assert (Hl : reservations (self w) !! id = Some res) by (apply reservation_exists; fold res; by destruct Hst as [-> | ->]).
  destruct (ok_reservations _ Hok _ _ Hl) as [_ Hres].
  assert (Hu : uint 128 (totalAmount res + amount) = totalAmount res + amount).
  { unfold uint. apply Z.mod_small. destruct Hres as [? _ _ _ _ _ _]. unfold max_uint128, max_uint in *. lia. }
  eapply (effect_update _ _ id res); [done|rewrite HS; keep|by rewrite HS| | |]; rewrite ?Hu.
  - split; cbn; try done; [lia|]. by destruct Hst as [-> | ->].
  - destruct Hres as [R1 R2 Rq Rp R3 R4 R5]. split; cbn; try done; [lia|]. by destruct Hst as [-> | ->].
  - rewrite HM, share_self. unfold share. rewrite decide_False by done.
    unfold due; cbn. lia.
Qed.

Lemma checkLowBalance_Ok id w w' b : _checkLowBalance id w = Ok (w', b) → w' = w.
Proof. intros Hc. unfold _checkLowBalance in Hc. by tx_inv Hc. Qed.

(** Replaces a payment in the context by its effect. *)
Ltac dist_inv Hok :=
  match goal with
  | H : _distributePayment _ _ _ _ _ = Ok _ |- _ =>
      apply distribute_frame in H as (D1 & Dt & Dg & D2 & D3 & D4 & D5 & D6);
        [|try (unfold max_uint128 in *; lia)|exact (fee_of_bps _ _ (ok_config _ Hok))|exact (ok_burn _ (ok_config _ Hok))];
      cbn in D1, Dt, D2, D3, D4, D5, D6
  end;
  try match goal with
  | H : _checkLowBalance _ _ = Ok _ |- _ => apply checkLowBalance_Ok in H; subst
  end.

(** An active reservation. *)
Lemma active_ok id w :
  state_ok (self w) → status (reservation id (self w)) = Active →
  reservations (self w) !! id = Some (reservation id (self w)) ∧ res_ok (reservation id (self w)).
Proof.
  intros Hok Hst. assert (Hl : reservations (self w) !! id = Some (reservation id (self w)))
    by (apply reservation_exists; by rewrite Hst).
  split; [done|]. by destruct (ok_reservations _ Hok _ _ Hl).
Qed.

(** A share of the deposit up to the whole duration. *)
Lemma proportional_bound r settled :
  res_ok r → 0 ≤ settled ≤ duration r →
  0 ≤ totalAmount r * settled / duration r ≤ totalAmount r.
Proof.
  intros [R1 R2 _ _ _ _ _] Hs. split; [apply Z.div_pos; nia|apply Z.div_le_upper_bound; nia].
Qed.

Lemma release_upto_effect id settled w w' r :
  let res := reservation id (self w) in
  0 ≤ settled ≤ duration res → state_ok (self w) → status res = Active →
  release_upto this id res settled w = Ok (w', r) → effect w w'.
Proof.
  intros res Hset Hok Hst Hc. destruct (active_ok id w Hok Hst) as [Hl Hres]. fold res in Hl, Hres.
  pose proof (proportional_bound res settled Hres Hset) as Hp.
  unfold release_upto in Hc. tx_inv Hc. guards.
  set (g := totalAmount res * settled / duration res - releasedAmount res) in *.
  destruct Hres as [R1 R2 Rq Rp R3 R4 R5]. assert (Hg0 : 0 ≤ g) by (unfold g; lia).
  assert (Hg : uint 128 g = g).
  { unfold uint. apply Z.mod_small. unfold g, max_uint128, max_uint in *. lia. }
  rewrite Hg in *.
  dist_inv Hok.
  eapply (effect_update _ _ id res); [done|keep|done| | |].
  - split; cbn; try done; [lia|]. by rewrite Hst.
  - split; cbn; try done; [lia| |]; by rewrite Hst.
  - unfold due; cbn. lia.
Qed.

Lemma elapsed_bound (d t st : Z) :
  0 < d → st ≤ t → 0 ≤ (if d <? t - st then d else t - st) ≤ d.
Proof. destruct (Z.ltb_spec d (t - st)); lia. Qed.

Lemma claim_effect msg id w w' r :
  state_ok (self w) → claim this msg id w = Ok (w', r) → effect w w'.
Proof.
  intros Hok Hc. unfold claim in Hc. tx_inv Hc. guards.
  destruct (active_ok id w Hok Hs0) as [_ Hres].
  eapply release_upto_effect; [|done..|exact Hc]. apply elapsed_bound; [apply Hres|done].
Qed.

Lemma releasePayment_effect msg id settled w w' r :
  0 ≤ settled → state_ok (self w) → releasePayment this msg id settled w = Ok (w', r) → effect w w'.
Proof.
  intros H0' Hok Hc. unfold releasePayment in Hc. tx_inv Hc. guards.
  eapply release_upto_effect; [|done..|exact Hc]. lia.
Qed.

Lemma check_provider_Ok f p w w' r : check_provider f p w = Ok (w', r) → w' = w ∧ p ≠ 0%N.
Proof.
  intros Hp. unfold check_provider in Hp. tx_inv Hp; (split; [done|]); by apply N.eqb_neq.
Qed.

Lemma selectProviders_effect msg f id ps w w' r :
  state_ok (self w) → selectProviders msg f id ps w = Ok (w', r) → effect w w'.
Proof.
  intros Hok Hc. unfold selectProviders in Hc. tx_inv Hc. guards.
  repeat match goal with H : check_provider _ _ _ = Ok _ |- _ => apply check_provider_Ok in H as [? ?] end. subst.
  assert (Hl : reservations (self w) !! id = Some (reservation id (self w)))
    by (apply reservation_exists; by rewrite Hs1).
  destruct (ok_reservations _ Hok _ _ Hl) as [_ [R1 R2 Rq Rp R3 R4 R5]].
  eapply (effect_update _ _ id (reservation id (self w))); [done|keep|done| | |].
  - split; cbn; try done; [|by rewrite Hs1]. by rewrite Hs1.
  - split; cbn; try done.
  - unfold due; cbn. lia.
Qed.

Lemma finalizeReservation_effect msg id w w' r :
  state_ok (self w) → finalizeReservation this msg id w = Ok (w', r) → effect w w'.
Proof.
  intros Hok Hc. unfold finalizeReservation in Hc. tx_inv Hc; guards;
    destruct (active_ok id w Hok Hs0) as [Hl [R1 R2 Rq Rp R3 R4 R5]]; [dist_inv Hok|].
  1, 2: try match goal with H : _checkLowBalance _ _ = Ok _ |- _ => apply checkLowBalance_Ok in H; subst end.
  1, 2: eapply (effect_update _ _ id (reservation id (self w))); [done|keep|done|split|split|];
    cbn; try done; try (by rewrite Hs0); try lia; unfold due; cbn; lia.
Qed.

Lemma release_earned_Ok msg id w w' r :
  let res := reservation id (self w) in
  state_ok (self w) → status res = Active → release_earned this msg id res w = Ok (w', r) →
  kept (self w) (self w') ∧ reservations (self w') = reservations (self w) ∧
  ∃ n, r = set_released n res ∧ releasedAmount res ≤ n ≤ totalAmount res ∧
       balanceOf (tok w) this - (n - releasedAmount res) ≤ balanceOf (tok w') this.
Proof.
  intros res Hok Hst Hc. destruct (active_ok id w Hok Hst) as [Hl Hres]. fold res in Hl, Hres.
  unfold release_earned in Hc. tx_inv Hc; guards.
  - pose proof (proportional_bound res _ Hres (elapsed_bound _ _ _ (proj1 (ok_duration _ Hres)) Hs)) as Hp.
    set (n := totalAmount res * _ / duration res) in *. destruct Hres as [R1 R2 Rq Rp R3 R4 R5]. dist_inv Hok.
    assert (Hg : uint 128 (n - releasedAmount res) = n - releasedAmount res).
    { unfold uint. apply Z.mod_small. unfold max_uint128, max_uint in *. lia. }
    rewrite Hg in *. split; [keep|]. split; [done|]. eexists. split; [done|]. lia.
  - split; [keep|]. split; [done|]. exists (releasedAmount res). destruct Hres as [R1 _ _ _ _ _ _].
    split; [by destruct res|]. lia.
Qed.

Lemma refund_effect msg id w w' r :
  state_ok (self w) → refund this msg id w = Ok (w', r) → effect w w'.
Proof.
  intros Hok Hc. unfold refund in Hc. tx_inv Hc; guards.
  - destruct (active_ok id w Hok E) as [Hl [R1 R2 Rq Rp R3 R4 R5]].
    apply release_earned_Ok in Hs1 as ([K0 K1 K2 K3 K4 Kg] & Hr & n & -> & Hn & Hb); [|done..].
    cbn in *. token_inv.
    eapply (effect_update _ _ id (reservation id (self w))); [done| | | | |]; rewrite ?HS; cbn.
    + keep.
    + by rewrite Hr.
    + split; cbn; try done; [lia|]. by rewrite E.
    + split; cbn; try done. lia.
    + rewrite HM, share_self. pose proof (share_nonneg this (requester (reservation id (self w))) (totalAmount (reservation id (self w)) - n)).
      unfold due; cbn. lia.
  - assert (Hst : status (reservation id (self w)) = Created).
    { destruct Hs as [Hs|Hs]; guards; congruence. }
    assert (Hl : reservations (self w) !! id = Some (reservation id (self w)))
      by (apply reservation_exists; by rewrite Hst).
    destruct (ok_reservations _ Hok _ _ Hl) as [_ [R1 R2 Rq Rp R3 R4 R5]]. token_inv.
    eapply (effect_update _ _ id (reservation id (self w))); [done| | | | |]; rewrite ?HS; cbn.
    + keep.
    + done.
    + split; cbn; try done; try lia; by rewrite Hst.
    + split; cbn; try done. lia.
    + rewrite HM, share_self. pose proof (share_nonneg this (requester (reservation id (self w))) (due (reservation id (self w)))).
      unfold due in *; cbn. lia.
Qed.

Lemma settleDispute_effect msg id ra pa w w' r :
  0 ≤ ra → 0 ≤ pa → state_ok (self w) → settleDispute this msg id ra pa w = Ok (w', r) → effect w w'.
Proof.
  intros Hra Hpa Hok Hc. unfold settleDispute in Hc. tx_inv Hc; guards; token_inv;
    destruct (active_ok id w Hok Hs0) as [Hl [R1 R2 Rq Rp R3 R4 R5]];
    pose proof (share_nonneg this (requester (reservation id (self w))) ra Hra);
    pose proof (HM this) as HMt; rewrite share_self in HMt.
  - match goal with
    | H : _distributePayment _ _ _ _ ?v = Ok _ |- _ =>
        assert (Hf : bps (fee_of id (self v)) ∧ bps (feeBurnBps (self v)))
          by (rewrite HS; exact (conj (fee_of_bps _ _ (ok_config _ Hok)) (ok_burn _ (ok_config _ Hok))));
        apply distribute_frame in H as (D1 & Dt & Dg & D2 & D3 & D4 & D5 & D6); [|lia|apply Hf..]
    end.
    rewrite HS in D1, Dt, Dg, D2, D3, D4, D5. cbn in D1, Dt, D2, D3, D4, D5.
    eapply (effect_update _ _ id (reservation id (self w))); [done|keep|done|split|split|];
      cbn; try done; try (by rewrite Hs0); try lia; unfold due; cbn in *; lia.
  - eapply (effect_update _ _ id (reservation id (self w))); [done|rewrite HS; keep|by rewrite HS|split|split|];
      cbn; try done; try (by rewrite Hs0); try lia; unfold due; cbn in *; lia.
Qed.

Lemma admin_effect (m : tx (chain State T G) EscrowErr unit) w w' r :
  (∀ w w' r, m w = Ok (w', r) →
     reservations (self w') = reservations (self w) ∧ reservationFeeBps (self w') = reservationFeeBps (self w) ∧
     nextReservationId (self w') = nextReservationId (self w) ∧ tok w' = tok w ∧
     grown (self w) (self w') ∧ (config_ok (self w) → config_ok (self w'))) →
  state_ok (self w) → m w = Ok (w', r) → effect w w'.
Proof. intros Hm Hok Hr. destruct (Hm _ _ _ Hr) as (? & ? & ? & ? & ? & Hc). apply effect_admin; auto. apply Hc, Hok. Qed.

Ltac admin :=
  apply admin_effect; intros ??? Hm; tx_inv Hm; guards; cbn; split_and!; try done;
  try (by apply grown_same); intros [C0 C1 C2 C3]; split; cbn; unfold bps, BPS_DENOMINATOR in *; try done; lia.

Lemma exec_effect msg c w w' r :
  call_wf c → sender msg ≠ this → sender msg ≠ 0%N → state_ok (self w) → exec this msg c w = Ok (w', r) → effect w w'.
Proof.
  intros Hwf Hthis Hz Hok.
  destruct c as [a d|id a|id|f id ps|id d|id|id|id a b|b|a|b|a|a b|[]]; cbn [exec call_wf] in *.
  - intros Hc. tx_inv Hc. destruct Hwf as [Ha Hd].
    exact (createReservation_effect _ _ _ _ _ _ Ha Hd Hthis Hz Hok Hs).
  - by eapply increaseDeposit_effect.
  - by eapply claim_effect.
  - by eapply selectProviders_effect.
  - by eapply releasePayment_effect.
  - by eapply finalizeReservation_effect.
  - by eapply refund_effect.
  - destruct Hwf as [Ha Hb]. exact (settleDispute_effect _ _ _ _ _ _ _ Ha Hb Hok).
  - revert Hok. unfold setProtocolFee. admin.
  - revert Hok. unfold setTreasury. admin.
  - revert Hok. unfold setLowBalanceThreshold. admin.
  - revert Hok. unfold setStakingContract. admin.
  - revert Hok. unfold setFeeSplit. admin.
  - revert Hok. unfold pause, set_pause. admin.
  - revert Hok. unfold unpause, set_pause. admin.
Qed.

(** ** Histories *)

(** What the contract owes to all reservations. *)
Definition outstanding (s : State) : Z := sum_map due (reservations s).

Definition solvent w : Prop := outstanding (self w) ≤ balanceOf (tok w) this.

Lemma effect_ok w w' :
  nextReservationId (self w) < max_uint256 → effect w w' → state_ok (self w) → solvent w →
  state_ok (self w') ∧ solvent w' ∧ nextReservationId (self w') ≤ nextReservationId (self w) + 1.
Proof.
  intros Hn Heff [Hc Hnx Hr] Hsol. unfold solvent, outstanding in *.
  destruct Heff as [Hres Hnext Hcfg _ Htok|id r r' Hl Hk Hres _ Hok' Hbal|r id Hres Hnext Hcfg _ Hst Hok' Hbal].
  - rewrite Hres, Htok, Hnext. split_and!; [|done|lia]. split; rewrite ?Hres, ?Hnext; done.
  - pose proof (kept_config _ _ Hk Hc). destruct Hk as [_ _ _ _ K4 _]. rewrite Hres, K4.
    rewrite (sum_map_update _ _ _ r) by done. split_and!; [|lia|lia].
    split; rewrite ?Hres, ?K4; try done. apply map_Forall_insert_2; [|done]. split; [|done].
    by destruct (Hr _ _ Hl).
  - assert (Hu : uint 256 (id + 1) = id + 1)
      by (unfold uint; apply Z.mod_small; unfold id, max_uint256, max_uint in *; lia).
    assert (Hfr : reservations (self w) !! id = None).
    { destruct (reservations (self w) !! id) as [r0|] eqn:Hl; [|done]. destruct (Hr _ _ Hl). unfold id in *; lia. }
    rewrite Hnext, Hu, Hres. rewrite sum_map_insert_fresh by done. split_and!; [|lia|done].
    split; rewrite ?Hnext, ?Hu, ?Hres; try done; [unfold id; lia|].
    apply map_Forall_insert_2; [unfold id; split; [lia|done]|].
    intros i r0 Hi. destruct (Hr _ _ Hi). split; [unfold id; lia|done].
Qed.

(** The invariant after [n] steps. *)
Record inv (n : nat) w : Prop := {
  inv_state : state_ok (self w);
  inv_solvent : solvent w;
  inv_next : nextReservationId (self w) ≤ 1 + Z.of_nat n;
  inv_burned : 0 ≤ totalBurned (self w) ≤ Z.of_nat n * 2 ^ 128;
  inv_fees : 0 ≤ totalTreasuryFees (self w) ≤ Z.of_nat n * 2 ^ 128
}.

Lemma effect_grown w w' : effect w w' → grown (self w) (self w').
Proof. by intros [|? ? ? ? [] |]. Qed.

Lemma inv_step n w w' :
  Z.of_nat n < 2 ^ 127 → step this w w' → inv n w → inv (S n) w'.
Proof.
  intros Hn Hstep Hinv.
  assert (Hsame : inv n w → inv (S n) w).
  { intros []. split; try done; nia. }
  destruct Hstep as [msg c w Hwf Hthis Hz|w t' Ht|w g'].
  - unfold commit. destruct (exec this msg c w) as [[w' r]|e] eqn:He; [|by apply Hsame].
    destruct Hinv as [I1 I2 I3 I4 I5]. pose proof (exec_effect _ _ _ _ _ Hwf Hthis Hz I1 He) as Heff.
    assert (nextReservationId (self w) < max_uint256) by (unfold max_uint256, max_uint; lia).
    pose proof (effect_grown _ _ Heff) as [G1 G2].
    destruct (effect_ok _ _ ltac:(done) Heff I1 I2) as (J1 & J2 & J3).
    unfold max_uint128, max_uint in *. split; try done; lia.
  - apply Hsame in Hinv as [I1 I2 I3 I4 I5]. split; try done. unfold solvent in *. cbn. lia.
  - by apply Hsame in Hinv as [].
Qed.

(** The world in which the contract has just been deployed. *)
Definition deployed w : Prop :=
  ∃ a b c, constructor a b c = Some (self w).

Lemma inv_deployed w : deployed w → inv 0 w.
Proof.
  intros (a & b & c & Hc). unfold constructor in Hc.
  destruct (_ || _ || _) eqn:Hz; [done|]. apply orb_false_iff in Hz as [Hz _].
  apply orb_false_iff in Hz as [_ Hz]. apply N.eqb_neq in Hz. injection Hc as Hc.
  split; rewrite <- ?Hc; cbn; try lia.
  - split; cbn; [split; cbn; unfold bps, MAX_PROTOCOL_FEE_BPS; try done; lia|lia|done].
  - unfold solvent, outstanding. rewrite <- Hc. cbn. rewrite sum_map_empty. apply balance_nonneg.
Qed.

Lemma inv_reachable n w0 w :
  Z.of_nat n ≤ 2 ^ 127 → deployed w0 → nsteps (step this) n w0 w → inv n w.
Proof.
  intros Hn Hd. revert w Hn. induction n as [|n IH]; intros w Hn Hs.
  - inversion Hs; subst. by apply inv_deployed.
  - apply nsteps_inv_r in Hs as (w1 & Hs & Hstep). apply (inv_step n w1); [lia|done|].
    apply IH; [lia|done].
Qed.

(** C2: safety.  In every history of the escrow contract, of whatever calls by
    whatever accounts, including calls that revert, transfers to the contract
    and changes of roles, the contract holds at least what it still owes on all
    reservations together. *)
Theorem escrow_contract_solvent n w0 w :
  Z.of_nat n ≤ 2 ^ 127 → deployed w0 → nsteps (step this) n w0 w →
  sum_map due (reservations (self w)) ≤ balanceOf (tok w) this.
Proof. intros Hn Hd Hs. by destruct (inv_reachable n w0 w Hn Hd Hs). Qed.

(** One step, and several, seen by one reservation. *)
Lemma step_forward n w w' id r :
  inv n w → step this w w' → reservations (self w) !! id = Some r →
  ∃ r', reservations (self w') !! id = Some r' ∧ rtc res_step r r'.
Proof.
  intros Hinv Hstep Hr. destruct Hstep as [msg c w Hwf Hthis Hz|w t' Ht|w g']; [|eauto using rtc_refl..].
  unfold commit. destruct (exec this msg c w) as [[w1 u]|e] eqn:He; [|eauto using rtc_refl].
  destruct (exec_effect _ _ _ _ _ Hwf Hthis Hz (inv_state _ _ Hinv) He)
    as [->|id' r1 r2 Hl _ -> Hrs _ _|r1 i -> _ _ _ _ _ _]; [eauto using rtc_refl| |].
  - destruct (decide (id' = id)) as [->|Hne]; [|rewrite lookup_insert_ne by done; eauto using rtc_refl].
    simplify_eq. rewrite lookup_insert_eq. eauto using rtc_once.
  - rewrite lookup_insert_ne; [eauto using rtc_refl|]. intros Hi.
    destruct (ok_reservations _ (inv_state _ _ Hinv) _ _ Hr). unfold i in *. lia.
Qed.

Lemma steps_forward n m w w' id r :
  Z.of_nat (n + m) ≤ 2 ^ 127 → inv n w → nsteps (step this) m w w' →
  reservations (self w) !! id = Some r →
  ∃ r', reservations (self w') !! id = Some r' ∧ rtc res_step r r'.
Proof.
  intros Hn Hinv Hm. revert n r Hn Hinv. induction Hm as [w|m w w1 w' Hstep Hm IH]; intros n r Hn Hinv Hr.
  - eauto using rtc_refl.
  - destruct (step_forward n w w1 id r Hinv Hstep Hr) as (r1 & Hr1 & Hrt).
    destruct (IH (S n) r1) as (r' & Hr' & Hrt'); [lia|by apply (inv_step n w); [lia|..]|done|].
    exists r'. split; [done|]. by etrans.
Qed.

(** C24: invariant.  A reservation never disappears and never moves back: every
    later state is reached from an earlier one by steps that keep its requester
    and duration, never decrease its deposit or what was released, keep the
    providers once selected, and follow Created, Active, then one of Completed,
    Refunded and Disputed; in these final states everything has been released
    and nothing changes any more. *)
Theorem reservation_only_forward n m w0 w w' id r :
  Z.of_nat (n + m) ≤ 2 ^ 127 → deployed w0 → nsteps (step this) n w0 w → nsteps (step this) m w w' →
  reservations (self w) !! id = Some r →
  (∃ r', reservations (self w') !! id = Some r' ∧ rtc res_step r r') ∧
  (terminal (status r) = true → reservations (self w') !! id = Some r ∧ releasedAmount r = totalAmount r).
Proof.
  intros Hn Hd Hs Hm Hr.
  pose proof (inv_reachable n w0 w ltac:(lia) Hd Hs) as Hinv.
  pose proof (steps_forward n m w w' id r Hn Hinv Hm Hr) as Hfwd.
  split; [done|]. intros Ht. destruct Hfwd as (r' & Hr' & Hrt).
  destruct (ok_reservations _ (inv_state _ _ Hinv) _ _ Hr) as [_ Hok].
  split; [|by apply Hok].
  assert (r' = r) as ->; [|done].
  inversion Hrt as [|? r1 ? Hst]; subst; [done|]. destruct Hst as [_ _ _ _ Hf _].
  by destruct (status r).
Qed.

(** ** Payments and refunds succeed *)

Lemma distribute_succeeds id res gross w :
  0 ≤ gross ≤ max_uint128 → bps (fee_of id (self w)) → bps (feeBurnBps (self w)) →
  gross ≤ balanceOf (tok w) this → this ≠ 0%N → treasury (self w) ≠ 0%N →
  (providers res).1.1 ≠ 0%N → (providers res).1.2 ≠ 0%N → (providers res).2 ≠ 0%N →
  0 ≤ totalBurned (self w) ≤ 2 ^ 255 → 0 ≤ totalTreasuryFees (self w) ≤ 2 ^ 255 →
  succeeds (_distributePayment this id res gross w).
Proof.
  intros [Hg Hmax] Hf Hb Hbal Hthis Ht Hp1 Hp2 Hp3 Hbt Hft.
  destruct (parts_sum gross _ _ Hg Hf Hb) as (P1 & P2 & P3 & P4 & P5).
  set (p := parts_of _ _ _) in *. unfold bps, max_uint128, max_uint in *.
  assert (Hfee : 0 ≤ gross * fee_of id (self w) / BPS_DENOMINATOR ≤ gross).
  { unfold BPS_DENOMINATOR. split; [apply Z.div_pos; nia|apply Z.div_le_upper_bound; nia]. }
  set (fee := gross * fee_of id (self w) / BPS_DENOMINATOR) in Hfee.
  assert (Hburn : 0 ≤ fee * feeBurnBps (self w) / BPS_DENOMINATOR ≤ fee).
  { unfold BPS_DENOMINATOR. split; [apply Z.div_pos; nia|apply Z.div_le_upper_bound; nia]. }
  assert (M256 : max_uint256 = 2 ^ 256 - 1) by done.
  assert (gross * fee_of id (self w) ≤ max_uint256) by nia.
  assert (fee * feeBurnBps (self w) ≤ max_uint256) by nia.
  assert (Hnet : 0 ≤ (gross - fee) / PROVIDERS_PER_RESERVATION ∧
    (gross - fee) / PROVIDERS_PER_RESERVATION * PROVIDERS_PER_RESERVATION ≤ gross - fee).
  { unfold PROVIDERS_PER_RESERVATION. pose proof (Z.div_mod (gross - fee) 3 ltac:(lia)).
    pose proof (Z.mod_pos_bound (gross - fee) 3 ltac:(lia)). split; [apply Z.div_pos|]; lia. }
  unfold fee in *. unfold _distributePayment. tx_ok.
  change (gross * fee_of id (self w) / BPS_DENOMINATOR * feeBurnBps (self w) / BPS_DENOMINATOR)
    with (p_burn p).
  apply burn_then; [cbn [tok]; lia|done|]. intros w1 S1 B1. cbn [self tok] in S1, B1. tx_ok. rewrite S1. cbn [treasury].
  change (gross * fee_of id (self w) / BPS_DENOMINATOR - p_burn p) with (p_treasury p).
  apply pay_then; [lia|done|done|]. intros w2 _ B2. tx_ok. { unfold PROVIDERS_PER_RESERVATION in *. lia. }
  match goal with |- succeeds ((mbind _ (pay _ _ ?x)) _) => change x with (p_first p) end.
  change ((gross - gross * fee_of id (self w) / BPS_DENOMINATOR) / PROVIDERS_PER_RESERVATION) with (p_each p).
  apply pay_then; [lia|done|done|]. intros w3 _ B3. apply pay_then; [lia|done|done|]. intros w4 _ B4.
  apply pay_then; [lia|done|done|]. intros w5 _ B5. exact I.
Qed.

(** The conditions under which every payment on a reservation goes through. *)
Record payable id (r : Reservation) w : Prop := {
  pb_lookup : reservation id (self w) = r;
  pb_ok : res_ok r;
  pb_state : state_ok (self w);
  pb_due : due r ≤ balanceOf (tok w) this;
  pb_burned : 0 ≤ totalBurned (self w) ≤ 2 ^ 255;
  pb_fees : 0 ≤ totalTreasuryFees (self w) ≤ 2 ^ 255
}.

Lemma reachable_payable n w0 w id r :
  Z.of_nat n ≤ 2 ^ 127 → deployed w0 → nsteps (step this) n w0 w →
  reservations (self w) !! id = Some r → payable id r w.
Proof.
  intros Hn Hd Hs Hr. destruct (inv_reachable n w0 w Hn Hd Hs) as [Hok Hsol _ Hbt Hft].
  destruct (ok_reservations _ Hok _ _ Hr) as [_ Hres]. split; try done; try lia.
  - unfold reservation. by rewrite Hr.
  - unfold solvent, outstanding in Hsol. etrans; [|exact Hsol]. apply (sum_map_ge due _ id); [|done].
    intros i r' Hr'. destruct (ok_reservations _ Hok _ _ Hr') as [_ []]. unfold due. lia.
Qed.

Lemma release_earned_succeeds msg id r w :
  this ≠ 0%N → payable id r w → status r = Active → startTime r ≤ timestamp msg →
  succeeds (release_earned this msg id r w).
Proof.
  intros Hthis [Hrr Hok Hst Hdue Hbt Hft] Hact Htime. pose proof Hok as [R1 R2 Rq Rp R3 R4 R5].
  destruct (Rp Hact) as (Rp1 & Rp2 & Rp3). unfold due in *.
  pose proof (elapsed_bound _ _ _ (proj1 R2) Htime) as He.
  pose proof (proportional_bound r _ Hok He) as Hp. unfold release_earned.
  set (el := if _ <? _ then _ else _) in *.
  assert (totalAmount r * el ≤ max_uint256).
  { unfold max_uint256, max_uint128, max_uint48, max_uint in *.
    assert (totalAmount r * el ≤ 2 ^ 128 * 2 ^ 48) by (apply Z.mul_le_mono_nonneg; lia). lia. }
  eapply succeeds_bind; [apply sub_Ok; split; [exact Htime|reflexivity]|]. cbv beta. fold el. clearbody el. tx_ok.
  destruct (Z.ltb_spec (releasedAmount r) (totalAmount r * el / duration r)); [|exact I].
  set (g := totalAmount r * el / duration r) in *. tx_ok.
  destruct (succeeds_Ok _ (distribute_succeeds id r (g - releasedAmount r) w ltac:(lia)
    (fee_of_bps _ _ (ok_config _ Hst)) (ok_burn _ (ok_config _ Hst)) ltac:(lia) Hthis
    (ok_treasury _ (ok_config _ Hst)) Rp1 Rp2 Rp3 Hbt Hft)) as [[w' p] Hdist].
  eapply succeeds_bind; [exact Hdist|].
  assert (Hu : uint 128 (g - releasedAmount r) = g - releasedAmount r).
  { unfold uint. apply Z.mod_small. unfold max_uint128, max_uint in *. lia. }
  rewrite Hu. tx_ok. unfold max_uint128 in *. lia.
Qed.

Lemma refund_succeeds msg id r w :
  this ≠ 0%N → payable id r w → status r = Created ∨ status r = Active →
  startTime r ≤ timestamp msg →
  sender msg = requester r ∨ hasRole (base w) OPERATOR_ROLE (sender msg) = true →
  succeeds (refund this msg id w).
Proof.
  intros Hthis Hp Hst Htime Hsender. pose proof Hp as [Hrr Hok Hs Hdue Hbt Hft]. unfold due in *.
  pose proof Hok as [R1 R2 Rq Rp R3 R4 R5]. unfold refund. tx_ok; rewrite Hrr.
  { unfold is_status. by destruct Hst as [-> | ->]. }
  { destruct Hsender as [-> | ->]; [by rewrite N.eqb_refl|apply andb_false_r]. }
  unfold is_status at 1. destruct Hst as [Hst|Hst]; rewrite Hst.
  - rewrite bool_decide_eq_false_2 by done. tx_ok.
    destruct (pay_succeeds (E := EscrowErr) this (requester r) (totalAmount r - releasedAmount r)
      (mkChain (set_reservation id (set_status Refunded (set_released (totalAmount r) r)) (self w))
        (tok w) (base w))) as [w' Hpay]; [cbn; lia|done|done|]. by rewrite Hpay.
  - rewrite bool_decide_eq_true_2 by done.
    destruct (succeeds_Ok _ (release_earned_succeeds msg id r w Hthis Hp Hst Htime)) as [[w1 r1] He].
    eapply succeeds_bind; [exact He|]. rewrite <- Hrr in He.
    apply release_earned_Ok in He as (_ & _ & n & -> & Hn & Hb); [|done|by rewrite Hrr].
    rewrite Hrr in *. tx_ok; cbn in *; [lia|].
    destruct (pay_succeeds (E := EscrowErr) this (requester r) (totalAmount r - n)
      (mkChain (set_reservation id (set_status Refunded (set_released (totalAmount r) (set_released n r))) (self w1))
        (tok w1) (base w1))) as [w' Hpay]; [cbn; lia|done|done|]. cbn in Hpay. by rewrite Hpay.
Qed.

(** How a payment of [gross] is split. *)
Definition split_of (gross burnt toTreasury first each : Z) : Prop :=
  burnt + toTreasury ≤ gross / 5 ∧ 0 ≤ burnt ∧ 0 ≤ toTreasury ∧ 0 ≤ each ≤ first ∧ first ≤ each + 2 ∧
  burnt + toTreasury + first + each + each = gross.

Lemma split_of_nothing : split_of 0 0 0 0 0.
Proof. by repeat split. Qed.

Lemma distribute_split id res gross w w' r :
  0 ≤ gross → config_ok (self w) → _distributePayment this id res gross w = Ok (w', r) →
  reservations (self w') = reservations (self w) ∧ treasury (self w') = treasury (self w) ∧
  ∃ burnt toTreasury first each, split_of gross burnt toTreasury first each ∧
    r = (burnt + toTreasury, burnt, toTreasury) ∧
    ∀ a, balanceOf (tok w') a = balanceOf (tok w) a - share a this gross +
      share a (treasury (self w)) toTreasury + share a (providers res).1.1 first +
      share a (providers res).1.2 each + share a (providers res).2 each.
Proof.
  intros Hg Hcfg Hd. pose proof (fee_of_bps id _ Hcfg) as Hf. pose proof (ok_burn _ Hcfg) as Hb.
  assert (Hf2 : 0 ≤ fee_of id (self w) ≤ 2000).
  { unfold fee_of. destruct (reservationFeeBps (self w) !! id) as [b|] eqn:E; cbn; [|lia].
    apply (ok_fees _ Hcfg _ _ E). }
  destruct (distribute_Ok this _ _ _ _ _ _ Hg Hf Hb Hd) as (HS & _ & Hbal). split_and!; [by rewrite HS..|].
  destruct (parts_sum gross _ _ Hg Hf Hb) as (P1 & P2 & P3 & P4 & P5).
  set (p := parts_of _ _ _) in *. exists (p_burn p), (p_treasury p), (p_first p), (p_each p).
  assert (Hfee : p_burn p + p_treasury p = gross * fee_of id (self w) / BPS_DENOMINATOR).
  { unfold p, parts_of. cbn. lia. }
  unfold split_of. split_and!; try done; try lia.
  - rewrite Hfee. unfold BPS_DENOMINATOR. rewrite <- (Z.div_mul_cancel_r gross 5 2000) by lia.
    apply Z.div_le_mono; [lia|nia].
  - rewrite Hfee. unfold _distributePayment in Hd. tx_inv Hd. done.
Qed.

(** What the providers have earned of an active reservation and not been paid. *)
Definition earned (now : Z) (r : Reservation) : Z :=
  if is_status Active r then
    Z.max 0 (totalAmount r * Z.min (now - startTime r) (duration r) / duration r - releasedAmount r)
  else 0.

Lemma release_earned_pays msg id w w' r' :
  let r := reservation id (self w) in
  state_ok (self w) → status r = Active → release_earned this msg id r w = Ok (w', r') →
  let e := earned (timestamp msg) r in
  r' = set_released (releasedAmount r + e) r ∧ 0 ≤ e ≤ due r ∧
  reservations (self w') = reservations (self w) ∧
  ∃ burnt toTreasury first each, split_of e burnt toTreasury first each ∧
    ∀ a, balanceOf (tok w') a = balanceOf (tok w) a - share a this e +
      share a (treasury (self w)) toTreasury + share a (providers r).1.1 first +
      share a (providers r).1.2 each + share a (providers r).2 each.
Proof.
  intros r Hok Hst Hc e. destruct (active_ok id w Hok Hst) as [Hl Hres]. fold r in Hl, Hres.
  unfold release_earned in Hc. tx_inv Hc; guards;
    pose proof (elapsed_bound _ _ _ (proj1 (ok_duration _ Hres)) Hs) as Hel;
    pose proof (proportional_bound r _ Hres Hel) as Hp;
    destruct Hres as [R1 R2 Rq Rp R3 R4 R5]; unfold due;
    (assert (He : e = Z.max 0 (totalAmount r * (if duration r <? timestamp msg - startTime r
       then duration r else timestamp msg - startTime r) / duration r - releasedAmount r));
     [unfold e, earned; rewrite (proj2 (is_status_true _ _) Hst); do 4 f_equal;
      destruct (Z.ltb_spec (duration r) (timestamp msg - startTime r)); lia|]);
    set (n := totalAmount r * _ / duration r) in *.
  - rewrite Z.max_r in He by lia. rewrite <- He in *.
    destruct (distribute_split id r e w w0 a ltac:(lia) (ok_config _ Hok) Hs3) as (D1 & _ & b & t & f & c & Hsp & _ & Hbal).
    rewrite (uint_id 128) by (unfold max_uint128, max_uint in *; lia). split_and!; [done|lia|lia|done|].
    by exists b, t, f, c.
  - rewrite Z.max_l in He by lia. rewrite He, Z.add_0_r. split_and!; [by destruct r|lia|lia|done|].
    exists 0, 0, 0, 0. split; [apply split_of_nothing|]. intros a. unfold share. repeat case_decide; lia.
Qed.

(** C15: liveness.  A refund cannot get stuck, and pays everyone what they are due.  In
    every history, the requester of a reservation that is not yet settled, or an
    operator, gets it refunded at any time from its start, paused or not: the
    call does not revert.  The providers get what they have earned and not been
    paid, the share of the deposit for the time that has passed, less the fee;
    the requester gets all the rest of what was due; the reservation is marked
    refunded with nothing due, and no other one changes. *)
Theorem refund_always_possible n w0 w msg id r :
  Z.of_nat n ≤ 2 ^ 127 → this ≠ 0%N → deployed w0 → nsteps (step this) n w0 w →
  reservations (self w) !! id = Some r → status r = Created ∨ status r = Active →
  startTime r ≤ timestamp msg →
  sender msg = requester r ∨ hasRole (base w) OPERATOR_ROLE (sender msg) = true →
  let e := match status r with
           | Active => Z.max 0 (totalAmount r * Z.min (timestamp msg - startTime r) (duration r) / duration r
                                - releasedAmount r)
           | _ => 0
           end in
  ∃ w' burnt toTreasury first each, refund this msg id w = Ok (w', tt) ∧
    reservations (self w') = <[id := mkRes (requester r) (totalAmount r) (totalAmount r) (duration r)
      (startTime r) Refunded (providers r)]> (reservations (self w)) ∧
    0 ≤ e ≤ due r ∧ split_of e burnt toTreasury first each ∧
    ∀ a, balanceOf (tok w') a = balanceOf (tok w) a - share a this (due r) +
      share a (requester r) (due r - e) + share a (treasury (self w)) toTreasury +
      share a (providers r).1.1 first + share a (providers r).1.2 each + share a (providers r).2 each.
Proof.
  intros Hn Hthis Hd Hs Hr Hst Htime Hsender e.
  pose proof (reachable_payable n w0 w id r Hn Hd Hs Hr) as Hp.
  destruct (succeeds_Ok _ (refund_succeeds msg id r w Hthis Hp Hst Htime Hsender)) as [[w' []] Hok].
  assert (He : e = earned (timestamp msg) r).
  { unfold e, earned, is_status. by destruct Hst as [-> | ->]. }
  rewrite He. clear e He. destruct Hp as [Hrr Hres Hstate _ _ _]. exists w'. pose proof Hok as Hc.
  unfold refund in Hc. subst r. tx_inv Hc; guards.
  - apply release_earned_pays in Hs2 as (-> & Hb & Hre & b & t & f & c & Hsp & Hbal); [|done..]. unfold due in *. cbn in *. token_inv.
    exists b, t, f, c. split_and!; [done| |lia|lia|done|].
    + rewrite HS. cbn. by rewrite Hre.
    + intros a. rewrite HM. cbn. rewrite Hbal. unfold share. repeat case_decide; lia.
  - assert (He : earned (timestamp msg) (reservation id (self w)) = 0) by (unfold earned; by rewrite E). rewrite He.
    destruct Hres as [R1 _ _ _ _ _ _]. unfold due. token_inv. exists 0, 0, 0, 0. split_and!; [done| |lia|lia| |].
    + rewrite HS. done.
    + apply split_of_nothing.
    + intros a. rewrite HM. cbn. unfold share. repeat case_decide; lia.
Qed.

(** C21: functional.  A payment takes exactly its gross amount from the contract:
    the fee, at most a fifth of it, is split into the burnt part and the
    treasury's, the rest is split between the three providers, equally up to a
    remainder of at most two that the first one gets, and the five parts sum to
    the payment. *)
Theorem payment_distributed_exactly id res gross w w' r :
  0 ≤ gross → config_ok (self w) → _distributePayment this id res gross w = Ok (w', r) →
  ∃ burnt toTreasury first each,
    r = (burnt + toTreasury, burnt, toTreasury) ∧ burnt + toTreasury ≤ gross / 5 ∧
    0 ≤ burnt ∧ 0 ≤ toTreasury ∧ 0 ≤ each ≤ first ∧ first ≤ each + 2 ∧
    burnt + toTreasury + first + each + each = gross ∧
    ∀ a, balanceOf (tok w') a = balanceOf (tok w) a - share a this gross +
      share a (treasury (self w)) toTreasury + share a (providers res).1.1 first +
      share a (providers res).1.2 each + share a (providers res).2 each.
Proof.
  intros Hg Hcfg Hd.
  destruct (distribute_split id res gross w w' r Hg Hcfg Hd) as (_ & _ & b & t & f & c & Hsp & Hr & Hbal).
  exists b, t, f, c. unfold split_of in Hsp. split_and!; try done; lia.
Qed.
End Effects.

(** ** A reservation of 1000 tokens for an hour *)

Definition demo_this : Addr := 100.
Definition demo_escrow : State := mkState 8000 2000 9 500 1 0 0 2000 0 ∅ ∅.
Definition demo_world : chain State ledger admin :=
  mkChain demo_escrow (<[2%N := 1000%N]> ∅) (mkAdmin 1 false).
Definition demo_created : chain State ledger admin :=
  commit (exec demo_this (mkMsg 2 0) (CallCreate 1000 3600)) demo_world.
Definition demo_active : chain State ledger admin :=
  commit (exec demo_this (mkMsg 1 10) (CallSelect (λ _ _, None) 1 (3, 4, 5)%N)) demo_created.

Lemma demo_deployed : deployed demo_world.
Proof. by exists 50%N, 9%N, 1%N. Qed.

Lemma demo_history : nsteps (step demo_this) 2 demo_world demo_active.
Proof.
  apply (nsteps_l _ _ _ demo_created); [|apply (nsteps_l _ _ _ demo_active); [|apply nsteps_O]].
  - apply (step_call demo_this (mkMsg 2 0) (CallCreate 1000 3600)); [cbn; lia|done|done].
  - by apply (step_call demo_this (mkMsg 1 10) (CallSelect (λ _ _, None) 1 (3, 4, 5)%N)).
Qed.

Definition demo_reservation : Reservation := mkRes 2 1000 0 3600 10 Active (3, 4, 5)%N.

Lemma demo_lookup : reservations (self demo_active) !! 1 = Some demo_reservation.
Proof. by vm_compute. Qed.

Lemma escrow_contract_solvent_witness :
  sum_map due (reservations (self demo_active)) = 1000 ∧
  sum_map due (reservations (self demo_active)) ≤ balanceOf (tok demo_active) demo_this.
Proof.
  split; [by vm_compute|].
  exact (escrow_contract_solvent demo_this 2 demo_world demo_active ltac:(lia) demo_deployed demo_history).
Defined.

(** The requester takes a refund after a quarter of the hour. *)
Definition demo_refunded : chain State ledger admin :=
  commit (exec demo_this (mkMsg 2 910) (CallRefund 1)) demo_active.

Lemma reservation_only_forward_witness :
  (∃ r', reservations (self demo_refunded) !! 1 = Some r' ∧ rtc res_step demo_reservation r') ∧
  status (reservation 1 (self demo_refunded)) = Refunded.
Proof.
  split; [|by vm_compute].
  exact (proj1 (reservation_only_forward demo_this 2 1 demo_world demo_active demo_refunded 1 demo_reservation
    ltac:(lia) demo_deployed demo_history
    (nsteps_once _ _ (step_call demo_this (mkMsg 2 910) (CallRefund 1) demo_active ltac:(done) ltac:(done) ltac:(done)))
    demo_lookup)).
Defined.

(** A quarter of the hour has passed: the providers have earned 250. *)
Lemma refund_always_possible_witness :
  ∃ w', refund demo_this (mkMsg 2 910) 1 demo_active = Ok (w', tt) ∧
    status (reservation 1 (self w')) = Refunded ∧ balanceOf (tok w') 2%N = 750.
Proof.
  destruct (refund_always_possible demo_this 2 demo_world demo_active (mkMsg 2 910) 1 demo_reservation
    ltac:(lia) ltac:(done) demo_deployed demo_history demo_lookup ltac:(by right) ltac:(cbn; lia) ltac:(by left))
    as (w' & b & t & f & c & Hok & Hres & _ & _ & Hbal).
  exists w'. split; [exact Hok|]. split; [unfold reservation; rewrite Hres; by vm_compute|].
  rewrite Hbal. by vm_compute.
Defined.

Lemma demo_config : config_ok (self demo_active).
Proof.
  split; [by vm_compute|split; by vm_compute|split; by vm_compute|].
  replace (reservationFeeBps (self demo_active)) with (<[1 := 500]> (∅ : gmap Z Z)) by (by vm_compute).
  apply map_Forall_insert_2; [unfold MAX_PROTOCOL_FEE_BPS; lia|apply map_Forall_empty].
Qed.

Lemma payment_distributed_exactly_witness :
  ∃ w' r, _distributePayment demo_this 1 demo_reservation 1000 demo_active = Ok (w', r) ∧
    r = (50, 40, 10) ∧ balanceOf (tok w') 3%N = 318 ∧ balanceOf (tok w') 5%N = 316 ∧
    ∃ burnt toTreasury first each, burnt + toTreasury + first + each + each = 1000.
Proof.
  destruct (_distributePayment demo_this 1 demo_reservation 1000 demo_active) as [[w' r]|e] eqn:Hd;
    [|by vm_compute in Hd].
  exists w', r. split; [done|]. split; [by vm_compute in Hd; simplify_eq|].
  split; [by vm_compute in Hd; simplify_eq|]. split; [by vm_compute in Hd; simplify_eq|].
  destruct (payment_distributed_exactly demo_this 1 demo_reservation 1000 demo_active w' r
    ltac:(lia) demo_config Hd) as (b & t & f & e & _ & _ & _ & _ & _ & _ & Hsum & _). eauto.
Defined.
End Escrow.
