(* ===== verification/Unbonding.v ===== *)
(** * Unbonding requests

    The queues of withdrawals that the staking and the delegation contract keep
    per account: a request is worth its amount until it is completed. *)

From S2P Require Import Prelude.
Local Open Scope Z_scope.

(** [UnstakeRequest] of the staking contract; [UnbondingRequest] of the
    delegation contract has the same fields. *)
Record request := mkRequest {
  ur_amount : Z;   (** uint128 *)
  unlockTime : Z;   (** uint48 *)
  completed : bool
}.

(** What a queue still owes. *)
Definition owed (r : request) : Z := if completed r then 0 else ur_amount r.
Definition open_amount (q : list request) : Z := foldr (λ r acc, owed r + acc) 0 q.

Lemma open_amount_app q r : open_amount (q ++ [r]) = open_amount q + owed r.
Proof. unfold open_amount. induction q as [|x q IH]; [apply Z.add_0_r|]. cbn [foldr app]. lia. Qed.

Lemma open_amount_insert q i r r' :
  q !! i = Some r → open_amount (<[i := r']> q) = open_amount q - owed r + owed r'.
Proof.
  unfold open_amount. revert i. induction q as [|x q IH]; intros [|i] Hi; try done; cbn [foldr].
  - injection Hi as ->. cbn [insert list_insert foldr]. lia.
  - change (<[S i:=r']> (x :: q)) with (x :: <[i:=r']> q). cbn [foldr]. rewrite (IH i Hi). lia.
Qed.

Lemma owed_nonneg r : 0 ≤ ur_amount r → 0 ≤ owed r.
Proof. unfold owed. destruct (completed r); lia. Qed.

Lemma open_amount_nonneg q : Forall (λ r, 0 ≤ ur_amount r) q → 0 ≤ open_amount q.
Proof.
  unfold open_amount. induction 1 as [|x q Hx Hq IH]; cbn [foldr]; [lia|]. pose proof (owed_nonneg x Hx). lia.
Qed.

Lemma open_amount_ge q i r :
  Forall (λ r, 0 ≤ ur_amount r) q → q !! i = Some r → owed r ≤ open_amount q.
Proof.
  intros Hq Hi. pose proof (open_amount_insert q i r (mkRequest 0 0 true) Hi) as He.
  enough (0 ≤ open_amount (<[i := mkRequest 0 0 true]> q)) by (unfold owed at 2 in He; cbn in He; lia).
  apply open_amount_nonneg. apply Forall_insert; [done|cbn; lia].
Qed.

(** Asking for more and completing a request. *)
Lemma open_amount_push q n t : open_amount (q ++ [mkRequest n t false]) = open_amount q + n.
Proof. by rewrite open_amount_app. Qed.

Lemma open_amount_complete q i r :
  q !! i = Some r → completed r = false →
  open_amount (<[i := mkRequest (ur_amount r) (unlockTime r) true]> q) = open_amount q - ur_amount r.
Proof. intros Hi Hc. rewrite (open_amount_insert q i r) by done. unfold owed. rewrite Hc. cbn. lia. Qed.
