(* ===== verification/Runs.v ===== *)
(** * Runs of a contract on a concrete token

    Evaluates lists of calls against the plain ledger and owner of [Solidity]:
    each call must be well formed, not before the one ahead of it, come from an
    account other than the contract, and succeed.  Such a run is a history of the contract. *)

From S2P Require Import Prelude Solidity BunkerToken.
Local Open Scope Z_scope.

Definition capped (t : ledger) : bool :=
  forallb (λ kv, (kv.2 <=? Z.to_N SUPPLY_CAP)%N) (map_to_list t).

Lemma capped_balance (t : ledger) a : capped t = true → balanceOf t a ≤ SUPPLY_CAP.
Proof.
  intros Hc. unfold capped in Hc. rewrite forallb_forall in Hc. cbn.
  assert (Hcap : 0 ≤ SUPPLY_CAP) by (vm_compute; discriminate).
  destruct (t !! a) as [n|] eqn:Hn; cbn [default from_option id]; [|done].
  specialize (Hc (a, n)). cbn in Hc. apply N.leb_le in Hc; [lia|].
  by apply list_elem_of_In, elem_of_map_to_list.
Qed.

(** A message sent by [a] at time [t]. *)
Definition at_ (a : Addr) (t : Z) : message := mkMsg a t.

Section Runs.
Context {S E C : Type} (exec : message → C → tx (chain S ledger admin) E unit).
Context (wf : C → Prop) `{!∀ c, Decision (wf c)} (this : Addr).

(** Calls in the order of their times, none before [now]. *)
Fixpoint runs_from (now : Z) (w : chain S ledger admin) (calls : list (message * C)) : option (chain S ledger admin) :=
  match calls with
  | [] => Some w
  | (msg, c) :: rest =>
    if bool_decide (wf c ∧ sender msg ≠ this ∧ sender msg ≠ 0%N ∧ now ≤ timestamp msg ∧ timestamp msg ≤ max_uint48) && capped (tok w) then
      match exec msg c w with
      | Ok (w', _) => runs_from (timestamp msg) w' rest
      | Revert _ => None
      end
    else None
  end.
Definition runs : chain S ledger admin → list (message * C) → option (chain S ledger admin) := runs_from 0.

(** A run in which every call satisfies [P] is a history of any step relation
    that contains such calls. *)
Lemma runs_from_steps (P : C → bool) (step : chain S ledger admin → chain S ledger admin → Prop) now w calls w' :
  (∀ msg c w, P c = true → wf c → sender msg ≠ this → sender msg ≠ 0%N → 0 ≤ timestamp msg → timestamp msg ≤ max_uint48 →
    (∀ a, balanceOf (tok w) a ≤ SUPPLY_CAP) → step w (commit (exec msg c) w)) →
  0 ≤ now → forallb (λ mc, P mc.2) calls = true → runs_from now w calls = Some w' → nsteps step (length calls) w w'.
Proof.
  intros Hstep. revert now w. induction calls as [|[msg c] calls IH]; intros now w Hnow HP Hp; cbn in Hp; [injection Hp as ->; constructor|].
  cbn in HP. apply andb_true_iff in HP as [Hc HP].
  destruct (bool_decide _ && capped _) eqn:Hb; [|done]. apply andb_true_iff in Hb as [Hb Hcap].
  apply bool_decide_eq_true in Hb as (Hwf & H1 & H2 & H3 & H4).
  destruct (exec msg c w) as [[w1 u]|] eqn:He; [|done].
  apply (nsteps_l _ _ _ (commit (exec msg c) w)).
  - apply Hstep; try done; [lia|]. intros a. by apply capped_balance.
  - unfold commit. rewrite He. apply (IH (timestamp msg)); [lia|done..].
Qed.

Lemma runs_steps (P : C → bool) (step : chain S ledger admin → chain S ledger admin → Prop) w calls w' :
  (∀ msg c w, P c = true → wf c → sender msg ≠ this → sender msg ≠ 0%N → 0 ≤ timestamp msg → timestamp msg ≤ max_uint48 →
    (∀ a, balanceOf (tok w) a ≤ SUPPLY_CAP) → step w (commit (exec msg c) w)) →
  forallb (λ mc, P mc.2) calls = true → runs w calls = Some w' → nsteps step (length calls) w w'.
Proof. intros Hstep. by apply runs_from_steps. Qed.
End Runs.
