(* ===== verification/BunkerDelegation.v ===== *)
(** * The delegation contract (src/contracts/src/BunkerDelegation.sol)

    Delegators lock tokens with a provider, get them back through an unbonding
    queue, and providers configure their terms.  Delegated tokens are never
    slashed, so that the contract always holds all of them: the main theorem. *)

From S2P Require Import Prelude Solidity BunkerToken Unbonding Runs.
Local Open Scope Z_scope.

Module Delegation.

Definition BPS_DENOMINATOR : Z := 10000.
Definition MAX_UNBONDING_QUEUE : Z := 20.

Record DelegationInfo := mkDelegation {
  d_provider : Addr;
  d_amount : Z;   (** uint128 *)
  delegatedAt : Z;   (** uint48 *)
  d_active : bool
}.

Record ProviderDelegationConfig := mkConfig {
  rewardCutBps : Z;   (** uint16 *)
  pendingRewardCutBps : Z;   (** uint16 *)
  rewardCutEffectiveAt : Z;   (** uint48 *)
  feeShareBps : Z;   (** uint16 *)
  p_totalDelegated : Z;   (** uint128 *)
  acceptingDelegations : bool
}.

Definition set_rewardCutBps (v : Z) (r : ProviderDelegationConfig) : ProviderDelegationConfig :=
  mkConfig v (pendingRewardCutBps r) (rewardCutEffectiveAt r) (feeShareBps r) (p_totalDelegated r)
    (acceptingDelegations r).
Definition set_pendingRewardCutBps (v : Z) (r : ProviderDelegationConfig) : ProviderDelegationConfig :=
  mkConfig (rewardCutBps r) v (rewardCutEffectiveAt r) (feeShareBps r) (p_totalDelegated r)
    (acceptingDelegations r).
Definition set_rewardCutEffectiveAt (v : Z) (r : ProviderDelegationConfig) : ProviderDelegationConfig :=
  mkConfig (rewardCutBps r) (pendingRewardCutBps r) v (feeShareBps r) (p_totalDelegated r)
    (acceptingDelegations r).
Definition set_feeShareBps (v : Z) (r : ProviderDelegationConfig) : ProviderDelegationConfig :=
  mkConfig (rewardCutBps r) (pendingRewardCutBps r) (rewardCutEffectiveAt r) v (p_totalDelegated r)
    (acceptingDelegations r).
Definition set_p_totalDelegated (v : Z) (r : ProviderDelegationConfig) : ProviderDelegationConfig :=
  mkConfig (rewardCutBps r) (pendingRewardCutBps r) (rewardCutEffectiveAt r) (feeShareBps r) v
    (acceptingDelegations r).
Definition set_acceptingDelegations (v : bool) (r : ProviderDelegationConfig) : ProviderDelegationConfig :=
  mkConfig (rewardCutBps r) (pendingRewardCutBps r) (rewardCutEffectiveAt r) (feeShareBps r)
    (p_totalDelegated r) v.

Definition no_delegation : DelegationInfo := mkDelegation 0 0 0 false.
Definition no_config : ProviderDelegationConfig := mkConfig 0 0 0 0 0 false.

Record State := mkState {
  unbondingPeriod : Z;
  maxRewardCutBps : Z;
  stakingContract : Addr;
  totalDelegated : Z;
  delegations : gmap Addr DelegationInfo;
  providerConfigs : gmap Addr ProviderDelegationConfig;
  unbondingQueues : gmap Addr (list request)
}.

Definition set_unbondingPeriod (v : Z) (r : State) : State :=
  mkState v (maxRewardCutBps r) (stakingContract r) (totalDelegated r) (delegations r)
    (providerConfigs r) (unbondingQueues r).
Definition set_maxRewardCutBps (v : Z) (r : State) : State :=
  mkState (unbondingPeriod r) v (stakingContract r) (totalDelegated r) (delegations r)
    (providerConfigs r) (unbondingQueues r).
Definition set_stakingContract (v : Addr) (r : State) : State :=
  mkState (unbondingPeriod r) (maxRewardCutBps r) v (totalDelegated r) (delegations r)
    (providerConfigs r) (unbondingQueues r).
Definition set_totalDelegated (v : Z) (r : State) : State :=
  mkState (unbondingPeriod r) (maxRewardCutBps r) (stakingContract r) v (delegations r)
    (providerConfigs r) (unbondingQueues r).
Definition set_delegations (v : gmap Addr DelegationInfo) (r : State) : State :=
  mkState (unbondingPeriod r) (maxRewardCutBps r) (stakingContract r) (totalDelegated r) v
    (providerConfigs r) (unbondingQueues r).
Definition set_providerConfigs (v : gmap Addr ProviderDelegationConfig) (r : State) : State :=
  mkState (unbondingPeriod r) (maxRewardCutBps r) (stakingContract r) (totalDelegated r)
    (delegations r) v (unbondingQueues r).
Definition set_unbondingQueues (v : gmap Addr (list request)) (r : State) : State :=
  mkState (unbondingPeriod r) (maxRewardCutBps r) (stakingContract r) (totalDelegated r)
    (delegations r) (providerConfigs r) v.

Inductive DelegationErr :=
  | ZeroAmount | ZeroAddress | ProviderNotAccepting | AlreadyDelegated | NotDelegated | RewardCutTooHigh
  | InsufficientDelegation | UnbondingNotReady | InvalidUnbondingIndex | UnbondingAlreadyCompleted
  | ProviderNotActive | TooManyUnbondingRequests | NoPendingRewardCut | RewardCutTimelockActive
  | InvalidUnbondingPeriod | InvalidRewardCutCap.

Definition delegation (a : Addr) (s : State) : DelegationInfo := default no_delegation (delegations s !! a).
Definition config (p : Addr) (s : State) : ProviderDelegationConfig := default no_config (providerConfigs s !! p).
Definition queue (a : Addr) (s : State) : list request := default [] (unbondingQueues s !! a).

Definition put_delegation (a : Addr) (i : DelegationInfo) (s : State) : State :=
  set_delegations (<[a := i]> (delegations s)) s.
Definition put_config (p : Addr) (c : ProviderDelegationConfig) (s : State) : State :=
  set_providerConfigs (<[p := c]> (providerConfigs s)) s.
Definition put_queue (a : Addr) (q : list request) (s : State) : State :=
  set_unbondingQueues (<[a := q]> (unbondingQueues s)) s.

(** The storage after the constructor. *)
Definition constructor (_token _stakingContract _initialOwner : Addr) : option State :=
  if (_token =? 0)%N || (_initialOwner =? 0)%N then None
  else Some (mkState (7 * days) 5000 _stakingContract 0 ∅ ∅ ∅).

Section Operations.
Context {T G : Type} `{Token T} `{BaseContracts G}.
(** The address of the contract. *)
Context (this : Addr).
Abbreviation M := (tx (chain State T G) DelegationErr).

(** ** Providers *)

Definition setDelegationConfig (msg : message) (cut feeShare : Z) : M unit :=
  maxCut ← get (λ s, uint 16 (maxRewardCutBps s));
  revert_if (maxCut <? cut) RewardCutTooHigh;;
  c ← get (config (sender msg));
  (if rewardCutBps c <? cut then
     period ← get unbondingPeriod;
     t ← add (timestamp msg) period;
     put (put_config (sender msg) (set_rewardCutEffectiveAt (uint 48 t) (set_pendingRewardCutBps cut c)))
   else put (put_config (sender msg) (set_rewardCutBps cut c)));;
  c ← get (config (sender msg));
  put (put_config (sender msg) (set_feeShareBps feeShare c)).

Definition finalizeRewardCut (msg : message) : M unit :=
  c ← get (config (sender msg));
  revert_if (pendingRewardCutBps c =? 0) NoPendingRewardCut;;
  revert_if (timestamp msg <? rewardCutEffectiveAt c) RewardCutTimelockActive;;
  put (put_config (sender msg) (set_rewardCutEffectiveAt 0 (set_pendingRewardCutBps 0
    (set_rewardCutBps (pendingRewardCutBps c) c)))).

(** [isActive] is the staking contract at its configured address. *)
Definition check_active (isActive : Addr → Addr → option bool) (p : Addr) : M unit :=
  staking ← get stakingContract;
  if (staking =? 0)%N then mret tt
  else ok ← of_option ExternalRevert (isActive staking p); revert_if (negb ok) ProviderNotActive.

Definition toggleAcceptDelegations (msg : message) (isActive : Addr → Addr → option bool) (accepting : bool) : M unit :=
  when accepting (check_active isActive (sender msg));;
  c ← get (config (sender msg));
  put (put_config (sender msg) (set_acceptingDelegations accepting c)).

(** ** Delegators *)

Definition delegate (msg : message) (isActive : Addr → Addr → option bool) (p : Addr) (amount : Z) : M unit :=
  whenNotPaused;;
  revert_if (amount =? 0) ZeroAmount;;
  revert_if (p =? 0)%N ZeroAddress;;
  check_active isActive p;;
  c ← get (config p);
  revert_if (negb (acceptingDelegations c)) ProviderNotAccepting;;
  info ← get (delegation (sender msg));
  revert_if (d_active info) AlreadyDelegated;;
  put (put_delegation (sender msg) (mkDelegation p (uint 128 amount) (uint 48 (timestamp msg)) true));;
  sum ← add_width 128 (p_totalDelegated c) (uint 128 amount);
  put (put_config p (set_p_totalDelegated sum c));;
  total ← get totalDelegated;
  total ← add total amount;
  put (set_totalDelegated total);;
  safeTransferFrom this (sender msg) this amount.

Definition requestUndelegate (msg : message) (amount : Z) : M unit :=
  whenNotPaused;;
  revert_if (amount =? 0) ZeroAmount;;
  q ← get (queue (sender msg));
  revert_if (MAX_UNBONDING_QUEUE <=? Z.of_nat (length q)) TooManyUnbondingRequests;;
  info ← get (delegation (sender msg));
  revert_if (negb (d_active info)) NotDelegated;;
  revert_if (d_amount info <? amount) InsufficientDelegation;;
  left ← sub (d_amount info) (uint 128 amount);
  c ← get (config (d_provider info));
  sum ← sub (p_totalDelegated c) (uint 128 amount);
  put (put_config (d_provider info) (set_p_totalDelegated sum c));;
  total ← get totalDelegated;
  total ← sub total amount;
  put (set_totalDelegated total);;
  put (put_delegation (sender msg) (mkDelegation (d_provider info) left (delegatedAt info) (negb (left =? 0))));;
  period ← get unbondingPeriod;
  t ← add (timestamp msg) period;
  put (put_queue (sender msg) (q ++ [mkRequest (uint 128 amount) (uint 48 t) false])).

Definition completeUndelegate (msg : message) (requestIndex : Z) : M unit :=
  q ← get (queue (sender msg));
  revert_if (Z.of_nat (length q) <=? requestIndex) InvalidUnbondingIndex;;
  req ← of_option IndexPanic (q !! Z.to_nat requestIndex);
  revert_if (completed req) UnbondingAlreadyCompleted;;
  revert_if (timestamp msg <? unlockTime req) UnbondingNotReady;;
  put (put_queue (sender msg) (<[Z.to_nat requestIndex := mkRequest (ur_amount req) (unlockTime req) true]> q));;
  safeTransfer this (sender msg) (ur_amount req).

(** ** Views *)

Definition getDelegation (a : Addr) : M DelegationInfo := get (delegation a).
Definition getProviderConfig (p : Addr) : M ProviderDelegationConfig := get (config p).
Definition getTotalDelegatedTo (p : Addr) : M Z := get (λ s, p_totalDelegated (config p s)).
Definition getUnbondingQueueLength (a : Addr) : M Z := get (λ s, Z.of_nat (length (queue a s))).
Definition getUnbondingRequest (a : Addr) (index : Z) : M request :=
  q ← get (queue a); of_option IndexPanic (q !! Z.to_nat index).

(** ** Administration *)

Definition setStakingContract (msg : message) (a : Addr) : M unit :=
  onlyOwner msg;; put (set_stakingContract a).
Definition setUnbondingPeriod (msg : message) (period : Z) : M unit :=
  onlyOwner msg;;
  revert_if ((period <? 1 * minutes) || (30 * days <? period)) InvalidUnbondingPeriod;;
  put (set_unbondingPeriod period).
Definition setMaxRewardCutBps (msg : message) (newMax : Z) : M unit :=
  onlyOwner msg;;
  revert_if ((newMax =? 0) || (uint 16 BPS_DENOMINATOR <? newMax)) InvalidRewardCutCap;;
  put (set_maxRewardCutBps newMax).
Definition pause (msg : message) : M unit := onlyOwner msg;; set_pause true.
Definition unpause (msg : message) : M unit := onlyOwner msg;; set_pause false.

(** ** Calls *)

Inductive call :=
  | CallConfig (cut feeShare : Z)
  | CallFinalize
  | CallToggle (isActive : Addr → Addr → option bool) (b : bool)
  | CallDelegate (isActive : Addr → Addr → option bool) (p : Addr) (amount : Z)
  | CallRequest (amount : Z)
  | CallComplete (index : Z)
  | CallSetStaking (a : Addr)
  | CallSetPeriod (period : Z)
  | CallSetMaxCut (bps : Z)
  | CallPause (b : bool).

Definition call_wf (c : call) : Prop :=
  match c with
  | CallConfig a b => 0 ≤ a ≤ max_uint 16 ∧ 0 ≤ b ≤ max_uint 16
  | CallDelegate _ _ a | CallRequest a | CallComplete a | CallSetPeriod a => 0 ≤ a
  | CallSetMaxCut a => 0 ≤ a ≤ max_uint 16
  | _ => True
  end.

Definition exec (msg : message) (c : call) : M unit :=
  match c with
  | CallConfig a b => setDelegationConfig msg a b
  | CallFinalize => finalizeRewardCut msg
  | CallToggle f b => toggleAcceptDelegations msg f b
  | CallDelegate f p a => delegate msg f p a
  | CallRequest a => requestUndelegate msg a
  | CallComplete i => completeUndelegate msg i
  | CallSetStaking a => setStakingContract msg a
  | CallSetPeriod p => setUnbondingPeriod msg p
  | CallSetMaxCut b => setMaxRewardCutBps msg b
  | CallPause true => pause msg
  | CallPause false => unpause msg
  end.

(** A history: calls, which commit or revert, and what happens elsewhere, as for
    the staking contract. *)
Inductive step : chain State T G → chain State T G → Prop :=
  | step_call msg c w : call_wf c → sender msg ≠ this → sender msg ≠ 0%N → 0 ≤ timestamp msg →
      (∀ a, balanceOf (tok w) a ≤ SUPPLY_CAP) → step w (commit (exec msg c) w)
  | step_token w t' : balanceOf (tok w) this ≤ balanceOf t' this →
      step w (mkChain (self w) t' (base w))
  | step_base w g' : step w (mkChain (self w) (tok w) g').
End Operations.

(** ** The books *)

(** What a delegator has with provider [p]. *)
Definition to (p : Addr) (i : DelegationInfo) : Z := if decide (d_provider i = p) then d_amount i else 0.

(** Everything the contract owes. *)
Definition owing (s : State) : Z := totalDelegated s + sum_map open_amount (unbondingQueues s).

Record books (s : State) : Prop := {
  b_total : totalDelegated s = sum_map d_amount (delegations s);
  b_provider : ∀ p, p_totalDelegated (config p s) = sum_map (to p) (delegations s);
  b_info : ∀ a, 0 ≤ d_amount (delegation a s) ∧ (d_active (delegation a s) = true ↔ 0 < d_amount (delegation a s));
  b_requests : ∀ a, Forall (λ r, 0 ≤ ur_amount r) (queue a s)
}.

Lemma sum_delegations f a i s :
  f no_delegation = 0 →
  sum_map f (<[a := i]> (delegations s)) = sum_map f (delegations s) - f (delegation a s) + f i.
Proof.
  intros Hf. rewrite (sum_map_change f no_delegation (delegations s) _ a); [|done|by intros k Hk; rewrite lookup_insert_ne].
  by rewrite lookup_insert_eq.
Qed.

Lemma sum_queues a q (m : gmap Addr (list request)) :
  sum_map open_amount (<[a := q]> m) = sum_map open_amount m - open_amount (default [] (m !! a)) + open_amount q.
Proof.
  rewrite (sum_map_change open_amount [] m _ a); [|done|by intros k Hk; rewrite lookup_insert_ne].
  by rewrite lookup_insert_eq.
Qed.

Lemma config_insert p c s p' :
  config p' (put_config p c s) = if decide (p = p') then c else config p' s.
Proof. unfold config. cbn. rewrite lookup_insert. by case_decide. Qed.

Lemma to_nonneg p i : 0 ≤ d_amount i → 0 ≤ to p i.
Proof. unfold to. case_decide; lia. Qed.

(** A delegator's part is part of the totals. *)
Lemma delegation_books_le s a :
  books s → d_amount (delegation a s) ≤ totalDelegated s ∧
    d_amount (delegation a s) ≤ p_totalDelegated (config (d_provider (delegation a s)) s) ∧
    p_totalDelegated (config (d_provider (delegation a s)) s) ≤ totalDelegated s ∧
    open_amount (queue a s) ≤ sum_map open_amount (unbondingQueues s).
Proof.
  intros [B1 B2 B3 B4]. rewrite B1, B2. split_and!.
  - apply (sum_map_default_ge d_amount no_delegation (delegations s) a); [apply B3|done].
  - transitivity (to (d_provider (delegation a s)) (delegation a s)); [unfold to; by rewrite decide_True|].
    apply (sum_map_default_ge (to _) no_delegation (delegations s) a); [intros k; apply to_nonneg, B3|].
    unfold to. by case_decide.
  - apply sum_map_le. intros k v Hk. specialize (B3 k). unfold delegation in B3. rewrite Hk in B3. cbn in B3.
    unfold to. case_decide; lia.
  - apply (sum_map_default_ge open_amount [] (unbondingQueues s) a); [|done]. intros k. apply open_amount_nonneg, B4.
Qed.

(** Nothing about the delegations changes. *)
Lemma books_same s s' :
  delegations s' = delegations s → unbondingQueues s' = unbondingQueues s → totalDelegated s' = totalDelegated s →
  (∀ p, p_totalDelegated (config p s') = p_totalDelegated (config p s)) → books s → books s'.
Proof.
  intros E1 E2 E3 E4 [B1 B2 B3 B4].
  split; unfold delegation, queue; rewrite ?E1, ?E2, ?E3; try done. intros p. by rewrite E4.
Qed.

(** A delegator's amount with provider [p] changes by [n]; the totals follow. *)
Lemma books_delegation a i n p s s' :
  books s → delegations s' = <[a := i]> (delegations s) →
  d_provider i = p → (d_provider (delegation a s) = p ∨ d_amount (delegation a s) = 0) →
  d_amount i = d_amount (delegation a s) + n →
  0 ≤ d_amount i → (d_active i = true ↔ 0 < d_amount i) →
  totalDelegated s' = totalDelegated s + n →
  providerConfigs s' = <[p := set_p_totalDelegated (p_totalDelegated (config p s) + n) (config p s)]> (providerConfigs s) →
  (∀ b, Forall (λ r, 0 ≤ ur_amount r) (queue b s')) → books s'.
Proof.
  intros [B1 B2 B3 B4] Hd Hp Hold Hn H0 Hact Ht Hc Hq. split; [| | |done].
  - rewrite Hd, sum_delegations by done. lia.
  - intros p'. rewrite Hd, sum_delegations by (unfold to; by case_decide).
    assert (Hto : to p' i - to p' (delegation a s) = if decide (p = p') then n else 0).
    { unfold to. rewrite Hp. destruct Hold as [->|Hz]; repeat case_decide; lia. }
    unfold config. rewrite Hc, lookup_insert. destruct (decide (p = p')) as [<-|Hne]; cbn.
    + rewrite B2. lia.
    + fold (config p' s). rewrite B2. lia.
  - intros b. unfold delegation. rewrite Hd, lookup_insert. case_decide; [done|apply B3].
Qed.

Section Calls.
Context {T G : Type} `{TokenLaws T} `{BaseContracts G}.
Context (this : Addr).
Implicit Types w : chain State T G.

Definition backed w : Prop := owing (self w) ≤ balanceOf (tok w) this.

Ltac guards :=
  repeat match goal with
  | H : negb _ = false |- _ => apply negb_false_iff in H
  | H : (_ =? _)%N = false |- _ => apply N.eqb_neq in H
  end; zbool.

Lemma check_active_Ok f p w w' u : check_active f p w = Ok (w', u) → w' = w.
Proof. intros Hc. unfold check_active in Hc. by tx_inv Hc. Qed.

Section Call.
Context w (Hk : books (self w)) (Hb : backed w) (Hcap : ∀ a, balanceOf (tok w) a ≤ SUPPLY_CAP).

(** All amounts are below the cap, and so within 128 bits. *)
Lemma fits_128 n : 0 ≤ n ≤ SUPPLY_CAP → uint 128 n = n.
Proof. intros Hn. apply uint_id. unfold SUPPLY_CAP, max_uint in *. lia. Qed.

Lemma owing_bound a :
  0 ≤ d_amount (delegation a (self w)) ∧ d_amount (delegation a (self w)) ≤ SUPPLY_CAP ∧
  0 ≤ open_amount (queue a (self w)) ≤ SUPPLY_CAP.
Proof.
  pose proof (delegation_books_le _ a Hk). pose proof (b_info _ Hk a). pose proof (open_amount_nonneg _ (b_requests _ Hk a)).
  unfold backed, owing in Hb. specialize (Hcap this).
  assert (0 ≤ totalDelegated (self w)) by lia. lia.
Qed.

Lemma delegate_ok msg f p amount w' u :
  0 ≤ amount → sender msg ≠ this → delegate this msg f p amount w = Ok (w', u) → books (self w') ∧ backed w'.
Proof.
  intros Ha Hthis Hc. unfold delegate in Hc. tx_inv Hc. guards.
  match goal with Hx : check_active _ _ _ = Ok _ |- _ => apply check_active_Ok in Hx as -> end.
  token_inv. pose proof (Hcap (sender msg)). rewrite (fits_128 amount) in * by lia.
  pose proof (b_info _ Hk (sender msg)) as [B3a B3b].
  assert (Hz : d_amount (delegation (sender msg) (self w)) = 0).
  { destruct (decide (0 < d_amount (delegation (sender msg) (self w)))) as [Hlt|]; [|lia]. apply B3b in Hlt. congruence. }
  split.
  - rewrite HS. eapply (books_delegation (sender msg) _ amount p (self w)); [done|reflexivity|done|by right|..];
      cbn; try lia; first [done|apply Hk|split; [lia|done]].
  - unfold backed, owing in *. rewrite HS, HM, share_self. unfold share. rewrite decide_False by done. cbn. lia.
Qed.

Lemma requestUndelegate_ok msg amount w' u :
  0 ≤ amount → requestUndelegate msg amount w = Ok (w', u) → books (self w') ∧ backed w'.
Proof.
  intros Ha Hc. unfold requestUndelegate in Hc. tx_inv Hc. guards.
  pose proof (owing_bound (sender msg)). rewrite (fits_128 amount) in * by lia.
  split.
  - eapply (books_delegation (sender msg) _ (- amount) (d_provider (delegation (sender msg) (self w))) (self w));
      [done|reflexivity|done|by left|..]; cbn; try lia; try done.
    intros b. unfold queue. cbn. rewrite lookup_insert. case_decide; [|apply Hk].
      apply Forall_app. split; [apply Hk|by apply Forall_singleton].
  - unfold backed, owing in *. cbn. rewrite sum_queues. change (default [] _) with (queue (sender msg) (self w)).
    rewrite open_amount_push. lia.
Qed.

Lemma completeUndelegate_ok msg index w' u :
  completeUndelegate this msg index w = Ok (w', u) → books (self w') ∧ backed w'.
Proof.
  intros Hc. unfold completeUndelegate in Hc. tx_inv Hc. guards. rename o into r.
  match goal with Hx : _ !! _ = Some r |- _ => rename Hx into Hr end.
  pose proof (Forall_lookup_1 _ _ _ _ (b_requests _ Hk (sender msg)) Hr) as H0r. cbn in H0r. token_inv.
  split; rewrite ?HS.
  - destruct Hk as [B1 B2 B3 B4]. split; try done. intros b. unfold queue. cbn. rewrite lookup_insert.
    case_decide; [|apply B4]. apply Forall_insert; [apply B4|done].
  - unfold backed, owing in *. rewrite HS, HM, share_self. cbn. rewrite sum_queues.
    change (default [] _) with (queue (sender msg) (self w)).
    rewrite (open_amount_complete _ _ r) by done. pose proof (share_nonneg this (sender msg) _ H0r). lia.
Qed.

(** The calls that only change terms. *)
Lemma config_same p c s :
  p_totalDelegated c = p_totalDelegated (config p s) → books s → books (put_config p c s).
Proof.
  intros Hc. apply books_same; try done. intros p'. rewrite config_insert. case_decide; [by subst|done].
Qed.

Lemma exec_ok msg c w' u :
  call_wf c → sender msg ≠ this → exec this msg c w = Ok (w', u) → books (self w') ∧ backed w'.
Proof.
  intros Hwf Hthis Hc. destruct c; cbn [exec call_wf] in *.
  all: try (by eapply delegate_ok); try (by eapply requestUndelegate_ok); try (by eapply completeUndelegate_ok).
  all: try destruct b; unfold setDelegationConfig, finalizeRewardCut, toggleAcceptDelegations, setStakingContract,
    setUnbondingPeriod, setMaxRewardCutBps, pause, unpause, set_pause in Hc; tx_inv Hc;
    try match goal with Hx : check_active _ _ _ = Ok _ |- _ => apply check_active_Ok in Hx as -> end.
  all: (split; [|exact Hb]); try exact Hk; try (apply config_same; [done|exact Hk]).
  all: first [apply config_same; [done|]; apply config_same; [done|exact Hk] | by apply (books_same (self w))].
Qed.
End Call.

Definition initial w : Prop := ∃ token st o, constructor token st o = Some (self w).

Lemma initial_books w : initial w → books (self w) ∧ backed w.
Proof.
  intros (token & st & o & Hc). unfold constructor in Hc. destruct (_ || _); [done|]. injection Hc as Hc.
  unfold backed, owing. rewrite <- Hc. split; [|cbn; apply balance_nonneg].
  split; cbn; try done; intros a; unfold config, delegation, queue; cbn; rewrite lookup_empty; cbn; try done.
Qed.

Lemma history_books w w' : initial w → rtc (step this) w w' → books (self w') ∧ backed w'.
Proof.
  intros Hi Hs. apply initial_books in Hi. revert Hi. induction Hs as [|x y z Hstep _ IH]; [done|].
  intros [Hk Hb]. apply IH. destruct Hstep as [msg c x Hwf Hthis Hz Ht Hcap|x t' Ht|x g'].
  - apply (commit_inv _ (λ y, books (self y) ∧ backed y)); [|done]. intros y' u Hc. by eapply exec_ok.
  - split; [done|]. unfold backed in *. cbn. lia.
  - done.
Qed.

(** C7: safety.  The delegation contract is solvent in every history: it holds at least the
    delegated tokens and all open withdrawals.  Its totals are exact: the sum over
    the delegators, and for each provider the sum over its delegators. *)
Theorem delegations_backed w w' :
  initial w → rtc (step this) w w' →
  totalDelegated (self w') + sum_map open_amount (unbondingQueues (self w')) ≤ balanceOf (tok w') this ∧
  totalDelegated (self w') = sum_map d_amount (delegations (self w')) ∧
  ∀ p, p_totalDelegated (config p (self w')) = sum_map (to p) (delegations (self w')).
Proof. intros Hi Hs. destruct (history_books w w' Hi Hs) as [[B1 B2 _ _] Hb]. done. Qed.

(** Liveness.  A delegator can always complete an open withdrawal once its time has come:
    the call succeeds in every history, also while the contract is paused, and pays
    exactly the amount of the request. *)
Theorem undelegate_completes w w1 msg index r :
  initial w → rtc (step this) w w1 → this ≠ 0%N → sender msg ≠ 0%N → 0 ≤ index →
  queue (sender msg) (self w1) !! Z.to_nat index = Some r → completed r = false → unlockTime r ≤ timestamp msg →
  ∃ w2, completeUndelegate this msg index w1 = Ok (w2, tt) ∧
    ∀ a, balanceOf (tok w2) a = balanceOf (tok w1) a - share a this (ur_amount r) + share a (sender msg) (ur_amount r).
Proof.
  intros Hi Hs Hthis Hz Hidx Hr Hc Ht. destruct (history_books w w1 Hi Hs) as [Hk Hb].
  pose proof (b_requests _ Hk (sender msg)) as Hq. pose proof (Forall_lookup_1 _ _ _ _ Hq Hr) as H0r. cbn in H0r.
  assert (Hle : ur_amount r ≤ balanceOf (tok w1) this).
  { pose proof (open_amount_ge _ _ _ Hq Hr) as Hge. unfold owed in Hge. rewrite Hc in Hge.
    pose proof (delegation_books_le _ (sender msg) Hk). pose proof (b_info _ Hk (sender msg)). unfold backed, owing in Hb. lia. }
  assert (Hok : succeeds (completeUndelegate this msg index w1)).
  { unfold completeUndelegate. eapply succeeds_bind; [by apply get_Ok|]. cbn beta. apply lookup_lt_Some in Hr as Hlen.
    eapply succeeds_bind; [apply revert_if_Ok; split; [apply Z.leb_gt; lia|done]|].
    eapply succeeds_bind; [apply of_option_Ok; eauto|]. cbn beta. eapply succeeds_bind; [by apply revert_if_Ok|].
    eapply succeeds_bind; [apply revert_if_Ok; split; [by apply Z.ltb_ge|done]|]. tx_ok.
    by apply safeTransfer_succeeds. }
  apply succeeds_Ok in Hok as [[w2 []] Hok]. exists w2. split; [done|].
  unfold completeUndelegate in Hok. tx_inv Hok. token_inv. exact HM.
Qed.

(** Safety.  A provider's reward cut rises only through its timelock: a call that raises
    the cut of [p] is [finalizeRewardCut] by [p] itself, not before the recorded
    time, to the announced value; and that time is set only by [p] announcing an
    increase, one unbonding period ahead.  Nobody else can change a provider's
    terms. *)
Theorem reward_cut_timelocked msg c w w' u p :
  exec this msg c w = Ok (w', u) →
  let old := config p (self w) in let new := config p (self w') in
  (rewardCutBps old < rewardCutBps new →
     c = CallFinalize ∧ sender msg = p ∧ rewardCutBps new = pendingRewardCutBps old ∧ rewardCutEffectiveAt old ≤ timestamp msg) ∧
  (rewardCutEffectiveAt new ≠ rewardCutEffectiveAt old → rewardCutEffectiveAt new ≠ 0 →
     sender msg = p ∧ rewardCutEffectiveAt new = uint 48 (timestamp msg + unbondingPeriod (self w)) ∧
     rewardCutBps old < pendingRewardCutBps new) ∧
  (sender msg ≠ p → set_p_totalDelegated 0 new = set_p_totalDelegated 0 old).
Proof.
  intros Hc old new. subst old new.
  assert (Hsame : ∀ s, providerConfigs s = providerConfigs (self w) → config p s = config p (self w)) by (unfold config; by intros s ->).
  destruct c; cbn [exec] in Hc; try destruct b;
    unfold setDelegationConfig, finalizeRewardCut, toggleAcceptDelegations, delegate, requestUndelegate, completeUndelegate,
      setStakingContract, setUnbondingPeriod, setMaxRewardCutBps, pause, unpause, set_pause in Hc; tx_inv Hc; guards;
    repeat match goal with Hx : check_active _ _ _ = Ok _ |- _ => apply check_active_Ok in Hx as -> end.
  all: repeat match goal with
    | Hx : safeTransfer _ _ _ _ = Ok _ |- _ => apply (keeps_safeTransfer (λ w, self w)) in Hx; [rewrite Hx|intros [] ?; reflexivity]
    | Hx : safeTransferFrom _ _ _ _ _ = Ok _ |- _ => apply (keeps_safeTransferFrom (λ w, self w)) in Hx; [rewrite Hx|intros [] ?; reflexivity] end.
  all: cbn [self]; try (rewrite Hsame by reflexivity; split_and!; [lia|done..]); clear Hsame.
  all: unfold config in *; cbn; rewrite ?lookup_insert; repeat case_decide; subst; cbn; split_and!; intros;
    try done; try lia; try congruence.
Qed.
End Calls.

(** ** Runs on a concrete token *)

#[export] Instance delegation_call_wf_dec c : Decision (call_wf c).
Proof. destruct c; apply _. Defined.

Abbreviation world := (chain State ledger admin).
Definition play : world → list (message * call) → option world := runs (exec 99) call_wf 99.

Lemma play_history w calls w' : play w calls = Some w' → rtc (step 99) w w'.
Proof.
  intros Hp. apply rtc_nsteps. exists (length calls).
  refine (runs_steps (exec 99) call_wf 99 (λ _, true) (step 99) w calls w' _ _ Hp).
  - intros msg c w1 _. by constructor.
  - by apply forallb_forall.
Qed.

(** The contract at address 99 with the owner 1; provider 10 and delegator 20; the
    staking contract at address 7 knows provider 10. *)
Definition active_10 : Addr → Addr → option bool := λ a p, if (a =? 7)%N then Some (p =? 10)%N else None.
Definition start : world := mkChain
  (default (mkState 0 0 0 0 ∅ ∅ ∅) (constructor 5 7 1)) {[ 20%N := 1000%N ]} (mkAdmin 1 false).

Lemma delegation_start_initial : initial start.
Proof. by exists 5%N, 7%N, 1%N. Qed.

Definition day1 : list (message * call) := [
  (at_ 10 100, CallConfig 0 100);
  (at_ 10 100, CallToggle active_10 true);
  (at_ 20 200, CallDelegate active_10 10 300);
  (at_ 20 300, CallRequest 100)].
Definition after_day1 : world := default start (play start day1).
Lemma delegation_day1_runs : play start day1 = Some after_day1.
Proof. vm_compute. reflexivity. Qed.

Example delegations_backed_witness :
  p_totalDelegated (config 10 (self after_day1)) = 200 ∧
  totalDelegated (self after_day1) + sum_map open_amount (unbondingQueues (self after_day1)) ≤ balanceOf (tok after_day1) 99%N.
Proof.
  split; [vm_compute; reflexivity|].
  exact (proj1 (delegations_backed 99 start after_day1 delegation_start_initial (play_history _ _ _ delegation_day1_runs))).
Defined.

Example undelegate_completes_witness :
  ∃ w2, completeUndelegate 99 (at_ 20 (300 + 7 * days)) 0 after_day1 = Ok (w2, tt).
Proof.
  destruct (undelegate_completes 99 start after_day1 (at_ 20 (300 + 7 * days)) 0
    (mkRequest 100 (300 + 7 * days) false) delegation_start_initial (play_history _ _ _ delegation_day1_runs) ltac:(done) ltac:(done)
    ltac:(lia) ltac:(vm_compute; reflexivity) ltac:(reflexivity) ltac:(vm_compute; discriminate)) as (w2 & Hok & _).
  exists w2. exact Hok.
Defined.

(** Announcing an increase of the cut. *)
Definition announced : world := commit (exec 99 (at_ 10 400) (CallConfig 4000 100)) after_day1.
Lemma announce_runs : exec 99 (at_ 10 400) (CallConfig 4000 100) after_day1 = Ok (announced, tt).
Proof. vm_compute. reflexivity. Qed.

Example reward_cut_timelocked_witness :
  rewardCutEffectiveAt (config 10 (self announced)) = 400 + 7 * days ∧
  set_p_totalDelegated 0 (config 11 (self announced)) = set_p_totalDelegated 0 (config 11 (self after_day1)).
Proof.
  split; [vm_compute; reflexivity|].
  exact (proj2 (proj2 (reward_cut_timelocked 99 (at_ 10 400) (CallConfig 4000 100) after_day1 announced tt 11
    announce_runs)) ltac:(done)).
Defined.

(** Error.  The timelock on reward cuts can be armed in advance: a provider announces a high
    cut before it has delegators, lowers the cut (the announcement stays), and once
    delegators have come raises it to the announced value at once. *)
Theorem reward_cut_armed_in_advance :
  match play start [
    (at_ 10 100, CallConfig 5000 0); (at_ 10 200, CallConfig 0 0); (at_ 10 300, CallToggle active_10 true);
    (at_ 20 (8 * days), CallDelegate active_10 10 300); (at_ 10 (8 * days), CallFinalize)] with
  | Some w => rewardCutBps (config 10 (self w)) = 5000 ∧ p_totalDelegated (config 10 (self w)) = 300
  | None => False
  end.
Proof. vm_compute. repeat split; reflexivity. Qed.

(** A lowered maximum does not apply to announced increases. *)
Theorem reward_cut_above_maximum :
  match play start [(at_ 10 100, CallConfig 5000 0); (at_ 1 200, CallSetMaxCut 1000); (at_ 10 (8 * days), CallFinalize)] with
  | Some w => maxRewardCutBps (self w) < rewardCutBps (config 10 (self w))
  | None => False
  end.
Proof. vm_compute. reflexivity. Qed.

(** The queue counts completed requests, so that after 20 of them the rest of a
    delegation can never be withdrawn. *)
Definition rounds : list (message * call) :=
  flat_map (λ i, [(at_ 20 (8 * days * i), CallRequest 1); (at_ 20 (8 * days * i + 7 * days), CallComplete i)])
    (map Z.of_nat (seq 1 19)).

Theorem undelegate_queue_exhausted :
  match play after_day1 ((at_ 20 (300 + 7 * days), CallComplete 0) :: rounds) with
  | Some w => open_amount (queue 20 (self w)) = 0 ∧ d_amount (delegation 20 (self w)) = 181 ∧
      requestUndelegate (at_ 20 (1000 * days)) 1 w = Revert (Error TooManyUnbondingRequests)
  | None => False
  end.
Proof. vm_compute. repeat split; reflexivity. Qed.
End Delegation.
