(* ===== verification/BunkerStaking.v ===== *)
(** * The staking contract (src/contracts/src/BunkerStaking.sol)

    Providers stake tokens, unstake through an unbonding queue, can be slashed
    directly or by a proposal that can be appealed, and earn rewards that vest.
    This file models every function of the contract; [BunkerStakingSafety] has
    the theorems.

    The storage is grouped in four records: parameters, stakes, rewards, and
    proposals and identities.  A mapping is a [gmap]; a key never written holds
    the zero value of its type. *)

From S2P Require Import Prelude Solidity BunkerToken Unbonding.
Local Open Scope Z_scope.

Module Staking.

Definition SLASHER_ROLE : string := "SLASHER_ROLE".
Definition BENEFICIARY_TIMELOCK : Z := 24 * hours.
Definition BPS_DENOMINATOR : Z := 10000.
Definition MAX_EMISSION_MULTIPLIER : Z := 50000.

(** ** Types *)

Inductive Tier := TierNone | Starter | Bronze | Silver | Gold | Platinum.
#[export] Instance Tier_eq_dec : EqDecision Tier.
Proof. solve_decision. Defined.

Definition tier_num (t : Tier) : Z :=
  match t with TierNone => 0 | Starter => 1 | Bronze => 2 | Silver => 3 | Gold => 4 | Platinum => 5 end.

(** [Tier(n)] panics outside the enumeration. *)
Definition tier_of_num (n : Z) : option Tier :=
  nth_error [TierNone; Starter; Bronze; Silver; Gold; Platinum] (Z.to_nat n).

#[export] Program Instance Tier_countable : Countable Tier :=
  inj_countable tier_num (λ n, if 0 <=? n then tier_of_num n else None) _.
Next Obligation. by intros []. Qed.

Inductive SlashReason :=
  | ReasonNone | Downtime | JobAbandonment | SecurityViolation | Fraud | SLAViolation | DataLoss.
#[export] Instance SlashReason_eq_dec : EqDecision SlashReason.
Proof. solve_decision. Defined.

Definition reason_num (r : SlashReason) : Z :=
  match r with
  | ReasonNone => 0 | Downtime => 1 | JobAbandonment => 2 | SecurityViolation => 3
  | Fraud => 4 | SLAViolation => 5 | DataLoss => 6
  end.

#[export] Program Instance SlashReason_countable : Countable SlashReason :=
  inj_countable reason_num (λ n, if 0 <=? n then nth_error [ReasonNone; Downtime; JobAbandonment;
    SecurityViolation; Fraud; SLAViolation; DataLoss] (Z.to_nat n) else None) _.
Next Obligation. by intros []. Qed.

Record TierConfig := mkTierConfig {
  minStake : Z;
  maxConcurrentJobs : Z;   (** 0 = unlimited *)
  rewardMultiplierBps : Z;
  priorityQueue : bool;
  governance : bool
}.

Definition set_minStake (v : Z) (r : TierConfig) : TierConfig :=
  mkTierConfig v (maxConcurrentJobs r) (rewardMultiplierBps r) (priorityQueue r) (governance r).
Definition set_rewardMultiplierBps (v : Z) (r : TierConfig) : TierConfig :=
  mkTierConfig (minStake r) (maxConcurrentJobs r) v (priorityQueue r) (governance r).

Abbreviation UnstakeRequest := request.

Record PendingBeneficiary := mkPending {
  newBeneficiary : Addr;
  effectiveTime : Z   (** uint48 *)
}.

Record SlashProposal := mkProposal {
  sp_provider : Addr;
  sp_amount : Z;
  sp_reason : string;
  proposedAt : Z;
  executed : bool;
  appealed : bool;
  resolved : bool;
  slashReason : SlashReason;
  appealWindowSnapshot : Z;
  slashBurnBpsSnapshot : Z
}.

Definition set_executed (v : bool) (r : SlashProposal) : SlashProposal :=
  mkProposal (sp_provider r) (sp_amount r) (sp_reason r) (proposedAt r) v (appealed r) (resolved r)
    (slashReason r) (appealWindowSnapshot r) (slashBurnBpsSnapshot r).
Definition set_appealed (v : bool) (r : SlashProposal) : SlashProposal :=
  mkProposal (sp_provider r) (sp_amount r) (sp_reason r) (proposedAt r) (executed r) v (resolved r)
    (slashReason r) (appealWindowSnapshot r) (slashBurnBpsSnapshot r).
Definition set_resolved (v : bool) (r : SlashProposal) : SlashProposal :=
  mkProposal (sp_provider r) (sp_amount r) (sp_reason r) (proposedAt r) (executed r) (appealed r) v
    (slashReason r) (appealWindowSnapshot r) (slashBurnBpsSnapshot r).

Record ProviderInfo := mkProvider {
  stakedAmount : Z;   (** uint128 *)
  unbonding : Z;   (** [totalUnbonding], uint128 *)
  beneficiary : Addr;
  registeredAt : Z;   (** uint48 *)
  active : bool;
  nodeId : Z;   (** bytes32 *)
  region : Z;   (** bytes32 *)
  capabilities : Z;   (** uint64 *)
  frozen : bool
}.

Definition set_stakedAmount (v : Z) (r : ProviderInfo) : ProviderInfo :=
  mkProvider v (unbonding r) (beneficiary r) (registeredAt r) (active r) (nodeId r) (region r)
    (capabilities r) (frozen r).
Definition set_unbonding (v : Z) (r : ProviderInfo) : ProviderInfo :=
  mkProvider (stakedAmount r) v (beneficiary r) (registeredAt r) (active r) (nodeId r) (region r)
    (capabilities r) (frozen r).
Definition set_beneficiary (v : Addr) (r : ProviderInfo) : ProviderInfo :=
  mkProvider (stakedAmount r) (unbonding r) v (registeredAt r) (active r) (nodeId r) (region r)
    (capabilities r) (frozen r).
Definition set_registeredAt (v : Z) (r : ProviderInfo) : ProviderInfo :=
  mkProvider (stakedAmount r) (unbonding r) (beneficiary r) v (active r) (nodeId r) (region r)
    (capabilities r) (frozen r).
Definition set_active (v : bool) (r : ProviderInfo) : ProviderInfo :=
  mkProvider (stakedAmount r) (unbonding r) (beneficiary r) (registeredAt r) v (nodeId r) (region r)
    (capabilities r) (frozen r).
Definition set_nodeId (v : Z) (r : ProviderInfo) : ProviderInfo :=
  mkProvider (stakedAmount r) (unbonding r) (beneficiary r) (registeredAt r) (active r) v (region r)
    (capabilities r) (frozen r).
Definition set_region (v : Z) (r : ProviderInfo) : ProviderInfo :=
  mkProvider (stakedAmount r) (unbonding r) (beneficiary r) (registeredAt r) (active r) (nodeId r) v
    (capabilities r) (frozen r).
Definition set_capabilities (v : Z) (r : ProviderInfo) : ProviderInfo :=
  mkProvider (stakedAmount r) (unbonding r) (beneficiary r) (registeredAt r) (active r) (nodeId r)
    (region r) v (frozen r).
Definition set_frozen (v : bool) (r : ProviderInfo) : ProviderInfo :=
  mkProvider (stakedAmount r) (unbonding r) (beneficiary r) (registeredAt r) (active r) (nodeId r)
    (region r) (capabilities r) v.

Record VestedReward := mkVested {
  vr_total : Z;   (** uint128 *)
  vr_released : Z;   (** uint128 *)
  vestingStart : Z   (** uint48 *)
}.

Definition set_vr_released (v : Z) (r : VestedReward) : VestedReward :=
  mkVested (vr_total r) v (vestingStart r).

Definition no_provider : ProviderInfo := mkProvider 0 0 0 0 false 0 0 0 false.
Definition no_tier : TierConfig := mkTierConfig 0 0 0 false false.
Definition no_pending : PendingBeneficiary := mkPending 0 0.
Definition no_proposal : SlashProposal := mkProposal 0 0 "" 0 false false false ReasonNone 0 0.

(** ** Storage *)

Record Params := mkParams {
  unbondingPeriod : Z;
  slashBurnBps : Z;
  slashTreasuryBps : Z;
  maxTierMultiplierBps : Z;
  appealWindow : Z;
  treasury : Addr;
  tierConfigs : gmap Tier TierConfig;
  rewardsDuration : Z;
  slashPercentageBps : gmap SlashReason Z;
  slashingEnabled : bool;
  vestingPeriod : Z;
  immediateReleaseBps : Z;
  emissionMultiplier : Z;
  maxEmissionRate : Z
}.

Definition set_unbondingPeriod (v : Z) (r : Params) : Params :=
  mkParams v (slashBurnBps r) (slashTreasuryBps r) (maxTierMultiplierBps r) (appealWindow r)
    (treasury r) (tierConfigs r) (rewardsDuration r) (slashPercentageBps r) (slashingEnabled r)
    (vestingPeriod r) (immediateReleaseBps r) (emissionMultiplier r) (maxEmissionRate r).
Definition set_slashBurnBps (v : Z) (r : Params) : Params :=
  mkParams (unbondingPeriod r) v (slashTreasuryBps r) (maxTierMultiplierBps r) (appealWindow r)
    (treasury r) (tierConfigs r) (rewardsDuration r) (slashPercentageBps r) (slashingEnabled r)
    (vestingPeriod r) (immediateReleaseBps r) (emissionMultiplier r) (maxEmissionRate r).
Definition set_slashTreasuryBps (v : Z) (r : Params) : Params :=
  mkParams (unbondingPeriod r) (slashBurnBps r) v (maxTierMultiplierBps r) (appealWindow r)
    (treasury r) (tierConfigs r) (rewardsDuration r) (slashPercentageBps r) (slashingEnabled r)
    (vestingPeriod r) (immediateReleaseBps r) (emissionMultiplier r) (maxEmissionRate r).
Definition set_maxTierMultiplierBps (v : Z) (r : Params) : Params :=
  mkParams (unbondingPeriod r) (slashBurnBps r) (slashTreasuryBps r) v (appealWindow r) (treasury r)
    (tierConfigs r) (rewardsDuration r) (slashPercentageBps r) (slashingEnabled r) (vestingPeriod r)
    (immediateReleaseBps r) (emissionMultiplier r) (maxEmissionRate r).
Definition set_appealWindow (v : Z) (r : Params) : Params :=
  mkParams (unbondingPeriod r) (slashBurnBps r) (slashTreasuryBps r) (maxTierMultiplierBps r) v
    (treasury r) (tierConfigs r) (rewardsDuration r) (slashPercentageBps r) (slashingEnabled r)
    (vestingPeriod r) (immediateReleaseBps r) (emissionMultiplier r) (maxEmissionRate r).
Definition set_treasury (v : Addr) (r : Params) : Params :=
  mkParams (unbondingPeriod r) (slashBurnBps r) (slashTreasuryBps r) (maxTierMultiplierBps r)
    (appealWindow r) v (tierConfigs r) (rewardsDuration r) (slashPercentageBps r)
    (slashingEnabled r) (vestingPeriod r) (immediateReleaseBps r) (emissionMultiplier r)
    (maxEmissionRate r).
Definition set_tierConfigs (v : gmap Tier TierConfig) (r : Params) : Params :=
  mkParams (unbondingPeriod r) (slashBurnBps r) (slashTreasuryBps r) (maxTierMultiplierBps r)
    (appealWindow r) (treasury r) v (rewardsDuration r) (slashPercentageBps r) (slashingEnabled r)
    (vestingPeriod r) (immediateReleaseBps r) (emissionMultiplier r) (maxEmissionRate r).
Definition set_rewardsDuration (v : Z) (r : Params) : Params :=
  mkParams (unbondingPeriod r) (slashBurnBps r) (slashTreasuryBps r) (maxTierMultiplierBps r)
    (appealWindow r) (treasury r) (tierConfigs r) v (slashPercentageBps r) (slashingEnabled r)
    (vestingPeriod r) (immediateReleaseBps r) (emissionMultiplier r) (maxEmissionRate r).
Definition set_slashPercentageBps (v : gmap SlashReason Z) (r : Params) : Params :=
  mkParams (unbondingPeriod r) (slashBurnBps r) (slashTreasuryBps r) (maxTierMultiplierBps r)
    (appealWindow r) (treasury r) (tierConfigs r) (rewardsDuration r) v (slashingEnabled r)
    (vestingPeriod r) (immediateReleaseBps r) (emissionMultiplier r) (maxEmissionRate r).
Definition set_slashingEnabled (v : bool) (r : Params) : Params :=
  mkParams (unbondingPeriod r) (slashBurnBps r) (slashTreasuryBps r) (maxTierMultiplierBps r)
    (appealWindow r) (treasury r) (tierConfigs r) (rewardsDuration r) (slashPercentageBps r) v
    (vestingPeriod r) (immediateReleaseBps r) (emissionMultiplier r) (maxEmissionRate r).
Definition set_vestingPeriod (v : Z) (r : Params) : Params :=
  mkParams (unbondingPeriod r) (slashBurnBps r) (slashTreasuryBps r) (maxTierMultiplierBps r)
    (appealWindow r) (treasury r) (tierConfigs r) (rewardsDuration r) (slashPercentageBps r)
    (slashingEnabled r) v (immediateReleaseBps r) (emissionMultiplier r) (maxEmissionRate r).
Definition set_immediateReleaseBps (v : Z) (r : Params) : Params :=
  mkParams (unbondingPeriod r) (slashBurnBps r) (slashTreasuryBps r) (maxTierMultiplierBps r)
    (appealWindow r) (treasury r) (tierConfigs r) (rewardsDuration r) (slashPercentageBps r)
    (slashingEnabled r) (vestingPeriod r) v (emissionMultiplier r) (maxEmissionRate r).
Definition set_emissionMultiplier (v : Z) (r : Params) : Params :=
  mkParams (unbondingPeriod r) (slashBurnBps r) (slashTreasuryBps r) (maxTierMultiplierBps r)
    (appealWindow r) (treasury r) (tierConfigs r) (rewardsDuration r) (slashPercentageBps r)
    (slashingEnabled r) (vestingPeriod r) (immediateReleaseBps r) v (maxEmissionRate r).
Definition set_maxEmissionRate (v : Z) (r : Params) : Params :=
  mkParams (unbondingPeriod r) (slashBurnBps r) (slashTreasuryBps r) (maxTierMultiplierBps r)
    (appealWindow r) (treasury r) (tierConfigs r) (rewardsDuration r) (slashPercentageBps r)
    (slashingEnabled r) (vestingPeriod r) (immediateReleaseBps r) (emissionMultiplier r) v.

Record Stakes := mkStakes {
  totalStaked : Z;
  totalUnbonding : Z;
  providers : gmap Addr ProviderInfo;
  unstakeQueues : gmap Addr (list UnstakeRequest)
}.

Definition set_totalStaked (v : Z) (r : Stakes) : Stakes :=
  mkStakes v (totalUnbonding r) (providers r) (unstakeQueues r).
Definition set_totalUnbonding (v : Z) (r : Stakes) : Stakes :=
  mkStakes (totalStaked r) v (providers r) (unstakeQueues r).
Definition set_providers (v : gmap Addr ProviderInfo) (r : Stakes) : Stakes :=
  mkStakes (totalStaked r) (totalUnbonding r) v (unstakeQueues r).
Definition set_unstakeQueues (v : gmap Addr (list UnstakeRequest)) (r : Stakes) : Stakes :=
  mkStakes (totalStaked r) (totalUnbonding r) (providers r) v.

Record Rewards := mkRewards {
  rewardRate : Z;
  periodFinish : Z;
  lastUpdateTime : Z;
  rewardPerTokenStored : Z;   (** scaled by 1e18 *)
  userRewardPerTokenPaid : gmap Addr Z;
  rewards : gmap Addr Z;
  vestedRewards : gmap Addr (list VestedReward)
}.

Definition set_rewardRate (v : Z) (r : Rewards) : Rewards :=
  mkRewards v (periodFinish r) (lastUpdateTime r) (rewardPerTokenStored r)
    (userRewardPerTokenPaid r) (rewards r) (vestedRewards r).
Definition set_periodFinish (v : Z) (r : Rewards) : Rewards :=
  mkRewards (rewardRate r) v (lastUpdateTime r) (rewardPerTokenStored r) (userRewardPerTokenPaid r)
    (rewards r) (vestedRewards r).
Definition set_lastUpdateTime (v : Z) (r : Rewards) : Rewards :=
  mkRewards (rewardRate r) (periodFinish r) v (rewardPerTokenStored r) (userRewardPerTokenPaid r)
    (rewards r) (vestedRewards r).
Definition set_rewardPerTokenStored (v : Z) (r : Rewards) : Rewards :=
  mkRewards (rewardRate r) (periodFinish r) (lastUpdateTime r) v (userRewardPerTokenPaid r)
    (rewards r) (vestedRewards r).
Definition set_userRewardPerTokenPaid (v : gmap Addr Z) (r : Rewards) : Rewards :=
  mkRewards (rewardRate r) (periodFinish r) (lastUpdateTime r) (rewardPerTokenStored r) v
    (rewards r) (vestedRewards r).
Definition set_rewards (v : gmap Addr Z) (r : Rewards) : Rewards :=
  mkRewards (rewardRate r) (periodFinish r) (lastUpdateTime r) (rewardPerTokenStored r)
    (userRewardPerTokenPaid r) v (vestedRewards r).
Definition set_vestedRewards (v : gmap Addr (list VestedReward)) (r : Rewards) : Rewards :=
  mkRewards (rewardRate r) (periodFinish r) (lastUpdateTime r) (rewardPerTokenStored r)
    (userRewardPerTokenPaid r) (rewards r) v.

Record Records := mkRecords {
  slashProposalCount : Z;
  slashProposals : gmap Z SlashProposal;
  nodeIdToProvider : gmap Z Addr;
  pendingBeneficiaries : gmap Addr PendingBeneficiary;
  totalComputeHoursReported : Z
}.

Definition set_slashProposalCount (v : Z) (r : Records) : Records :=
  mkRecords v (slashProposals r) (nodeIdToProvider r) (pendingBeneficiaries r)
    (totalComputeHoursReported r).
Definition set_slashProposals (v : gmap Z SlashProposal) (r : Records) : Records :=
  mkRecords (slashProposalCount r) v (nodeIdToProvider r) (pendingBeneficiaries r)
    (totalComputeHoursReported r).
Definition set_nodeIdToProvider (v : gmap Z Addr) (r : Records) : Records :=
  mkRecords (slashProposalCount r) (slashProposals r) v (pendingBeneficiaries r)
    (totalComputeHoursReported r).
Definition set_pendingBeneficiaries (v : gmap Addr PendingBeneficiary) (r : Records) : Records :=
  mkRecords (slashProposalCount r) (slashProposals r) (nodeIdToProvider r) v
    (totalComputeHoursReported r).
Definition set_totalComputeHoursReported (v : Z) (r : Records) : Records :=
  mkRecords (slashProposalCount r) (slashProposals r) (nodeIdToProvider r) (pendingBeneficiaries r)
    v.

Record State := mkState { params : Params; stakes : Stakes; rw : Rewards; recs : Records }.

Definition on_params (f : Params → Params) (s : State) : State := mkState (f (params s)) (stakes s) (rw s) (recs s).
Definition on_stakes (f : Stakes → Stakes) (s : State) : State := mkState (params s) (f (stakes s)) (rw s) (recs s).
Definition on_rw (f : Rewards → Rewards) (s : State) : State := mkState (params s) (stakes s) (f (rw s)) (recs s).
Definition on_recs (f : Records → Records) (s : State) : State := mkState (params s) (stakes s) (rw s) (f (recs s)).

Definition provider (a : Addr) (s : State) : ProviderInfo := default no_provider (providers (stakes s) !! a).
Definition queue (a : Addr) (s : State) : list UnstakeRequest := default [] (unstakeQueues (stakes s) !! a).
Definition vested (a : Addr) (s : State) : list VestedReward := default [] (vestedRewards (rw s) !! a).
Definition tier_config (t : Tier) (s : State) : TierConfig := default no_tier (tierConfigs (params s) !! t).
Definition proposal (id : Z) (s : State) : SlashProposal := default no_proposal (slashProposals (recs s) !! id).
Definition pending (a : Addr) (s : State) : PendingBeneficiary :=
  default no_pending (pendingBeneficiaries (recs s) !! a).
Definition node_owner (n : Z) (s : State) : Addr := default 0%N (nodeIdToProvider (recs s) !! n).

Definition put_provider (a : Addr) (p : ProviderInfo) : State → State :=
  on_stakes (λ k, set_providers (<[a := p]> (providers k)) k).
Definition put_queue (a : Addr) (q : list UnstakeRequest) : State → State :=
  on_stakes (λ k, set_unstakeQueues (<[a := q]> (unstakeQueues k)) k).
Definition put_vested (a : Addr) (l : list VestedReward) : State → State :=
  on_rw (λ k, set_vestedRewards (<[a := l]> (vestedRewards k)) k).
Definition put_proposal (id : Z) (p : SlashProposal) : State → State :=
  on_recs (λ k, set_slashProposals (<[id := p]> (slashProposals k)) k).
Definition put_node (n : Z) (a : Addr) : State → State :=
  on_recs (λ k, set_nodeIdToProvider (<[n := a]> (nodeIdToProvider k)) k).

Inductive StakingErr :=
  | ZeroAmount | BelowMinimumStake | InsufficientStake | UnbondingNotReady | UnstakeAlreadyCompleted
  | InvalidUnstakeIndex | ProviderNotActive | BeneficiaryTimelockNotElapsed | NoPendingBeneficiaryChange
  | ZeroAddress | InsufficientSlashableBalance | NoRewardsToClaimError | RewardDurationNotFinished
  | RewardsDurationZero | RewardRateTooHigh | InvalidProposalId | ProposalAlreadyExecuted
  | ProposalAppealed | AppealWindowNotElapsed | AppealWindowElapsed | NotProposalProvider
  | ProposalAlreadyAppealed | ProposalNotAppealed | ProposalAlreadyResolved | CannotConfigureNoneTier
  | TierOrderViolation | NodeIdAlreadyClaimed | ProviderIsFrozen | InvalidSlashReason
  | InvalidImmediateReleaseBps | NoVestedRewardsClaimable | InvalidSlashPercentage
  | InvalidEmissionMultiplier | InvalidVestingPeriod | TooManyUnstakeRequests | UseUpdateIdentity
  | MultiplierTooLow | MultiplierTooHigh | InvalidMultiplierCap | InvalidUnbondingPeriod
  | InvalidFeeSplit | InvalidAppealWindow | SlashingNotEnabled.

(** The storage after the constructor. *)
Definition constructor (_token _treasury _initialOwner : Addr) : option State :=
  if (_token =? 0)%N || (_treasury =? 0)%N || (_initialOwner =? 0)%N then None
  else Some (mkState
    (mkParams (14 * days) 8000 2000 12000 (48 * hours) _treasury
       (list_to_map [
          (Starter, mkTierConfig (1000000 * 10 ^ 18) 3 10000 false false);
          (Bronze, mkTierConfig (5000000 * 10 ^ 18) 10 10000 false false);
          (Silver, mkTierConfig (10000000 * 10 ^ 18) 50 10500 true false);
          (Gold, mkTierConfig (100000000 * 10 ^ 18) 200 11000 true true);
          (Platinum, mkTierConfig (1000000000 * 10 ^ 18) 0 12000 true true)])
       (7 * days)
       (list_to_map [(Downtime, 100); (JobAbandonment, 500); (SLAViolation, 1000); (DataLoss, 2500);
                     (SecurityViolation, 5000); (Fraud, 10000)])
       false (90 * days) 2500 10000 0)
    (mkStakes 0 0 ∅ ∅)
    (mkRewards 0 0 0 0 ∅ ∅ ∅)
    (mkRecords 0 ∅ ∅ ∅ 0)).

(** ** Tiers *)

Definition min_stake (t : Tier) (s : State) : Z := minStake (tier_config t s).

Definition _getTier (stakeAmount : Z) (s : State) : Tier :=
  if min_stake Platinum s <=? stakeAmount then Platinum
  else if min_stake Gold s <=? stakeAmount then Gold
  else if min_stake Silver s <=? stakeAmount then Silver
  else if min_stake Bronze s <=? stakeAmount then Bronze
  else if min_stake Starter s <=? stakeAmount then Starter
  else TierNone.

Section Operations.
Context {T G : Type} `{Token T} `{BaseContracts G}.
(** The address of the contract. *)
Context (this : Addr).
Abbreviation M := (tx (chain State T G) StakingErr).

(** ** Rewards *)

Definition lastTimeRewardApplicable (now : Z) : M Z :=
  fin ← get (λ s, periodFinish (rw s)); mret (if now <? fin then now else fin).

Definition rewardPerToken (now : Z) : M Z :=
  total ← get (λ s, totalStaked (stakes s));
  stored ← get (λ s, rewardPerTokenStored (rw s));
  if total =? 0 then mret stored else
  applicable ← lastTimeRewardApplicable now;
  last ← get (λ s, lastUpdateTime (rw s));
  elapsed ← sub applicable last;
  rate ← get (λ s, rewardRate (rw s));
  x ← mul elapsed rate;
  y ← mul x (10 ^ 18);
  d ← div y total;
  add stored d.

Definition earned (now : Z) (p : Addr) : M Z :=
  stakedAmt ← get (λ s, stakedAmount (provider p s));
  per ← rewardPerToken now;
  paid ← get (λ s, default 0 (userRewardPerTokenPaid (rw s) !! p));
  delta ← sub per paid;
  x ← mul stakedAmt delta;
  newDelta ← div x (10 ^ 18);
  tier ← get (_getTier stakedAmt);
  newDelta ← (if decide (tier = TierNone) then mret newDelta else
    multiplierBps ← get (λ s, rewardMultiplierBps (tier_config tier s));
    y ← mul newDelta multiplierBps;
    div y BPS_DENOMINATOR);
  old ← get (λ s, default 0 (rewards (rw s) !! p));
  add newDelta old.

(** The modifier [updateReward]; [_doUpdateReward] has the same body. *)
Definition updateReward (now : Z) (account : Addr) : M unit :=
  per ← rewardPerToken now;
  put (on_rw (set_rewardPerTokenStored per));;
  applicable ← lastTimeRewardApplicable now;
  put (on_rw (set_lastUpdateTime applicable));;
  when (negb (account =? 0)%N) (
    e ← earned now account;
    put (on_rw (λ r, set_rewards (<[account := e]> (rewards r)) r));;
    stored ← get (λ s, rewardPerTokenStored (rw s));
    put (on_rw (λ r, set_userRewardPerTokenPaid (<[account := stored]> (userRewardPerTokenPaid r)) r))).
Definition _doUpdateReward : Z → Addr → M unit := updateReward.

(** ** Staking *)

(** The part of [stake] and [stakeWithIdentity] after the registration. *)
Definition add_stake (msg : message) (amount newTotal : Z) (info : ProviderInfo) : M unit :=
  put (put_provider (sender msg) (set_stakedAmount (uint 128 newTotal) info));;
  total ← get (λ s, totalStaked (stakes s));
  total ← add total amount;
  put (on_stakes (set_totalStaked total));;
  safeTransferFrom this (sender msg) this amount.

Definition register (msg : message) (info : ProviderInfo) : ProviderInfo :=
  set_registeredAt (uint 48 (timestamp msg)) (set_beneficiary (sender msg) (set_active true info)).

Definition stake (msg : message) (amount : Z) : M unit :=
  whenNotPaused;;
  updateReward (timestamp msg) (sender msg);;
  revert_if (amount =? 0) ZeroAmount;;
  info ← get (provider (sender msg));
  revert_if (frozen info) ProviderIsFrozen;;
  newTotal ← add (stakedAmount info) amount;
  minimum ← get (min_stake Starter);
  revert_if (negb (active info) && (newTotal <? minimum)) BelowMinimumStake;;
  add_stake msg amount newTotal (if active info then info else register msg info).

Definition stakeWithIdentity (msg : message) (amount node regn caps : Z) : M unit :=
  whenNotPaused;;
  updateReward (timestamp msg) (sender msg);;
  revert_if (amount =? 0) ZeroAmount;;
  info ← get (provider (sender msg));
  revert_if (frozen info) ProviderIsFrozen;;
  newTotal ← add (stakedAmount info) amount;
  minimum ← get (min_stake Starter);
  if active info then
    revert_if (negb (node =? 0)) UseUpdateIdentity;;
    add_stake msg amount newTotal info
  else
    revert_if (newTotal <? minimum) BelowMinimumStake;;
    let info := register msg info in
    if node =? 0 then add_stake msg amount newTotal info
    else
      holder ← get (node_owner node);
      revert_if (negb (holder =? 0)%N) NodeIdAlreadyClaimed;;
      put (put_node node (sender msg));;
      add_stake msg amount newTotal
        (set_nodeId node (set_region regn (set_capabilities caps info))).

Definition updateIdentity (msg : message) (node regn caps : Z) : M unit :=
  info ← get (provider (sender msg));
  revert_if (negb (active info)) ProviderNotActive;;
  revert_if (frozen info) ProviderIsFrozen;;
  (if node =? nodeId info then mret tt
   else
     holder ← get (node_owner node);
     revert_if (negb (node =? 0) && negb (holder =? 0)%N) NodeIdAlreadyClaimed;;
     when (negb (nodeId info =? 0)) (put (put_node (nodeId info) 0%N));;
     when (negb (node =? 0)) (put (put_node node (sender msg))));;
  put (put_provider (sender msg) (set_nodeId node (set_region regn (set_capabilities caps info)))).

Definition requestUnstake (msg : message) (amount : Z) : M unit :=
  whenNotPaused;;
  updateReward (timestamp msg) (sender msg);;
  revert_if (amount =? 0) ZeroAmount;;
  info ← get (provider (sender msg));
  revert_if (negb (active info)) ProviderNotActive;;
  revert_if (frozen info) ProviderIsFrozen;;
  revert_if (stakedAmount info <? amount) InsufficientStake;;
  left ← sub (stakedAmount info) (uint 128 amount);
  unb ← add_width 128 (unbonding info) (uint 128 amount);
  total ← get (λ s, totalStaked (stakes s));
  total ← sub total amount;
  totalUnb ← get (λ s, totalUnbonding (stakes s));
  totalUnb ← add totalUnb amount;
  put (on_stakes (λ k, set_totalUnbonding totalUnb (set_totalStaked total k)));;
  minimum ← get (min_stake Starter);
  let info := set_unbonding unb (set_stakedAmount left info) in
  put (put_provider (sender msg) (if left <? minimum then set_active false info else info));;
  q ← get (queue (sender msg));
  revert_if (50 <? Z.of_nat (length q)) TooManyUnstakeRequests;;
  period ← get (λ s, unbondingPeriod (params s));
  t ← add (timestamp msg) period;
  put (put_queue (sender msg) (q ++ [mkRequest (uint 128 amount) (uint 48 t) false])).

Definition completeUnstake (msg : message) (requestIndex : Z) : M unit :=
  info ← get (provider (sender msg));
  revert_if (frozen info) ProviderIsFrozen;;
  q ← get (queue (sender msg));
  revert_if (Z.of_nat (length q) <=? requestIndex) InvalidUnstakeIndex;;
  req ← of_option IndexPanic (q !! Z.to_nat requestIndex);
  revert_if (completed req) UnstakeAlreadyCompleted;;
  revert_if (timestamp msg <? unlockTime req) UnbondingNotReady;;
  let amount := ur_amount req in
  put (put_queue (sender msg) (<[Z.to_nat requestIndex := mkRequest amount (unlockTime req) true]> q));;
  unb ← sub (unbonding info) (uint 128 amount);
  put (put_provider (sender msg) (set_unbonding unb info));;
  totalUnb ← get (λ s, totalUnbonding (stakes s));
  totalUnb ← sub totalUnb amount;
  put (on_stakes (set_totalUnbonding totalUnb));;
  safeTransfer this (sender msg) amount.

(** ** Beneficiaries and freezing *)

Definition initiateBeneficiaryChange (msg : message) (b : Addr) : M unit :=
  revert_if (b =? 0)%N ZeroAddress;;
  info ← get (provider (sender msg));
  revert_if (negb (active info)) ProviderNotActive;;
  t ← add (timestamp msg) BENEFICIARY_TIMELOCK;
  put (on_recs (λ r, set_pendingBeneficiaries
    (<[sender msg := mkPending b (uint 48 t)]> (pendingBeneficiaries r)) r)).

Definition executeBeneficiaryChange (msg : message) : M unit :=
  p ← get (pending (sender msg));
  revert_if (newBeneficiary p =? 0)%N NoPendingBeneficiaryChange;;
  revert_if (timestamp msg <? effectiveTime p) BeneficiaryTimelockNotElapsed;;
  info ← get (provider (sender msg));
  put (put_provider (sender msg) (set_beneficiary (newBeneficiary p) info));;
  put (on_recs (λ r, set_pendingBeneficiaries (delete (sender msg) (pendingBeneficiaries r)) r)).

Definition freezeProvider (msg : message) (p : Addr) : M unit :=
  onlyRole SLASHER_ROLE msg;;
  info ← get (provider p);
  revert_if (negb (active info)) ProviderNotActive;;
  put (put_provider p (set_frozen true info)).

Definition unfreezeProvider (msg : message) (p : Addr) : M unit :=
  onlyOwner msg;;
  info ← get (provider p);
  put (put_provider p (set_frozen false info)).

(** ** Vesting *)

(** The amount of one entry that has vested by [now]. *)
Definition _vestedAmount (now : Z) (entry : VestedReward) : M Z :=
  period ← get (λ s, vestingPeriod (params s));
  if period =? 0 then mret (vr_total entry) else
  elapsed ← sub now (vestingStart entry);
  if period <=? elapsed then mret (vr_total entry) else
  x ← mul (vr_total entry) elapsed;
  div x period.

(** The loop of [_forfeitUnvestedRewards] over the entries: the entries
    afterwards and the amount forfeited. *)
Fixpoint forfeit_entries (now : Z) (entries : list VestedReward) (forfeited : Z)
    : M (list VestedReward * Z) :=
  match entries with
  | [] => mret ([], forfeited)
  | entry :: rest =>
    v ← _vestedAmount now entry;
    unvested ← sub (vr_total entry) v;
    if 0 <? unvested then
      forfeited ← add forfeited unvested;
      r ← forfeit_entries now rest forfeited;
      mret (set_vr_released (vr_total entry) entry :: r.1, r.2)
    else
      r ← forfeit_entries now rest forfeited;
      mret (entry :: r.1, r.2)
  end.

Definition _forfeitUnvestedRewards (now : Z) (p : Addr) : M Z :=
  entries ← get (vested p);
  r ← forfeit_entries now entries 0;
  put (put_vested p r.1);;
  mret r.2.

(** The first loop of [claimVestedRewards]. *)
Fixpoint release_entries (now : Z) (entries : list VestedReward) (total : Z)
    : M (list VestedReward * Z) :=
  match entries with
  | [] => mret ([], total)
  | entry :: rest =>
    v ← _vestedAmount now entry;
    claimable ← sub v (vr_released entry);
    if 0 <? claimable then
      released ← add_width 128 (vr_released entry) (uint 128 claimable);
      total ← add total claimable;
      r ← release_entries now rest total;
      mret (set_vr_released released entry :: r.1, r.2)
    else
      r ← release_entries now rest total;
      mret (entry :: r.1, r.2)
  end.

Definition fully_claimed (e : VestedReward) : bool := vr_released e =? vr_total e.

(** The compaction loop: a finished entry is replaced by the last one, which is
    popped; each round shortens the array or moves [j] on. *)
Fixpoint compact (fuel : nat) (j : nat) (entries : list VestedReward) : list VestedReward :=
  match fuel with
  | O => entries
  | S fuel =>
    match entries !! j, last entries with
    | Some e, Some e' =>
      if fully_claimed e then compact fuel j (removelast (<[j := e']> entries))
      else compact fuel (S j) entries
    | _, _ => entries
    end
  end.

Definition claimRewards (msg : message) : M unit :=
  updateReward (timestamp msg) (sender msg);;
  info ← get (provider (sender msg));
  revert_if (frozen info) ProviderIsFrozen;;
  reward ← get (λ s, default 0 (rewards (rw s) !! sender msg));
  revert_if (reward =? 0) NoRewardsToClaimError;;
  put (on_rw (λ r, set_rewards (<[sender msg := 0]> (rewards r)) r));;
  bps ← get (λ s, immediateReleaseBps (params s));
  x ← mul reward bps;
  immediateAmount ← div x BPS_DENOMINATOR;
  vestedAmount ← sub reward immediateAmount;
  pay this (sender msg) immediateAmount;;
  when (0 <? vestedAmount) (
    entries ← get (vested (sender msg));
    put (put_vested (sender msg)
      (entries ++ [mkVested (uint 128 vestedAmount) 0 (uint 48 (timestamp msg))]))).

Definition claimVestedRewards (msg : message) : M unit :=
  info ← get (provider (sender msg));
  revert_if (frozen info) ProviderIsFrozen;;
  entries ← get (vested (sender msg));
  r ← release_entries (timestamp msg) entries 0;
  revert_if (r.2 =? 0) NoVestedRewardsClaimable;;
  put (put_vested (sender msg) (compact (length r.1) 0 r.1));;
  safeTransfer this (sender msg) r.2.

(** The loop of [getClaimableVested]. *)
Fixpoint claimable_entries (now : Z) (entries : list VestedReward) (claimable : Z) : M Z :=
  match entries with
  | [] => mret claimable
  | entry :: rest =>
    v ← _vestedAmount now entry;
    c ← sub v (vr_released entry);
    claimable ← add claimable c;
    claimable_entries now rest claimable
  end.

Definition getClaimableVested (now : Z) (p : Addr) : M Z :=
  entries ← get (vested p); claimable_entries now entries 0.
Definition getVestedRewardCount (p : Addr) : M Z := get (λ s, Z.of_nat (length (vested p s))).

(** ** Slashing *)

(** The loop over the unbonding queue, newest request first, from index [i - 1]
    down: what remains to be taken afterwards. *)
Fixpoint slash_queue (p : Addr) (i : nat) (remaining : Z) : M Z :=
  match i with
  | O => mret remaining
  | S i =>
    if remaining <=? 0 then mret remaining else
    q ← get (queue p);
    req ← of_option IndexPanic (q !! i);
    if completed req then slash_queue p i remaining else
    let fromReq := if ur_amount req <? remaining then ur_amount req else remaining in
    left ← sub (ur_amount req) (uint 128 fromReq);
    info ← get (provider p);
    unb ← sub (unbonding info) (uint 128 fromReq);
    put (put_provider p (set_unbonding unb info));;
    totalUnb ← get (λ s, totalUnbonding (stakes s));
    totalUnb ← sub totalUnb fromReq;
    put (on_stakes (set_totalUnbonding totalUnb));;
    remaining ← sub remaining fromReq;
    put (put_queue p (<[i := mkRequest left (unlockTime req) (left =? 0)]> q));;
    slash_queue p i remaining
  end.

(** Step 1: the active stake. *)
Definition slash_active (p : Addr) (amount : Z) : M Z :=
  info ← get (provider p);
  if (0 <? amount) && (0 <? stakedAmount info) then
    let fromActive := if stakedAmount info <? amount then stakedAmount info else amount in
    left ← sub (stakedAmount info) (uint 128 fromActive);
    put (put_provider p (set_stakedAmount left info));;
    total ← get (λ s, totalStaked (stakes s));
    total ← sub total fromActive;
    put (on_stakes (set_totalStaked total));;
    sub amount fromActive
  else mret amount.

(** Steps 1 and 2. *)
Definition slash_books (p : Addr) (amount : Z) : M unit :=
  remaining ← slash_active p amount;
  n ← get (λ s, length (queue p s));
  if 0 <? remaining then slash_queue p n remaining;; mret tt else mret tt.

(** A provider below the minimum is deactivated. *)
Definition deactivate_below (p : Addr) : M unit :=
  info ← get (provider p);
  minimum ← get (min_stake Starter);
  when ((stakedAmount info <? minimum) && active info) (put (put_provider p (set_active false info))).

(** The slashed tokens: a part is burned, the rest goes to the treasury. *)
Definition distribute_slash (totalSlashAmount burnBps : Z) : M unit :=
  y ← mul totalSlashAmount burnBps;
  burnAmount ← div y BPS_DENOMINATOR;
  treasuryAmount ← sub totalSlashAmount burnAmount;
  burnTokens this burnAmount;;
  to ← get (λ s, treasury (params s));
  pay this to treasuryAmount.

Definition _executeSlash (now : Z) (p : Addr) (amount burnBps : Z) : M unit :=
  revert_if (amount =? 0) ZeroAmount;;
  info ← get (provider p);
  slashableTotal ← add (stakedAmount info) (unbonding info);
  revert_if (slashableTotal <? amount) InsufficientSlashableBalance;;
  slash_books p amount;;
  forfeitedAmount ← _forfeitUnvestedRewards now p;
  balance ← token_balance this;
  total ← get (λ s, totalStaked (stakes s));
  x ← sub balance total;
  totalUnb ← get (λ s, totalUnbonding (stakes s));
  availableForForfeit ← sub x totalUnb;
  let forfeitedAmount :=
    if availableForForfeit <? forfeitedAmount then availableForForfeit else forfeitedAmount in
  deactivate_below p;;
  totalSlashAmount ← add amount forfeitedAmount;
  distribute_slash totalSlashAmount burnBps.

Definition slashImmediate (msg : message) (p : Addr) (amount : Z) : M unit :=
  onlyRole SLASHER_ROLE msg;;
  updateReward (timestamp msg) p;;
  enabled ← get (λ s, slashingEnabled (params s));
  revert_if (negb enabled) SlashingNotEnabled;;
  burnBps ← get (λ s, uint 16 (slashBurnBps (params s)));
  _executeSlash (timestamp msg) p amount burnBps.

Definition slash (msg : message) (p : Addr) (amount : Z) : M unit :=
  onlyRole SLASHER_ROLE msg;;
  updateReward (timestamp msg) p;;
  enabled ← get (λ s, slashingEnabled (params s));
  revert_if (negb enabled) SlashingNotEnabled;;
  burnBps ← get (λ s, uint 16 (slashBurnBps (params s)));
  _executeSlash (timestamp msg) p amount burnBps.

(** ** Proposals and appeals *)

(** [proposalId = slashProposalCount++; slashProposals[proposalId] = ...] *)
Definition new_proposal (msg : message) (p : Addr) (amount : Z) (text : string) (why : SlashReason) : M Z :=
  id ← get (λ s, slashProposalCount (recs s));
  next ← add id 1;
  put (on_recs (set_slashProposalCount next));;
  window ← get (λ s, appealWindow (params s));
  burnBps ← get (λ s, uint 16 (slashBurnBps (params s)));
  put (put_proposal id (mkProposal p amount text (timestamp msg) false false false why window burnBps));;
  mret id.

Definition proposeSlash (msg : message) (p : Addr) (amount : Z) (text : string) : M Z :=
  onlyRole SLASHER_ROLE msg;;
  revert_if (amount =? 0) ZeroAmount;;
  info ← get (provider p);
  slashableTotal ← add (stakedAmount info) (unbonding info);
  revert_if (slashableTotal <? amount) InsufficientSlashableBalance;;
  new_proposal msg p amount text ReasonNone.

Definition proposeSlashByReason (msg : message) (p : Addr) (why : SlashReason) : M Z :=
  onlyRole SLASHER_ROLE msg;;
  revert_if (bool_decide (why = ReasonNone)) InvalidSlashReason;;
  info ← get (provider p);
  pct ← get (λ s, default 0 (slashPercentageBps (params s) !! why));
  x ← mul (stakedAmount info) pct;
  amount ← div x BPS_DENOMINATOR;
  revert_if (amount =? 0) ZeroAmount;;
  slashableTotal ← add (stakedAmount info) (unbonding info);
  revert_if (slashableTotal <? amount) InsufficientSlashableBalance;;
  new_proposal msg p amount "" why.

Definition _getValidProposal (id : Z) : M SlashProposal :=
  count ← get (λ s, slashProposalCount (recs s));
  revert_if (count <=? id) InvalidProposalId;;
  get (proposal id).

(** The common end of [executeSlash] and of an upheld appeal. *)
Definition run_proposal (now : Z) (pr : SlashProposal) : M unit :=
  _doUpdateReward now (sp_provider pr);;
  info ← get (provider (sp_provider pr));
  slashableTotal ← add (stakedAmount info) (unbonding info);
  let actualAmount := if slashableTotal <? sp_amount pr then slashableTotal else sp_amount pr in
  when (0 <? actualAmount) (_executeSlash now (sp_provider pr) actualAmount (slashBurnBpsSnapshot pr)).

Definition executeSlash (msg : message) (id : Z) : M unit :=
  onlyRole SLASHER_ROLE msg;;
  enabled ← get (λ s, slashingEnabled (params s));
  revert_if (negb enabled) SlashingNotEnabled;;
  pr ← _getValidProposal id;
  revert_if (executed pr) ProposalAlreadyExecuted;;
  revert_if (appealed pr) ProposalAppealed;;
  windowEnd ← add (proposedAt pr) (appealWindowSnapshot pr);
  revert_if (timestamp msg <? windowEnd) AppealWindowNotElapsed;;
  put (put_proposal id (set_executed true pr));;
  run_proposal (timestamp msg) pr.

Definition appealSlash (msg : message) (id : Z) : M unit :=
  pr ← _getValidProposal id;
  revert_if (executed pr) ProposalAlreadyExecuted;;
  revert_if (appealed pr) ProposalAlreadyAppealed;;
  revert_if (negb (sender msg =? sp_provider pr)%N) NotProposalProvider;;
  windowEnd ← add (proposedAt pr) (appealWindowSnapshot pr);
  revert_if (windowEnd <=? timestamp msg) AppealWindowElapsed;;
  put (put_proposal id (set_appealed true pr)).

Definition resolveAppeal (msg : message) (id : Z) (uphold : bool) : M unit :=
  onlyOwner msg;;
  pr ← _getValidProposal id;
  revert_if (negb (appealed pr)) ProposalNotAppealed;;
  revert_if (resolved pr) ProposalAlreadyResolved;;
  revert_if (executed pr) ProposalAlreadyExecuted;;
  put (put_proposal id (set_resolved true pr));;
  when uphold (
    enabled ← get (λ s, slashingEnabled (params s));
    revert_if (negb enabled) SlashingNotEnabled;;
    put (put_proposal id (set_executed true (set_resolved true pr)));;
    run_proposal (timestamp msg) pr).

Definition getSlashProposal (id : Z) : M SlashProposal := get (proposal id).

(** ** Reward epochs and administration *)

(** The tokens beyond the stakes. *)
Definition reward_balance : M Z :=
  balance ← token_balance this;
  total ← get (λ s, totalStaked (stakes s));
  totalUnb ← get (λ s, totalUnbonding (stakes s));
  lockedStake ← add total totalUnb;
  if lockedStake <? balance then sub balance lockedStake else mret 0.

(** The check that the pool covers an epoch at the highest multiplier. *)
Definition check_liability (rate maxBps : Z) : M unit :=
  rewardBalance ← reward_balance;
  duration ← get (λ s, rewardsDuration (params s));
  x ← mul rate duration;
  y ← mul x maxBps;
  maxLiability ← div y BPS_DENOMINATOR;
  revert_if (rewardBalance <? maxLiability) RewardRateTooHigh.

Definition notifyRewardAmount (msg : message) (reward : Z) : M unit :=
  onlyOwner msg;;
  updateReward (timestamp msg) 0%N;;
  duration ← get (λ s, rewardsDuration (params s));
  revert_if (duration =? 0) RewardsDurationZero;;
  multiplier ← get (λ s, emissionMultiplier (params s));
  x ← mul reward multiplier;
  adjustedReward ← div x BPS_DENOMINATOR;
  fin ← get (λ s, periodFinish (rw s));
  rate ← (if fin <=? timestamp msg then div adjustedReward duration
          else
            remaining ← sub fin (timestamp msg);
            oldRate ← get (λ s, rewardRate (rw s));
            leftover ← mul remaining oldRate;
            y ← add adjustedReward leftover;
            div y duration);
  cap ← get (λ s, maxEmissionRate (params s));
  let rate := if (0 <? cap) && (cap <? rate) then cap else rate in
  put (on_rw (set_rewardRate rate));;
  maxBps ← get (λ s, maxTierMultiplierBps (params s));
  check_liability rate maxBps;;
  put (on_rw (set_lastUpdateTime (timestamp msg)));;
  fin ← add (timestamp msg) duration;
  put (on_rw (set_periodFinish fin)).

Definition setRewardsDuration (msg : message) (d : Z) : M unit :=
  onlyOwner msg;;
  revert_if (d =? 0) RewardsDurationZero;;
  fin ← get (λ s, periodFinish (rw s));
  revert_if (timestamp msg <? fin) RewardDurationNotFinished;;
  put (on_params (set_rewardsDuration d)).

Definition setVestingParams (msg : message) (period immediateBps : Z) : M unit :=
  onlyOwner msg;;
  revert_if (BPS_DENOMINATOR <? immediateBps) InvalidImmediateReleaseBps;;
  revert_if ((0 <? period) && (period <? 1 * minutes)) InvalidVestingPeriod;;
  put (on_params (λ p, set_immediateReleaseBps immediateBps (set_vestingPeriod period p))).

Definition reportComputeHours (msg : message) (n : Z) : M unit :=
  onlyRole SLASHER_ROLE msg;;
  total ← get (λ s, totalComputeHoursReported (recs s));
  total ← add total n;
  put (on_recs (set_totalComputeHoursReported total)).

Definition setEmissionMultiplier (msg : message) (bps : Z) : M unit :=
  onlyOwner msg;;
  revert_if ((bps =? 0) || (MAX_EMISSION_MULTIPLIER <? bps)) InvalidEmissionMultiplier;;
  put (on_params (set_emissionMultiplier bps)).

Definition setMaxEmissionRate (msg : message) (maxRate : Z) : M unit :=
  onlyOwner msg;; put (on_params (set_maxEmissionRate maxRate)).

Definition setSlashPercentage (msg : message) (why : SlashReason) (bps : Z) : M unit :=
  onlyOwner msg;;
  revert_if (bool_decide (why = ReasonNone)) InvalidSlashReason;;
  revert_if (BPS_DENOMINATOR <? bps) InvalidSlashPercentage;;
  put (on_params (λ p, set_slashPercentageBps (<[why := bps]> (slashPercentageBps p)) p)).

Definition setTreasury (msg : message) (a : Addr) : M unit :=
  onlyOwner msg;;
  revert_if (a =? 0)%N ZeroAddress;;
  put (on_params (set_treasury a)).

Definition put_tier (t : Tier) (c : TierConfig) : State → State :=
  on_params (λ p, set_tierConfigs (<[t := c]> (tierConfigs p)) p).

Definition setTierMinStake (msg : message) (t : Tier) (m : Z) : M unit :=
  onlyOwner msg;;
  revert_if (bool_decide (t = TierNone)) CannotConfigureNoneTier;;
  let tierVal := tier_num t in
  (if 1 <? tierVal then
     below ← of_option IndexPanic (tier_of_num (tierVal - 1));
     lo ← get (min_stake below);
     revert_if (m <=? lo) TierOrderViolation
   else mret tt);;
  (if tierVal <? tier_num Platinum then
     above ← of_option IndexPanic (tier_of_num (tierVal + 1));
     hi ← get (min_stake above);
     revert_if (hi <=? m) TierOrderViolation
   else mret tt);;
  c ← get (tier_config t);
  put (put_tier t (set_minStake m c)).

Definition setTierRewardMultiplier (msg : message) (t : Tier) (bps : Z) : M unit :=
  onlyOwner msg;;
  revert_if (bool_decide (t = TierNone)) CannotConfigureNoneTier;;
  revert_if (bps <? BPS_DENOMINATOR) MultiplierTooLow;;
  cap ← get (λ s, maxTierMultiplierBps (params s));
  revert_if (cap <? bps) MultiplierTooHigh;;
  c ← get (tier_config t);
  put (put_tier t (set_rewardMultiplierBps bps c)).

Definition setMaxTierMultiplierBps (msg : message) (newMax : Z) : M unit :=
  onlyOwner msg;;
  revert_if ((newMax <? BPS_DENOMINATOR) || (20000 <? newMax)) InvalidMultiplierCap;;
  fin ← get (λ s, periodFinish (rw s));
  rate ← get (λ s, rewardRate (rw s));
  when ((timestamp msg <? fin) && (0 <? rate)) (check_liability rate newMax);;
  put (on_params (set_maxTierMultiplierBps newMax)).

Definition setUnbondingPeriod (msg : message) (period : Z) : M unit :=
  onlyOwner msg;;
  revert_if ((period <? 1 * minutes) || (90 * days <? period)) InvalidUnbondingPeriod;;
  put (on_params (set_unbondingPeriod period)).

Definition setSlashFeeSplit (msg : message) (burnBps treasuryBps : Z) : M unit :=
  onlyOwner msg;;
  revert_if (negb (burnBps + treasuryBps =? BPS_DENOMINATOR)) InvalidFeeSplit;;
  put (on_params (λ p, set_slashTreasuryBps treasuryBps (set_slashBurnBps burnBps p))).

Definition setAppealWindow (msg : message) (window : Z) : M unit :=
  onlyOwner msg;;
  revert_if ((window <? 1 * minutes) || (14 * days <? window)) InvalidAppealWindow;;
  put (on_params (set_appealWindow window)).

Definition setSlashingEnabled (msg : message) (b : bool) : M unit :=
  onlyOwner msg;; put (on_params (set_slashingEnabled b)).

Definition pause (msg : message) : M unit := onlyOwner msg;; set_pause true.
Definition unpause (msg : message) : M unit := onlyOwner msg;; set_pause false.

(** ** Views *)

Definition getTier (p : Addr) : M Tier := get (λ s, _getTier (stakedAmount (provider p s)) s).
Definition getTierForAmount (n : Z) : M Tier := get (_getTier n).
Definition getProviderInfo (p : Addr) : M ProviderInfo := get (provider p).
Definition getUnstakeQueueLength (p : Addr) : M Z := get (λ s, Z.of_nat (length (queue p s))).
Definition getUnstakeRequest (p : Addr) (index : Z) : M UnstakeRequest :=
  q ← get (queue p); of_option IndexPanic (q !! Z.to_nat index).
Definition getSlashableBalance (p : Addr) : M Z :=
  info ← get (provider p); add (stakedAmount info) (unbonding info).
Definition isActiveProvider (p : Addr) : M bool := get (λ s, active (provider p s)).

(** ** Calls

    Every state-changing call, with its arguments at their types: amounts are
    [uint256], identities [bytes32], basis points [uint16]. *)

Inductive call :=
  | CallStake (amount : Z)
  | CallStakeWithIdentity (amount node regn caps : Z)
  | CallUpdateIdentity (node regn caps : Z)
  | CallRequestUnstake (amount : Z)
  | CallCompleteUnstake (index : Z)
  | CallInitiateBeneficiary (b : Addr)
  | CallExecuteBeneficiary
  | CallFreeze (p : Addr)
  | CallUnfreeze (p : Addr)
  | CallSlashImmediate (p : Addr) (amount : Z)
  | CallSlash (p : Addr) (amount : Z)
  | CallPropose (p : Addr) (amount : Z) (text : string)
  | CallProposeByReason (p : Addr) (why : SlashReason)
  | CallExecuteSlash (id : Z)
  | CallAppeal (id : Z)
  | CallResolve (id : Z) (uphold : bool)
  | CallClaimRewards
  | CallClaimVested
  | CallNotify (reward : Z)
  | CallReportHours (n : Z)
  | CallSetRewardsDuration (d : Z)
  | CallSetVesting (period bps : Z)
  | CallSetEmission (bps : Z)
  | CallSetMaxRate (rate : Z)
  | CallSetSlashPercentage (why : SlashReason) (bps : Z)
  | CallSetTreasury (a : Addr)
  | CallSetTierMin (t : Tier) (m : Z)
  | CallSetTierMultiplier (t : Tier) (bps : Z)
  | CallSetMaxMultiplier (bps : Z)
  | CallSetUnbonding (period : Z)
  | CallSetSplit (burnBps treasuryBps : Z)
  | CallSetWindow (window : Z)
  | CallSetSlashing (b : bool)
  | CallPause (b : bool).

Definition call_wf (c : call) : Prop :=
  match c with
  | CallStake a | CallRequestUnstake a | CallCompleteUnstake a | CallSlashImmediate _ a | CallSlash _ a
  | CallPropose _ a _ | CallExecuteSlash a | CallAppeal a | CallResolve a _ | CallNotify a
  | CallReportHours a | CallSetRewardsDuration a | CallSetEmission a | CallSetMaxRate a
  | CallSetSlashPercentage _ a | CallSetTierMin _ a | CallSetTierMultiplier _ a | CallSetMaxMultiplier a
  | CallSetUnbonding a | CallSetWindow a => 0 ≤ a
  | CallSetVesting a b | CallSetSplit a b => 0 ≤ a ∧ 0 ≤ b
  | CallStakeWithIdentity a node _ _ => 0 ≤ a ∧ 0 ≤ node
  | CallUpdateIdentity node _ _ => 0 ≤ node
  | _ => True
  end.

Definition exec (msg : message) (c : call) : M unit :=
  match c with
  | CallStake a => stake msg a
  | CallStakeWithIdentity a n r k => stakeWithIdentity msg a n r k
  | CallUpdateIdentity n r k => updateIdentity msg n r k
  | CallRequestUnstake a => requestUnstake msg a
  | CallCompleteUnstake i => completeUnstake msg i
  | CallInitiateBeneficiary b => initiateBeneficiaryChange msg b
  | CallExecuteBeneficiary => executeBeneficiaryChange msg
  | CallFreeze p => freezeProvider msg p
  | CallUnfreeze p => unfreezeProvider msg p
  | CallSlashImmediate p a => slashImmediate msg p a
  | CallSlash p a => slash msg p a
  | CallPropose p a t => proposeSlash msg p a t;; mret tt
  | CallProposeByReason p r => proposeSlashByReason msg p r;; mret tt
  | CallExecuteSlash id => executeSlash msg id
  | CallAppeal id => appealSlash msg id
  | CallResolve id b => resolveAppeal msg id b
  | CallClaimRewards => claimRewards msg
  | CallClaimVested => claimVestedRewards msg
  | CallNotify r => notifyRewardAmount msg r
  | CallReportHours n => reportComputeHours msg n
  | CallSetRewardsDuration d => setRewardsDuration msg d
  | CallSetVesting p b => setVestingParams msg p b
  | CallSetEmission b => setEmissionMultiplier msg b
  | CallSetMaxRate r => setMaxEmissionRate msg r
  | CallSetSlashPercentage r b => setSlashPercentage msg r b
  | CallSetTreasury a => setTreasury msg a
  | CallSetTierMin t m => setTierMinStake msg t m
  | CallSetTierMultiplier t b => setTierRewardMultiplier msg t b
  | CallSetMaxMultiplier b => setMaxTierMultiplierBps msg b
  | CallSetUnbonding p => setUnbondingPeriod msg p
  | CallSetSplit a b => setSlashFeeSplit msg a b
  | CallSetWindow w => setAppealWindow msg w
  | CallSetSlashing b => setSlashingEnabled msg b
  | CallPause true => pause msg
  | CallPause false => unpause msg
  end.

(** A history: calls, which commit or revert, and what happens elsewhere: the
    token moves (the contract's own tokens move only through its calls, but
    anybody may send it some) and roles and ownership change.  No account ever
    holds more than the token's cap. *)
Inductive step : chain State T G → chain State T G → Prop :=
  | step_call msg c w : call_wf c → sender msg ≠ this → sender msg ≠ 0%N → 0 ≤ timestamp msg →
      (∀ a, balanceOf (tok w) a ≤ SUPPLY_CAP) → step w (commit (exec msg c) w)
  | step_token w t' : balanceOf (tok w) this ≤ balanceOf t' this →
      step w (mkChain (self w) t' (base w))
  | step_base w g' : step w (mkChain (self w) (tok w) g').
End Operations.

End Staking.
