(* ===== verification/BunkerStakingBooks.v ===== *)
(** * What the calls of the staking contract do to its storage

    Lemmas about [BunkerStaking]: for every call, its effect on the books (stakes,
    unbonding amounts, queues and totals), on the parameters, on the slash
    proposals and on the node identities.  [BunkerStakingSafety] turns them into
    statements about histories. *)

From S2P Require Import Prelude Solidity BunkerToken Unbonding BunkerStaking.
Import Staking.
Local Open Scope Z_scope.

(** Facts the guards leave, in the form [lia] reads. *)
Ltac guards :=
  repeat match goal with
  | H : negb _ = false |- _ => apply negb_false_iff in H
  | H : (_ =? _)%N = false |- _ => apply N.eqb_neq in H
  | H : (_ =? _)%N = true |- _ => apply N.eqb_eq in H
  end; zbool.

(** ** The books *)

Definition prov (a : Addr) (k : Stakes) : ProviderInfo := default no_provider (providers k !! a).
Definition queue_of (a : Addr) (k : Stakes) : list UnstakeRequest := default [] (unstakeQueues k !! a).

(** Reads of updated maps. *)
Ltac books_simpl :=
  unfold prov, queue_of, provider, queue in *; cbn in *;
  rewrite ?lookup_insert_eq; cbn.

(** The stakes of an updated storage, as one record. *)
Ltac stakes_simpl :=
  unfold put_queue, put_provider, on_stakes, set_unstakeQueues, set_providers, set_totalUnbonding, set_totalStaked;
  cbn [self stakes totalStaked totalUnbonding providers unstakeQueues].

Record books (bound : Z) (k : Stakes) : Prop := {
  b_staked : totalStaked k = sum_map stakedAmount (providers k);
  b_unbonding : totalUnbonding k = sum_map unbonding (providers k);
  b_nonneg : ∀ a, 0 ≤ stakedAmount (prov a k) ∧ 0 ≤ unbonding (prov a k);
  b_queue : ∀ a, unbonding (prov a k) = open_amount (queue_of a k);
  b_requests : ∀ a, Forall (λ r, 0 ≤ ur_amount r) (queue_of a k);
  b_bound : totalStaked k + totalUnbonding k ≤ bound
}.

(** One provider's books change; the totals follow. *)
Record book_change (p : Addr) (ds du : Z) (k k' : Stakes) : Prop := {
  bc_total : totalStaked k' = totalStaked k + ds;
  bc_total_unb : totalUnbonding k' = totalUnbonding k + du;
  bc_staked : stakedAmount (prov p k') = stakedAmount (prov p k) + ds;
  bc_unb : unbonding (prov p k') = unbonding (prov p k) + du;
  bc_queue : open_amount (queue_of p k') = open_amount (queue_of p k) + du;
  bc_requests : Forall (λ r, 0 ≤ ur_amount r) (queue_of p k) → Forall (λ r, 0 ≤ ur_amount r) (queue_of p k');
  bc_others : ∀ a, a ≠ p → stakedAmount (prov a k') = stakedAmount (prov a k) ∧
    unbonding (prov a k') = unbonding (prov a k) ∧ queue_of a k' = queue_of a k
}.

(** The node identities of the providers. *)
Definition same_ids (k k' : Stakes) : Prop := ∀ a, nodeId (prov a k') = nodeId (prov a k).

Lemma book_change_trans p ds du ds' du' k k' k'' :
  book_change p ds du k k' → book_change p ds' du' k' k'' → book_change p (ds + ds') (du + du') k k''.
Proof.
  intros [A1 A2 A3 A4 A5 A6 A7] [B1 B2 B3 B4 B5 B6 B7]. split; try lia; [tauto|].
  intros a Ha. destruct (A7 a Ha) as (? & ? & ?), (B7 a Ha) as (? & ? & ?). split_and!; congruence.
Qed.

(** An update of one provider that keeps the amounts. *)
Lemma book_change_same p k k' :
  totalStaked k' = totalStaked k → totalUnbonding k' = totalUnbonding k →
  stakedAmount (prov p k') = stakedAmount (prov p k) → unbonding (prov p k') = unbonding (prov p k) →
  unstakeQueues k' = unstakeQueues k → (∀ a, a ≠ p → prov a k' = prov a k) → book_change p 0 0 k k'.
Proof.
  intros A1 A2 A3 A4 A5 A6. assert (Hq : ∀ a, queue_of a k' = queue_of a k) by (intros a; unfold queue_of; by rewrite A5).
  split; rewrite ?Hq; try lia; [done|]. intros a Ha. by rewrite A6, Hq.
Qed.

(** A provider's record, its queue and the totals all change. *)
Lemma book_change_update p ds du k i q t tu :
  stakedAmount i = stakedAmount (prov p k) + ds → unbonding i = unbonding (prov p k) + du →
  open_amount q = open_amount (queue_of p k) + du →
  (Forall (λ r, 0 ≤ ur_amount r) (queue_of p k) → Forall (λ r, 0 ≤ ur_amount r) q) →
  t = totalStaked k + ds → tu = totalUnbonding k + du →
  book_change p ds du k (mkStakes t tu (<[p := i]> (providers k)) (<[p := q]> (unstakeQueues k))).
Proof.
  intros A1 A2 A3 A4 A5 A6. split; books_simpl; try done. intros a Ha. by rewrite !lookup_insert_ne.
Qed.

Lemma book_change_refl p k : book_change p 0 0 k k.
Proof. by apply book_change_same. Qed.

Lemma books_change bound p ds du k k' :
  books bound k → book_change p ds du k k' →
  0 ≤ stakedAmount (prov p k) + ds → 0 ≤ unbonding (prov p k) + du →
  books (bound + Z.max 0 (ds + du)) k'.
Proof.
  intros [B1 B2 B3 B4 B5 B6] [A1 A2 A3 A4 A5 A6 A7] Hs Hu.
  assert (Hall : ∀ a, a = p ∨ (stakedAmount (prov a k') = stakedAmount (prov a k) ∧
    unbonding (prov a k') = unbonding (prov a k) ∧ queue_of a k' = queue_of a k)).
  { intros a. destruct (decide (a = p)); [by left|right; by apply A7]. }
  split.
  - rewrite A1, B1, (sum_map_change stakedAmount no_provider (providers k) (providers k') p); [|done|by intros; apply A7].
    unfold prov in *. lia.
  - rewrite A2, B2, (sum_map_change unbonding no_provider (providers k) (providers k') p); [|done|by intros; apply A7].
    unfold prov in *. lia.
  - intros a. destruct (Hall a) as [->|(-> & -> & _)]; [lia|apply B3].
  - intros a. destruct (Hall a) as [->|(_ & -> & ->)]; [|apply B4]. specialize (B4 p). lia.
  - intros a. destruct (Hall a) as [->|(_ & _ & ->)]; auto.
  - lia.
Qed.

(** A provider's stake is part of the total. *)
Lemma books_le bound k a :
  books bound k → stakedAmount (prov a k) ≤ totalStaked k ∧ unbonding (prov a k) ≤ totalUnbonding k ∧
  0 ≤ totalStaked k ∧ 0 ≤ totalUnbonding k.
Proof.
  intros [B1 B2 B3 B4 B5 B6]. rewrite B1, B2.
  assert (∀ a, stakedAmount (prov a k) ≤ sum_map stakedAmount (providers k)).
  { intros a'. apply (sum_map_default_ge stakedAmount no_provider); [intros k'; apply B3|done]. }
  assert (∀ a, unbonding (prov a k) ≤ sum_map unbonding (providers k)).
  { intros a'. apply (sum_map_default_ge unbonding no_provider); [intros k'; apply B3|done]. }
  pose proof (B3 a). specialize (H a). specialize (H0 a). lia.
Qed.

(** ** Queues *)

(** Taking [n] from the requests, newest first: the reference for the loop of
    [_executeSlash], on the queue in reverse order. *)
Fixpoint slash_rev (q : list UnstakeRequest) (n : Z) : list UnstakeRequest :=
  match q with
  | [] => []
  | r :: q' =>
    if n <=? 0 then r :: q'
    else if completed r then r :: slash_rev q' n
    else
      let t := Z.min (ur_amount r) n in
      mkRequest (ur_amount r - t) (unlockTime r) (ur_amount r - t =? 0) :: slash_rev q' (n - t)
  end.

(** The queue after [n] was taken from its first [i] requests. *)
Definition slashed (i : nat) (n : Z) (q : list UnstakeRequest) : list UnstakeRequest :=
  reverse (slash_rev (reverse (take i q)) n) ++ drop i q.

Lemma slashed_step i n q r :
  q !! i = Some r → 0 < n → completed r = false →
  let t := Z.min (ur_amount r) n in
  slashed (S i) n q =
  slashed i (n - t) (<[i := mkRequest (ur_amount r - t) (unlockTime r) (ur_amount r - t =? 0)]> q).
Proof.
  intros Hi Hn Hr t. unfold slashed. rewrite (take_S_r q i r Hi), reverse_app, reverse_singleton. cbn [app slash_rev].
  rewrite (proj2 (Z.leb_gt n 0) Hn), Hr, reverse_cons, <- app_assoc.
  rewrite take_insert_ge by lia. f_equal. cbn [app].
  rewrite drop_insert_ge by lia. rewrite Nat.sub_diag.
  assert (Hd : drop i q = r :: drop (S i) q) by (by apply drop_S). by rewrite Hd.
Qed.

Lemma slashed_skip i n q r :
  q !! i = Some r → n ≤ 0 ∨ completed r = true → slashed (S i) n q = slashed i n q.
Proof.
  intros Hi Hr. unfold slashed. rewrite (take_S_r q i r Hi), reverse_app, reverse_singleton. cbn [app slash_rev].
  rewrite (drop_S q r i Hi). destruct (Z.leb_spec n 0) as [Hn|Hn].
  - rewrite reverse_cons, <- app_assoc. cbn [app]. f_equal. f_equal.
    destruct (reverse (take i q)); cbn; [done|]. by rewrite (proj2 (Z.leb_le n 0) Hn).
  - destruct Hr as [?|Hr]; [lia|]. rewrite Hr, reverse_cons, <- app_assoc. done.
Qed.

Lemma slashed_none i n q : n ≤ 0 → slashed i n q = q.
Proof.
  intros Hn. unfold slashed. rewrite <- (take_drop i q) at 3. f_equal. rewrite <- (reverse_involutive (take i q)) at 2.
  f_equal. destruct (reverse (take i q)); cbn; [done|]. by rewrite (proj2 (Z.leb_le n 0) Hn).
Qed.

(** ** What each call does to the books *)

Abbreviation all_but_rewards :=
  (λ w, (params (self w), stakes (self w), recs (self w), vestedRewards (rw (self w)), tok w, base w)).

Lemma updateReward_keeps `{BaseContracts G} {T} now a :
  keeps (W := chain State T G) all_but_rewards (updateReward now a).
Proof. unfold updateReward, earned, rewardPerToken, lastTimeRewardApplicable. frame. Qed.

(** [update_inv] replaces an [updateReward] in the context by what it keeps. *)
Ltac update_inv :=
  repeat match goal with
  | H : updateReward _ _ _ = Ok _ |- _ =>
      let U1 := fresh "UP" in let U2 := fresh "US" in let U3 := fresh "UR" in let U4 := fresh "UV" in
      let U5 := fresh "UT" in let U6 := fresh "UB" in
      apply updateReward_keeps in H; injection H as U1 U2 U3 U4 U5 U6
  end.

Section Calls.
Context {T G : Type} `{TokenLaws T} `{BaseContracts G}.
Context (this : Addr).
Implicit Types w : chain State T G.

Lemma add_stake_change msg amount newTotal info w w' r :
  0 ≤ amount → sender msg ≠ this → 0 ≤ newTotal ≤ max_uint128 →
  let k := stakes (self w) in
  newTotal = stakedAmount (prov (sender msg) k) + amount →
  unbonding info = unbonding (prov (sender msg) k) →
  add_stake this msg amount newTotal info w = Ok (w', r) →
  book_change (sender msg) amount 0 k (stakes (self w')) ∧
  params (self w') = params (self w) ∧ rw (self w') = rw (self w) ∧ recs (self w') = recs (self w) ∧
  base w' = base w ∧ balanceOf (tok w') this = balanceOf (tok w) this + amount.
Proof.
  intros Ha Hthis Hb k Hn Hu Hc. subst k. unfold add_stake in Hc. tx_inv Hc. token_inv. rewrite HS, HM, share_self.
  rewrite uint_id by done. unfold share. rewrite decide_False by done.
  split_and!; try done; [|cbn; lia].
  split; books_simpl; try lia; try done. intros a Hne. by rewrite lookup_insert_ne.
Qed.

(** Everything but the stakes. *)
Abbreviation all_but_stakes := (λ w, (params (self w), rw (self w), recs (self w), tok w, base w)).

Lemma open_amount_S i q r : q !! i = Some r → open_amount (take (S i) q) = open_amount (take i q) + owed r.
Proof. intros Hi. by rewrite (take_S_r q i r Hi), open_amount_app. Qed.

(** One round of the loop. *)
Lemma take_request_change p i r t k :
  queue_of p k !! i = Some r → completed r = false → 0 ≤ t ≤ ur_amount r →
  let r' := mkRequest (ur_amount r - t) (unlockTime r) (ur_amount r - t =? 0) in
  let k' := set_unstakeQueues (<[p := <[i := r']> (queue_of p k)]> (unstakeQueues k))
    (set_totalUnbonding (totalUnbonding k - t)
      (set_providers (<[p := set_unbonding (unbonding (prov p k) - t) (prov p k)]> (providers k)) k)) in
  queue_of p k' = <[i := r']> (queue_of p k) ∧ book_change p 0 (- t) k k' ∧ same_ids k k'.
Proof.
  intros Hi Hr Ht r' k'.
  assert (Hq : queue_of p k' = <[i := r']> (queue_of p k)) by (unfold k', queue_of; cbn; by rewrite lookup_insert_eq).
  assert (Hp : prov p k' = set_unbonding (unbonding (prov p k) - t) (prov p k))
    by (unfold k'; unfold prov at 1; cbn; by rewrite lookup_insert_eq).
  assert (Hne : ∀ a, a ≠ p → prov a k' = prov a k ∧ queue_of a k' = queue_of a k).
  { intros a Ha. unfold k', prov, queue_of. cbn. by rewrite !lookup_insert_ne. }
  split; [done|]. split.
  - split; rewrite ?Hp, ?Hq; cbn; try lia.
    + rewrite (open_amount_insert _ i r r' Hi). unfold r', owed. cbn. rewrite Hr.
      destruct (Z.eqb_spec (ur_amount r - t) 0); lia.
    + intros Hf. apply Forall_insert; [done|cbn; lia].
    + intros a Ha. by destruct (Hne a Ha) as [-> ->].
  - intros a. destruct (decide (a = p)) as [->|Ha]; [by rewrite Hp|by destruct (Hne a Ha) as [-> _]].
Qed.

(** The queue loop takes what remains as far as the first [i] requests cover it. *)
Lemma slash_queue_Ok p i n w w' m :
  let k := stakes (self w) in let q := queue_of p k in
  (i ≤ length q)%nat → 0 ≤ n → Forall (λ r, 0 ≤ ur_amount r ∧ owed r ≤ max_uint128) q →
  slash_queue p i n w = Ok (w', m) →
  let t := Z.min n (open_amount (take i q)) in
  m = n - t ∧ all_but_stakes w' = all_but_stakes w ∧ same_ids k (stakes (self w')) ∧
  queue_of p (stakes (self w')) = slashed i n q ∧ book_change p 0 (- t) k (stakes (self w')).
Proof.
  revert n w w' m. induction i as [|i IH]; intros n w w' m k q Hi Hn Hq Hc; cbn [slash_queue] in Hc.
  { tx_inv Hc. change (open_amount (take 0 q)) with 0. rewrite Z.min_r by lia.
    split_and!; [lia|done..|apply book_change_refl]. }
  assert (Hq0 : Forall (λ r, 0 ≤ ur_amount r) q) by (eapply Forall_impl; [exact Hq|cbn; lia]).
  destruct (Z.leb_spec n 0) as [Hn0|Hn0].
  { tx_inv Hc. pose proof (open_amount_nonneg (take (S i) q) ltac:(by apply Forall_take)).
    rewrite Z.min_l by lia. assert (n = 0) as -> by lia. rewrite slashed_none by lia.
    split_and!; [lia|done..|apply book_change_refl]. }
  apply tx_bind_Ok in Hc as (w0 & q0 & Hr1 & Hc). tx_inv Hr1. change (queue p (self w)) with q in Hc.
  apply tx_bind_Ok in Hc as (w0 & req & Hr1 & Hc). tx_inv Hr1. rename Hr1 into Hreq, o into req.
  pose proof (open_amount_S i q req Hreq) as Hopen.
  destruct (completed req) eqn:Hcomp.
  { destruct (IH n w w' m (Nat.lt_le_incl _ _ Hi) Hn Hq Hc) as (R1 & R2 & R3 & R4 & R5). fold k q in R1, R2, R3, R4, R5.
    unfold owed in Hopen. rewrite Hcomp, Z.add_0_r in Hopen. rewrite Hopen.
    split_and!; try done. rewrite R4. symmetry. eapply slashed_skip; eauto. }
  destruct (Forall_lookup_1 _ _ _ _ Hq Hreq) as [Ha Hb]. unfold owed in Hb. rewrite Hcomp in Hb.
  assert (Ht : (if ur_amount req <? n then ur_amount req else n) = Z.min (ur_amount req) n)
    by (destruct (Z.ltb_spec (ur_amount req) n); lia).
  assert (Hu : uint 128 (Z.min (ur_amount req) n) = Z.min (ur_amount req) n)
    by (apply uint_id; unfold max_uint128 in Hb; lia).
  rewrite !Ht, !Hu in Hc. clear Ht Hu. tx_inv Hc. set (t := Z.min (ur_amount req) n) in *.
  destruct (take_request_change p i req t k Hreq Hcomp ltac:(lia)) as (Q1 & Q2 & Q3).
  match type of Q2 with book_change _ _ _ _ ?x => set (k1 := x) in * end.
  match type of Hc with slash_queue _ _ _ ?x = _ => set (w1 := x) in * end.
  assert (Hk1 : stakes (self w1) = k1) by reflexivity.
  assert (Hr1 : all_but_stakes w1 = all_but_stakes w) by reflexivity. clearbody w1 k1. subst k1.
  apply IH in Hc as (R1 & R2 & R3 & R4 & R5).
  - rewrite Q1 in R1, R4, R5. rewrite take_insert_ge in R1, R5 by lia. fold q in R1, R4, R5.
    assert (Hsum : t + Z.min (n - t) (open_amount (take i q)) = Z.min n (open_amount (take (S i) q))).
    { rewrite Hopen. unfold owed. rewrite Hcomp.
      pose proof (open_amount_nonneg (take i q) ltac:(by apply Forall_take)). lia. }
    split_and!.
    + lia.
    + by rewrite R2.
    + intros a. by rewrite R3, Q3.
    + rewrite R4. symmetry. by apply slashed_step.
    + replace (- Z.min n _) with (- t + - Z.min (n - t) (open_amount (take i q))) by lia.
      exact (book_change_trans _ _ _ _ _ _ _ _ Q2 R5).
  - rewrite Q1, length_insert. fold q. lia.
  - lia.
  - rewrite Q1. apply Forall_insert; [done|]. unfold owed. cbn. destruct (ur_amount req - t =? 0); lia.
Qed.

Lemma slash_active_Ok p n w w' m :
  let k := stakes (self w) in
  0 ≤ n → 0 ≤ stakedAmount (prov p k) ≤ max_uint128 →
  slash_active p n w = Ok (w', m) →
  let t := Z.min n (stakedAmount (prov p k)) in
  m = n - t ∧ all_but_stakes w' = all_but_stakes w ∧ same_ids k (stakes (self w')) ∧
  queue_of p (stakes (self w')) = queue_of p k ∧ book_change p (- t) 0 k (stakes (self w')).
Proof.
  intros k Hn Hb Hc. unfold slash_active in Hc. apply tx_bind_Ok in Hc as (w0 & info & Hg & Hc). tx_inv Hg.
  change (provider p (self w)) with (prov p k) in Hc. set (st := stakedAmount (prov p k)) in *.
  destruct ((0 <? n) && (0 <? st)) eqn:Hpos; cycle 1.
  { tx_inv Hc. subst k. assert (Z.min n st = 0) as -> by (apply andb_false_iff in Hpos as [?|?]; zbool; lia).
    split_and!; [lia|done..|apply book_change_refl]. }
  apply andb_true_iff in Hpos as [? ?]. zbool.
  assert (Ht : (if st <? n then st else n) = Z.min n st) by (destruct (Z.ltb_spec st n); lia).
  assert (Hu : uint 128 (Z.min n st) = Z.min n st) by (apply uint_id; unfold max_uint128 in Hb; lia).
  rewrite !Ht, !Hu in Hc. clear Ht Hu. tx_inv Hc. split_and!; [done|done| |done|].
  - intros a. subst k. books_simpl. destruct (decide (a = p)) as [->|Ha]; [by rewrite lookup_insert_eq|by rewrite lookup_insert_ne].
  - subst st k. split; books_simpl; try lia; try done. intros a Ha. by rewrite lookup_insert_ne.
Qed.

Lemma forfeit_entries_Ok now l f w w' r :
  forfeit_entries now l f w = Ok (w', r) → w' = w ∧ f ≤ r.2 ∧ (l = [] → r = ([], f)).
Proof.
  revert f w' r. induction l as [|e l IH]; intros f w' r Hc; cbn [forfeit_entries] in Hc; [by tx_inv Hc|].
  unfold _vestedAmount in Hc. tx_inv Hc; cbn [fst snd] in *.
  all: match goal with Hr : forfeit_entries _ _ _ _ = Ok _ |- _ => apply IH in Hr as (-> & ? & _) end.
  all: split_and!; [done|zbool; lia|done].
Qed.

Lemma forfeit_Ok now p w w' f :
  _forfeitUnvestedRewards now p w = Ok (w', f) →
  params (self w') = params (self w) ∧ stakes (self w') = stakes (self w) ∧ recs (self w') = recs (self w) ∧
  tok w' = tok w ∧ base w' = base w ∧ 0 ≤ f ∧ (vested p (self w) = [] → f = 0).
Proof.
  intros Hc. unfold _forfeitUnvestedRewards in Hc. tx_inv Hc. apply forfeit_entries_Ok in Hs as (-> & ? & Hnil).
  split_and!; try done. intros Hv. by rewrite (Hnil Hv).
Qed.

(** What a slash does: [p] loses exactly [amount], the active stake first and
    then the unbonding requests, newest first; the contract pays [amount] and
    the forfeited rewards [f], part burned, the rest to the treasury. *)
Definition slash_effect p amount burnBps w w' : Prop :=
  let k := stakes (self w) in let k' := stakes (self w') in
  let ds := Z.min amount (stakedAmount (prov p k)) in
  ∃ f, 0 ≤ f ∧ (vested p (self w) = [] → f = 0) ∧
    f ≤ balanceOf (tok w) this - totalStaked k' - totalUnbonding k' ∧
    book_change p (- ds) (- (amount - ds)) k k' ∧
    queue_of p k' = slashed (length (queue_of p k)) (amount - ds) (queue_of p k) ∧
    same_ids k k' ∧ params (self w') = params (self w) ∧ recs (self w') = recs (self w) ∧ base w' = base w ∧
    let toTreasury := amount + f - (amount + f) * burnBps / BPS_DENOMINATOR in
    ∀ a, balanceOf (tok w') a =
      balanceOf (tok w) a - share a this (amount + f) + share a (treasury (params (self w))) toTreasury.

Lemma queue_bounded bound k p :
  books bound k → bound ≤ max_uint128 → Forall (λ r, 0 ≤ ur_amount r ∧ owed r ≤ max_uint128) (queue_of p k).
Proof.
  intros Hk Hb. apply Forall_lookup_2. intros i r Hr. pose proof (b_requests _ _ Hk p) as Hq.
  pose proof (open_amount_ge _ _ _ Hq Hr). pose proof (books_le _ _ p Hk).
  pose proof (b_queue _ _ Hk p). pose proof (b_bound _ _ Hk). pose proof (b_nonneg _ _ Hk p).
  split; [exact (Forall_lookup_1 _ _ _ _ Hq Hr)|lia].
Qed.

(** The part of a slash that updates the books. *)
Lemma slash_books_Ok p amount w w' bound u :
  let k := stakes (self w) in let ds := Z.min amount (stakedAmount (prov p k)) in
  books bound k → bound ≤ max_uint128 → 0 ≤ amount →
  amount ≤ stakedAmount (prov p k) + unbonding (prov p k) →
  slash_books p amount w = Ok (w', u) →
  all_but_stakes w' = all_but_stakes w ∧ same_ids k (stakes (self w')) ∧
  queue_of p (stakes (self w')) = slashed (length (queue_of p k)) (amount - ds) (queue_of p k) ∧
  book_change p (- ds) (- (amount - ds)) k (stakes (self w')).
Proof.
  intros k ds Hk Hb Ha Hle Hc. pose proof (b_nonneg _ _ Hk p). pose proof (books_le _ _ p Hk).
  pose proof (b_bound _ _ Hk). pose proof (b_queue _ _ Hk p) as Hq. pose proof (queue_bounded _ _ p Hk Hb) as Hqb.
  apply tx_bind_Ok in Hc as (w1 & m & Hc1 & Hc). apply tx_bind_Ok in Hc as (? & n & Hg & Hc). tx_inv Hg.
  apply slash_active_Ok in Hc1 as (-> & A1 & A2 & A3 & A4); [|fold k; lia..]. fold k ds in A1, A2, A3, A4, Hc.
  change (queue p (self w1)) with (queue_of p (stakes (self w1))) in Hc. rewrite A3 in Hc.
  destruct (Z.ltb_spec 0 (amount - ds)).
  - apply tx_bind_Ok in Hc as (w3 & m3 & Hc & Hret). tx_inv Hret.
    apply slash_queue_Ok in Hc as (_ & B1 & B2 & B3 & B4); [|rewrite ?A3; (done || lia)..].
    rewrite A3 in B3, B4. rewrite firstn_all, <- Hq, Z.min_l in B4 by lia.
    split_and!; [congruence|intros a; by rewrite B2, A2|done|].
    replace (- (amount - ds)) with (0 + - (amount - ds)) by lia. rewrite <- (Z.add_0_r (- ds)).
    exact (book_change_trans _ _ _ _ _ _ _ _ A4 B4).
  - tx_inv Hc. assert (Hz : amount - ds = 0) by lia. rewrite Hz, slashed_none by lia.
    split_and!; [congruence|done..].
Qed.

Lemma deactivate_Ok p w w' u :
  deactivate_below p w = Ok (w', u) →
  all_but_stakes w' = all_but_stakes w ∧ same_ids (stakes (self w)) (stakes (self w')) ∧
  queue_of p (stakes (self w')) = queue_of p (stakes (self w)) ∧
  book_change p 0 0 (stakes (self w)) (stakes (self w')).
Proof.
  intros Hc. unfold deactivate_below in Hc. tx_inv Hc; [|split_and!; try done; apply book_change_refl].
  assert (Hp : ∀ a, nodeId (prov a (stakes (put_provider p (set_active false (provider p (self w))) (self w)))) =
    nodeId (prov a (stakes (self w)))).
  { intros a. books_simpl. destruct (decide (a = p)) as [->|Ha]; [by rewrite lookup_insert_eq|by rewrite lookup_insert_ne]. }
  split_and!; try done. apply book_change_same; books_simpl; try done. intros a Ha. by rewrite lookup_insert_ne.
Qed.

Lemma distribute_slash_Ok total burnBps w w' u :
  0 ≤ total → 0 ≤ burnBps ≤ BPS_DENOMINATOR → distribute_slash this total burnBps w = Ok (w', u) →
  self w' = self w ∧ base w' = base w ∧
  ∀ a, balanceOf (tok w') a = balanceOf (tok w) a - share a this total +
    share a (treasury (params (self w))) (total - total * burnBps / BPS_DENOMINATOR).
Proof.
  intros Ht Hb Hc. unfold distribute_slash in Hc. tx_inv Hc.
  assert (0 ≤ total * burnBps / BPS_DENOMINATOR) by (apply Z.div_pos; unfold BPS_DENOMINATOR in *; nia).
  token_inv. rewrite HS, HS0, HB, HB0. split_and!; try done. intros a'. rewrite HM, HM0, HS0.
  unfold share. repeat case_decide; lia.
Qed.

Lemma executeSlash_effect now p amount burnBps w w' u bound :
  books bound (stakes (self w)) → bound ≤ max_uint128 → 0 ≤ amount → 0 ≤ burnBps ≤ BPS_DENOMINATOR →
  _executeSlash this now p amount burnBps w = Ok (w', u) → slash_effect p amount burnBps w w'.
Proof.
  intros Hk Hb Ha Hbps Hc. unfold _executeSlash in Hc. tx_inv Hc. zbool.
  match goal with H : slash_books _ _ _ = Ok _ |- _ => eapply slash_books_Ok in H as (A1 & A2 & A3 & A4); [|done..] end.
  match goal with H : _forfeitUnvestedRewards _ _ _ = Ok _ |- _ => apply forfeit_Ok in H as (F1 & F2 & F3 & F4 & F5 & F6 & F7) end.
  match goal with H : deactivate_below _ _ = Ok _ |- _ => apply deactivate_Ok in H as (D1 & D2 & D3 & D4) end.
  injection A1 as A1a A1b A1c A1d A1e. injection D1 as D1a D1b D1c D1d D1e.
  set (f := if _ <? a0 then _ else a0) in *.
  assert (Hf : 0 ≤ f ≤ balanceOf (tok w1) this - totalStaked (stakes (self w1)) - totalUnbonding (stakes (self w1)) ∧ f ≤ a0)
    by (unfold f; case_match; zbool; lia).
  clearbody f. apply distribute_slash_Ok in Hc as (P1 & P2 & P3); [|lia|done].
  pose proof (bc_total _ _ _ _ _ D4). pose proof (bc_total_unb _ _ _ _ _ D4).
  rewrite F2 in D2, D3, D4. exists f. rewrite P1, P2. split_and!; try congruence; try lia.
  - intros Hv. cut (a0 = 0); [lia|]. apply F7. unfold vested in *. by rewrite A1b.
  - rewrite F4, A1d in *. lia.
  - replace (- (amount - _)) with (- (amount - amount `min` stakedAmount (prov p (stakes (self w)))) + 0) by lia.
    rewrite <- (Z.add_0_r (- (amount `min` _))). exact (book_change_trans _ _ _ _ _ _ _ _ A4 D4).
  - cbn zeta. rewrite D1a, F1, A1a, D1d, F4, A1d in P3. exact P3.
Qed.
End Calls.

(** ** The configuration *)

Record params_ok (p : Params) : Prop := {
  p_split : 0 ≤ slashBurnBps p ∧ 0 ≤ slashTreasuryBps p ∧ slashBurnBps p + slashTreasuryBps p = BPS_DENOMINATOR;
  p_unbonding : 1 * minutes ≤ unbondingPeriod p ≤ 90 * days;
  p_window : 1 * minutes ≤ appealWindow p ≤ 14 * days;
  p_cap : BPS_DENOMINATOR ≤ maxTierMultiplierBps p ≤ 2 * BPS_DENOMINATOR;
  p_immediate : 0 ≤ immediateReleaseBps p ≤ BPS_DENOMINATOR;
  p_vesting : vestingPeriod p = 0 ∨ 1 * minutes ≤ vestingPeriod p;
  p_emission : 0 < emissionMultiplier p ≤ MAX_EMISSION_MULTIPLIER;
  p_duration : 0 < rewardsDuration p;
  p_treasury : treasury p ≠ 0%N;
  p_tiers : let m t := minStake (default no_tier (tierConfigs p !! t)) in
    0 ≤ m Starter ∧ m Starter < m Bronze ∧ m Bronze < m Silver ∧ m Silver < m Gold ∧ m Gold < m Platinum;
  p_multipliers : ∀ t, t ≠ TierNone →
    BPS_DENOMINATOR ≤ rewardMultiplierBps (default no_tier (tierConfigs p !! t)) ≤ 2 * BPS_DENOMINATOR;
  p_percent : ∀ r, 0 ≤ default 0 (slashPercentageBps p !! r) ≤ BPS_DENOMINATOR
}.

(** A proposal: what was fixed when it was made, and its state. *)
Record proposal_ok (p : SlashProposal) : Prop := {
  pr_amount : 0 < sp_amount p;
  pr_burn : 0 ≤ slashBurnBpsSnapshot p ≤ BPS_DENOMINATOR;
  pr_window : 1 * minutes ≤ appealWindowSnapshot p ≤ 14 * days;
  pr_resolved : resolved p = true → appealed p = true;
  pr_executed : executed p = true → appealed p = true → resolved p = true
}.

Record records_ok (r : Records) : Prop := {
  r_count : 0 ≤ slashProposalCount r;
  r_dense : ∀ id, 0 ≤ id < slashProposalCount r → is_Some (slashProposals r !! id);
  r_proposals : map_Forall (λ id p, 0 ≤ id < slashProposalCount r ∧ proposal_ok p) (slashProposals r)
}.

Section Frames.
Context {T G X : Type} `{Token T} `{BaseContracts G}.
Context (this : Addr).

Lemma vestedAmount_keeps (f : chain State T G → X) now e : keeps f (_vestedAmount now e).
Proof. unfold _vestedAmount. frame. Qed.

Lemma forfeit_entries_keeps (f : chain State T G → X) now l n : keeps f (forfeit_entries now l n).
Proof.
  revert n. induction l as [|e l IH]; intros n; cbn [forfeit_entries]; frame; try apply vestedAmount_keeps; apply IH.
Qed.

Lemma release_entries_keeps (f : chain State T G → X) now l n : keeps f (release_entries now l n).
Proof.
  revert n. induction l as [|e l IH]; intros n; cbn [release_entries]; frame; try apply vestedAmount_keeps; apply IH.
Qed.

Lemma slash_queue_keeps (f : State → X) p i n :
  (∀ g s, f (on_stakes g s) = f s) → keeps (λ w : chain State T G, f (self w)) (slash_queue p i n).
Proof.
  intros Hf. revert n. induction i as [|i IH]; intros n; cbn [slash_queue]; frame; try apply IH.
  all: apply keeps_put; intros []; apply Hf.
Qed.
End Frames.
#[export] Hint Resolve vestedAmount_keeps forfeit_entries_keeps release_entries_keeps : frame.

(** Unfolds a call down to its reads and writes. *)
Ltac open_call :=
  unfold stake, stakeWithIdentity, add_stake, updateIdentity, requestUnstake, completeUnstake,
    initiateBeneficiaryChange, executeBeneficiaryChange, freezeProvider, unfreezeProvider,
    slashImmediate, slash, proposeSlash, proposeSlashByReason, new_proposal, executeSlash, appealSlash,
    resolveAppeal, _getValidProposal, run_proposal, _doUpdateReward, _executeSlash, slash_books, slash_active,
    deactivate_below, distribute_slash, _forfeitUnvestedRewards, claimRewards, claimVestedRewards,
    notifyRewardAmount, reportComputeHours, setRewardsDuration,
    setVestingParams, setEmissionMultiplier, setMaxEmissionRate, setSlashPercentage, setTreasury,
    setTierMinStake, setTierRewardMultiplier, setMaxTierMultiplierBps, setUnbondingPeriod,
    setSlashFeeSplit, setAppealWindow, setSlashingEnabled, pause, unpause, check_liability, reward_balance,
    updateReward, earned, rewardPerToken, lastTimeRewardApplicable.

(** Whether a call sets parameters. *)
Definition configures (c : call) : bool :=
  match c with
  | CallSetRewardsDuration _ | CallSetVesting _ _ | CallSetEmission _ | CallSetMaxRate _
  | CallSetSlashPercentage _ _ | CallSetTreasury _ | CallSetTierMin _ _ | CallSetTierMultiplier _ _
  | CallSetMaxMultiplier _ | CallSetUnbonding _ | CallSetSplit _ _ | CallSetWindow _ | CallSetSlashing _ => true
  | _ => false
  end.

Section Configuration.
Context {T G : Type} `{Token T} `{BaseContracts G}.
Context (this : Addr).
Implicit Types w : chain State T G.

Lemma exec_keeps_params msg c :
  configures c = false → keeps (λ w, params (self w)) (exec this msg c).
Proof.
  destruct c; try discriminate; intros _; cbn [exec]; open_call; frame;
    apply slash_queue_keeps; intros; reflexivity.
Qed.

Lemma tier_insert (m : gmap Tier TierConfig) t c t' :
  default no_tier (<[t := c]> m !! t') = if decide (t = t') then c else default no_tier (m !! t').
Proof. rewrite lookup_insert. by case_decide. Qed.

(** The multipliers after one tier changed. *)
Ltac tier_cases t' := match goal with |- context [decide (?a = t')] => destruct (decide (a = t')) end.

Lemma set_tier_min_ok msg t m w w' u :
  0 ≤ m → params_ok (params (self w)) → setTierMinStake msg t m w = Ok (w', u) → params_ok (params (self w')).
Proof.
  intros Hm [] Hc. unfold setTierMinStake in Hc.
  destruct t; tx_inv Hc; try done; unfold min_stake, tier_config in *.
  all: repeat match goal with Hx : tier_of_num _ = Some _ |- _ => vm_compute in Hx; injection Hx as <- end; zbool.
  all: split; try done; cbn; setoid_rewrite tier_insert.
  all: try (intros t' Ht'; tier_cases t'; [subst; cbn|]; by apply p_multipliers0).
  all: repeat first [rewrite decide_True by done|rewrite decide_False by done]; cbn; lia.
Qed.

Lemma set_tier_multiplier_ok msg t b w w' u :
  params_ok (params (self w)) → setTierRewardMultiplier msg t b w = Ok (w', u) → params_ok (params (self w')).
Proof.
  intros [] Hc. unfold setTierRewardMultiplier in Hc. tx_inv Hc. zbool. apply bool_decide_eq_false in Hs0.
  split; try done; cbn; setoid_rewrite tier_insert; cbn.
  - destruct t; try done; repeat first [rewrite decide_True by done|rewrite decide_False by done]; cbn; done.
  - intros t' Ht'. tier_cases t'; [subst; cbn; lia|by apply p_multipliers0].
Qed.

Lemma exec_params_ok msg c w w' u :
  call_wf c → params_ok (params (self w)) → exec this msg c w = Ok (w', u) → params_ok (params (self w')).
Proof.
  intros Hwf Hp Hc. destruct (configures c) eqn:Hconf; [|by rewrite (exec_keeps_params msg c Hconf w w' u Hc)].
  destruct c; try discriminate; cbn [exec call_wf] in *.
  all: try (by eapply set_tier_min_ok); try (by eapply set_tier_multiplier_ok).
  all: destruct Hp; clear Hconf; unfold setRewardsDuration, setVestingParams, setEmissionMultiplier,
    setMaxEmissionRate, setSlashPercentage, setTreasury, setMaxTierMultiplierBps, check_liability, reward_balance,
    setUnbondingPeriod, setSlashFeeSplit, setAppealWindow, setSlashingEnabled in Hc; tx_inv Hc.
  all: repeat match goal with Hx : _ || _ = false |- _ => apply orb_false_iff in Hx as [? ?] end.
  all: try match goal with Hx : _ && (_ <? 1 * minutes) = false |- _ => apply andb_false_iff in Hx end.
  all: zbool; split; try done; cbn; try (unfold BPS_DENOMINATOR in *; lia).
  - intros r. rewrite lookup_insert. destruct (decide _); [cbn; lia|apply p_percent0].
  - by apply N.eqb_neq.
Qed.

(** ** Slash proposals *)

Definition handles_proposals (c : call) : bool :=
  match c with
  | CallPropose _ _ _ | CallProposeByReason _ _ | CallExecuteSlash _ | CallAppeal _ | CallResolve _ _ => true
  | _ => false
  end.

Abbreviation proposals := (λ w, (slashProposals (recs (self w)), slashProposalCount (recs (self w)))).

Lemma exec_keeps_proposals msg c :
  handles_proposals c = false → keeps (W := chain State T G) proposals (exec this msg c).
Proof.
  destruct c; try discriminate; intros _; cbn [exec]; open_call; frame;
    apply (slash_queue_keeps (λ s, (slashProposals (recs s), slashProposalCount (recs s)))); intros; reflexivity.
Qed.

Lemma run_proposal_keeps now pr : keeps (W := chain State T G) proposals (run_proposal this now pr).
Proof.
  open_call; frame;
    apply (slash_queue_keeps (λ s, (slashProposals (recs s), slashProposalCount (recs s)))); intros; reflexivity.
Qed.

(** The steps of one proposal, by whom and when. *)
Inductive proposal_step (msg : message) w : SlashProposal → SlashProposal → Prop :=
  | ps_appeal p : executed p = false → appealed p = false → sender msg = sp_provider p →
      timestamp msg < proposedAt p + appealWindowSnapshot p → proposal_step msg w p (set_appealed true p)
  | ps_execute p : executed p = false → appealed p = false → hasRole (base w) SLASHER_ROLE (sender msg) = true →
      slashingEnabled (params (self w)) = true →
      proposedAt p + appealWindowSnapshot p ≤ timestamp msg → proposal_step msg w p (set_executed true p)
  | ps_dismiss p : executed p = false → appealed p = true → resolved p = false →
      sender msg = owner (base w) → proposal_step msg w p (set_resolved true p)
  | ps_uphold p : executed p = false → appealed p = true → resolved p = false →
      sender msg = owner (base w) → slashingEnabled (params (self w)) = true →
      proposal_step msg w p (set_executed true (set_resolved true p)).

(** What a call does to the proposals: nothing, a new one, or a step of one. *)
Inductive proposals_effect (msg : message) w w' : Prop :=
  | pe_same : proposals w' = proposals w → proposals_effect msg w w'
  | pe_new p : let n := slashProposalCount (recs (self w)) in
      slashProposals (recs (self w')) = <[n := p]> (slashProposals (recs (self w))) →
      slashProposalCount (recs (self w')) = n + 1 → proposal_ok p → executed p = false →
      proposedAt p = timestamp msg → proposals_effect msg w w'
  | pe_step id p' : 0 ≤ id < slashProposalCount (recs (self w)) →
      slashProposals (recs (self w')) = <[id := p']> (slashProposals (recs (self w))) →
      slashProposalCount (recs (self w')) = slashProposalCount (recs (self w)) →
      proposal_step msg w (proposal id (self w)) p' → proposals_effect msg w w'.

Lemma new_proposal_effect msg p amount text why w w' id :
  0 < amount → params_ok (params (self w)) → new_proposal msg p amount text why w = Ok (w', id) →
  proposals_effect msg w w'.
Proof.
  intros Ha [] Hc. unfold new_proposal in Hc. tx_inv Hc. eapply pe_new; try reflexivity.
  split; cbn; try done. rewrite uint_id; unfold BPS_DENOMINATOR, max_uint in *; lia.
Qed.

Lemma exec_proposals msg c w w' u :
  call_wf c → params_ok (params (self w)) → (∀ a, 0 ≤ stakedAmount (prov a (stakes (self w)))) →
  exec this msg c w = Ok (w', u) → proposals_effect msg w w'.
Proof.
  intros Hwf Hp Hst Hc. destruct (handles_proposals c) eqn:Hh; [|apply pe_same; by eapply exec_keeps_proposals].
  destruct c; try discriminate; cbn [exec call_wf] in *.
  - apply tx_bind_Ok in Hc as (w1 & id & Hc & Hr). tx_inv Hr. unfold proposeSlash in Hc. tx_inv Hc. zbool.
    eapply new_proposal_effect; [|done..]. lia.
  - apply tx_bind_Ok in Hc as (w1 & id & Hc & Hr). tx_inv Hr. unfold proposeSlashByReason in Hc. tx_inv Hc. zbool.
    eapply new_proposal_effect; [|done..]. pose proof (p_percent _ Hp why).
    match goal with Hx : _ / BPS_DENOMINATOR ≠ 0 |- _ => revert Hx end.
    set (d := _ / BPS_DENOMINATOR). assert (0 ≤ d); [|lia]. apply Z.div_pos; [|done].
    apply Z.mul_nonneg_nonneg; [apply Hst|lia].
  - unfold executeSlash, _getValidProposal in Hc. tx_inv Hc. guards.
    apply run_proposal_keeps in Hc. injection Hc as P1 P2.
    eapply pe_step; [|exact P1|exact P2|]; [done|]. by apply ps_execute.
  - unfold appealSlash, _getValidProposal in Hc. tx_inv Hc. guards.
    eapply pe_step; [|reflexivity|reflexivity|]; [done|]. by apply ps_appeal.
  - unfold resolveAppeal, _getValidProposal in Hc. tx_inv Hc; guards.
    + apply run_proposal_keeps in Hc. injection Hc as P1 P2.
      eapply pe_step; [|rewrite P1; cbn; by rewrite insert_insert_eq|exact P2|]; [done|]. by apply ps_uphold.
    + eapply pe_step; [|reflexivity|reflexivity|]; [done|]. by apply ps_dismiss.
Qed.
End Configuration.

(** ** Before the first reward epoch *)

(** Nothing has been earned. *)
Record rw_zero (r : Rewards) : Prop := {
  z_rate : rewardRate r = 0;
  z_stored : rewardPerTokenStored r = 0;
  z_paid : ∀ a, default 0 (userRewardPerTokenPaid r !! a) = 0;
  z_rewards : ∀ a, default 0 (rewards r !! a) = 0;
  z_vested : ∀ a, default [] (vestedRewards r !! a) = []
}.

Section NoRewards.
Context {T G : Type} `{Token T} `{BaseContracts G}.
Context (this : Addr).
Implicit Types w : chain State T G.

Lemma rewardPerToken_zero now w w' v :
  rw_zero (rw (self w)) → rewardPerToken now w = Ok (w', v) → w' = w ∧ v = 0.
Proof.
  intros [Z1 Z2 _ _ _] Hc. unfold rewardPerToken, lastTimeRewardApplicable in Hc.
  tx_inv Hc; rewrite ?Z1, ?Z2; split; try done. rewrite Z.mul_0_r, Z.mul_0_l, Z.div_0_l; done.
Qed.

Lemma earned_zero now p w w' v :
  rw_zero (rw (self w)) → earned now p w = Ok (w', v) → w' = w ∧ v = 0.
Proof.
  intros Hz Hc. unfold earned in Hc. tx_inv Hc.
  all: match goal with Hx : rewardPerToken _ _ = Ok _ |- _ => destruct (rewardPerToken_zero _ _ _ _ Hz Hx) as [-> ->] end.
  all: destruct Hz as [_ _ Z3 Z4 _]; rewrite ?Z3, ?Z4, Z.mul_0_r, Z.div_0_l by done; cbn; done.
Qed.

Lemma default_insert_zero (m : gmap Addr Z) a b :
  (∀ a, default 0 (m !! a) = 0) → default 0 (<[a := 0]> m !! b) = 0.
Proof. intros Hm. rewrite lookup_insert. destruct (decide _); [done|apply Hm]. Qed.

Lemma updateReward_zero now a w w' u :
  rw_zero (rw (self w)) → updateReward now a w = Ok (w', u) → rw_zero (rw (self w')).
Proof.
  intros Hz Hc. unfold updateReward, lastTimeRewardApplicable in Hc. tx_inv Hc.
  all: match goal with Hx : rewardPerToken _ _ = Ok _ |- _ => destruct (rewardPerToken_zero _ _ _ _ Hz Hx) as [-> ->] end.
  all: match goal with Hx : earned _ _ _ = Ok _ |- _ => apply earned_zero in Hx as [-> ->]; cbn in * | _ => idtac end.
  all: destruct Hz as [Z1 Z2 Z3 Z4 Z5]; split; cbn; try done; intros b; by apply default_insert_zero.
Qed.

Lemma add_stake_keeps_rw msg amount newTotal info :
  keeps (λ w, rw (self w)) (add_stake (T := T) (G := G) this msg amount newTotal info).
Proof. unfold add_stake. frame. Qed.

Lemma forfeit_zero now p w w' f :
  rw_zero (rw (self w)) → _forfeitUnvestedRewards now p w = Ok (w', f) → rw_zero (rw (self w')).
Proof.
  intros Hz Hc. unfold _forfeitUnvestedRewards in Hc. tx_inv Hc. change (vested p (self w)) with (default [] (vestedRewards (rw (self w)) !! p)) in *.
  rewrite (z_vested _ Hz p) in *. cbn [forfeit_entries] in *. tx_inv Hs. destruct Hz as [Z1 Z2 Z3 Z4 Z5].
  split; cbn; try done. intros a. rewrite lookup_insert. destruct (decide _); [done|apply Z5].
Qed.

Abbreviation rewards_of := (λ w : chain State T G, rw (self w)).

Lemma slash_books_keeps_rw p amount : keeps rewards_of (slash_books p amount).
Proof. unfold slash_books, slash_active. frame. apply (slash_queue_keeps rw); intros; reflexivity. Qed.
Lemma deactivate_keeps_rw p : keeps rewards_of (deactivate_below p).
Proof. unfold deactivate_below. frame. Qed.
Lemma distribute_keeps_rw total burnBps : keeps rewards_of (distribute_slash this total burnBps).
Proof. unfold distribute_slash. frame. Qed.

Lemma executeSlash_zero now p amount burnBps w w' u :
  rw_zero (rw (self w)) → _executeSlash this now p amount burnBps w = Ok (w', u) → rw_zero (rw (self w')).
Proof.
  intros Hz Hc. unfold _executeSlash in Hc. tx_inv Hc.
  match goal with Hx : slash_books _ _ _ = Ok _ |- _ => apply slash_books_keeps_rw in Hx; rewrite <- Hx in Hz end.
  match goal with Hx : _forfeitUnvestedRewards _ _ _ = Ok _ |- _ => apply forfeit_zero in Hx; [|done] end.
  apply distribute_keeps_rw in Hc. rewrite Hc.
  match goal with Hx : deactivate_below _ _ = Ok _ |- _ => apply deactivate_keeps_rw in Hx; by rewrite Hx end.
Qed.

Lemma run_proposal_zero now pr w w' u :
  rw_zero (rw (self w)) → run_proposal this now pr w = Ok (w', u) → rw_zero (rw (self w')).
Proof.
  intros Hz Hc. unfold run_proposal, _doUpdateReward in Hc. tx_inv Hc.
  all: match goal with Hx : updateReward _ _ _ = Ok _ |- _ => apply updateReward_zero in Hx; [|done] end.
  - by eapply executeSlash_zero.
  - done.
Qed.

(** The calls that update rewards or start an epoch. *)
Definition uses_rewards (c : call) : bool :=
  match c with
  | CallStake _ | CallStakeWithIdentity _ _ _ _ | CallRequestUnstake _ | CallSlashImmediate _ _ | CallSlash _ _
  | CallExecuteSlash _ | CallResolve _ _ | CallClaimRewards | CallClaimVested | CallNotify _ => true
  | _ => false
  end.
Definition starts_epoch (c : call) : bool := match c with CallNotify _ => true | _ => false end.

Lemma exec_keeps_rw msg c : uses_rewards c = false → keeps rewards_of (exec this msg c).
Proof. destruct c; try discriminate; intros _; cbn [exec]; open_call; frame. Qed.

(** Without rewards there is nothing to claim. *)
Lemma claims_zero msg w :
  rw_zero (rw (self w)) → ∀ w' u, claimRewards this msg w ≠ Ok (w', u) ∧ claimVestedRewards this msg w ≠ Ok (w', u).
Proof.
  intros Hz w' u. split; intros Hc.
  - unfold claimRewards in Hc. tx_inv Hc;
      match goal with Hx : updateReward _ _ _ = Ok _ |- _ => apply updateReward_zero in Hx; [|done] end; zbool;
      match goal with Hx : default 0 _ ≠ 0 |- _ => apply Hx; apply z_rewards; done end.
  - unfold claimVestedRewards in Hc. tx_inv Hc.
    change (vested (sender msg) (self w)) with (default [] (vestedRewards (rw (self w)) !! sender msg)) in *.
    rewrite (z_vested _ Hz) in *. cbn [release_entries] in *.
    match goal with Hx : mret _ _ = Ok _ |- _ => tx_inv Hx end.
Qed.

Lemma exec_rw_zero msg c w w' u :
  starts_epoch c = false → rw_zero (rw (self w)) → exec this msg c w = Ok (w', u) → rw_zero (rw (self w')).
Proof.
  intros Hn Hz Hc. destruct (uses_rewards c) eqn:Hu; [|by rewrite (exec_keeps_rw msg c Hu w w' u Hc)].
  destruct (claims_zero msg w Hz w' u) as [Hno1 Hno2].
  destruct c; try discriminate; cbn [exec] in Hc; try (by exfalso; auto).
  1: unfold stake in Hc. 2: unfold stakeWithIdentity in Hc. 3: unfold requestUnstake in Hc.
  4: unfold slashImmediate in Hc. 5: unfold slash in Hc. 6: unfold executeSlash, _getValidProposal in Hc.
  7: unfold resolveAppeal, _getValidProposal in Hc.
  all: tx_inv Hc;
    repeat match goal with Hx : updateReward _ _ _ = Ok _ |- _ => apply updateReward_zero in Hx; [|done] end;
    try (apply add_stake_keeps_rw in Hc; by rewrite Hc); try (by eapply executeSlash_zero);
    try (eapply run_proposal_zero; [|exact Hc]); first [exact Hz|match goal with Hx : rw_zero _ |- _ => exact Hx end].
Qed.
End NoRewards.

(** ** The books in every history *)

Definition changes_stakes (c : call) : bool :=
  match c with
  | CallStake _ | CallStakeWithIdentity _ _ _ _ | CallUpdateIdentity _ _ _ | CallRequestUnstake _
  | CallCompleteUnstake _ | CallExecuteBeneficiary | CallFreeze _ | CallUnfreeze _
  | CallSlashImmediate _ _ | CallSlash _ _ | CallExecuteSlash _ | CallResolve _ true => true
  | _ => false
  end.

Section Books.
Context {T G : Type} `{TokenLaws T} `{BaseContracts G}.
Context (this : Addr).
Implicit Types w : chain State T G.

Lemma exec_keeps_stakes msg c :
  changes_stakes c = false → keeps (λ w, stakes (self w)) (exec this msg c).
Proof.
  destruct c; try discriminate; try (intros _; cbn [exec]; open_call; by frame).
  destruct uphold; [discriminate|]. intros _. cbn [exec]. unfold resolveAppeal, _getValidProposal.
  intros w w' u Hr. by tx_inv Hr.
Qed.

(** Before the first reward epoch, these calls do not move tokens. *)
Lemma exec_keeps_tok msg c w w' u :
  changes_stakes c = false → rw_zero (rw (self w)) → exec this msg c w = Ok (w', u) → tok w' = tok w.
Proof.
  intros Hch Hz Hc. destruct (claims_zero this msg w Hz w' u) as [Hno1 Hno2].
  revert Hc. destruct c; try discriminate; try (by intros; exfalso; auto);
    try (apply (λ K : keeps tok _, K w w' u); cbn [exec]; open_call; by frame).
  destruct uphold; [discriminate|]. cbn [exec]. unfold resolveAppeal, _getValidProposal. intros Hr. by tx_inv Hr.
Qed.

(** An update of a provider that keeps the amounts. *)
Lemma put_provider_same p i s k :
  stakes s = k → stakedAmount i = stakedAmount (prov p k) → unbonding i = unbonding (prov p k) →
  book_change p 0 0 k (stakes (put_provider p i s)).
Proof.
  intros <- Hs Hu. apply book_change_same; books_simpl; try done. intros a Ha. by rewrite lookup_insert_ne.
Qed.

(** The change a call makes, within the bounds of the books. *)
Definition books_effect w w' : Prop :=
  ∃ p ds du, book_change p ds du (stakes (self w)) (stakes (self w')) ∧
    0 ≤ stakedAmount (prov p (stakes (self w))) + ds ∧ 0 ≤ unbonding (prov p (stakes (self w))) + du ∧
    ds + du ≤ SUPPLY_CAP ∧
    (rw_zero (rw (self w)) → balanceOf (tok w) this + ds + du ≤ balanceOf (tok w') this).

Section Call.
Context (bound : Z) w (Hk : books bound (stakes (self w))) (Hbound : bound + SUPPLY_CAP ≤ max_uint128).

Lemma effect_same p w' :
  book_change p 0 0 (stakes (self w)) (stakes (self w')) →
  (rw_zero (rw (self w)) → balanceOf (tok w) this ≤ balanceOf (tok w') this) → books_effect w w'.
Proof.
  intros Hc Ht. exists p, 0, 0. pose proof (b_nonneg _ _ Hk p). unfold SUPPLY_CAP.
  split_and!; try done; [lia..|]. intros Hz. specialize (Ht Hz). lia.
Qed.

Lemma stake_bound p amount :
  amount ≤ SUPPLY_CAP → stakedAmount (prov p (stakes (self w))) + amount ≤ max_uint128.
Proof. pose proof (books_le _ _ p Hk). pose proof (b_bound _ _ Hk). lia. Qed.

Lemma add_stake_effect msg amount newTotal info w1 w' u :
  0 ≤ amount → sender msg ≠ this → stakes (self w1) = stakes (self w) → tok w1 = tok w →
  (∀ a, balanceOf (tok w) a ≤ SUPPLY_CAP) →
  newTotal = stakedAmount (prov (sender msg) (stakes (self w))) + amount →
  unbonding info = unbonding (prov (sender msg) (stakes (self w))) →
  add_stake this msg amount newTotal info w1 = Ok (w', u) → books_effect w w'.
Proof.
  intros Ha Hthis Hst Ht Hcap Hn Hu Hc. pose proof (b_nonneg _ _ Hk (sender msg)).
  assert (Hle : amount ≤ SUPPLY_CAP).
  { pose proof Hc as Hc'. unfold add_stake in Hc'. tx_inv Hc'. token_inv. rewrite Ht in HL. by etrans. }
  pose proof (stake_bound (sender msg) amount Hle).
  apply add_stake_change in Hc as (C1 & _ & _ & _ & _ & C6); rewrite ?Hst; [|(done || lia)..].
  rewrite Hst in C1. rewrite Ht in C6. exists (sender msg), amount, 0. split_and!; try done; lia.
Qed.

Lemma register_unbonding (b : bool) msg i : unbonding (if b then i else register msg i) = unbonding i.
Proof. by destruct b. Qed.

Lemma stake_effect msg amount w' u :
  0 ≤ amount → sender msg ≠ this → (∀ a, balanceOf (tok w) a ≤ SUPPLY_CAP) →
  stake this msg amount w = Ok (w', u) → books_effect w w'.
Proof.
  intros Ha Hthis Hcap Hc. unfold stake in Hc. tx_inv Hc. update_inv.
  eapply add_stake_effect; [done..| | |exact Hc].
  all: rewrite ?register_unbonding; unfold provider; by rewrite US.
Qed.

Lemma stakeWithIdentity_effect msg amount node regn caps w' u :
  0 ≤ amount → sender msg ≠ this → (∀ a, balanceOf (tok w) a ≤ SUPPLY_CAP) →
  stakeWithIdentity this msg amount node regn caps w = Ok (w', u) → books_effect w w'.
Proof.
  intros Ha Hthis Hcap Hc. unfold stakeWithIdentity in Hc. tx_inv Hc; update_inv.
  all: eapply add_stake_effect; [done..| | | | | |exact Hc]; cbn; try done.
  all: unfold provider, prov; by rewrite US.
Qed.

Lemma requestUnstake_effect msg amount w' u :
  0 ≤ amount → requestUnstake msg amount w = Ok (w', u) → books_effect w w'.
Proof.
  intros Ha Hc. unfold requestUnstake in Hc. tx_inv Hc. update_inv. zbool.
  pose proof (b_nonneg _ _ Hk (sender msg)). pose proof (books_le _ _ (sender msg) Hk). pose proof (b_bound _ _ Hk).
  assert (Hp : provider (sender msg) (self w0) = prov (sender msg) (stakes (self w))) by (unfold provider; by rewrite US).
  rewrite Hp in *. assert (Hu : uint 128 amount = amount) by (apply uint_id; unfold max_uint128, SUPPLY_CAP in *; lia).
  rewrite Hu in *. exists (sender msg), (- amount), amount. split_and!; try lia; [|unfold SUPPLY_CAP; lia|intros _; cbn [tok]; rewrite UT; lia].
  stakes_simpl. rewrite US.
  apply book_change_update; cbn; try lia.
  - destruct (_ <? _); cbn; lia.
  - destruct (_ <? _); cbn; lia.
  - unfold queue. cbn. rewrite open_amount_app. unfold queue_of, owed. cbn. lia.
  - intros Hf. apply Forall_app. split; [done|by apply Forall_singleton].
Qed.

Lemma completeUnstake_effect msg index w' u :
  completeUnstake this msg index w = Ok (w', u) → books_effect w w'.
Proof.
  intros Hc. unfold completeUnstake in Hc. tx_inv Hc. zbool.
  pose proof (b_nonneg _ _ Hk (sender msg)). pose proof (b_bound _ _ Hk). pose proof (books_le _ _ (sender msg) Hk).
  pose proof (b_requests _ _ Hk (sender msg)) as Hreq. pose proof (b_queue _ _ Hk (sender msg)) as Hq.
  change (queue (sender msg) (self w)) with (queue_of (sender msg) (stakes (self w))) in *.
  rename o into r.
  match goal with Hx : _ !! _ = Some r |- _ => pose proof (open_amount_ge _ _ _ Hreq Hx) as Hge; rename Hx into Hr end.
  pose proof (Forall_lookup_1 _ _ _ _ Hreq Hr) as H0r. cbn in H0r.
  match goal with Hx : completed r = false |- _ => rename Hx into Hopen end.
  unfold owed in Hge. rewrite Hopen in Hge.
  assert (Hu : uint 128 (ur_amount r) = ur_amount r) by (apply uint_id; unfold max_uint128, SUPPLY_CAP in *; lia).
  rewrite Hu in *. token_inv. exists (sender msg), 0, (- ur_amount r).
  rewrite HS. change (provider (sender msg) (self w)) with (prov (sender msg) (stakes (self w))) in *.
  split_and!; try (unfold SUPPLY_CAP; lia); cycle 1.
  { intros _. rewrite HM, share_self. pose proof (share_nonneg this (sender msg) (ur_amount r) H0r). lia. }
  stakes_simpl.
  apply book_change_update; cbn; try lia.
  - rewrite (open_amount_insert _ _ r) by done. unfold owed. cbn. rewrite Hopen. lia.
  - intros Hf. apply Forall_insert; [done|]. cbn. lia.
Qed.

Lemma slash_books_effect p amount burnBps w1 w' :
  0 ≤ amount → 0 ≤ burnBps ≤ BPS_DENOMINATOR → stakes (self w1) = stakes (self w) → tok w1 = tok w →
  vestedRewards (rw (self w1)) = vestedRewards (rw (self w)) →
  slash_effect this p amount burnBps w1 w' → books_effect w w'.
Proof.
  intros Ha Hbps Hst Ht Hv (f & Hf0 & Hf & _ & Hb & _ & _ & _ & _ & _ & Hbal). rewrite Hst in Hb. cbn zeta in Hbal.
  pose proof (b_nonneg _ _ Hk p). pose proof (b_queue _ _ Hk p).
  pose proof (bc_requests _ _ _ _ _ Hb (b_requests _ _ Hk p)) as Hreq. pose proof (open_amount_nonneg _ Hreq).
  pose proof (bc_queue _ _ _ _ _ Hb).
  eexists p, _, _. split; [exact Hb|]. split_and!; try lia; [unfold SUPPLY_CAP; lia|].
  intros Hz. rewrite (Hf ltac:(unfold vested; rewrite Hv; apply Hz)) in Hbal. rewrite Hbal, share_self, Ht.
  assert (0 ≤ amount + 0 - (amount + 0) * burnBps / BPS_DENOMINATOR).
  { assert ((amount + 0) * burnBps / BPS_DENOMINATOR ≤ amount); [|lia].
    apply Z.div_le_upper_bound; unfold BPS_DENOMINATOR in *; nia. }
  pose proof (share_nonneg this (treasury (params (self w1))) _ H6). lia.
Qed.

Context (Hp : params_ok (params (self w))) (Hr : records_ok (recs (self w))).

Lemma slash_burn_ok : 0 ≤ uint 16 (slashBurnBps (params (self w))) ≤ BPS_DENOMINATOR.
Proof. destruct Hp. rewrite uint_id; unfold BPS_DENOMINATOR, max_uint in *; lia. Qed.

Lemma bound_128 : bound ≤ max_uint128.
Proof. unfold SUPPLY_CAP in Hbound. lia. Qed.

(** Both immediate slashes. *)
Lemma slashImmediate_slash msg p amount w' u :
  0 ≤ amount → slashImmediate this msg p amount w = Ok (w', u) →
  ∃ w1, all_but_rewards w1 = all_but_rewards w ∧
    (hasRole (base w) SLASHER_ROLE (sender msg) = true ∧ slashingEnabled (params (self w)) = true) ∧
    slash_effect this p amount (uint 16 (slashBurnBps (params (self w)))) w1 w'.
Proof.
  intros Ha Hc. unfold slashImmediate in Hc. tx_inv Hc. update_inv.
  exists w0. split_and!; [congruence|done|by apply negb_false_iff; rewrite UP in *|].
  rewrite UP in Hc. eapply executeSlash_effect in Hc; [exact Hc|rewrite US; exact Hk|exact bound_128|done|].
  apply slash_burn_ok.
Qed.

Lemma proposal_burn id :
  id < slashProposalCount (recs (self w)) →
  0 ≤ sp_amount (proposal id (self w)) ∧ 0 ≤ slashBurnBpsSnapshot (proposal id (self w)) ≤ BPS_DENOMINATOR.
Proof.
  intros _. unfold proposal. destruct (slashProposals (recs (self w)) !! id) as [p|] eqn:Hl; cbn; [|done].
  destruct (r_proposals _ Hr _ _ Hl) as [_ []]. split; [lia|done].
Qed.

Lemma run_proposal_effect now pr w1 w' u :
  stakes (self w1) = stakes (self w) → tok w1 = tok w → rw (self w1) = rw (self w) →
  0 ≤ sp_amount pr → 0 ≤ slashBurnBpsSnapshot pr ≤ BPS_DENOMINATOR →
  run_proposal this now pr w1 = Ok (w', u) → books_effect w w'.
Proof.
  intros Hst Ht Hrw Ha Hb Hc. unfold run_proposal, _doUpdateReward in Hc. pose proof bound_128.
  pose proof (b_nonneg _ _ Hk (sp_provider pr)).
  assert (Hpv : ∀ w2, stakes (self w2) = stakes (self w1) → provider (sp_provider pr) (self w2) = prov (sp_provider pr) (stakes (self w))).
  { intros w2 Hw2. unfold provider. by rewrite Hw2, Hst. }
  tx_inv Hc; update_inv; rewrite Hpv in * by done; cycle 1.
  { apply (effect_same (sp_provider pr)); [rewrite US, Hst; apply book_change_refl|]. by rewrite UT, Ht. }
  eapply executeSlash_effect in Hc; [|rewrite US, Hst; done|done| |done].
  - eapply slash_books_effect in Hc; [done| |done|congruence..]. case_match; lia.
  - case_match; lia.
Qed.

Lemma exec_books_effect msg c w' u :
  call_wf c → sender msg ≠ this → (∀ a, balanceOf (tok w) a ≤ SUPPLY_CAP) →
  exec this msg c w = Ok (w', u) → books_effect w w'.
Proof.
  intros Hwf Hthis Hcap Hc. destruct (changes_stakes c) eqn:Hch; cycle 1.
  { apply (effect_same 0%N).
    - rewrite (exec_keeps_stakes msg c Hch w w' u Hc). apply book_change_refl.
    - intros Hz. by rewrite (exec_keeps_tok msg c w w' u Hch Hz Hc). }
  destruct c; try discriminate; cbn [exec call_wf] in *.
  - by eapply stake_effect.
  - destruct Hwf as [Ha _]. exact (stakeWithIdentity_effect _ _ _ _ _ _ _ Ha Hthis Hcap Hc).
  - unfold updateIdentity in Hc. tx_inv Hc; (apply (effect_same (sender msg)); [by apply put_provider_same|done]).
  - by eapply requestUnstake_effect.
  - by eapply completeUnstake_effect.
  - unfold executeBeneficiaryChange in Hc. tx_inv Hc. apply (effect_same (sender msg)); [by apply put_provider_same|done].
  - unfold freezeProvider in Hc. tx_inv Hc. apply (effect_same p); [by apply put_provider_same|done].
  - unfold unfreezeProvider in Hc. tx_inv Hc. apply (effect_same p); [by apply put_provider_same|done].
  - apply slashImmediate_slash in Hc as (w1 & He & _ & Hs); [|done]. eapply slash_books_effect; [done|exact slash_burn_ok| | | |exact Hs]; congruence.
  - apply slashImmediate_slash in Hc as (w1 & He & _ & Hs); [|done]. eapply slash_books_effect; [done|exact slash_burn_ok| | | |exact Hs]; congruence.
  - unfold executeSlash, _getValidProposal in Hc. tx_inv Hc. guards.
    destruct (proposal_burn id) as [? ?]; [done|]. eapply run_proposal_effect; [| | |done..|exact Hc]; done.
  - destruct uphold; [|done]. unfold resolveAppeal, _getValidProposal in Hc. tx_inv Hc. guards.
    destruct (proposal_burn id) as [? ?]; [done|]. eapply run_proposal_effect; [| | |done..|exact Hc]; done.
Qed.

(** *** Node identities *)

Lemma put_provider_ids p i s k :
  stakes s = k → nodeId i = nodeId (prov p k) → same_ids k (stakes (put_provider p i s)).
Proof.
  intros <- Hi a. stakes_simpl. unfold prov at 1. cbn. rewrite lookup_insert.
  destruct (decide (p = a)) as [->|]; [by cbn|done].
Qed.

Lemma add_stake_ids msg amount newTotal info w1 w' u :
  stakes (self w1) = stakes (self w) → nodeId info = nodeId (prov (sender msg) (stakes (self w))) →
  add_stake this msg amount newTotal info w1 = Ok (w', u) → same_ids (stakes (self w)) (stakes (self w')).
Proof.
  intros Hst Hi Hc. unfold add_stake in Hc. tx_inv Hc.
  match goal with Hx : safeTransferFrom _ _ _ _ _ = Ok _ |- _ =>
    apply (keeps_safeTransferFrom (λ w, self w)) in Hx; [rewrite Hx|intros [] ?; reflexivity] end.
  intros a'. cbn. rewrite <- (put_provider_ids (sender msg) (set_stakedAmount (uint 128 newTotal) info) (self w1) _ Hst Hi a').
  done.
Qed.

Definition sets_identity (c : call) : bool :=
  match c with CallStakeWithIdentity _ _ _ _ | CallUpdateIdentity _ _ _ => true | _ => false end.

Lemma run_proposal_ids now pr w1 w' u :
  stakes (self w1) = stakes (self w) → 0 ≤ sp_amount pr → 0 ≤ slashBurnBpsSnapshot pr ≤ BPS_DENOMINATOR →
  run_proposal this now pr w1 = Ok (w', u) → same_ids (stakes (self w)) (stakes (self w')).
Proof.
  intros Hst Ha Hb Hc. unfold run_proposal, _doUpdateReward in Hc. pose proof bound_128.
  pose proof (b_nonneg _ _ Hk (sp_provider pr)).
  assert (Hpv : ∀ w2, stakes (self w2) = stakes (self w1) → provider (sp_provider pr) (self w2) = prov (sp_provider pr) (stakes (self w))).
  { intros w2 Hw2. unfold provider. by rewrite Hw2, Hst. }
  tx_inv Hc; update_inv; rewrite Hpv in * by done; [|by rewrite US, Hst].
  eapply executeSlash_effect in Hc; [|rewrite US, Hst; done|done| |done]; [|case_match; lia].
  destruct Hc as (f & _ & _ & _ & _ & _ & Hids & _). by rewrite US, Hst in Hids.
Qed.

Lemma exec_same_ids msg c w' u :
  call_wf c → sets_identity c = false → exec this msg c w = Ok (w', u) →
  same_ids (stakes (self w)) (stakes (self w')).
Proof.
  intros Hwf Hid Hc. destruct (changes_stakes c) eqn:Hch; cycle 1.
  { by rewrite (exec_keeps_stakes msg c Hch w w' u Hc). }
  destruct c; try discriminate; cbn [exec call_wf] in *.
  - unfold stake in Hc. tx_inv Hc. update_inv. eapply add_stake_ids; [exact US| |exact Hc].
    unfold provider. rewrite US. change (default no_provider _) with (prov (sender msg) (stakes (self w))).
    by destruct (active (prov (sender msg) (stakes (self w)))).
  - unfold requestUnstake in Hc. tx_inv Hc. update_inv. intros a'. stakes_simpl. unfold prov at 1. cbn.
    rewrite lookup_insert, US. destruct (decide (sender msg = a')) as [->|]; [|done].
    cbn. unfold provider, prov. rewrite US. match goal with |- nodeId (if ?b then _ else _) = _ => by destruct b end.
  - unfold completeUnstake in Hc. tx_inv Hc.
    match goal with Hx : safeTransfer _ _ _ _ = Ok _ |- _ =>
      apply (keeps_safeTransfer (λ w, self w)) in Hx; [rewrite Hx|intros [] ?; reflexivity] end.
    intros a'. stakes_simpl. unfold prov at 1. cbn. rewrite lookup_insert.
    destruct (decide (sender msg = a')) as [->|]; done.
  - unfold executeBeneficiaryChange in Hc. tx_inv Hc. by apply put_provider_ids.
  - unfold freezeProvider in Hc. tx_inv Hc. by apply put_provider_ids.
  - unfold unfreezeProvider in Hc. tx_inv Hc. by apply put_provider_ids.
  - apply slashImmediate_slash in Hc as (w1 & He & _ & f & _ & _ & _ & _ & _ & Hids & _); [|done]. simplify_eq. congruence.
  - apply slashImmediate_slash in Hc as (w1 & He & _ & f & _ & _ & _ & _ & _ & Hids & _); [|done]. simplify_eq. congruence.
  - unfold executeSlash, _getValidProposal in Hc. tx_inv Hc. guards.
    destruct (proposal_burn id) as [? ?]; [done|]. eapply run_proposal_ids; [|done..|exact Hc]. done.
  - destruct uphold; [|done]. unfold resolveAppeal, _getValidProposal in Hc. tx_inv Hc. guards.
    destruct (proposal_burn id) as [? ?]; [done|]. eapply run_proposal_ids; [|done..|exact Hc]. done.
Qed.
End Call.

(** The proposals of a history. *)
Lemma effect_records_ok msg w w' :
  records_ok (recs (self w)) → proposals_effect msg w w' → records_ok (recs (self w')).
Proof.
  intros [Rc Rd Rp] [He|p n Hm Hn Hp _ _|id p' Hid Hm Hn Hstep].
  - injection He as E1 E2. split; rewrite ?E1, ?E2; done.
  - fold n in Rp, Rc, Rd. split; rewrite ?Hm, ?Hn; [lia| |].
    + intros id Hid. rewrite lookup_insert. destruct (decide (n = id)); [done|]. apply Rd. lia.
    + apply map_Forall_insert_2; [split; [lia|done]|].
      eapply map_Forall_impl; [exact Rp|]. cbn. intros i x [? ?]. split; [lia|done].
  - destruct (Rd id Hid) as [p Hl]. unfold proposal in Hstep. rewrite Hl in Hstep. cbn in Hstep.
    destruct (Rp _ _ Hl) as [_ []]. split; rewrite ?Hm, ?Hn; [done| |].
    + intros i Hi. rewrite lookup_insert. destruct (decide (id = i)); [done|]. by apply Rd.
    + apply map_Forall_insert_2; [|done]. split; [done|].
      inversion Hstep; subst; split; cbn; try done; congruence.
Qed.

(** *** Identities and reverse mapping *)

Record ids_ok (s : State) : Prop := {
  ids_zero : nodeId (prov 0%N (stakes s)) = 0;
  ids_owner : ∀ p, nodeId (prov p (stakes s)) ≠ 0 → node_owner (nodeId (prov p (stakes s))) s = p
}.

Lemma exec_keeps_nodes msg c :
  sets_identity c = false → keeps (λ w : chain State T G, nodeIdToProvider (recs (self w))) (exec this msg c).
Proof.
  destruct c; try discriminate; intros _; cbn [exec]; open_call; frame;
    apply (slash_queue_keeps (λ s, nodeIdToProvider (recs s))); intros; reflexivity.
Qed.

Lemma ids_ok_same s s' :
  same_ids (stakes s) (stakes s') → nodeIdToProvider (recs s') = nodeIdToProvider (recs s) → ids_ok s → ids_ok s'.
Proof.
  intros Hi Hn [Hz Ho]. split; [by rewrite Hi|]. intros p. rewrite Hi. unfold node_owner. rewrite Hn. apply Ho.
Qed.

(** A node identity that nobody holds is given to [a], whose old one is
    released or left behind. *)
Lemma ids_ok_claim s s' a node :
  a ≠ 0%N → ids_ok s →
  nodeId (prov a (stakes s')) = node → (∀ p, p ≠ a → nodeId (prov p (stakes s')) = nodeId (prov p (stakes s))) →
  (node ≠ 0 → node_owner node s' = a) → (node ≠ 0 → nodeId (prov a (stakes s)) ≠ node → node_owner node s = 0%N) →
  (∀ n, n ≠ node → n ≠ nodeId (prov a (stakes s)) → node_owner n s' = node_owner n s) → ids_ok s'.
Proof.
  intros Ha [Hz Ho] Hna Hother Hnode Hfree Hrest. split; [by rewrite Hother by done|]. intros p Hp.
  destruct (decide (p = a)) as [->|Hne]; [rewrite Hna in *; by apply Hnode|].
  rewrite Hother in * by done. pose proof (Ho p Hp) as Hop.
  assert (Hq : nodeId (prov p (stakes s)) ≠ nodeId (prov a (stakes s))).
  { intros Heq. rewrite Heq in Hp, Hop. pose proof (Ho a Hp). congruence. }
  destruct (decide (nodeId (prov p (stakes s)) = node)) as [Heq|Hneq]; [|by rewrite Hrest].
  rewrite Heq in *. rewrite (Hfree Hp ltac:(congruence)) in Hop. subst p. congruence.
Qed.

Lemma add_stake_node msg amount newTotal info w1 w' u :
  add_stake this msg amount newTotal info w1 = Ok (w', u) →
  nodeId (prov (sender msg) (stakes (self w'))) = nodeId info ∧
  (∀ p, p ≠ sender msg → nodeId (prov p (stakes (self w'))) = nodeId (prov p (stakes (self w1)))) ∧
  recs (self w') = recs (self w1).
Proof.
  intros Hc. unfold add_stake in Hc. tx_inv Hc.
  match goal with Hx : safeTransferFrom _ _ _ _ _ = Ok _ |- _ =>
    apply (keeps_safeTransferFrom (λ w, self w)) in Hx; [rewrite Hx|intros [] ?; reflexivity] end.
  split_and!; [|intros p Hp|done]; books_simpl; [done|]. by rewrite lookup_insert_ne.
Qed.

Lemma stakeWithIdentity_ids msg amount node regn caps w w' u :
  sender msg ≠ 0%N → ids_ok (self w) →
  stakeWithIdentity this msg amount node regn caps w = Ok (w', u) → ids_ok (self w').
Proof.
  intros Hz Hok Hc. unfold stakeWithIdentity in Hc. tx_inv Hc; update_inv.
  all: apply add_stake_node in Hc as (A1 & A2 & A3); cbn in A1, A2, A3.
  1-2: eapply ids_ok_same; [intros p; destruct (decide (p = sender msg)) as [->|Hp]| |exact Hok];
    [rewrite A1; unfold provider; by rewrite US|by rewrite A2, US|by rewrite A3, UR].
  guards. eapply (ids_ok_claim (self w) _ (sender msg) node); [done..| | | |].
  - intros p Hp. by rewrite A2, US.
  - intros _. unfold node_owner. rewrite A3. cbn. by rewrite lookup_insert_eq.
  - intros _ _. unfold node_owner in *. by rewrite UR in *.
  - intros n Hn _. unfold node_owner. rewrite A3. cbn. by rewrite lookup_insert_ne, UR.
Qed.

Lemma updateIdentity_ids msg node regn caps w w' u :
  sender msg ≠ 0%N → ids_ok (self w) → updateIdentity msg node regn caps w = Ok (w', u) → ids_ok (self w').
Proof.
  intros Hz Hok Hc. unfold updateIdentity in Hc.
  apply tx_bind_Ok in Hc as (? & info & Hg & Hc). tx_inv Hg.
  change (provider (sender msg) (self w)) with (prov (sender msg) (stakes (self w))) in Hc.
  set (old := prov (sender msg) (stakes (self w))) in *.
  assert (Hother : ∀ (st : State) p, stakes st = stakes (self w) → p ≠ sender msg → ∀ i,
    nodeId (prov p (stakes (put_provider (sender msg) i st))) = nodeId (prov p (stakes (self w)))).
  { intros st p <- Hp i. books_simpl. by rewrite lookup_insert_ne. }
  assert (Hself : ∀ st i, nodeId (prov (sender msg) (stakes (put_provider (sender msg) i st))) = nodeId i)
    by (intros st i; books_simpl; done).
  tx_inv Hc; guards; try congruence;
    eapply (ids_ok_claim (self w) _ (sender msg) node); try done; cbn [self]; rewrite ?Hself; cbn; try done;
    try (intros p Hp; by apply Hother).
  { intros Hn. change (node_owner node (self w) = sender msg). rewrite E in *. by apply Hok. }
  all: try (intros Hn; unfold node_owner; cbn; by rewrite lookup_insert_eq).
  all: try (intros n Hn Hn'; unfold node_owner; cbn; by rewrite !lookup_insert_ne).
  all: intros Hn _; match goal with Hx : _ ∨ _ |- _ => destruct Hx as [?|?] end; guards; done.
Qed.

Lemma exec_ids_ok msg c w w' u bound :
  call_wf c → sender msg ≠ 0%N → books bound (stakes (self w)) → bound + SUPPLY_CAP ≤ max_uint128 →
  params_ok (params (self w)) → records_ok (recs (self w)) → ids_ok (self w) →
  exec this msg c w = Ok (w', u) → ids_ok (self w').
Proof.
  intros Hwf Hz Hk Hb Hp Hr Hi Hc. destruct (sets_identity c) eqn:Hs; cycle 1.
  { eapply ids_ok_same; [|by eapply exec_keeps_nodes|exact Hi]. by eapply exec_same_ids. }
  destruct c; try discriminate; cbn [exec] in Hc; [by eapply stakeWithIdentity_ids|by eapply updateIdentity_ids].
Qed.
End Books.
