(* ===== verification/BunkerStakingSafety.v ===== *)
(** * Safety of the staking contract

    The theorems about [BunkerStaking]: the totals agree with the providers'
    books in every history, what a slash takes and where it goes, when a
    proposal can be executed, that the stakes are backed by tokens as long as
    no reward epoch was started, and where they are not. *)

From S2P Require Import Prelude Solidity BunkerToken Unbonding BunkerStaking BunkerStakingBooks Runs.
Import Staking.
Local Open Scope Z_scope.

Section Histories.
Context {T G : Type} `{TokenLaws T} `{BaseContracts G}.
Context (this : Addr).
Implicit Types w : chain State T G.

(** What holds after [n] steps: the amounts have stayed below [n] times the cap
    of the token. *)
Record good (n : nat) w : Prop := {
  g_books : books (Z.of_nat n * SUPPLY_CAP) (stakes (self w));
  g_params : params_ok (params (self w));
  g_records : records_ok (recs (self w));
  g_ids : ids_ok (self w)
}.

(** Enough steps for any history: the 128-bit amounts cannot overflow before. *)
Definition max_steps : Z := 2 ^ 31.

Lemma max_steps_bound n : Z.of_nat n < max_steps → Z.of_nat n * SUPPLY_CAP + SUPPLY_CAP ≤ max_uint128.
Proof. unfold max_steps, max_uint128, max_uint, SUPPLY_CAP. lia. Qed.

Definition initial w : Prop := ∃ token tr o, constructor token tr o = Some (self w).

Lemma initial_good w : initial w → good 0 w.
Proof.
  intros (token & tr & o & Hc). unfold constructor in Hc.
  destruct ((token =? 0)%N || (tr =? 0)%N || (o =? 0)%N) eqn:Hz; [done|]. injection Hc as Hc.
  apply orb_false_iff in Hz as [Hz _]. apply orb_false_iff in Hz as [_ Hz]. apply N.eqb_neq in Hz.
  split; rewrite <- Hc.
  - split; try done; cbn; intros a; unfold prov, queue_of; cbn; by rewrite ?lookup_empty.
  - split; try done; cbn [tierConfigs params slashPercentageBps].
    + by right.
    + intros t Ht. by destruct t.
    + intros r. by destruct r.
  - split; cbn; [done|lia|apply map_Forall_empty].
  - split; cbn; [done|]. unfold prov. cbn. intros p Hp. by rewrite lookup_empty in Hp.
Qed.

Lemma books_mono b b' k : b ≤ b' → books b k → books b' k.
Proof. intros Hb [? ? ? ? ? ?]. split; try done. lia. Qed.

Lemma step_good n w w' : Z.of_nat n < max_steps → good n w → step this w w' → good (S n) w'.
Proof.
  intros Hn [Hk Hp Hr Hi] Hstep. pose proof (max_steps_bound n Hn) as Hb.
  assert (Hmono : Z.of_nat n * SUPPLY_CAP ≤ Z.of_nat (S n) * SUPPLY_CAP) by (unfold SUPPLY_CAP; lia).
  assert (Hsame : good (S n) w) by (split; try done; by eapply books_mono).
  destruct Hstep as [msg c w Hwf Hthis Hz Ht Hcap|w t' _|w g']; [|by destruct Hsame..].
  apply (commit_inv _ (good (S n))); [|done]. intros w' u Hc.
  destruct (exec_books_effect this _ _ Hk Hb Hp Hr msg c w' u Hwf Hthis Hcap Hc) as (p & ds & du & E1 & E2 & E3 & E4 & _).
  split.
  - eapply books_mono; [|by eapply books_change]. unfold SUPPLY_CAP in *. lia.
  - by eapply exec_params_ok.
  - eapply effect_records_ok, exec_proposals; try done. intros a. apply (b_nonneg _ _ Hk).
  - by eapply exec_ids_ok.
Qed.

Lemma history_good n w w' : initial w → nsteps (step this) n w w' → Z.of_nat n ≤ max_steps → good n w'.
Proof.
  intros Hi Hs. revert w' Hs. induction n as [|n IH]; intros w' Hs Hn.
  - inversion Hs; subst. by apply initial_good.
  - apply nsteps_inv_r in Hs as (w1 & Hs & Hlast). eapply step_good; [|apply IH|exact Hlast]; [lia|done|lia].
Qed.

(** C3: invariant.  In every history of up to 2^31 calls the contract's totals agree with
    its providers: [totalStaked] is the sum of their stakes, [totalUnbonding] the
    sum of their unbonding amounts, each provider's unbonding amount is what its
    open unstake requests add up to, and no amount leaves its 128 bits. *)
Theorem staking_books_balance n w w' :
  initial w → nsteps (step this) n w w' → Z.of_nat n ≤ max_steps →
  let k := stakes (self w') in
  totalStaked k = sum_map stakedAmount (providers k) ∧
  totalUnbonding k = sum_map unbonding (providers k) ∧
  ∀ p, unbonding (provider p (self w')) = open_amount (queue p (self w')) ∧
    0 ≤ stakedAmount (provider p (self w')) ≤ max_uint128 ∧ 0 ≤ unbonding (provider p (self w')) ≤ max_uint128.
Proof.
  intros Hi Hs Hn k. destruct (history_good n w w' Hi Hs Hn) as [Hk _ _ _].
  split_and!; [apply Hk..|]. intros p. split; [apply Hk|].
  pose proof (books_le _ _ p Hk). pose proof (b_nonneg _ _ Hk p). pose proof (b_bound _ _ Hk).
  change (provider p (self w')) with (prov p (stakes (self w'))).
  unfold max_steps, max_uint128, max_uint, SUPPLY_CAP in *. lia.
Qed.

(** Type.  Every parameter stays in the range the setters enforce, in every history:
    the slash split adds up to 100%, the periods stay within their limits (which begin
    at one minute, where the comments of the contract name longer ones), the tiers' minimum stakes stay
    strictly ascending and their multipliers between 1x and 2x, slash percentages
    stay below 100%, and every slash proposal has a positive amount and a window
    within the limits. *)
Theorem staking_configuration_valid n w w' :
  initial w → nsteps (step this) n w w' → Z.of_nat n ≤ max_steps →
  params_ok (params (self w')) ∧ records_ok (recs (self w')).
Proof. intros Hi Hs Hn. by destruct (history_good n w w' Hi Hs Hn). Qed.

(** Invariant.  Node identities are unique: in every history no two providers have the
    same node identity, and the reverse mapping of a provider's identity leads back
    to it. *)
Theorem node_ids_unique n w w' p q :
  initial w → nsteps (step this) n w w' → Z.of_nat n ≤ max_steps →
  let id a := nodeId (provider a (self w')) in
  (id p ≠ 0 → node_owner (id p) (self w') = p) ∧ (id p ≠ 0 → id p = id q → p = q).
Proof.
  intros Hi Hs Hn id. destruct (history_good n w w' Hi Hs Hn) as [_ _ _ [_ Ho]].
  split; [apply Ho|]. intros Hp Heq. rewrite <- (Ho p Hp), <- (Ho q); [|by change (id q ≠ 0); rewrite <- Heq].
  change (node_owner (id p) (self w') = node_owner (id q) (self w')). by rewrite Heq.
Qed.

(** C6: functional.  A slash in any reachable state takes exactly the amount asked for: from
    the active stake first, the rest from the unbonding requests, newest first (a
    request that is used up counts as completed).  No other provider is touched.
    Only a slasher can do it, and only while slashing is enabled.  The contract
    pays out the amount and the forfeited rewards: the burn share is burned, the
    rest goes to the treasury, nobody else gets or loses anything. *)
Theorem slash_takes_exactly n w w1 w2 msg p amount u :
  initial w → nsteps (step this) n w w1 → Z.of_nat n < max_steps → 0 ≤ amount →
  slash this msg p amount w1 = Ok (w2, u) →
  let s1 := self w1 in let s2 := self w2 in
  let fromStake := Z.min amount (stakedAmount (provider p s1)) in
  (hasRole (base w1) SLASHER_ROLE (sender msg) = true ∧ slashingEnabled (params s1) = true) ∧
  stakedAmount (provider p s2) = stakedAmount (provider p s1) - fromStake ∧
  unbonding (provider p s2) = unbonding (provider p s1) - (amount - fromStake) ∧
  queue p s2 = slashed (length (queue p s1)) (amount - fromStake) (queue p s1) ∧
  (∀ q, q ≠ p → stakedAmount (provider q s2) = stakedAmount (provider q s1) ∧
     unbonding (provider q s2) = unbonding (provider q s1) ∧ queue q s2 = queue q s1) ∧
  ∃ forfeited, 0 ≤ forfeited ∧
    let out := amount + forfeited in let burned := out * slashBurnBps (params s1) / BPS_DENOMINATOR in
    ∀ a, balanceOf (tok w2) a =
      balanceOf (tok w1) a - share a this out + share a (treasury (params s1)) (out - burned).
Proof.
  intros Hi Hs Hn Ha Hc s1 s2 fromStake.
  destruct (history_good n w w1 Hi Hs ltac:(lia)) as [Hk Hp Hr _].
  destruct (slashImmediate_slash this _ _ Hk (max_steps_bound n Hn) Hp msg p amount w2 u Ha Hc)
    as (w3 & He & Hauth & f & F1 & _ & _ & F4 & F5 & _ & _ & _ & _ & F9).
  injection He as E1 E2 E3 E4 E5 E6. rewrite E1, E2, E5 in *.
  assert (Hu : uint 16 (slashBurnBps (params (self w1))) = slashBurnBps (params (self w1))).
  { destruct Hp. apply uint_id. unfold BPS_DENOMINATOR, max_uint in *. lia. }
  rewrite Hu in *. destruct F4 as [_ _ B3 B4 _ _ B7]. split; [done|].
  split_and!; [exact B3|exact B4|exact F5|exact B7|]. exists f. split; [done|]. exact F9.
Qed.

(** What the contract owes the stakers beyond what it holds. *)
Definition deficit (w : chain State T G) : Z :=
  totalStaked (stakes (self w)) + totalUnbonding (stakes (self w)) - balanceOf (tok w) this.

(** A slash that does not reduce what is owed to what is held fails. *)
Lemma slash_needs_backing n w w1 w2 msg p amount u :
  initial w → nsteps (step this) n w w1 → Z.of_nat n < max_steps → 0 ≤ amount →
  slash this msg p amount w1 = Ok (w2, u) → deficit w1 ≤ amount.
Proof.
  intros Hi Hs Hn Ha Hc. destruct (history_good n w w1 Hi Hs ltac:(lia)) as [Hk Hp Hr _].
  destruct (slashImmediate_slash this _ _ Hk (max_steps_bound n Hn) Hp msg p amount w2 u Ha Hc)
    as (w3 & He & _ & f & F1 & _ & F3 & F4 & _).
  injection He as E1 E2 E3 E4 E5 E6. rewrite E2, E5 in *.
  pose proof (bc_total _ _ _ _ _ F4). pose proof (bc_total_unb _ _ _ _ _ F4). unfold deficit. lia.
Qed.

(** The vesting of an entry depends on the parameters only. *)
Lemma vestedAmount_params now e w w1 v w' :
  params (self w') = params (self w) → _vestedAmount now e w = Ok (w1, v) →
  w1 = w ∧ _vestedAmount now e w' = Ok (w', v).
Proof.
  unfold _vestedAmount. intros Hp Hv. tx_inv Hv; (split; [done|]); zbool;
    erewrite bind_run by (apply get_Ok; reflexivity); cbn beta; rewrite Hp.
  - rewrite (proj2 (Z.eqb_eq _ _)) by done. done.
  - rewrite (proj2 (Z.eqb_neq _ _)) by done. erewrite bind_run by (apply sub_Ok; done). cbn beta.
    rewrite (proj2 (Z.leb_le _ _)) by done. done.
  - rewrite (proj2 (Z.eqb_neq _ _)) by done. erewrite bind_run by (apply sub_Ok; done). cbn beta.
    rewrite (proj2 (Z.leb_gt _ _)) by lia. erewrite bind_run by (apply mul_Ok; done). cbn beta. by apply div_Ok.
Qed.

(** Forfeiting leaves what is forfeited to be forfeited again. *)
Lemma forfeit_entries_again now l f w w1 r w' :
  params (self w') = params (self w) →
  forfeit_entries now l f w = Ok (w1, r) → forfeit_entries now r.1 f w' = Ok (w', r).
Proof.
  intros Hp. revert f w1 r. induction l as [|e l IH]; intros f w1 r Hc; cbn [forfeit_entries] in Hc.
  { apply ret_Ok in Hc. by injection Hc as _ ->. }
  apply tx_bind_Ok in Hc as (w2 & v & Hv & Hc).
  destruct (vestedAmount_params _ _ _ _ _ _ Hp Hv) as [-> Hv'].
  apply tx_bind_Ok in Hc as (w2 & unvested & Hun & Hc). apply sub_Ok in Hun as [Hun E]. injection E as -> ->.
  destruct (0 <? vr_total e - v) eqn:Hpos.
  - apply tx_bind_Ok in Hc as (w2 & f' & Hf & Hc). apply add_Ok in Hf as [Hf E]. injection E as -> ->.
    apply tx_bind_Ok in Hc as (w2 & r' & Hr & Hc). apply ret_Ok in Hc. injection Hc as _ ->.
    cbn [forfeit_entries fst snd].
    rewrite (bind_run _ _ _ _ _ (Hv' : _vestedAmount now (set_vr_released (vr_total e) e) w' = _)).
    change (vr_total (set_vr_released (vr_total e) e)) with (vr_total e).
    erewrite bind_run by (apply sub_Ok; done). rewrite Hpos. erewrite bind_run by (apply add_Ok; done).
    rewrite (bind_run _ _ _ _ _ (IH _ _ _ Hr)). by destruct e, r'.
  - apply tx_bind_Ok in Hc as (w2 & r' & Hr & Hc). apply ret_Ok in Hc. injection Hc as _ ->.
    cbn [forfeit_entries fst snd]. rewrite (bind_run _ _ _ _ _ Hv').
    erewrite bind_run by (apply sub_Ok; done). rewrite Hpos.
    rewrite (bind_run _ _ _ _ _ (IH _ _ _ Hr)). by destruct r'.
Qed.

Lemma forfeit_again now p w w1 f :
  _forfeitUnvestedRewards now p w = Ok (w1, f) → ∃ w2 : chain State T G, _forfeitUnvestedRewards now p w1 = Ok (w2, f).
Proof.
  unfold _forfeitUnvestedRewards. intros Hc. apply tx_bind_Ok in Hc as (w2 & l & Hl & Hc). tx_inv Hl.
  apply tx_bind_Ok in Hc as (w2 & r & Hr & Hc). pose proof Hr as Hr0. apply forfeit_entries_Ok in Hr0 as (-> & _).
  tx_inv Hc. eexists. erewrite bind_run by (apply get_Ok; reflexivity). cbn beta. cbn [self].
  replace (vested p (put_vested p r.1 (self w))) with r.1
    by (unfold vested, put_vested; cbn; by rewrite lookup_insert_eq).
  erewrite bind_run by (eapply forfeit_entries_again; [|exact Hr]; done). cbn beta. tx_run. reflexivity.
Qed.

(** C11: safety.  A slash proposal is executed only with due process: in any reachable state,
    a call that turns a proposal into an executed one is made while slashing is
    enabled, either by a slasher after the full appeal window without an appeal, or
    by the owner upholding an appeal that was not resolved before. *)
Theorem slash_due_process n w w1 w2 msg c u id :
  initial w → nsteps (step this) n w w1 → Z.of_nat n < max_steps → call_wf c →
  exec this msg c w1 = Ok (w2, u) →
  let p := proposal id (self w1) in
  executed p = false → executed (proposal id (self w2)) = true →
  slashingEnabled (params (self w1)) = true ∧ 0 ≤ id < slashProposalCount (recs (self w1)) ∧
  ((hasRole (base w1) SLASHER_ROLE (sender msg) = true ∧ appealed p = false ∧
    proposedAt p + appealWindowSnapshot p ≤ timestamp msg) ∨
   (sender msg = owner (base w1) ∧ appealed p = true ∧ resolved p = false)).
Proof.
  intros Hi Hs Hn Hwf Hc p Hp Hp'. destruct (history_good n w w1 Hi Hs ltac:(lia)) as [Hk Hpar Hr _].
  destruct (exec_proposals this msg c w1 w2 u Hwf Hpar ltac:(apply (b_nonneg _ _ Hk)) Hc)
    as [He|np k Hm _ _ Hnew _|i p' Hi' Hm _ Hstep]; unfold proposal in Hp'.
  - injection He as He _. rewrite He in Hp'. exfalso. unfold p, proposal in Hp. congruence.
  - exfalso. rewrite Hm, lookup_insert in Hp'. unfold p, proposal in Hp.
    destruct (decide (k = id)); cbn in Hp'; congruence.
  - rewrite Hm, lookup_insert in Hp'. destruct (decide (i = id)) as [->|]; cycle 1.
    { exfalso. unfold p, proposal in Hp. congruence. }
    fold p in Hstep. cbn in Hp'. split_and!; try lia.
    + inversion Hstep; subst; cbn in *; congruence.
    + inversion Hstep; subst; cbn in *; try congruence; auto.
Qed.

(** What can still happen to a proposal. *)
Lemma proposal_step_final msg w p p' :
  proposal_ok p → executed p = true ∨ resolved p = true → proposal_step msg w p p' → False.
Proof.
  intros [_ _ _ Hra _] Hfin Hstep. inversion Hstep; subst; destruct Hfin as [Hf|Hf]; try congruence;
    specialize (Hra Hf); congruence.
Qed.

(** Safety.  A decision on a slash proposal is final: once a proposal was executed, or an
    appeal against it was resolved (upheld or dismissed), no later call changes it.
    So no proposal is executed twice and a dismissed one is never executed. *)
Theorem slash_proposal_final n m w w1 w2 id :
  initial w → nsteps (step this) n w w1 → nsteps (step this) m w1 w2 → Z.of_nat (n + m) ≤ max_steps →
  0 ≤ id < slashProposalCount (recs (self w1)) →
  executed (proposal id (self w1)) = true ∨ resolved (proposal id (self w1)) = true →
  proposal id (self w2) = proposal id (self w1) ∧ slashProposalCount (recs (self w1)) ≤ slashProposalCount (recs (self w2)).
Proof.
  intros Hi Hs1 Hs2. revert w2 Hs2. induction m as [|m IH]; intros w2 Hs2 Hn Hid Hfin.
  { inversion Hs2; subst. by split. }
  apply nsteps_inv_r in Hs2 as (w3 & Hs2 & Hlast). destruct (IH w3 Hs2 ltac:(lia) Hid Hfin) as [Heq Hcount].
  rewrite <- Heq in Hfin |- *. clear Heq IH.
  destruct (history_good (n + m) w w3 Hi) as [Hk Hp Hr _]; [by eapply nsteps_trans|lia|].
  destruct Hlast as [msg c w3 Hwf _ _ _ _|w3 t' _|w3 g']; [|by split..].
  apply (commit_inv _ (λ w2, proposal id (self w2) = proposal id (self w3) ∧ _ ≤ slashProposalCount (recs (self w2)))); [|done].
  intros w2 u Hc. destruct (exec_proposals this msg c w3 w2 u Hwf Hp ltac:(apply (b_nonneg _ _ Hk)) Hc)
    as [He|np k Hm Hk' _ _ _|i p' Hi' Hm Hk' Hstep]; unfold proposal.
  - injection He as -> ->. done.
  - rewrite Hm, Hk', lookup_insert. unfold k in *. rewrite decide_False by lia. split; [done|lia].
  - rewrite Hm, Hk', lookup_insert. split; [|done]. destruct (decide (i = id)) as [->|]; [|done]. exfalso.
    destruct (r_dense _ Hr id Hi') as [q Hq]. unfold proposal in Hstep, Hfin. rewrite Hq in Hstep, Hfin.
    destruct (r_proposals _ Hr _ _ Hq) as [_ Hok]. by eapply proposal_step_final.
Qed.

(** *** Backing of the stakes *)

(** A history without reward epochs. *)
Inductive quiet_step : chain State T G → chain State T G → Prop :=
  | quiet_call msg c w : starts_epoch c = false → call_wf c → sender msg ≠ this → sender msg ≠ 0%N →
      0 ≤ timestamp msg → (∀ a, balanceOf (tok w) a ≤ SUPPLY_CAP) → quiet_step w (commit (exec this msg c) w)
  | quiet_token w t' : balanceOf (tok w) this ≤ balanceOf t' this →
      quiet_step w (mkChain (self w) t' (base w))
  | quiet_base w g' : quiet_step w (mkChain (self w) (tok w) g').

Lemma quiet_is_step w w' : quiet_step w w' → step this w w'.
Proof. intros []; by constructor. Qed.

Definition backed w : Prop :=
  totalStaked (stakes (self w)) + totalUnbonding (stakes (self w)) ≤ balanceOf (tok w) this.

Lemma quiet_backed n w w' :
  Z.of_nat n < max_steps → good n w → rw_zero (rw (self w)) → backed w → quiet_step w w' →
  rw_zero (rw (self w')) ∧ backed w'.
Proof.
  intros Hn [Hk Hp Hr Hi] Hz Hb Hstep. pose proof (max_steps_bound n Hn) as Hbound.
  destruct Hstep as [msg c w Hc Hwf Hthis H0' Ht Hcap|w t' Ht|w g']; [|split; [done|unfold backed in *; cbn in *; lia]..].
  apply (commit_inv _ (λ w', rw_zero (rw (self w')) ∧ backed w')); [|done]. intros w' u He.
  split; [by eapply exec_rw_zero|].
  destruct (exec_books_effect this _ _ Hk Hbound Hp Hr msg c w' u Hwf Hthis Hcap He)
    as (p & ds & du & E1 & _ & _ & _ & E5). specialize (E5 Hz).
  pose proof (bc_total _ _ _ _ _ E1). pose proof (bc_total_unb _ _ _ _ _ E1). unfold backed in *. lia.
Qed.

Lemma quiet_history n w w' :
  initial w → nsteps quiet_step n w w' → Z.of_nat n ≤ max_steps → good n w' ∧ rw_zero (rw (self w')) ∧ backed w'.
Proof.
  intros Hi. revert w'. induction n as [|n IH]; intros w' Hs Hn.
  - inversion Hs; subst. split; [by apply initial_good|]. destruct Hi as (token & tr & o & Hc).
    unfold constructor in Hc. destruct (_ || _); [done|]. injection Hc as Hc. unfold backed. rewrite <- Hc.
    split; [|cbn; apply balance_nonneg]. split; cbn; try done; intros a; by rewrite lookup_empty.
  - apply nsteps_inv_r in Hs as (w1 & Hs & Hlast). destruct (IH w1 Hs ltac:(lia)) as (Hg & Hz & Hb).
    destruct (quiet_backed n w1 w' ltac:(lia) Hg Hz Hb Hlast) as [Hz' Hb'].
    split_and!; [|done..]. eapply step_good; [|done|by apply quiet_is_step]. lia.
Qed.

(** C19: safety.  As long as no reward epoch was started, every stake and every unbonding
    amount is backed: whatever the stakers, slashers and owner do, the contract
    holds at least [totalStaked] plus [totalUnbonding] tokens. *)
Theorem stakes_backed n w w' :
  initial w → nsteps quiet_step n w w' → Z.of_nat n ≤ max_steps →
  totalStaked (stakes (self w')) + totalUnbonding (stakes (self w')) ≤ balanceOf (tok w') this.
Proof. intros Hi Hs Hn. apply (quiet_history n w w' Hi Hs Hn). Qed.

(** What a completed request does. *)
Lemma completeUnstake_pays msg index w w' u :
  Forall (λ r, 0 ≤ ur_amount r) (queue (sender msg) (self w)) →
  completeUnstake this msg index w = Ok (w', u) →
  ∃ r, queue (sender msg) (self w) !! Z.to_nat index = Some r ∧ completed r = false ∧
    unlockTime r ≤ timestamp msg ∧
    queue (sender msg) (self w') = <[Z.to_nat index := mkRequest (ur_amount r) (unlockTime r) true]> (queue (sender msg) (self w)) ∧
    ∀ a, balanceOf (tok w') a = balanceOf (tok w) a - share a this (ur_amount r) + share a (sender msg) (ur_amount r).
Proof.
  intros Hq Hc. unfold completeUnstake in Hc. tx_inv Hc. zbool. rename o into r.
  match goal with Hx : _ !! _ = Some r |- _ => pose proof (Forall_lookup_1 _ _ _ _ Hq Hx) as H0r; cbn in H0r end.
  token_inv. exists r. split_and!; try done. rewrite HS. unfold queue. cbn. by rewrite lookup_insert_eq.
Qed.

Lemma completeUnstake_succeeds msg index r w :
  this ≠ 0%N → sender msg ≠ 0%N → 0 ≤ ur_amount r → uint 128 (ur_amount r) = ur_amount r →
  ur_amount r ≤ unbonding (provider (sender msg) (self w)) → ur_amount r ≤ totalUnbonding (stakes (self w)) →
  ur_amount r ≤ balanceOf (tok w) this →
  frozen (provider (sender msg) (self w)) = false → 0 ≤ index →
  queue (sender msg) (self w) !! Z.to_nat index = Some r → completed r = false → unlockTime r ≤ timestamp msg →
  succeeds (completeUnstake this msg index w).
Proof.
  intros Hthis Hz Ha Hu H1' H2' H3' Hf Hi Hr Hc Ht. unfold completeUnstake.
  eapply succeeds_bind; [by apply get_Ok|]. cbn beta. eapply succeeds_bind; [by apply revert_if_Ok|].
  eapply succeeds_bind; [by apply get_Ok|]. cbn beta. apply lookup_lt_Some in Hr as Hlen.
  eapply succeeds_bind; [apply revert_if_Ok; split; [apply Z.leb_gt; lia|done]|].
  eapply succeeds_bind; [apply of_option_Ok; eauto|]. cbn beta. eapply succeeds_bind; [by apply revert_if_Ok|].
  eapply succeeds_bind; [apply revert_if_Ok; split; [by apply Z.ltb_ge|done]|]. cbn beta zeta. rewrite Hu.
  tx_ok; [exact H2'|]. apply safeTransfer_succeeds; [cbn; lia|done..].
Qed.

(** C20: liveness.  Nobody's unbonded tokens get stuck: in any history without reward epochs, a
    provider that is not frozen can complete each of its open unstake requests
    once its unlock time has come.  The call succeeds, pays exactly what the
    request is worth, and marks it completed, so that it is paid only once. *)
Theorem unstake_completes n w w1 msg index r :
  initial w → nsteps quiet_step n w w1 → Z.of_nat n < max_steps → this ≠ 0%N → sender msg ≠ 0%N →
  frozen (provider (sender msg) (self w1)) = false → 0 ≤ index →
  queue (sender msg) (self w1) !! Z.to_nat index = Some r → completed r = false → unlockTime r ≤ timestamp msg →
  ∃ w2, completeUnstake this msg index w1 = Ok (w2, tt) ∧
    queue (sender msg) (self w2) !! Z.to_nat index = Some (mkRequest (ur_amount r) (unlockTime r) true) ∧
    (∀ a, balanceOf (tok w2) a = balanceOf (tok w1) a - share a this (ur_amount r) + share a (sender msg) (ur_amount r)) ∧
    (∀ w3 u, completeUnstake this msg index w2 ≠ Ok (w3, u)).
Proof.
  intros Hi Hs Hn Hthis Hz Hf Hidx Hr Hc Ht.
  destruct (quiet_history n w w1 Hi Hs ltac:(lia)) as ([Hk _ _ _] & _ & Hb). unfold backed in Hb.
  pose proof (b_requests _ _ Hk (sender msg)) as Hq. pose proof (max_steps_bound n Hn).
  pose proof (Forall_lookup_1 _ _ _ _ Hq Hr) as H0r. cbn in H0r.
  pose proof (open_amount_ge _ _ _ Hq Hr) as Hge. unfold owed in Hge. rewrite Hc in Hge.
  pose proof (b_queue _ _ Hk (sender msg)). pose proof (books_le _ _ (sender msg) Hk). pose proof (b_bound _ _ Hk).
  change (queue_of (sender msg) (stakes (self w1))) with (queue (sender msg) (self w1)) in *.
  change (prov (sender msg) (stakes (self w1))) with (provider (sender msg) (self w1)) in *.
  destruct (succeeds_Ok _ (completeUnstake_succeeds msg index r w1 Hthis Hz H0r
    ltac:(apply uint_id; unfold max_uint128, SUPPLY_CAP in *; lia) ltac:(lia) ltac:(lia) ltac:(lia) Hf Hidx Hr Hc Ht)) as [[w2 []] Hok].
  exists w2. destruct (completeUnstake_pays msg index w1 w2 tt Hq Hok) as (r' & Hr' & _ & _ & Hq2 & Hbal).
  assert (r' = r) as -> by congruence.
  assert (Hdone : queue (sender msg) (self w2) !! Z.to_nat index = Some (mkRequest (ur_amount r) (unlockTime r) true)).
  { rewrite Hq2, list_lookup_insert_eq; [done|]. by apply lookup_lt_Some in Hr. }
  split_and!; try done. intros w3 u Hagain. unfold completeUnstake in Hagain. tx_inv Hagain.
Qed.
End Histories.

(** ** Compaction of the vesting entries *)

(** Replacing an entry by the last one and dropping the last removes it. *)
Lemma swap_remove {A} (l : list A) j e e' :
  l !! j = Some e → last l = Some e' → l ≡ₚ e :: removelast (<[j := e']> l) ∧
  take j (removelast (<[j := e']> l)) = take j l ∧ length (removelast (<[j := e']> l)) = pred (length l).
Proof.
  intros Hj Hl. apply last_Some in Hl as [l1 ->]. destruct (decide (j < length l1)%nat) as [Hlt|Hge].
  - rewrite insert_app_l by done. rewrite removelast_last. rewrite lookup_app_l in Hj by done.
    rewrite take_insert_ge, take_app_le, length_insert, length_app by (cbn; lia). cbn. split_and!; [|done|lia].
    rewrite <- (take_drop_middle l1 j e Hj) at 1.
    rewrite insert_take_drop by done. solve_Permutation.
  - apply lookup_lt_Some in Hj as Hlen. rewrite length_app in Hlen. cbn in Hlen.
    assert (j = length l1) as -> by lia. rewrite lookup_app_r in Hj by lia. rewrite Nat.sub_diag in Hj. injection Hj as ->.
    rewrite insert_app_r_alt, Nat.sub_diag by lia. cbn [insert list_insert]. rewrite removelast_last.
    rewrite length_app. cbn. split_and!; [|by rewrite take_app_length, firstn_all|lia]. solve_Permutation.
Qed.

Lemma filter_Forall {A} (P : A → Prop) `{!∀ x, Decision (P x)} l : Forall P l → filter P l = l.
Proof. induction 1 as [|x l Hx _ IH]; [done|]. by rewrite filter_cons_True, IH. Qed.

Lemma compact_fuel fuel fuel' j l :
  (length l - j ≤ fuel)%nat → (length l - j ≤ fuel')%nat → compact fuel j l = compact fuel' j l.
Proof.
  revert fuel' j l. induction fuel as [|fuel IH]; intros fuel' j l H1 H2.
  { assert (He : l !! j = None) by (apply lookup_ge_None; lia). destruct fuel'; cbn; by rewrite ?He. }
  destruct (l !! j) as [e|] eqn:He; cycle 1.
  { destruct fuel'; cbn; by rewrite ?He. }
  apply lookup_lt_Some in He as Hlen. destruct fuel' as [|fuel']; [lia|]. cbn. rewrite He.
  destruct (last l) as [e'|] eqn:Hl; [|done]. destruct (swap_remove l j e e' He Hl) as (_ & _ & Hlen').
  destruct (fully_claimed e); apply IH; lia.
Qed.

Lemma compact_from fuel j l :
  Forall (λ e, fully_claimed e = false) (take j l) → (length l - j ≤ fuel)%nat →
  compact fuel j l ≡ₚ filter (λ e, fully_claimed e = false) l.
Proof.
  revert j l. induction fuel as [|fuel IH]; intros j l Hj Hf; cbn [compact].
  { rewrite take_ge in Hj by lia. by rewrite filter_Forall. }
  destruct (l !! j) as [e|] eqn:He; cycle 1.
  { apply lookup_ge_None in He. rewrite take_ge in Hj by lia. by rewrite filter_Forall. }
  apply lookup_lt_Some in He as Hlen. destruct (last l) as [e'|] eqn:Hl; [|by apply last_None in Hl as ->].
  destruct (swap_remove l j e e' He Hl) as (Hperm & Htake & Hlen').
  destruct (fully_claimed e) eqn:Hc.
  - etrans; [apply IH; rewrite ?Htake, ?Hlen'; [done|lia]|]. symmetry. etrans; [by apply filter_Permutation|].
    by rewrite filter_cons_False by congruence.
  - apply IH; [|lia]. rewrite (take_S_r l j e He). apply Forall_app. split; [done|by apply Forall_singleton].
Qed.

(** C30: termination.  The compaction loop of [claimVestedRewards] ends after at most one round per
    entry, and what is left are exactly the entries that are not fully claimed (in
    another order). *)
Theorem compaction_complete (entries : list VestedReward) :
  compact (length entries) 0 entries ≡ₚ filter (λ e, fully_claimed e = false) entries ∧
  ∀ fuel, (length entries ≤ fuel)%nat → compact fuel 0 entries = compact (length entries) 0 entries.
Proof.
  split; [apply compact_from; [constructor|lia]|]. intros fuel Hf. apply compact_fuel; lia.
Qed.

(** ** Runs on a concrete token *)

#[export] Instance call_wf_dec c : Decision (call_wf c).
Proof. destruct c; apply _. Defined.

Abbreviation world := (chain State ledger admin).

(** Runs calls that all succeed. *)
Definition play (this : Addr) : world → list (message * call) → option world := runs (exec this) call_wf this.

Lemma play_steps this w calls w' : play this w calls = Some w' → nsteps (step this) (length calls) w w'.
Proof.
  intros Hp. refine (runs_steps (exec this) call_wf this (λ _, true) (step this) w calls w' _ _ Hp).
  - intros msg c w1 _. by constructor.
  - by apply forallb_forall.
Qed.

Lemma play_quiet this w calls w' :
  forallb (λ mc, negb (starts_epoch mc.2)) calls = true →
  play this w calls = Some w' → nsteps (quiet_step this) (length calls) w w'.
Proof.
  intros Hq Hp.
  refine (runs_steps (exec this) call_wf this (λ c, negb (starts_epoch c)) (quiet_step this) w calls w' _ Hq Hp).
  intros msg c w1 Hc. apply negb_true_iff in Hc. by constructor.
Qed.

(** The contract at address 99 with the owner 1, who is also the slasher, and
    two providers, 10 and 11; 99 holds tokens set aside for rewards. *)
Definition start : world := mkChain
  (default (mkState (mkParams 0 0 0 0 0 0 ∅ 0 ∅ false 0 0 0 0) (mkStakes 0 0 ∅ ∅)
     (mkRewards 0 0 0 0 ∅ ∅ ∅) (mkRecords 0 ∅ ∅ ∅ 0)) (constructor 5 6 1))
  {[ 10%N := (10 ^ 26)%N; 11%N := (10 ^ 26)%N; 99%N := (725760 * 10 ^ 18)%N ]}
  (mkAdmin 1 false).

Lemma start_initial : initial start.
Proof. by exists 5%N, 6%N, 1%N. Qed.

(** Two providers stake; one asks for some of it back and is slashed beyond its
    active stake. *)
Definition day1 : list (message * call) := [
  (at_ 10 100, CallStakeWithIdentity (2 * 10 ^ 24) 7 1 1);
  (at_ 11 200, CallStakeWithIdentity (5 * 10 ^ 24) 8 1 1);
  (at_ 10 300, CallRequestUnstake (15 * 10 ^ 23));
  (at_ 1 400, CallSetSlashing true)].

Definition after_day1 : world := default start (play 99 start day1).

Lemma day1_runs : play 99 start day1 = Some after_day1.
Proof. vm_compute. reflexivity. Qed.

Example staking_books_balance_witness :
  totalStaked (stakes (self after_day1)) = 55 * 10 ^ 23 ∧
  totalUnbonding (stakes (self after_day1)) = sum_map unbonding (providers (stakes (self after_day1))).
Proof.
  split; [vm_compute; reflexivity|].
  exact (proj1 (proj2 (staking_books_balance 99 4 start after_day1 start_initial (play_steps _ _ _ _ day1_runs)
    ltac:(vm_compute; discriminate)))).
Defined.

Example staking_configuration_valid_witness :
  params_ok (params (self after_day1)) ∧ records_ok (recs (self after_day1)).
Proof.
  exact (staking_configuration_valid 99 4 start after_day1 start_initial (play_steps _ _ _ _ day1_runs)
    ltac:(vm_compute; discriminate)).
Defined.

Example node_ids_unique_witness :
  nodeId (provider 10 (self after_day1)) = 7 ∧
  node_owner (nodeId (provider 10 (self after_day1))) (self after_day1) = 10%N.
Proof.
  assert (Hid : nodeId (provider 10 (self after_day1)) = 7) by (vm_compute; reflexivity).
  split; [exact Hid|].
  exact (proj1 (node_ids_unique 99 4 start after_day1 10 11 start_initial (play_steps _ _ _ _ day1_runs)
    ltac:(vm_compute; discriminate)) ltac:(cbv beta; rewrite Hid; discriminate)).
Defined.

(** A slash beyond the active stake. *)
Definition slashed_world : world := commit (slash 99 (at_ 1 500) 10 (10 ^ 24)) after_day1.

Lemma slash_runs : slash 99 (at_ 1 500) 10 (10 ^ 24) after_day1 = Ok (slashed_world, tt).
Proof. vm_compute. reflexivity. Qed.

Example slash_takes_exactly_witness :
  stakedAmount (provider 10 (self after_day1)) = 5 * 10 ^ 23 ∧
  unbonding (provider 10 (self slashed_world)) = 10 ^ 24 ∧
  stakedAmount (provider 10 (self slashed_world)) =
    stakedAmount (provider 10 (self after_day1)) - Z.min (10 ^ 24) (stakedAmount (provider 10 (self after_day1))).
Proof.
  pose proof (slash_takes_exactly 99 4 start after_day1 slashed_world (at_ 1 500) 10 (10 ^ 24) tt start_initial
    (play_steps _ _ _ _ day1_runs) ltac:(vm_compute; reflexivity) ltac:(vm_compute; discriminate) slash_runs)
    as (_ & Hu & _).
  split; [vm_compute; reflexivity|]. split; [vm_compute; reflexivity|]. exact Hu.
Defined.

(** A proposal that is executed after its window, and one that is appealed and
    dismissed. *)
Definition day2 : list (message * call) := day1 ++ [
  (at_ 1 500, CallPropose 10 (10 ^ 23) "late");
  (at_ 1 500, CallProposeByReason 11 Fraud);
  (at_ 11 600, CallAppeal 1);
  (at_ 1 700, CallResolve 1 false)].
Definition after_day2 : world := default start (play 99 start day2).
Lemma day2_runs : play 99 start day2 = Some after_day2.
Proof. vm_compute. reflexivity. Qed.
Definition later : message := at_ 1 (500 + 48 * hours).
Definition executed_world : world := commit (exec 99 later (CallExecuteSlash 0)) after_day2.
Lemma execute_runs : exec 99 later (CallExecuteSlash 0) after_day2 = Ok (executed_world, tt).
Proof. vm_compute. reflexivity. Qed.

Example slash_due_process_witness :
  executed (proposal 0 (self executed_world)) = true ∧ slashingEnabled (params (self after_day2)) = true.
Proof.
  pose proof (slash_due_process 99 8 start after_day2 executed_world later (CallExecuteSlash 0) tt 0 start_initial
    (play_steps _ _ _ _ day2_runs) ltac:(vm_compute; reflexivity) ltac:(vm_compute; discriminate) execute_runs
    ltac:(vm_compute; reflexivity) ltac:(vm_compute; reflexivity)) as (He & _).
  split; [vm_compute; reflexivity|exact He].
Defined.

Lemma executed_step : nsteps (step 99) 1 after_day2 executed_world.
Proof.
  apply nsteps_once. unfold executed_world.
  refine (step_call 99 later (CallExecuteSlash 0) after_day2 _ _ _ _ _); [done..|vm_compute; discriminate|].
  intros a. apply capped_balance. vm_compute. reflexivity.
Qed.

Example slash_proposal_final_witness :
  resolved (proposal 1 (self after_day2)) = true ∧ executed (proposal 1 (self after_day2)) = false ∧
  proposal 1 (self executed_world) = proposal 1 (self after_day2).
Proof.
  split; [vm_compute; reflexivity|]. split; [vm_compute; reflexivity|].
  exact (proj1 (slash_proposal_final 99 8 1 start after_day2 executed_world 1 start_initial
    (play_steps _ _ _ _ day2_runs) executed_step ltac:(vm_compute; discriminate) ltac:(vm_compute; done)
    ltac:(right; vm_compute; reflexivity))).
Defined.

Example stakes_backed_witness :
  totalStaked (stakes (self after_day2)) + totalUnbonding (stakes (self after_day2)) ≤ balanceOf (tok after_day2) 99%N.
Proof.
  exact (stakes_backed 99 8 start after_day2 start_initial
    (play_quiet 99 start day2 after_day2 ltac:(vm_compute; reflexivity) day2_runs) ltac:(vm_compute; discriminate)).
Defined.

Example unstake_completes_witness :
  ∃ w2, completeUnstake 99 (at_ 10 (300 + 14 * days)) 0 after_day1 = Ok (w2, tt).
Proof.
  destruct (unstake_completes 99 4 start after_day1 (at_ 10 (300 + 14 * days)) 0
    (mkRequest (15 * 10 ^ 23) (300 + 14 * days) false) start_initial
    (play_quiet 99 start day1 after_day1 ltac:(vm_compute; reflexivity) day1_runs) ltac:(vm_compute; reflexivity)
    ltac:(done) ltac:(done) ltac:(vm_compute; reflexivity) ltac:(lia) ltac:(vm_compute; reflexivity)
    ltac:(reflexivity) ltac:(vm_compute; discriminate)) as (w2 & Hok & _).
  exists w2. exact Hok.
Defined.

(** ** Where the contract does not keep its promises *)

(** One reward epoch: both providers stake the same, and claim their rewards at
    its end, so that three quarters of them are vesting. *)
Definition epoch : list (message * call) := [
  (at_ 10 100, CallStake (4 * 10 ^ 24));
  (at_ 11 100, CallStake (4 * 10 ^ 24));
  (at_ 1 200, CallSetSlashing true);
  (at_ 1 1000, CallNotify (604800 * 10 ^ 18));
  (at_ 10 605800, CallClaimRewards);
  (at_ 11 605800, CallClaimRewards)].

Definition three_slashes : list (message * call) := epoch ++ [
  (at_ 1 605900, CallSlash 10 (10 ^ 24)); (at_ 1 606000, CallSlash 10 (10 ^ 24));
  (at_ 1 606100, CallSlash 10 (10 ^ 24))].
Definition after_slashes : world := default start (play 99 start three_slashes).

Lemma three_slashes_run : play 99 start three_slashes = Some after_slashes.
Proof. vm_compute. reflexivity. Qed.

(** C39: error.  Repeated slashes pay the same forfeited rewards again and again, and then out
    of other providers' stakes.  [_forfeitUnvestedRewards] counts what was already
    forfeited: called again at the same time, in any state, it gives the same
    amount.  (The cap on the forfeited amount does not help, as it includes the
    tokens being slashed.)  So there is a history, of one reward epoch and three
    slashes of provider 10, after which the contract owes the stakers 105,000
    tokens more than it holds although provider 11 was never slashed; and then
    no slash of up to that amount, of any provider, by anybody, at any time,
    succeeds. *)
Theorem repeated_slash_takes_stakes :
  (∀ now p (w w1 : world) f, _forfeitUnvestedRewards now p w = Ok (w1, f) →
     ∃ w2, _forfeitUnvestedRewards now p w1 = Ok (w2, f)) ∧
  ∃ n (w : world), nsteps (step 99) n start w ∧ stakedAmount (provider 11 (self w)) = 4 * 10 ^ 24 ∧
    balanceOf (tok w) 99%N + 105000 * 10 ^ 18 <
      totalStaked (stakes (self w)) + totalUnbonding (stakes (self w)) ∧
    ∀ msg p amount w' u, 0 ≤ amount ≤ 105000 * 10 ^ 18 → slash 99 msg p amount w ≠ Ok (w', u).
Proof.
  split; [intros now p w w1 f; apply forfeit_again|].
  pose proof (play_steps _ _ _ _ three_slashes_run) as Hs.
  assert (Hdef : 105000 * 10 ^ 18 < deficit 99 after_slashes) by (vm_compute; reflexivity).
  exists (length three_slashes), after_slashes. split_and!; [exact Hs|vm_compute; reflexivity|unfold deficit in Hdef; lia|].
  intros msg p amount w' u Ha Hc.
  pose proof (slash_needs_backing 99 _ _ _ _ msg p amount u start_initial Hs ltac:(vm_compute; reflexivity) ltac:(lia) Hc).
  lia.
Qed.

(** A slashed provider cannot claim rewards that vest later: the forfeited entry
    makes [claimVestedRewards] and [getClaimableVested] underflow until it would
    have vested completely. *)
Theorem forfeited_entry_blocks_claims :
  match play 99 start (epoch ++ [(at_ 1 605900, CallSlash 10 (10 ^ 24))]) with
  | Some w =>
      claimVestedRewards 99 (at_ 10 (605800 + 80 * days)) w = Revert ArithmeticPanic ∧
      getClaimableVested (605800 + 80 * days) 10 w = Revert ArithmeticPanic
  | None => False
  end.
Proof. vm_compute. repeat split; reflexivity. Qed.

(** A longer vesting period makes what has been claimed exceed what has vested. *)
Theorem longer_vesting_blocks_claims :
  match play 99 start (epoch ++ [(at_ 10 (605800 + 45 * days), CallClaimVested); (at_ 1 (605900 + 45 * days), CallSetVesting (360 * days) 2500)]) with
  | Some w => claimVestedRewards 99 (at_ 10 (605800 + 100 * days)) w = Revert ArithmeticPanic
  | None => False
  end.
Proof. vm_compute. reflexivity. Qed.

(** Completed requests stay in the queue, so that after 51 of them a provider can
    never ask for its stake again. *)
Definition rounds : list (message * call) :=
  flat_map (λ i, [(at_ 10 (100 + 15 * days * i), CallRequestUnstake 1); (at_ 10 (100 + 15 * days * i + 14 * days), CallCompleteUnstake i)])
    (map Z.of_nat (seq 0 51)).

Theorem unstake_queue_exhausted :
  match play 99 start ((at_ 10 50, CallStake (4 * 10 ^ 24)) :: rounds) with
  | Some w => open_amount (queue 10 (self w)) = 0 ∧ stakedAmount (provider 10 (self w)) = 4 * 10 ^ 24 - 51 ∧
      requestUnstake (at_ 10 (1000 * days)) 1 w = Revert (Error TooManyUnstakeRequests)
  | None => False
  end.
Proof. vm_compute. repeat split; reflexivity. Qed.

(** A provider whose stake fell below the minimum cannot ask for the rest of it. *)
Theorem small_stake_stuck :
  match play 99 start [(at_ 10 50, CallStake (10 ^ 24)); (at_ 10 60, CallRequestUnstake 1)] with
  | Some w => stakedAmount (provider 10 (self w)) = 10 ^ 24 - 1 ∧
      requestUnstake (at_ 10 70) (10 ^ 24 - 1) w = Revert (Error ProviderNotActive)
  | None => False
  end.
Proof. vm_compute. repeat split; reflexivity. Qed.

(** A provider that registers again cannot keep its node identity; if it takes a
    new one, the old one is lost for everybody. *)
Theorem node_id_leaked :
  match play 99 start [(at_ 10 50, CallStakeWithIdentity (10 ^ 24) 7 1 1); (at_ 10 60, CallRequestUnstake 1)] with
  | Some w => exec 99 (at_ 10 70) (CallStakeWithIdentity 1 7 1 1) w = Revert (Error NodeIdAlreadyClaimed) ∧
    match play 99 w [(at_ 10 70, CallStakeWithIdentity 1 8 1 1)] with
    | Some w' => nodeId (provider 10 (self w')) = 8 ∧
        exec 99 (at_ 11 80) (CallStakeWithIdentity (10 ^ 24) 7 1 1) w' = Revert (Error NodeIdAlreadyClaimed)
    | None => False
    end
  | None => False
  end.
Proof. vm_compute. repeat split; reflexivity. Qed.

(** The cap on the multipliers can be set below a tier's multiplier, so that the
    check of [notifyRewardAmount] does not cover what that tier earns. *)
Theorem multiplier_cap_below_tier :
  match play 99 start [(at_ 1 50, CallSetMaxMultiplier 10000)] with
  | Some w => maxTierMultiplierBps (params (self w)) < rewardMultiplierBps (tier_config Platinum (self w))
  | None => False
  end.
Proof. vm_compute. reflexivity. Qed.
