(* ===== verification/BunkerReputation.v ===== *)
(** * The reputation contract (src/contracts/src/BunkerReputation.sol)

    Scores between 0 and 1000 that reporters move up and down and that decay by
    the week.  The theorems: scores stay in range, decaying early or late comes to
    the same, the view agrees with the update, and when the update panics. *)

From S2P Require Import Prelude Solidity BunkerToken Runs.
Local Open Scope Z_scope.

Module Reputation.

Definition REPORTER_ROLE : string := "REPORTER_ROLE".
Definition MAX_SCORE : Z := 1000.
Definition INITIAL_SCORE : Z := 500.
Definition WEEK : Z := 7 * days.

Record ReputationData := mkRep {
  score : Z;   (** uint32 *)
  jobsCompleted : Z;   (** uint32 *)
  jobsFailed : Z;   (** uint32 *)
  slashCount : Z;   (** uint32 *)
  lastUpdated : Z;   (** uint48 *)
  registeredAt : Z   (** uint48 *)
}.

Definition set_score (v : Z) (r : ReputationData) : ReputationData :=
  mkRep v (jobsCompleted r) (jobsFailed r) (slashCount r) (lastUpdated r) (registeredAt r).
Definition set_jobsCompleted (v : Z) (r : ReputationData) : ReputationData :=
  mkRep (score r) v (jobsFailed r) (slashCount r) (lastUpdated r) (registeredAt r).
Definition set_jobsFailed (v : Z) (r : ReputationData) : ReputationData :=
  mkRep (score r) (jobsCompleted r) v (slashCount r) (lastUpdated r) (registeredAt r).
Definition set_slashCount (v : Z) (r : ReputationData) : ReputationData :=
  mkRep (score r) (jobsCompleted r) (jobsFailed r) v (lastUpdated r) (registeredAt r).
Definition set_lastUpdated (v : Z) (r : ReputationData) : ReputationData :=
  mkRep (score r) (jobsCompleted r) (jobsFailed r) (slashCount r) v (registeredAt r).

Definition no_rep : ReputationData := mkRep 0 0 0 0 0 0.

Inductive ReputationTier := Restricted | Probation | Standard | Trusted | Elite.

Definition rank (t : ReputationTier) : Z :=
  match t with Restricted => 0 | Probation => 1 | Standard => 2 | Trusted => 3 | Elite => 4 end.

Record Deltas := mkDeltas {
  jobCompletedDelta : Z;
  jobEarlyDelta : Z;
  perfectUptimeDelta : Z;
  jobTimeoutDelta : Z;
  healthFailDelta : Z;
  replicaMismatchDelta : Z;
  slashEventDelta : Z;
  securityViolationDelta : Z
}.

Record State := mkState {
  minScoreForJobs : Z;
  decayRate : Z;
  decayFloor : Z;
  maxCustomDelta : Z;
  minCustomDelta : Z;
  tierElite : Z;
  tierTrusted : Z;
  tierStandard : Z;
  tierProbation : Z;
  deltas : Deltas;   (** int16 *)
  reputations : gmap Addr ReputationData
}.

Definition set_minScoreForJobs (v : Z) (r : State) : State :=
  mkState v (decayRate r) (decayFloor r) (maxCustomDelta r) (minCustomDelta r) (tierElite r)
    (tierTrusted r) (tierStandard r) (tierProbation r) (deltas r) (reputations r).
Definition set_decayRate (v : Z) (r : State) : State :=
  mkState (minScoreForJobs r) v (decayFloor r) (maxCustomDelta r) (minCustomDelta r) (tierElite r)
    (tierTrusted r) (tierStandard r) (tierProbation r) (deltas r) (reputations r).
Definition set_decayFloor (v : Z) (r : State) : State :=
  mkState (minScoreForJobs r) (decayRate r) v (maxCustomDelta r) (minCustomDelta r) (tierElite r)
    (tierTrusted r) (tierStandard r) (tierProbation r) (deltas r) (reputations r).
Definition set_maxCustomDelta (v : Z) (r : State) : State :=
  mkState (minScoreForJobs r) (decayRate r) (decayFloor r) v (minCustomDelta r) (tierElite r)
    (tierTrusted r) (tierStandard r) (tierProbation r) (deltas r) (reputations r).
Definition set_minCustomDelta (v : Z) (r : State) : State :=
  mkState (minScoreForJobs r) (decayRate r) (decayFloor r) (maxCustomDelta r) v (tierElite r)
    (tierTrusted r) (tierStandard r) (tierProbation r) (deltas r) (reputations r).
Definition set_tierElite (v : Z) (r : State) : State :=
  mkState (minScoreForJobs r) (decayRate r) (decayFloor r) (maxCustomDelta r) (minCustomDelta r) v
    (tierTrusted r) (tierStandard r) (tierProbation r) (deltas r) (reputations r).
Definition set_tierTrusted (v : Z) (r : State) : State :=
  mkState (minScoreForJobs r) (decayRate r) (decayFloor r) (maxCustomDelta r) (minCustomDelta r)
    (tierElite r) v (tierStandard r) (tierProbation r) (deltas r) (reputations r).
Definition set_tierStandard (v : Z) (r : State) : State :=
  mkState (minScoreForJobs r) (decayRate r) (decayFloor r) (maxCustomDelta r) (minCustomDelta r)
    (tierElite r) (tierTrusted r) v (tierProbation r) (deltas r) (reputations r).
Definition set_tierProbation (v : Z) (r : State) : State :=
  mkState (minScoreForJobs r) (decayRate r) (decayFloor r) (maxCustomDelta r) (minCustomDelta r)
    (tierElite r) (tierTrusted r) (tierStandard r) v (deltas r) (reputations r).
Definition set_deltas (v : Deltas) (r : State) : State :=
  mkState (minScoreForJobs r) (decayRate r) (decayFloor r) (maxCustomDelta r) (minCustomDelta r)
    (tierElite r) (tierTrusted r) (tierStandard r) (tierProbation r) v (reputations r).
Definition set_reputations (v : gmap Addr ReputationData) (r : State) : State :=
  mkState (minScoreForJobs r) (decayRate r) (decayFloor r) (maxCustomDelta r) (minCustomDelta r)
    (tierElite r) (tierTrusted r) (tierStandard r) (tierProbation r) (deltas r) v.

(** The storage after the constructor. *)
Definition init : State :=
  mkState 250 1 100 200 (-200) 900 750 500 250 (mkDeltas 5 10 20 (-10) (-25) (-50) (-100) (-200)) ∅.

Inductive ReputationErr :=
  | ProviderNotRegistered | ProviderAlreadyRegistered | DeltaOutOfBounds | PositiveDeltaRequired
  | NegativeDeltaRequired | ThresholdsNotAscending | ThresholdExceedsMax | FloorTooHigh | ScoreExceedsMax
  | InvalidDelta.

Definition rep (p : Addr) (s : State) : ReputationData := default no_rep (reputations s !! p).
Definition put_rep (p : Addr) (r : ReputationData) (s : State) : State := set_reputations (<[p := r]> (reputations s)) s.

(** [_applyDelta], on the score as an [int256]. *)
Definition _applyDelta (currentScore delta : Z) : Z :=
  let newScore := currentScore + delta in
  if newScore <? 0 then 0
  else if MAX_SCORE <? newScore then uint 32 MAX_SCORE
  else uint 32 newScore.

Section Operations.
Context {T G : Type} `{BaseContracts G}.
Abbreviation M := (tx (chain State T G) ReputationErr).

Definition _ensureRegistered (p : Addr) : M unit :=
  r ← get (rep p); revert_if (registeredAt r =? 0) ProviderNotRegistered.

(** The score with the decay of whole weeks, for the views. *)
Definition _getDecayedScore (now : Z) (p : Addr) : M Z :=
  r ← get (rep p);
  if registeredAt r =? 0 then mret 0 else
  floor ← get decayFloor;
  if score r <=? uint 32 floor then mret (score r) else
  elapsed ← sub now (lastUpdated r);
  weeksPassed ← div elapsed WEEK;
  if weeksPassed =? 0 then mret (score r) else
  rate ← get decayRate;
  decayAmount ← mul weeksPassed rate;
  limit ← add floor decayAmount;
  if score r <=? limit then mret (uint 32 floor) else
  left ← sub (score r) decayAmount;
  mret (uint 32 left).

Definition _applyDecayInternal (now : Z) (p : Addr) : M unit :=
  r ← get (rep p);
  elapsed ← sub now (lastUpdated r);
  weeksPassed ← div elapsed WEEK;
  if weeksPassed =? 0 then mret tt else
  x ← mul weeksPassed WEEK;
  t ← add (lastUpdated r) x;
  let r := set_lastUpdated (uint 48 t) r in
  put (put_rep p r);;
  floor ← get decayFloor;
  if score r <=? uint 32 floor then mret tt else
  rate ← get decayRate;
  decay ← mul weeksPassed rate;
  left ← sub (score r) decay;
  if left <? floor then put (put_rep p (set_score (uint 32 floor) r))
  else put (put_rep p (set_score (uint 32 left) r)).

Definition _scoreTier (n : Z) (s : State) : ReputationTier :=
  if tierElite s <=? n then Elite
  else if tierTrusted s <=? n then Trusted
  else if tierStandard s <=? n then Standard
  else if tierProbation s <=? n then Probation
  else Restricted.

(** ** Reporters *)

Definition registerProvider (msg : message) (p : Addr) : M unit :=
  onlyRole REPORTER_ROLE msg;;
  r ← get (rep p);
  revert_if (negb (registeredAt r =? 0)) ProviderAlreadyRegistered;;
  put (put_rep p (mkRep (uint 32 INITIAL_SCORE) 0 0 0 (uint 48 (timestamp msg)) (uint 48 (timestamp msg)))).

(** The new score and time of an event. *)
Definition scored (msg : message) (delta : Z) (r : ReputationData) : ReputationData :=
  set_lastUpdated (uint 48 (timestamp msg)) (set_score (_applyDelta (score r) delta) r).

Definition recordJobCompleted (msg : message) (p : Addr) : M unit :=
  onlyRole REPORTER_ROLE msg;;
  _ensureRegistered p;;
  _applyDecayInternal (timestamp msg) p;;
  r ← get (rep p);
  n ← add_width 32 (jobsCompleted r) 1;
  d ← get (λ s, jobCompletedDelta (deltas s));
  put (put_rep p (scored msg d (set_jobsCompleted n r))).

Definition recordJobFailed (msg : message) (p : Addr) : M unit :=
  onlyRole REPORTER_ROLE msg;;
  _ensureRegistered p;;
  _applyDecayInternal (timestamp msg) p;;
  r ← get (rep p);
  n ← add_width 32 (jobsFailed r) 1;
  d ← get (λ s, jobTimeoutDelta (deltas s));
  put (put_rep p (scored msg d (set_jobsFailed n r))).

Definition recordSlashEvent (msg : message) (p : Addr) : M unit :=
  onlyRole REPORTER_ROLE msg;;
  _ensureRegistered p;;
  _applyDecayInternal (timestamp msg) p;;
  r ← get (rep p);
  n ← add_width 32 (slashCount r) 1;
  d ← get (λ s, slashEventDelta (deltas s));
  put (put_rep p (scored msg d (set_slashCount n r))).

Definition recordEvent (msg : message) (p : Addr) (delta : Z) : M unit :=
  onlyRole REPORTER_ROLE msg;;
  hi ← get maxCustomDelta;
  lo ← get minCustomDelta;
  revert_if ((hi <? delta) || (delta <? lo)) DeltaOutOfBounds;;
  _ensureRegistered p;;
  _applyDecayInternal (timestamp msg) p;;
  r ← get (rep p);
  put (put_rep p (scored msg delta r)).

(** ** Everybody *)

Definition applyDecay (msg : message) (p : Addr) : M unit :=
  _ensureRegistered p;;
  _applyDecayInternal (timestamp msg) p.

Definition getScore (now : Z) (p : Addr) : M Z := _ensureRegistered p;; _getDecayedScore now p.
Definition getTier (now : Z) (p : Addr) : M ReputationTier :=
  _ensureRegistered p;; n ← _getDecayedScore now p; get (_scoreTier n).
Definition isEligibleForJobs (now : Z) (p : Addr) : M bool :=
  r ← get (rep p);
  if registeredAt r =? 0 then mret false else
  n ← _getDecayedScore now p;
  minScore ← get minScoreForJobs;
  mret (uint 32 minScore <=? n).
Definition getReputation (p : Addr) : M ReputationData := get (rep p).

(** ** Administration *)

Definition setDeltaParameters (msg : message) (d : Deltas) : M unit :=
  onlyOwner msg;;
  revert_if ((jobCompletedDelta d <? 0) || (jobEarlyDelta d <? 0) || (perfectUptimeDelta d <? 0)) PositiveDeltaRequired;;
  revert_if ((0 <? jobTimeoutDelta d) || (0 <? healthFailDelta d) || (0 <? replicaMismatchDelta d) ||
    (0 <? slashEventDelta d) || (0 <? securityViolationDelta d)) NegativeDeltaRequired;;
  put (set_deltas d).

Definition setTierThresholds (msg : message) (probation standard trusted elite : Z) : M unit :=
  onlyOwner msg;;
  revert_if ((standard <=? probation) || (trusted <=? standard) || (elite <=? trusted)) ThresholdsNotAscending;;
  revert_if (MAX_SCORE <? elite) ThresholdExceedsMax;;
  put (λ s, set_tierProbation probation (set_tierStandard standard (set_tierTrusted trusted (set_tierElite elite s)))).

Definition setDecayParams (msg : message) (rate floor : Z) : M unit :=
  onlyOwner msg;;
  revert_if (MAX_SCORE / 2 <? floor) FloorTooHigh;;
  put (λ s, set_decayFloor floor (set_decayRate rate s)).

Definition setMinScoreForJobs (msg : message) (n : Z) : M unit :=
  onlyOwner msg;;
  revert_if (MAX_SCORE <? n) ScoreExceedsMax;;
  put (set_minScoreForJobs n).

Definition setMaxCustomDelta (msg : message) (maxDelta : Z) : M unit :=
  onlyOwner msg;;
  revert_if ((maxDelta <=? 0) || (MAX_SCORE / 2 <? maxDelta)) InvalidDelta;;
  put (λ s, set_minCustomDelta (- maxDelta) (set_maxCustomDelta maxDelta s)).

(** ** Calls *)

Inductive call :=
  | CallRegister (p : Addr)
  | CallCompleted (p : Addr)
  | CallFailed (p : Addr)
  | CallSlashed (p : Addr)
  | CallEvent (p : Addr) (delta : Z)
  | CallDecay (p : Addr)
  | CallSetDeltas (d : Deltas)
  | CallSetTiers (probation standard trusted elite : Z)
  | CallSetDecay (rate floor : Z)
  | CallSetMin (n : Z)
  | CallSetMaxCustom (n : Z).

(** The arguments at their types. *)
Definition call_wf (c : call) : Prop :=
  match c with
  | CallSetTiers a b c d => 0 ≤ a ∧ 0 ≤ b ∧ 0 ≤ c ∧ 0 ≤ d
  | CallSetDecay a b => 0 ≤ a ∧ 0 ≤ b
  | CallSetMin a => 0 ≤ a
  | _ => True
  end.

Definition exec (msg : message) (c : call) : M unit :=
  match c with
  | CallRegister p => registerProvider msg p
  | CallCompleted p => recordJobCompleted msg p
  | CallFailed p => recordJobFailed msg p
  | CallSlashed p => recordSlashEvent msg p
  | CallEvent p d => recordEvent msg p d
  | CallDecay p => applyDecay msg p
  | CallSetDeltas d => setDeltaParameters msg d
  | CallSetTiers a b c d => setTierThresholds msg a b c d
  | CallSetDecay r f => setDecayParams msg r f
  | CallSetMin n => setMinScoreForJobs msg n
  | CallSetMaxCustom n => setMaxCustomDelta msg n
  end.

Inductive step : chain State T G → chain State T G → Prop :=
  | step_call msg c w : call_wf c → 0 ≤ timestamp msg ≤ max_uint48 → step w (commit (exec msg c) w)
  | step_base w g' : step w (mkChain (self w) (tok w) g').
End Operations.

(** ** Well-formed storage *)

Record rep_ok (r : ReputationData) : Prop := {
  r_score : 0 ≤ score r ≤ MAX_SCORE;
  r_last : 0 ≤ lastUpdated r ≤ max_uint48
}.

Record storage_ok (s : State) : Prop := {
  s_reps : ∀ p, rep_ok (rep p s);
  s_floor : 0 ≤ decayFloor s ≤ 500;
  s_rate : 0 ≤ decayRate s;
  s_min : 0 ≤ minScoreForJobs s ≤ MAX_SCORE;
  s_custom : 0 < maxCustomDelta s ≤ 500 ∧ minCustomDelta s = - maxCustomDelta s;
  s_tiers : 0 ≤ tierProbation s < tierStandard s ∧ tierStandard s < tierTrusted s < tierElite s ∧ tierElite s ≤ MAX_SCORE;
  s_deltas : 0 ≤ jobCompletedDelta (deltas s) ∧ jobTimeoutDelta (deltas s) ≤ 0 ∧ slashEventDelta (deltas s) ≤ 0
}.

Lemma applyDelta_clamps n d : _applyDelta n d = Z.max 0 (Z.min MAX_SCORE (n + d)).
Proof.
  unfold _applyDelta, MAX_SCORE.
  destruct (Z.ltb_spec (n + d) 0); [lia|]. destruct (Z.ltb_spec 1000 (n + d)); [rewrite uint_id by (unfold max_uint; lia); lia|].
  rewrite uint_id by (unfold max_uint; lia). lia.
Qed.

Lemma rep_insert p r s p' : rep p' (put_rep p r s) = if decide (p = p') then r else rep p' s.
Proof. unfold rep. cbn. rewrite lookup_insert. by case_decide. Qed.

Lemma storage_ok_put p r s : storage_ok s → rep_ok r → storage_ok (put_rep p r s).
Proof. intros [] Hr. split; try done. intros p'. rewrite rep_insert. by case_decide. Qed.

Lemma scored_ok msg d r : 0 ≤ timestamp msg ≤ max_uint48 → rep_ok (scored msg d r).
Proof.
  intros Ht. split; cbn.
  - rewrite applyDelta_clamps. unfold MAX_SCORE. lia.
  - by rewrite uint_id.
Qed.

Lemma init_ok : storage_ok init.
Proof. split; [intros p; by split|vm_compute; intuition congruence..]. Qed.

(** ** Decay *)

(** The record with the decay of the whole weeks up to [now], and when the
    contract can compute it: the decay must not exceed a score above the floor. *)
Definition weeks_since (now : Z) (r : ReputationData) : Z := (now - lastUpdated r) / WEEK.

Definition decayed (now : Z) (s : State) (r : ReputationData) : ReputationData :=
  set_lastUpdated (lastUpdated r + weeks_since now r * WEEK)
    (set_score (if score r <=? decayFloor s then score r
      else Z.max (decayFloor s) (score r - weeks_since now r * decayRate s)) r).

Definition decay_safe (now : Z) (s : State) (r : ReputationData) : bool :=
  (score r <=? decayFloor s) || (weeks_since now r * decayRate s <=? score r).

Lemma weeks_bound now r :
  lastUpdated r ≤ now → 0 ≤ weeks_since now r ∧ lastUpdated r ≤ lastUpdated r + weeks_since now r * WEEK ≤ now.
Proof.
  intros Hn. unfold weeks_since. assert (0 < WEEK) by done.
  pose proof (Z.div_pos (now - lastUpdated r) WEEK ltac:(lia) ltac:(lia)).
  pose proof (Z.mul_div_le (now - lastUpdated r) WEEK ltac:(lia)). nia.
Qed.

Section Calls.
Context {T G : Type} `{BaseContracts G}.
Implicit Types w : chain State T G.

Definition with_rep (p : Addr) (r : ReputationData) w : chain State T G :=
  mkChain (put_rep p r (self w)) (tok w) (base w).

Lemma floor_fits s : storage_ok s → uint 32 (decayFloor s) = decayFloor s.
Proof. intros []. apply uint_id. unfold MAX_SCORE, max_uint in *. lia. Qed.

Lemma same_rep p w : registeredAt (rep p (self w)) ≠ 0 → with_rep p (rep p (self w)) w = w.
Proof.
  intros Hr. unfold with_rep, put_rep, rep in *. destruct w as [[] t g]. cbn in *.
  destruct (reputations0 !! p) as [r|] eqn:E1; [|done]. cbn. by rewrite insert_id.
Qed.

Section Decay.
Context w p (now : Z) (Hok : storage_ok (self w)) (Hreg : registeredAt (rep p (self w)) ≠ 0).
Context (Hnow : lastUpdated (rep p (self w)) ≤ now ≤ max_uint48).
Abbreviation r := (rep p (self w)).

Lemma weeks_fit : weeks_since now r * WEEK ≤ max_uint256 ∧ lastUpdated r + weeks_since now r * WEEK ≤ max_uint256.
Proof.
  pose proof (weeks_bound now r ltac:(lia)). pose proof (r_last _ (s_reps _ Hok p)).
  unfold max_uint48, max_uint256, max_uint in *. lia.
Qed.

Lemma decayed_weeks_0 : weeks_since now r = 0 → decayed now (self w) r = r.
Proof.
  intros Hk. unfold decayed. rewrite Hk, !Z.mul_0_l, Z.add_0_r, Z.sub_0_r. destruct r; cbn.
  destruct (Z.leb_spec score0 (decayFloor (self w))); [done|by rewrite Z.max_r by lia].
Qed.

Lemma decay_runs :
  decay_safe now (self w) r = true →
  _applyDecayInternal now p w = Ok (with_rep p (decayed now (self w) r) w, tt).
Proof.
  intros Hsafe. pose proof weeks_fit. pose proof (weeks_bound now r ltac:(lia)). pose proof (r_last _ (s_reps _ Hok p)).
  pose proof (r_score _ (s_reps _ Hok p)). pose proof (s_floor _ Hok). unfold MAX_SCORE in *.
  unfold _applyDecayInternal. tx_run. change ((now - lastUpdated r) / WEEK) with (weeks_since now r).
  destruct (Z.eqb_spec (weeks_since now r) 0) as [E1|E1].
  { rewrite (decayed_weeks_0 E1), same_rep by done. done. }
  tx_run. cbn [decayFloor decayRate put_rep set_reputations]. rewrite floor_fits by done. unfold decay_safe in Hsafe. unfold decayed. cbn [score set_lastUpdated].
  rewrite (uint_id 48) by (unfold max_uint48 in *; lia).
  destruct (Z.leb_spec (score r) (decayFloor (self w))) as [E2|E2]; [cbn; by destruct r|].
  cbn [orb] in Hsafe. apply Z.leb_le in Hsafe. assert (score r ≤ max_uint256) by (unfold max_uint256, max_uint; lia).
  tx_run. cbn [decayFloor decayRate put_rep set_reputations]. tx_run.
  destruct (Z.ltb_spec (score r - weeks_since now r * decayRate (self w)) (decayFloor (self w))) as [E3|E3].
  - apply put_Ok. unfold with_rep. cbn. unfold put_rep, set_reputations. cbn. rewrite insert_insert_eq.
    rewrite Z.max_l by lia. done.
  - apply put_Ok. unfold with_rep. cbn. unfold put_rep, set_reputations. cbn. rewrite insert_insert_eq.
    rewrite Z.max_r by lia. rewrite uint_id; [done|]. unfold max_uint. pose proof (s_rate _ Hok). nia.
Qed.

Lemma decay_fails :
  decay_safe now (self w) r = false → _applyDecayInternal now p w = Revert ArithmeticPanic.
Proof.
  intros Hsafe. pose proof weeks_fit. unfold decay_safe in Hsafe. apply orb_false_iff in Hsafe as [E2 E3].
  pose proof (r_score _ (s_reps _ Hok p)). zbool.
  unfold _applyDecayInternal. tx_run. change ((now - lastUpdated r) / WEEK) with (weeks_since now r).
  destruct (Z.eqb_spec (weeks_since now r) 0) as [E1|E1]; [rewrite E1 in E3; lia|].
  tx_run. cbn [decayFloor decayRate put_rep set_reputations]. rewrite floor_fits by done. cbn [score set_lastUpdated].
  destruct (Z.leb_spec (score r) (decayFloor (self w))); [lia|]. tx_run.
  destruct (decide (weeks_since now r * decayRate (self w) ≤ max_uint256)) as [Hm|Hm].
  - erewrite bind_run by (apply mul_Ok; split; [exact Hm|reflexivity]). apply bind_revert, sub_panic. exact E3.
  - apply bind_revert, mul_panic. cbn. lia.
Qed.

(** The view needs no such condition, only that the decay is a 256-bit number. *)
Lemma view_runs :
  score r ≤ decayFloor (self w) ∨ decayFloor (self w) + weeks_since now r * decayRate (self w) ≤ max_uint256 →
  _getDecayedScore now p w = Ok (w, score (decayed now (self w) r)).
Proof.
  intros Hfit. pose proof (r_score _ (s_reps _ Hok p)). pose proof (s_floor _ Hok). pose proof (s_rate _ Hok).
  pose proof (weeks_bound now r ltac:(lia)). unfold MAX_SCORE in *.
  unfold _getDecayedScore. tx_run. rewrite (proj2 (Z.eqb_neq _ _) Hreg). tx_run. rewrite floor_fits by done.
  unfold decayed. cbn [score set_lastUpdated set_score].
  destruct (Z.leb_spec (score r) (decayFloor (self w))) as [E2|E2]; [done|]. destruct Hfit as [|Hfit]; [lia|].
  tx_run. change ((now - lastUpdated r) / WEEK) with (weeks_since now r).
  destruct (Z.eqb_spec (weeks_since now r) 0) as [E1|E1]; [rewrite E1, Z.max_r by lia; by rewrite Z.mul_0_l, Z.sub_0_r|].
  tx_run. destruct (Z.leb_spec (score r) (decayFloor (self w) + weeks_since now r * decayRate (self w))).
  - rewrite Z.max_l by lia. done.
  - tx_run. rewrite Z.max_r by lia. rewrite uint_id; [done|]. unfold max_uint. nia.
Qed.

Lemma decayed_ok : rep_ok (decayed now (self w) r).
Proof.
  pose proof (s_reps _ Hok p) as [R1 R2]. pose proof (s_floor _ Hok). pose proof (s_rate _ Hok).
  pose proof (weeks_bound now r ltac:(lia)). unfold MAX_SCORE in *. split; cbn; [|lia].
  unfold MAX_SCORE. destruct (Z.leb_spec (score r) (decayFloor (self w))); [lia|]. nia.
Qed.
End Decay.

(** A decay that succeeds, whatever the time. *)
Lemma decay_Ok w p now w' u :
  storage_ok (self w) → registeredAt (rep p (self w)) ≠ 0 → now ≤ max_uint48 →
  _applyDecayInternal now p w = Ok (w', u) →
  lastUpdated (rep p (self w)) ≤ now ∧ decay_safe now (self w) (rep p (self w)) = true ∧
  w' = with_rep p (decayed now (self w) (rep p (self w))) w.
Proof.
  intros Hok Hreg Hn Hc.
  assert (Hl : lastUpdated (rep p (self w)) ≤ now).
  { unfold _applyDecayInternal in Hc. apply tx_bind_Ok in Hc as (w1 & r1 & Hg & Hc). apply get_Ok in Hg. simplify_eq.
    by apply tx_bind_Ok in Hc as (w1 & d & [Hs _]%sub_Ok & _). }
  split; [done|]. destruct (decay_safe now (self w) (rep p (self w))) eqn:Hs.
  - rewrite decay_runs in Hc by done. by simplify_eq.
  - by rewrite decay_fails in Hc.
Qed.

Ltac decay_inv :=
  repeat match goal with
  | Hx : _ensureRegistered _ _ = Ok _ |- _ => unfold _ensureRegistered in Hx; tx_inv Hx; zbool
  | Hx : _applyDecayInternal _ _ ?w = Ok _, Hok : storage_ok (self ?w) |- _ =>
      apply decay_Ok in Hx as (? & ? & ->); [|done|done|lia]
  end.

(** Every call keeps the storage well formed. *)
Lemma exec_storage_ok msg c w w' u :
  call_wf c → 0 ≤ timestamp msg ≤ max_uint48 → storage_ok (self w) → exec msg c w = Ok (w', u) → storage_ok (self w').
Proof.
  intros Hwf Ht Hok Hc. assert (Hhalf : MAX_SCORE / 2 = 500) by reflexivity.
  destruct c; cbn [exec call_wf] in *;
    unfold registerProvider, recordJobCompleted, recordJobFailed, recordSlashEvent, recordEvent, applyDecay,
      setDeltaParameters, setTierThresholds, setDecayParams, setMinScoreForJobs, setMaxCustomDelta in Hc; tx_inv Hc; decay_inv.
  all: rewrite ?Hhalf in *; zbool.
  all: cbn [self with_rep].
  1-6: repeat first [apply storage_ok_put | apply scored_ok | apply decayed_ok | lia | done].
  - split; cbn; [done|by rewrite uint_id].
  - destruct Hok. split; try done; cbn; lia.
  - destruct Hok. split; try done; cbn; lia.
  - destruct Hok. split; try done; cbn; lia.
  - destruct Hok. split; try done; cbn; lia.
  - destruct Hok. split; try done; cbn; lia.
Qed.

Lemma history_storage_ok w w' : self w = init → rtc step w w' → storage_ok (self w').
Proof.
  intros Hi Hs. assert (Hok : storage_ok (self w)) by (rewrite Hi; apply init_ok).
  clear Hi. induction Hs as [|x y z Hstep _ IH]; [done|]. apply IH. destruct Hstep as [msg c x Hwf Ht|x g']; [|done].
  apply (commit_inv _ (λ y, storage_ok (self y))); [|done]. intros y' u. by apply exec_storage_ok.
Qed.

(** Type.  In every history scores lie between 0 and 1000, whatever deltas the reporters
    send, and the configuration stays valid: the tier thresholds ascend, the decay
    floor is at most 500 and the custom range is symmetric. *)
Theorem reputation_in_range w w' :
  self w = init → rtc step w w' →
  (∀ p, 0 ≤ score (rep p (self w')) ≤ MAX_SCORE) ∧
  0 ≤ tierProbation (self w') < tierStandard (self w') ∧
  tierStandard (self w') < tierTrusted (self w') < tierElite (self w') ∧ tierElite (self w') ≤ MAX_SCORE ∧
  0 ≤ decayFloor (self w') ≤ 500 ∧ minCustomDelta (self w') = - maxCustomDelta (self w').
Proof. intros Hi Hs. destruct (history_storage_ok w w' Hi Hs). split_and!; try lia. apply s_reps0. Qed.

Lemma applyDecay_Ok msg p w w' u :
  storage_ok (self w) → timestamp msg ≤ max_uint48 → applyDecay msg p w = Ok (w', u) →
  registeredAt (rep p (self w)) ≠ 0 ∧ lastUpdated (rep p (self w)) ≤ timestamp msg ∧
  decay_safe (timestamp msg) (self w) (rep p (self w)) = true ∧
  w' = with_rep p (decayed (timestamp msg) (self w) (rep p (self w))) w.
Proof.
  intros Hok Ht Hc. unfold applyDecay in Hc. tx_inv Hc. unfold _ensureRegistered in Hs. tx_inv Hs. zbool.
  split; [done|]. by eapply decay_Ok.
Qed.

Lemma applyDecay_runs msg p w :
  storage_ok (self w) → registeredAt (rep p (self w)) ≠ 0 →
  lastUpdated (rep p (self w)) ≤ timestamp msg ≤ max_uint48 →
  decay_safe (timestamp msg) (self w) (rep p (self w)) = true →
  applyDecay msg p w = Ok (with_rep p (decayed (timestamp msg) (self w) (rep p (self w))) w, tt).
Proof.
  intros Hok Hreg Ht Hsafe. unfold applyDecay, _ensureRegistered.
  erewrite bind_run; [by apply decay_runs|]. tx_run. apply revert_if_Ok. split; [by apply Z.eqb_neq|done].
Qed.

(** The weeks up to [t1] and the weeks from there to [t2] are the weeks up to [t2]. *)
Lemma weeks_split t1 t2 s r :
  lastUpdated r ≤ t1 ≤ t2 → weeks_since t2 r = weeks_since t1 r + weeks_since t2 (decayed t1 s r).
Proof.
  intros Ht. unfold weeks_since at 1 3, decayed. cbn [lastUpdated set_lastUpdated set_score].
  set (k := weeks_since t1 r).
  replace (t2 - lastUpdated r) with (t2 - (lastUpdated r + k * WEEK) + k * WEEK) by lia.
  rewrite Z.div_add by done. lia.
Qed.

Lemma decayed_decayed t1 t2 s r :
  0 ≤ decayRate s → lastUpdated r ≤ t1 ≤ t2 → decayed t2 s (decayed t1 s r) = decayed t2 s r.
Proof.
  intros Hr Ht. pose proof (weeks_split t1 t2 s r Ht) as Hk. pose proof (weeks_bound t1 r ltac:(lia)).
  pose proof (weeks_bound t2 (decayed t1 s r) ltac:(cbn; lia)) as [Hk2 _].
  destruct r as [n jc jf sc l ra]. unfold decayed at 1 3.
  set (k := weeks_since t2 (decayed t1 s (mkRep n jc jf sc l ra))) in *. rewrite Hk. unfold decayed, set_lastUpdated, set_score. cbn.
  set (k1 := weeks_since t1 _) in *. f_equal; [|lia].
  destruct (Z.leb_spec n (decayFloor s)); [by rewrite (proj2 (Z.leb_le _ _)) by lia|].
  destruct (Z.leb_spec (Z.max (decayFloor s) (n - k1 * decayRate s)) (decayFloor s)); nia.
Qed.

Lemma decay_safe_earlier t1 t2 s r :
  0 ≤ decayRate s → lastUpdated r ≤ t1 ≤ t2 → decay_safe t2 s r = true →
  decay_safe t1 s r = true ∧ decay_safe t2 s (decayed t1 s r) = true.
Proof.
  intros Hr Ht Hs. pose proof (weeks_split t1 t2 s r Ht) as Hk. pose proof (weeks_bound t1 r ltac:(lia)) as [Hk1 Hb].
  pose proof (weeks_bound t2 (decayed t1 s r) ltac:(cbn; lia)) as [Hk2 _]. unfold decay_safe in *.
  rewrite Hk in Hs. apply orb_true_iff in Hs. rewrite !orb_true_iff, !Z.leb_le in *.
  set (k := weeks_since t2 (decayed t1 s r)) in *. unfold decayed. cbn.
  destruct (Z.leb_spec (score r) (decayFloor s)); [split; left; lia|]. destruct Hs as [|Hs]; [lia|].
  split; [right; nia|]. destruct (decide (score r - weeks_since t1 r * decayRate s ≤ decayFloor s)); [left; lia|right; nia].
Qed.

(** [getScore] of a registered provider. *)
Lemma getScore_runs now p w :
  storage_ok (self w) → registeredAt (rep p (self w)) ≠ 0 → lastUpdated (rep p (self w)) ≤ now ≤ max_uint48 →
  score (rep p (self w)) ≤ decayFloor (self w) ∨
    decayFloor (self w) + weeks_since now (rep p (self w)) * decayRate (self w) ≤ max_uint256 →
  getScore now p w = Ok (w, score (decayed now (self w) (rep p (self w)))).
Proof.
  intros Hok Hreg Ht Hfit. unfold getScore, _ensureRegistered. erewrite bind_run; [by apply view_runs|].
  tx_run. apply revert_if_Ok. split; [by apply Z.eqb_neq|done].
Qed.

Lemma safe_fits now s r :
  storage_ok s → rep_ok r → decay_safe now s r = true →
  score r ≤ decayFloor s ∨ decayFloor s + weeks_since now r * decayRate s ≤ max_uint256.
Proof.
  intros Hok Hr Hs. unfold decay_safe in Hs. rewrite orb_true_iff, !Z.leb_le in Hs. destruct Hs as [|Hs]; [by left|right].
  pose proof (r_score _ Hr). pose proof (s_floor _ Hok). unfold MAX_SCORE, max_uint256, max_uint in *. lia.
Qed.

(** C32: equivalence.  When decay is applied does not matter: if applying it at one time succeeds,
    then applying it also at any earlier time gives the same storage.  No week is
    counted twice and no part of a week is lost. *)
Theorem decay_schedule_irrelevant w0 w early late p w' u :
  self w0 = init → rtc step w0 w →
  lastUpdated (rep p (self w)) ≤ timestamp early ≤ timestamp late → timestamp late ≤ max_uint48 →
  applyDecay late p w = Ok (w', u) →
  ∃ w1, applyDecay early p w = Ok (w1, tt) ∧ applyDecay late p w1 = Ok (w', tt).
Proof.
  intros Hi Hs Ht Hmax Hc. pose proof (history_storage_ok w0 w Hi Hs) as Hok.
  apply applyDecay_Ok in Hc as (Hreg & _ & Hsafe & ->); [|done|done].
  destruct (decay_safe_earlier _ _ _ _ (s_rate _ Hok) Ht Hsafe) as [Hsafe1 Hsafe2].
  eexists. split; [apply applyDecay_runs; try done; lia|].
  pose proof (weeks_bound _ _ (proj1 Ht)) as [_ Hb].
  assert (Hp : rep p (self (with_rep p (decayed (timestamp early) (self w) (rep p (self w))) w)) =
    decayed (timestamp early) (self w) (rep p (self w))) by (cbn; by rewrite rep_insert, decide_True).
  rewrite applyDecay_runs; rewrite ?Hp; try done.
  - do 2 f_equal. unfold with_rep, put_rep. cbn. f_equal. change (decayed (timestamp late) _) with (decayed (timestamp late) (self w)).
    rewrite decayed_decayed by (done || apply Hok). unfold set_reputations. cbn. by rewrite insert_insert_eq.
  - cbn. apply storage_ok_put; [done|]. apply decayed_ok; [done|lia].
  - cbn. lia.
Qed.

(** Equivalence.  The score that [getScore] shows is the score that [applyDecay] stores, and
    storing it does not change what is shown. *)
Theorem score_view_agrees w0 w msg p w' u :
  self w0 = init → rtc step w0 w → timestamp msg ≤ max_uint48 → applyDecay msg p w = Ok (w', u) →
  getScore (timestamp msg) p w = Ok (w, score (rep p (self w'))) ∧
  getScore (timestamp msg) p w' = Ok (w', score (rep p (self w'))).
Proof.
  intros Hi Hs Hmax Hc. pose proof (history_storage_ok w0 w Hi Hs) as Hok.
  apply applyDecay_Ok in Hc as (Hreg & Hl & Hsafe & ->); [|done|done].
  set (r1 := decayed (timestamp msg) (self w) (rep p (self w))).
  assert (Hp : rep p (self (with_rep p r1 w)) = r1) by (cbn; by rewrite rep_insert, decide_True).
  pose proof (weeks_bound _ _ Hl) as [_ Hb].
  destruct (decay_safe_earlier _ _ _ _ (s_rate _ Hok) (conj Hl (Z.le_refl _)) Hsafe) as [_ Hsafe1].
  rewrite Hp, (getScore_runs (timestamp msg) p w), (getScore_runs (timestamp msg) p (with_rep p r1 w)); rewrite ?Hp; try done.
  - change (decayed (timestamp msg) (self (with_rep p r1 w))) with (decayed (timestamp msg) (self w)).
    unfold r1 at 3. by rewrite decayed_decayed by (done || apply Hok).
  - cbn. apply storage_ok_put; [done|]. apply decayed_ok; [done|lia].
  - cbn. lia.
  - apply (safe_fits _ (self w)); [done| |done]. apply decayed_ok; [done|lia].
  - apply safe_fits; [done|apply Hok|done].
Qed.

(** C38: error.  A long absence freezes a provider's record: once the decay exceeds a score above
    the floor, [applyDecay] and every event reported for the provider revert with an
    arithmetic panic, then and at all later times, although [getScore] goes on to
    show the floor. *)
Theorem long_absence_freezes w0 w p t :
  self w0 = init → rtc step w0 w → registeredAt (rep p (self w)) ≠ 0 →
  lastUpdated (rep p (self w)) ≤ t → decayFloor (self w) < score (rep p (self w)) →
  score (rep p (self w)) < weeks_since t (rep p (self w)) * decayRate (self w) →
  ∀ msg, t ≤ timestamp msg ≤ max_uint48 →
    applyDecay msg p w = Revert ArithmeticPanic ∧
    (∀ c d, c ∈ [CallCompleted p; CallFailed p; CallSlashed p; CallEvent p d] → ¬ succeeds (exec msg c w)) ∧
    (decayFloor (self w) + weeks_since (timestamp msg) (rep p (self w)) * decayRate (self w) ≤ max_uint256 →
     getScore (timestamp msg) p w = Ok (w, decayFloor (self w))).
Proof.
  intros Hi Hs Hreg Hl Hfloor Hbig msg Ht. pose proof (history_storage_ok w0 w Hi Hs) as Hok.
  assert (Hweeks : weeks_since t (rep p (self w)) ≤ weeks_since (timestamp msg) (rep p (self w)))
    by (apply Z.div_le_mono; [done|lia]).
  pose proof (s_rate _ Hok) as Hr. set (k := weeks_since t (rep p (self w))) in *.
  assert (Hsafe : decay_safe (timestamp msg) (self w) (rep p (self w)) = false).
  { unfold decay_safe. apply orb_false_iff. split; apply Z.leb_gt; [lia|]. nia. }
  pose proof (decay_fails w p (timestamp msg) Hok ltac:(lia) Hsafe) as Hfail.
  split_and!.
  - unfold applyDecay, _ensureRegistered. erewrite bind_run; [exact Hfail|].
    tx_run. apply revert_if_Ok. split; [by apply Z.eqb_neq|done].
  - intros c d Hc Hok'. apply succeeds_Ok in Hok' as [[w' []] Hx].
    rewrite !elem_of_cons, elem_of_nil in Hc. destruct_or!; try done; subst c; cbn [exec] in Hx;
      unfold recordJobCompleted, recordJobFailed, recordSlashEvent, recordEvent in Hx; tx_inv Hx; decay_inv; congruence.
  - intros Hfit. rewrite getScore_runs by (auto; lia). do 2 f_equal. unfold decayed. cbn.
    rewrite (proj2 (Z.leb_gt _ _) Hfloor). apply Z.max_l. pose proof (s_floor _ Hok). nia.
Qed.
End Calls.

(** The tier is the number of thresholds the score reaches. *)
Theorem tier_counts_thresholds n s :
  tierProbation s < tierStandard s < tierTrusted s → tierTrusted s < tierElite s →
  rank (_scoreTier n s) =
    Z.b2z (tierProbation s <=? n) + Z.b2z (tierStandard s <=? n) + Z.b2z (tierTrusted s <=? n) + Z.b2z (tierElite s <=? n).
Proof.
  intros H1 H2. unfold _scoreTier.
  destruct (Z.leb_spec (tierElite s) n), (Z.leb_spec (tierTrusted s) n), (Z.leb_spec (tierStandard s) n),
    (Z.leb_spec (tierProbation s) n); try lia; reflexivity.
Qed.

(** ** Runs *)

#[export] Instance reputation_call_wf_dec c : Decision (call_wf c).
Proof. destruct c; apply _. Defined.

(** The owner 1 is also the reporter; provider 10 earns points, fails a job and is
    then absent; later the owner raises the decay to 100 points a week. *)
Abbreviation world := (chain State ledger admin).
Definition start : world := mkChain init ∅ (mkAdmin 1 false).
Definition play : world → list (message * call) → option world := runs exec call_wf 99.
Definition busy : list (message * call) := [
  (at_ 1 1000, CallRegister 10);
  (at_ 1 2000, CallEvent 10 200);
  (at_ 1 3000, CallFailed 10)].
Definition after_busy : world := default start (play start busy).
Definition stricter : list (message * call) := busy ++ [(at_ 1 4000, CallSetDecay 100 100)].
Definition strict : world := default start (play start stricter).

Lemma reputation_history calls w : play start calls = Some w → rtc step start w.
Proof.
  intros Hp. apply rtc_nsteps. exists (length calls).
  refine (runs_steps exec call_wf 99 (λ _, true) step start calls w _ _ Hp).
  - intros msg c w1 _ Hc _ _ H0 H1 _. by constructor.
  - by apply forallb_forall.
Qed.

Lemma busy_history : rtc step start after_busy.
Proof. apply (reputation_history busy). vm_compute. reflexivity. Qed.
Lemma strict_history : rtc step start strict.
Proof. apply (reputation_history stricter). vm_compute. reflexivity. Qed.

Example reputation_in_range_witness :
  score (rep 10 (self after_busy)) = 690 ∧ 0 ≤ score (rep 10 (self after_busy)) ≤ MAX_SCORE.
Proof.
  split; [vm_compute; reflexivity|]. exact (proj1 (reputation_in_range start after_busy eq_refl busy_history) 10%N).
Defined.

Definition decayed_world : world := commit (applyDecay (at_ 5 (3000 + 3 * WEEK + 5)) 10) after_busy.
Lemma decay_run : applyDecay (at_ 5 (3000 + 3 * WEEK + 5)) 10 after_busy = Ok (decayed_world, tt).
Proof. vm_compute. reflexivity. Qed.

Example decay_schedule_irrelevant_witness :
  score (rep 10 (self decayed_world)) = 687 ∧
  ∃ w1, applyDecay (at_ 5 (3000 + WEEK + 100)) 10 after_busy = Ok (w1, tt) ∧
    applyDecay (at_ 5 (3000 + 3 * WEEK + 5)) 10 w1 = Ok (decayed_world, tt).
Proof.
  split; [vm_compute; reflexivity|].
  exact (decay_schedule_irrelevant start after_busy (at_ 5 (3000 + WEEK + 100)) (at_ 5 (3000 + 3 * WEEK + 5)) 10
    decayed_world tt eq_refl busy_history ltac:(vm_compute; split; discriminate) ltac:(vm_compute; discriminate) decay_run).
Defined.

Example score_view_agrees_witness :
  getScore (3000 + 3 * WEEK + 5) 10 after_busy = Ok (after_busy, score (rep 10 (self decayed_world))).
Proof.
  exact (proj1 (score_view_agrees start after_busy (at_ 5 (3000 + 3 * WEEK + 5)) 10 decayed_world tt
    eq_refl busy_history ltac:(vm_compute; discriminate) decay_run)).
Defined.

Example long_absence_freezes_witness :
  applyDecay (at_ 5 (3000 + 10 * WEEK)) 10 strict = Revert ArithmeticPanic ∧
  ¬ succeeds (exec (at_ 1 (3000 + 10 * WEEK)) (CallSlashed 10) strict).
Proof.
  assert (Hall : ∀ msg, 3000 + 7 * WEEK ≤ timestamp msg ≤ max_uint48 →
    applyDecay msg 10 strict = Revert ArithmeticPanic ∧ ¬ succeeds (exec msg (CallSlashed 10) strict)).
  { intros msg Ht. destruct (long_absence_freezes start strict 10 (3000 + 7 * WEEK) eq_refl strict_history
      ltac:(vm_compute; discriminate) ltac:(vm_compute; discriminate) ltac:(vm_compute; reflexivity)
      ltac:(vm_compute; reflexivity) msg Ht) as (H1 & H2 & _).
    split; [exact H1|]. apply (H2 _ 0). set_solver. }
  split; [apply (Hall (at_ 5 (3000 + 10 * WEEK)))|apply (Hall (at_ 1 (3000 + 10 * WEEK)))]; vm_compute; split; discriminate.
Defined.
End Reputation.
