(* ===== verification/BunkerVerification.v ===== *)
(** * The verification contract (src/contracts/src/BunkerVerification.sol)

    Providers attest their capacity once per interval; verifiers record missed
    attestations, and too many in a row suspend a provider until the owner
    reinstates it.  The theorems: what a check records, that checks at different
    times count the same, how a suspension ends, and what a recorded miss does to
    the next attestation. *)

From S2P Require Import Prelude Solidity BunkerToken Runs.
Local Open Scope Z_scope.

Module Verification.

Definition VERIFIER_ROLE : string := "VERIFIER_ROLE".

Record AttestationRecord := mkRecord {
  lastAttestationHash : Z;   (** bytes32 *)
  lastAttestationTime : Z;   (** uint48 *)
  totalAttestations : Z;   (** uint32 *)
  missedAttestations : Z;   (** uint32 *)
  consecutiveMissed : Z;   (** uint32 *)
  suspended : bool
}.

Definition set_suspended (v : bool) (r : AttestationRecord) : AttestationRecord :=
  mkRecord (lastAttestationHash r) (lastAttestationTime r) (totalAttestations r)
    (missedAttestations r) (consecutiveMissed r) v.

Definition no_record : AttestationRecord := mkRecord 0 0 0 0 0 false.

Record State := mkState {
  attestationInterval : Z;
  maxMissedAttestations : Z;
  reinstatementCooldown : Z;
  attestations : gmap Addr AttestationRecord;
  suspendedAt : gmap Addr Z
}.

Definition set_attestationInterval (v : Z) (r : State) : State :=
  mkState v (maxMissedAttestations r) (reinstatementCooldown r) (attestations r) (suspendedAt r).
Definition set_maxMissedAttestations (v : Z) (r : State) : State :=
  mkState (attestationInterval r) v (reinstatementCooldown r) (attestations r) (suspendedAt r).
Definition set_reinstatementCooldown (v : Z) (r : State) : State :=
  mkState (attestationInterval r) (maxMissedAttestations r) v (attestations r) (suspendedAt r).
Definition set_attestations (v : gmap Addr AttestationRecord) (r : State) : State :=
  mkState (attestationInterval r) (maxMissedAttestations r) (reinstatementCooldown r) v
    (suspendedAt r).
Definition set_suspendedAt (v : gmap Addr Z) (r : State) : State :=
  mkState (attestationInterval r) (maxMissedAttestations r) (reinstatementCooldown r)
    (attestations r) v.

(** The storage after the constructor. *)
Definition init : State := mkState (24 * hours) 3 (7 * days) ∅ ∅.

Inductive VerificationErr :=
  | AttestationTooEarly | ProviderSuspendedError | InvalidAttestation | ProviderNotAttesting
  | InvalidInterval | InvalidMaxMissed | ReinstatementCooldownActive | InvalidCooldown.

Definition record (p : Addr) (s : State) : AttestationRecord := default no_record (attestations s !! p).
Definition put_record (p : Addr) (r : AttestationRecord) (s : State) : State :=
  set_attestations (<[p := r]> (attestations s)) s.
Definition suspended_at (p : Addr) (s : State) : Z := default 0 (suspendedAt s !! p).
Definition put_suspended_at (p : Addr) (t : Z) (s : State) : State := set_suspendedAt (<[p := t]> (suspendedAt s)) s.

Section Operations.
Context {T G : Type} `{BaseContracts G}.
Abbreviation M := (tx (chain State T G) VerificationErr).

Definition submitAttestation (msg : message) (attestationHash : Z) : M unit :=
  revert_if (attestationHash =? 0) InvalidAttestation;;
  r ← get (record (sender msg));
  revert_if (suspended r) ProviderSuspendedError;;
  if lastAttestationTime r =? 0 then
    put (put_record (sender msg) (mkRecord attestationHash (uint 48 (timestamp msg)) 1 0 0 false))
  else
    interval ← get attestationInterval;
    nextAllowed ← add (lastAttestationTime r) interval;
    revert_if (timestamp msg <? nextAllowed) AttestationTooEarly;;
    total ← add_width 32 (totalAttestations r) 1;
    put (put_record (sender msg)
      (mkRecord attestationHash (uint 48 (timestamp msg)) total (missedAttestations r) 0 (suspended r))).

Definition checkMissedAttestations (msg : message) (p : Addr) : M unit :=
  onlyRole VERIFIER_ROLE msg;;
  r ← get (record p);
  revert_if (lastAttestationTime r =? 0) ProviderNotAttesting;;
  revert_if (suspended r) ProviderSuspendedError;;
  interval ← get attestationInterval;
  deadline ← add (lastAttestationTime r) interval;
  if timestamp msg <=? deadline then mret tt else
  elapsed ← sub (timestamp msg) (lastAttestationTime r);
  intervalsMissed ← div elapsed interval;
  if intervalsMissed =? 0 then mret tt else
  missed ← add_width 32 (missedAttestations r) (uint 32 intervalsMissed);
  consecutive ← add_width 32 (consecutiveMissed r) (uint 32 intervalsMissed);
  x ← mul intervalsMissed interval;
  t ← add (lastAttestationTime r) x;
  let r := mkRecord (lastAttestationHash r) (uint 48 t) (totalAttestations r) missed consecutive (suspended r) in
  put (put_record p r);;
  maxMissed ← get maxMissedAttestations;
  when (uint 32 maxMissed <=? consecutive)
    (put (λ s, put_suspended_at p (timestamp msg) (put_record p (set_suspended true r) s))).

(** [proofLength] is the length of the fraud proof. *)
Definition challengeAttestation (msg : message) (p : Addr) (proofLength : Z) : M unit :=
  onlyRole VERIFIER_ROLE msg;;
  r ← get (record p);
  revert_if (lastAttestationTime r =? 0) ProviderNotAttesting;;
  revert_if (proofLength =? 0) InvalidAttestation;;
  put (λ s, put_suspended_at p (timestamp msg) (put_record p (set_suspended true r) s)).

Definition reinstateProvider (msg : message) (p : Addr) : M unit :=
  onlyOwner msg;;
  r ← get (record p);
  revert_if (lastAttestationTime r =? 0) ProviderNotAttesting;;
  since ← get (suspended_at p);
  cooldown ← get reinstatementCooldown;
  allowed ← add since cooldown;
  revert_if (timestamp msg <? allowed) ReinstatementCooldownActive;;
  put (put_record p (mkRecord (lastAttestationHash r) (uint 48 (timestamp msg)) (totalAttestations r)
    (missedAttestations r) 0 false)).

Definition setAttestationInterval (msg : message) (interval : Z) : M unit :=
  onlyOwner msg;;
  revert_if (interval =? 0) InvalidInterval;;
  put (set_attestationInterval interval).

Definition setMaxMissedAttestations (msg : message) (maxMissed : Z) : M unit :=
  onlyOwner msg;;
  revert_if (maxMissed =? 0) InvalidMaxMissed;;
  put (set_maxMissedAttestations maxMissed).

Definition setReinstatementCooldown (msg : message) (newCooldown : Z) : M unit :=
  onlyOwner msg;;
  revert_if ((newCooldown <? 1 * minutes) || (30 * days <? newCooldown)) InvalidCooldown;;
  put (set_reinstatementCooldown newCooldown).

Definition getAttestation (p : Addr) : M AttestationRecord := get (record p).

Definition isAttestationCurrent (now : Z) (p : Addr) : M bool :=
  r ← get (record p);
  if lastAttestationTime r =? 0 then mret false else
  if suspended r then mret false else
  elapsed ← sub now (lastAttestationTime r);
  interval ← get attestationInterval;
  mret (elapsed <=? interval).

(** ** Calls *)

Inductive call :=
  | CallSubmit (attestationHash : Z)
  | CallCheck (p : Addr)
  | CallChallenge (p : Addr) (proofLength : Z)
  | CallReinstate (p : Addr)
  | CallSetInterval (n : Z)
  | CallSetMaxMissed (n : Z)
  | CallSetCooldown (n : Z).

(** The arguments at their types. *)
Definition call_wf (c : call) : Prop :=
  match c with CallSetInterval n | CallSetMaxMissed n | CallSetCooldown n => 0 ≤ n ≤ max_uint256 | _ => True end.

Definition exec (msg : message) (c : call) : M unit :=
  match c with
  | CallSubmit h => submitAttestation msg h
  | CallCheck p => checkMissedAttestations msg p
  | CallChallenge p n => challengeAttestation msg p n
  | CallReinstate p => reinstateProvider msg p
  | CallSetInterval n => setAttestationInterval msg n
  | CallSetMaxMissed n => setMaxMissedAttestations msg n
  | CallSetCooldown n => setReinstatementCooldown msg n
  end.

Inductive step : chain State T G → chain State T G → Prop :=
  | step_call msg c w : call_wf c → 0 ≤ timestamp msg ≤ max_uint48 → step w (commit (exec msg c) w)
  | step_base w g' : step w (mkChain (self w) (tok w) g').
End Operations.

(** ** Well-formed storage *)

Record record_ok (r : AttestationRecord) : Prop := {
  r_last : 0 ≤ lastAttestationTime r ≤ max_uint48;
  r_missed : 0 ≤ consecutiveMissed r ≤ missedAttestations r ∧ missedAttestations r ≤ max_uint 32
}.

Record storage_ok (s : State) : Prop := {
  s_interval : 0 < attestationInterval s;
  s_max : 0 < maxMissedAttestations s;
  s_cooldown : 1 * minutes ≤ reinstatementCooldown s ≤ 30 * days;
  s_records : ∀ p, record_ok (record p s)
}.

Lemma record_insert p r s p' : record p' (put_record p r s) = if decide (p = p') then r else record p' s.
Proof. unfold record. cbn. rewrite lookup_insert. by case_decide. Qed.

Lemma attest_init_ok : storage_ok init.
Proof. split; [done..|]. intros p. by cbn. Qed.

Lemma attest_ok_put p r s : storage_ok s → record_ok r → storage_ok (put_record p r s).
Proof. intros [] Hr. split; try done. intros p'. rewrite record_insert. by case_decide. Qed.

Lemma attest_ok_suspend p t s : storage_ok s → storage_ok (put_suspended_at p t s).
Proof. intros []. by split. Qed.

Section Calls.
Context {T G : Type} `{BaseContracts G}.
Implicit Types w : chain State T G.

Lemma attest_exec_ok msg c w w' u :
  call_wf c → storage_ok (self w) → exec msg c w = Ok (w', u) → storage_ok (self w').
Proof.
  intros Hwf Hok Hc. destruct c; cbn [exec call_wf] in *;
    unfold submitAttestation, checkMissedAttestations, challengeAttestation, reinstateProvider, setAttestationInterval,
      setMaxMissedAttestations, setReinstatementCooldown in Hc; tx_inv Hc; zbool; cbn [self]; try done.
  all: try match goal with |- context [put_record ?p] => pose proof (s_records _ Hok p) as [] end.
  all: try match goal with |- context [uint 32 ?k] => pose proof (uint_range 32 k ltac:(lia)) end.
  all: repeat first [done | apply attest_ok_suspend | apply attest_ok_put | split; cbn; [by apply uint_range|lia] | by split].
  all: destruct Hok; split; try done; cbn; lia.
Qed.

Lemma attest_history_ok w w' : self w = init → rtc step w w' → storage_ok (self w').
Proof.
  intros Hi Hs. assert (Hok : storage_ok (self w)) by (rewrite Hi; apply attest_init_ok).
  clear Hi. induction Hs as [|x y z Hstep _ IH]; [done|]. apply IH. destruct Hstep as [msg c x Hwf Ht|x g']; [|done].
  apply (commit_inv _ (λ y, storage_ok (self y))); [|done]. intros y' u. by apply attest_exec_ok.
Qed.

(** ** What a check records *)

Definition missed_at (now : Z) (s : State) (r : AttestationRecord) : Z :=
  (now - lastAttestationTime r) / attestationInterval s.

Definition checked (now : Z) (s : State) (r : AttestationRecord) : AttestationRecord :=
  let k := missed_at now s r in
  mkRecord (lastAttestationHash r) (lastAttestationTime r + k * attestationInterval s) (totalAttestations r)
    (missedAttestations r + k) (consecutiveMissed r + k)
    (uint 32 (maxMissedAttestations s) <=? consecutiveMissed r + k).

Definition after_check (now : Z) (p : Addr) w : chain State T G :=
  let r := record p (self w) in
  if now <=? lastAttestationTime r + attestationInterval (self w) then w
  else
    let s := put_record p (checked now (self w) r) (self w) in
    mkChain (if suspended (checked now (self w) r) then put_suspended_at p now s else s) (tok w) (base w).

Lemma missed_bound now s r :
  0 < attestationInterval s → lastAttestationTime r ≤ now →
  0 ≤ missed_at now s r ∧
  lastAttestationTime r ≤ lastAttestationTime r + missed_at now s r * attestationInterval s ≤ now ∧
  now < lastAttestationTime r + missed_at now s r * attestationInterval s + attestationInterval s.
Proof.
  intros Hi Ht. unfold missed_at. set (i := attestationInterval s) in *. set (e := now - lastAttestationTime r).
  pose proof (Z.div_pos e i ltac:(lia) ltac:(lia)). pose proof (Z.mul_div_le e i ltac:(lia)).
  pose proof (Z.mul_succ_div_gt e i ltac:(lia)). unfold e in *. nia.
Qed.

Section Check.
Context w (msg : message) (p : Addr) (Hok : storage_ok (self w)) (Hnow : 0 ≤ timestamp msg ≤ max_uint48).
Abbreviation r := (record p (self w)).
Abbreviation now := (timestamp msg).
Context (Hrole : hasRole (base w) VERIFIER_ROLE (sender msg) = true).
Context (Hlast : lastAttestationTime r ≠ 0) (Hsus : suspended r = false).
Context (Hfit : missedAttestations r + missed_at now (self w) r ≤ max_uint 32).
Context (Hsum : lastAttestationTime r + attestationInterval (self w) ≤ max_uint256).

Lemma check_runs : checkMissedAttestations msg p w = Ok (after_check now p w, tt).
Proof.
  pose proof (s_interval _ Hok) as Hi. pose proof (s_records _ Hok p) as [Hl Hm].
  unfold checkMissedAttestations, after_check. tx_run.
  erewrite bind_run by (apply revert_if_Ok; split; [by apply Z.eqb_neq|reflexivity]). cbn beta. tx_run.
  destruct (Z.leb_spec now (lastAttestationTime r + attestationInterval (self w))) as [E1|E1]; [done|].
  pose proof (missed_bound now (self w) r Hi ltac:(lia)) as (Hk & Hb & Hlt). tx_run.
  erewrite bind_run by (apply div_Ok; split; [lia|reflexivity]). cbn beta.
  change ((now - lastAttestationTime r) / attestationInterval (self w)) with (missed_at now (self w) r).
  destruct (Z.eqb_spec (missed_at now (self w) r) 0) as [E2|E2]; [rewrite E2 in Hlt; lia|].
  assert (Hu : uint 32 (missed_at now (self w) r) = missed_at now (self w) r) by (apply uint_id; lia).
  rewrite Hu. erewrite bind_run by (apply add_width_Ok; split; [lia|reflexivity]). cbn beta.
  erewrite bind_run by (apply add_width_Ok; split; [lia|reflexivity]). cbn beta.
  assert (Hmax : max_uint48 ≤ max_uint256) by done. tx_run.
  rewrite (uint_id 48) by (unfold max_uint48 in *; lia). cbn [maxMissedAttestations put_record set_attestations].
  unfold checked. cbn [suspended].
  destruct (uint 32 (maxMissedAttestations (self w)) <=? consecutiveMissed r + missed_at now (self w) r).
  - apply when_Ok. left. split; [done|]. apply put_Ok. do 2 f_equal. cbn. unfold put_record, set_attestations, set_suspended. cbn.
    by rewrite insert_insert_eq.
  - apply when_Ok. right. by rewrite Hsus.
Qed.
End Check.

(** What the successful check has tested. *)
Lemma check_Ok w msg p w' u :
  checkMissedAttestations msg p w = Ok (w', u) →
  hasRole (base w) VERIFIER_ROLE (sender msg) = true ∧ lastAttestationTime (record p (self w)) ≠ 0 ∧
  suspended (record p (self w)) = false ∧
  lastAttestationTime (record p (self w)) + attestationInterval (self w) ≤ max_uint256 ∧
  (timestamp msg ≤ lastAttestationTime (record p (self w)) + attestationInterval (self w) ∨
   missedAttestations (record p (self w)) + uint 32 (missed_at (timestamp msg) (self w) (record p (self w))) ≤ max_uint 32 ∨ w' = w).
Proof.
  intros Hc. unfold checkMissedAttestations in Hc. tx_inv Hc; zbool; split_and!; try done; auto.
Qed.

(** ** The whole behaviour of a check *)

(** The storage after [n] misses are recorded for [p], the window moving on to
    [t]; the misses in a row are compared with [limit]. *)
Definition after_misses (msg : message) (p : Addr) (n t limit : Z) w : chain State T G :=
  let s := self w in let r := record p s in
  let c := consecutiveMissed r + n in
  mkChain (mkState (attestationInterval s) (maxMissedAttestations s) (reinstatementCooldown s)
    (<[p := mkRecord (lastAttestationHash r) t (totalAttestations r) (missedAttestations r + n) c
       (limit <=? c)]> (attestations s))
    (if limit <=? c then <[p := timestamp msg]> (suspendedAt s) else suspendedAt s)) (tok w) (base w).

Lemma check_late w msg p (r := record p (self w)) (i := attestationInterval (self w))
    (k := (timestamp msg - lastAttestationTime r) / i) :
  storage_ok (self w) → timestamp msg ≤ max_uint48 →
  hasRole (base w) VERIFIER_ROLE (sender msg) = true → lastAttestationTime r ≠ 0 → suspended r = false →
  lastAttestationTime r + i ≤ max_uint256 → lastAttestationTime r + i < timestamp msg →
  checkMissedAttestations msg p w =
    if missedAttestations r + uint 32 k <=? max_uint 32
    then Ok (after_misses msg p (uint 32 k) (lastAttestationTime r + k * i)
               (uint 32 (maxMissedAttestations (self w))) w, tt)
    else Revert ArithmeticPanic.
Proof.
  intros Hok Hnow Hrole Hl Hsus Hsum Hlate. pose proof (s_interval _ Hok) as Hi. fold i in Hi.
  pose proof (s_records _ Hok p) as [Hlr Hm]. fold r in Hlr, Hm.
  pose proof (missed_bound (timestamp msg) (self w) r Hi ltac:(lia)) as (Hk & Hb & Hlt).
  change (missed_at (timestamp msg) (self w) r) with k in *. fold i in Hb, Hlt.
  pose proof (uint_range 32 k ltac:(lia)) as Hu. assert (Hmax : max_uint48 ≤ max_uint256) by done.
  unfold checkMissedAttestations. tx_run.
  erewrite bind_run by (apply revert_if_Ok; split; [by apply Z.eqb_neq|reflexivity]). cbn beta. tx_run.
  fold r i. tx_run. rewrite (proj2 (Z.leb_gt (timestamp msg) (lastAttestationTime r + i)) Hlate). tx_run.
  erewrite bind_run by (apply div_Ok; split; [lia|reflexivity]). cbn beta. fold k.
  rewrite (proj2 (Z.eqb_neq k 0)) by (intros E; rewrite E in Hlt; lia).
  destruct (Z.leb_spec (missedAttestations r + uint 32 k) (max_uint 32)) as [Hfit|Hfit];
    [|by apply bind_revert, add_width_panic].
  erewrite bind_run by (apply add_width_Ok; split; [lia|reflexivity]). cbn beta.
  erewrite bind_run by (apply add_width_Ok; split; [lia|reflexivity]). cbn beta. tx_run.
  rewrite (uint_id 48) by (unfold max_uint48 in *; lia). cbn [maxMissedAttestations put_record set_attestations].
  unfold after_misses. fold r.
  destruct (uint 32 (maxMissedAttestations (self w)) <=? consecutiveMissed r + uint 32 k).
  - apply when_Ok. left. split; [done|]. apply put_Ok. do 2 f_equal. cbn.
    unfold put_suspended_at, set_suspendedAt, put_record, set_attestations, set_suspended. cbn. by rewrite insert_insert_eq.
  - apply when_Ok. right. by rewrite Hsus.
Qed.

(** C34: functional.  Every result of [checkMissedAttestations], in every reachable
    state.  It reverts for a caller without the role, for a provider that never
    attested or is suspended, and on an overflow of the deadline or of the
    32-bit count of misses, with the error of the first that applies.  Within
    the window it changes nothing.  After the window it adds the number of
    missed intervals, kept to 32 bits, to both counters, moves the window on by
    whole intervals, and suspends the provider, noting the time, exactly when
    the misses in a row reach the low 32 bits of the limit; nothing else
    changes. *)
Theorem check_records_misses w0 w msg p :
  self w0 = init → rtc step w0 w → 0 ≤ timestamp msg ≤ max_uint48 →
  let r := record p (self w) in let i := attestationInterval (self w) in
  let k := (timestamp msg - lastAttestationTime r) / i in
  let verifier := hasRole (base w) VERIFIER_ROLE (sender msg) in
  match checkMissedAttestations msg p w with
  | Revert e =>
      (verifier = false ∧ e = ExternalRevert) ∨
      (verifier = true ∧ lastAttestationTime r = 0 ∧ e = Error ProviderNotAttesting) ∨
      (verifier = true ∧ lastAttestationTime r ≠ 0 ∧ suspended r = true ∧ e = Error ProviderSuspendedError) ∨
      (verifier = true ∧ lastAttestationTime r ≠ 0 ∧ suspended r = false ∧ e = ArithmeticPanic ∧
        (max_uint256 < lastAttestationTime r + i ∨
         lastAttestationTime r + i < timestamp msg ∧ max_uint 32 < missedAttestations r + k mod 2 ^ 32))
  | Ok (w', _) =>
      verifier = true ∧ lastAttestationTime r ≠ 0 ∧ suspended r = false ∧
      lastAttestationTime r + i ≤ max_uint256 ∧
      ((timestamp msg ≤ lastAttestationTime r + i ∧ w' = w) ∨
       (lastAttestationTime r + i < timestamp msg ∧ missedAttestations r + k mod 2 ^ 32 ≤ max_uint 32 ∧
        let c := consecutiveMissed r + k mod 2 ^ 32 in
        let reached := maxMissedAttestations (self w) mod 2 ^ 32 <=? c in
        w' = mkChain (mkState i (maxMissedAttestations (self w)) (reinstatementCooldown (self w))
               (<[p := mkRecord (lastAttestationHash r) (lastAttestationTime r + k * i) (totalAttestations r)
                         (missedAttestations r + k mod 2 ^ 32) c reached]> (attestations (self w)))
               (if reached then <[p := timestamp msg]> (suspendedAt (self w)) else suspendedAt (self w)))
             (tok w) (base w)))
  end.
Proof.
  intros Hi Hs Ht r i k verifier. pose proof (attest_history_ok w0 w Hi Hs) as Hok.
  assert (Hrun : ∀ e : result VerificationErr _, checkMissedAttestations msg p w = e →
    ∀ P : result VerificationErr (chain State T G * unit) → Prop, P e → P (checkMissedAttestations msg p w))
    by (by intros e -> P).
  destruct verifier eqn:Hrole; unfold verifier in Hrole.
  2: { eapply (Hrun (Revert ExternalRevert)); [|by left].
       unfold checkMissedAttestations. by apply bind_revert, onlyRole_fail. }
  destruct (decide (lastAttestationTime r = 0)) as [Hl|Hl].
  { eapply (Hrun (Revert (Error ProviderNotAttesting))); [|by right; left].
    unfold checkMissedAttestations. tx_run. apply bind_revert, revert_if_true. by apply Z.eqb_eq. }
  assert (Hne : (lastAttestationTime r =? 0) = false) by (by apply Z.eqb_neq).
  destruct (suspended r) eqn:Hsus.
  { eapply (Hrun (Revert (Error ProviderSuspendedError))); [|by right; right; left].
    unfold checkMissedAttestations. tx_run. by apply bind_revert, revert_if_true. }
  destruct (decide (lastAttestationTime r + i ≤ max_uint256)) as [Hsum|Hsum].
  2: { eapply (Hrun (Revert ArithmeticPanic)); [|right; right; right; split_and!; [done..|left; lia]].
       unfold checkMissedAttestations. tx_run. apply bind_revert, add_panic. fold r i. lia. }
  destruct (decide (timestamp msg ≤ lastAttestationTime r + i)) as [Hin|Hin].
  { eapply (Hrun (Ok (w, tt))); [|cbn; split_and!; [done..|by left]].
    unfold checkMissedAttestations. tx_run. fold r i. tx_run. by rewrite (proj2 (Z.leb_le _ _) Hin). }
  eapply Hrun; [apply check_late; try done; fold r i; lia|]. fold r i k.
  destruct (Z.leb_spec (missedAttestations r + uint 32 k) (max_uint 32)) as [Hfit|Hfit].
  - split_and!; [done..|]. right. split_and!; [lia|done|reflexivity].
  - right; right; right. split_and!; [done..|]. right. split; [lia|done].
Qed.

Lemma missed_split t1 t2 s r :
  0 < attestationInterval s → missed_at t2 s r = missed_at t1 s r + missed_at t2 s (checked t1 s r).
Proof.
  intros Hi. unfold missed_at at 1 3, checked. cbn [lastAttestationTime]. set (k := missed_at t1 s r).
  replace (t2 - lastAttestationTime r) with
    (t2 - (lastAttestationTime r + k * attestationInterval s) + k * attestationInterval s) by lia.
  rewrite Z.div_add by lia. lia.
Qed.

(** The state after a check that records misses without suspending, and a later
    check in that state. *)
Definition with_record (p : Addr) (r : AttestationRecord) w : chain State T G :=
  mkChain (put_record p r (self w)) (tok w) (base w).

Lemma after_check_record t p w :
  lastAttestationTime (record p (self w)) + attestationInterval (self w) < t →
  suspended (checked t (self w) (record p (self w))) = false →
  after_check t p w = with_record p (checked t (self w) (record p (self w))) w.
Proof. intros Ht Hs. unfold after_check. rewrite (proj2 (Z.leb_gt _ _) Ht). by rewrite Hs. Qed.

Lemma after_check_unsuspended t p w :
  lastAttestationTime (record p (self w)) + attestationInterval (self w) < t →
  suspended (record p (self (after_check t p w))) = false →
  suspended (checked t (self w) (record p (self w))) = false.
Proof.
  intros Ht Hs. unfold after_check in Hs. rewrite (proj2 (Z.leb_gt _ _) Ht) in Hs. cbn [self] in Hs.
  destruct (suspended (checked _ _ _)) eqn:Es; [|done].
  change (record p (put_suspended_at _ _ ?s)) with (record p s) in Hs.
  rewrite record_insert, decide_True in Hs by done. congruence.
Qed.

Lemma check_after_check t1 t2 p w :
  let r := record p (self w) in
  storage_ok (self w) → lastAttestationTime r + attestationInterval (self w) < t1 ≤ t2 →
  (t2 - lastAttestationTime r) mod attestationInterval (self w) ≠ 0 →
  suspended (checked t1 (self w) r) = false →
  after_check t2 p (with_record p (checked t1 (self w) r) w) = after_check t2 p w.
Proof.
  intros r Hok Ht Hmod Hsus. pose proof (s_interval _ Hok) as Hi. set (r1 := checked t1 (self w) r) in *.
  assert (Hr1 : record p (self (with_record p r1 w)) = r1) by (cbn; by rewrite record_insert, decide_True).
  pose proof (missed_split t1 t2 (self w) r Hi) as Hk. fold r1 in Hk.
  pose proof (missed_bound t1 (self w) r Hi ltac:(lia)) as (K1 & B1 & L1).
  pose proof (missed_bound t2 (self w) r1 Hi ltac:(cbn; lia)) as (K2 & B2 & L2).
  assert (Hchk : checked t2 (self w) r1 = checked t2 (self w) r).
  { unfold checked. rewrite Hk. generalize (missed_at t2 (self w) r1). intros k2. subst r1. unfold checked. cbn.
    f_equal; [lia..|]. f_equal. lia. }
  unfold after_check. rewrite Hr1. fold r. rewrite (proj2 (Z.leb_gt t2 (lastAttestationTime r + _))) by lia.
  change (checked t2 (self (with_record p r1 w)) r1) with (checked t2 (self w) r1). rewrite Hchk.
  change (attestationInterval (self (with_record p r1 w))) with (attestationInterval (self w)).
  destruct (Z.leb_spec t2 (lastAttestationTime r1 + attestationInterval (self w))) as [E1|E1].
  - assert (Hz : missed_at t2 (self w) r1 = 0).
    { destruct (decide (missed_at t2 (self w) r1 = 0)) as [|Hnz]; [done|]. exfalso. apply Hmod.
      replace (t2 - lastAttestationTime r) with ((missed_at t1 (self w) r + 1) * attestationInterval (self w));
        [by apply Z.mod_mul; lia|]. subst r1. cbn in *. nia. }
    assert (Hsame : checked t2 (self w) r = r1).
    { unfold checked. rewrite Hk, Hz, Z.add_0_r. done. }
    by rewrite Hsame, Hsus.
  - unfold with_record. cbn [self tok base]. f_equal.
    destruct (suspended _); unfold put_suspended_at, put_record, set_attestations, set_suspendedAt; cbn;
      by rewrite insert_insert_eq.
Qed.

(** Equivalence.  Checking more often counts no interval twice: if an early check does not
    suspend the provider, the late check gives the same storage with and without
    it, unless it falls on the very second of a deadline. *)
Theorem misses_counted_once w0 w early late p w1 w2 u1 u2 :
  self w0 = init → rtc step w0 w →
  0 ≤ timestamp early ≤ timestamp late → timestamp late ≤ max_uint48 →
  let r := record p (self w) in
  missedAttestations r + (timestamp late - lastAttestationTime r) / attestationInterval (self w) ≤ max_uint 32 →
  (timestamp late - lastAttestationTime r) mod attestationInterval (self w) ≠ 0 →
  checkMissedAttestations early p w = Ok (w1, u1) → suspended (record p (self w1)) = false →
  checkMissedAttestations late p w = Ok (w2, u2) →
  checkMissedAttestations late p w1 = Ok (w2, tt).
Proof.
  intros Hi Hs Ht Hmax r Hfit Hmod Hc1 Hsus1 Hc2. pose proof (attest_history_ok w0 w Hi Hs) as Hok.
  destruct (check_Ok _ _ _ _ _ Hc1) as (Hrole1 & Hl & Hsus & Hsum & _).
  destruct (check_Ok _ _ _ _ _ Hc2) as (Hrole2 & _). pose proof (s_interval _ Hok) as Hint.
  assert (Hle : missed_at (timestamp early) (self w) r ≤ missed_at (timestamp late) (self w) r)
    by (apply Z.div_le_mono; lia).
  assert (E1 : w1 = after_check (timestamp early) p w).
  { rewrite check_runs in Hc1; try done; [congruence|lia|]. unfold missed_at in *. fold r. lia. }
  assert (E2 : w2 = after_check (timestamp late) p w).
  { rewrite check_runs in Hc2; try done; [congruence|lia]. }
  destruct (decide (timestamp early ≤ lastAttestationTime r + attestationInterval (self w))) as [Hw|Hw].
  { assert (w1 = w) as ->; [|by destruct u2]. rewrite E1. unfold after_check. fold r. by rewrite (proj2 (Z.leb_le _ _) Hw). }
  assert (Hns : suspended (checked (timestamp early) (self w) r) = false).
  { rewrite E1 in Hsus1. apply after_check_unsuspended; [fold r; lia|done]. }
  rewrite (after_check_record (timestamp early) p w) in E1; [|fold r; lia|done]. subst w1 w2.
  rewrite <-(check_after_check (timestamp early) (timestamp late) p w Hok); [|fold r; lia|done|done].
  assert (Hok1 : storage_ok (self (with_record p (checked (timestamp early) (self w) r) w)))
    by exact (attest_exec_ok early (CallCheck p) w _ u1 I Hok Hc1).
  pose proof (missed_bound (timestamp early) (self w) r Hint ltac:(lia)) as (K1 & B1 & L1).
  pose proof (missed_split (timestamp early) (timestamp late) (self w) r Hint) as Hk.
  pose proof (r_last _ (s_records _ Hok p)) as Hlr. fold r in Hlr. assert (Hu : 2 * max_uint48 ≤ max_uint256) by done.
  apply check_runs; cbn [self base with_record]; rewrite ?record_insert, ?decide_True by done; cbn [lastAttestationTime checked]; try done; try lia.
  - fold r in Hl |- *. lia.
  - change (missed_at (timestamp late) (put_record _ _ _)) with (missed_at (timestamp late) (self w)).
    change ((_ - _) / _) with (missed_at (timestamp late) (self w) r) in Hfit. fold r. cbn [missedAttestations checked]. lia.
  - fold r. cbn [attestationInterval put_record set_attestations]. lia.
Qed.

(** Safety.  A suspension ends in one way only: the owner reinstates that provider, not
    before the cool-down since the suspension has passed.  While it lasts the
    provider cannot attest. *)
Theorem suspension_ends_by_owner msg c w w' u p :
  exec msg c w = Ok (w', u) → suspended (record p (self w)) = true →
  (suspended (record p (self w')) = false →
     c = CallReinstate p ∧ sender msg = owner (base w) ∧
     suspended_at p (self w) + reinstatementCooldown (self w) ≤ timestamp msg) ∧
  (∀ h, c = CallSubmit h → sender msg ≠ p).
Proof.
  intros Hc Hs. destruct c; cbn [exec] in Hc;
    unfold submitAttestation, checkMissedAttestations, challengeAttestation, reinstateProvider, setAttestationInterval,
      setMaxMissedAttestations, setReinstatementCooldown in Hc; tx_inv Hc; zbool; cbn [self];
    repeat change (record p (put_suspended_at ?q ?t ?s)) with (record p s);
    rewrite ?record_insert; repeat case_decide; subst; cbn; split; try congruence; try done.
  all: unfold record in *; cbn; congruence.
Qed.

(** Error.  A recorded miss locks a late provider out: after a check has counted a miss, the
    provider cannot attest before the next deadline (its attempts are too early),
    and meanwhile [isAttestationCurrent] reports it as current. *)
Theorem missed_check_locks_out w0 w msg p w' u :
  self w0 = init → rtc step w0 w → 0 ≤ timestamp msg ≤ max_uint48 →
  missedAttestations (record p (self w)) + missed_at (timestamp msg) (self w) (record p (self w)) ≤ max_uint 32 →
  checkMissedAttestations msg p w = Ok (w', u) → record p (self w') ≠ record p (self w) →
  suspended (record p (self w')) = false →
  ∀ t, timestamp msg ≤ t < lastAttestationTime (record p (self w')) + attestationInterval (self w') →
    (∀ h, h ≠ 0 → submitAttestation (mkMsg p t) h w' = Revert (Error AttestationTooEarly)) ∧
    isAttestationCurrent t p w' = Ok (w', true).
Proof.
  intros Hi Hs Ht Hfit Hc Hne Hsus t. pose proof (attest_history_ok w0 w Hi Hs) as Hok.
  destruct (check_Ok _ _ _ _ _ Hc) as (Hrole & Hl & Hsus0 & Hsum & _). pose proof (s_interval _ Hok) as Hint.
  pose proof (r_last _ (s_records _ Hok p)) as Hlr. assert (Hu : 2 * max_uint48 ≤ max_uint256) by done.
  rewrite check_runs in Hc by done. injection Hc as <- _.
  destruct (decide (timestamp msg ≤ lastAttestationTime (record p (self w)) + attestationInterval (self w))) as [Hw|Hw].
  { unfold after_check in Hne. by rewrite (proj2 (Z.leb_le _ _) Hw) in Hne. }
  set (r := record p (self w)) in *.
  assert (Hns : suspended (checked (timestamp msg) (self w) r) = false).
  { apply after_check_unsuspended; [fold r; lia|done]. }
  rewrite after_check_record in Hne, Hsus |- * by (fold r; done || lia).
  pose proof (missed_bound (timestamp msg) (self w) r Hint ltac:(lia)) as (K1 & B1 & L1).
  fold r. set (r1 := checked (timestamp msg) (self w) r) in *.
  assert (Hr1 : record p (self (with_record p r1 w)) = r1) by (cbn; by rewrite record_insert, decide_True).
  assert (Hl1 : lastAttestationTime r1 = lastAttestationTime r + missed_at (timestamp msg) (self w) r * attestationInterval (self w))
    by reflexivity.
  change (attestationInterval (self (with_record p r1 w))) with (attestationInterval (self w)). rewrite Hr1. intros Hr. split.
  - intros h Hh. unfold submitAttestation. cbn [sender timestamp].
    erewrite bind_run by (apply revert_if_Ok; split; [by apply Z.eqb_neq|reflexivity]). tx_run. rewrite Hr1.
    rewrite (proj2 (Z.eqb_neq _ _)) by lia. tx_run.
    change (attestationInterval (self (with_record p r1 w))) with (attestationInterval (self w)).
    erewrite bind_run by (apply add_Ok; split; [lia|reflexivity]). apply bind_revert.
    rewrite (proj2 (Z.ltb_lt _ _)) by lia. done.
  - unfold isAttestationCurrent. tx_run. rewrite Hr1.
    rewrite (proj2 (Z.eqb_neq _ _)) by lia. rewrite Hns. tx_run. change (attestationInterval (self (with_record p r1 w))) with (attestationInterval (self w)).
    rewrite (proj2 (Z.leb_le _ _)) by lia. done.
Qed.
End Calls.

(** ** Runs *)

#[export] Instance verification_call_wf_dec c : Decision (call_wf c).
Proof. destruct c; apply _. Defined.

(** The owner 1 is also the verifier; provider 10 attests at 1000 and is then
    checked 30 hours later: one missed interval. *)
Abbreviation world := (chain State ledger admin).
Definition start : world := mkChain init ∅ (mkAdmin 1 false).
Definition play : world → list (message * call) → option world := runs exec call_wf 99.
Definition first_day : list (message * call) := [(at_ 10 1000, CallSubmit 7)].
Definition attested : world := default start (play start first_day).
Definition late_check : world := commit (checkMissedAttestations (at_ 1 (1000 + 30 * hours)) 10) attested.
Definition two_missed : world := commit (checkMissedAttestations (at_ 1 (1000 + 50 * hours)) 10) attested.

Lemma attested_history : rtc step start attested.
Proof.
  apply rtc_nsteps. exists (length first_day).
  refine (runs_steps exec call_wf 99 (λ _, true) step start first_day attested _ _ _).
  - intros msg c w1 _ Hc _ _ H0 H1 _. by constructor.
  - reflexivity.
  - vm_compute. reflexivity.
Qed.

Lemma late_check_run : checkMissedAttestations (at_ 1 (1000 + 30 * hours)) 10 attested = Ok (late_check, tt).
Proof. vm_compute. reflexivity. Qed.
Lemma two_missed_run : checkMissedAttestations (at_ 1 (1000 + 50 * hours)) 10 attested = Ok (two_missed, tt).
Proof. vm_compute. reflexivity. Qed.

Example check_records_misses_witness :
  ∃ w', checkMissedAttestations (at_ 1 (1000 + 50 * hours)) 10 attested = Ok (w', tt) ∧
    record 10 (self w') = mkRecord 7 (1000 + 48 * hours) 1 2 2 false ∧ suspendedAt (self w') = ∅.
Proof.
  pose proof (check_records_misses start attested (at_ 1 (1000 + 50 * hours)) 10 eq_refl attested_history
    ltac:(vm_compute; split; discriminate)) as Hres.
  cbn zeta in Hres. rewrite two_missed_run in Hres.
  destruct Hres as (_ & _ & _ & _ & [[Hin _]|(_ & _ & Hw)]); [exfalso; vm_compute in Hin; by apply Hin|].
  exists two_missed. split; [exact two_missed_run|]. rewrite Hw. vm_compute. split; reflexivity.
Defined.

Example misses_counted_once_witness :
  checkMissedAttestations (at_ 1 (1000 + 50 * hours)) 10 late_check = Ok (two_missed, tt).
Proof.
  exact (misses_counted_once start attested (at_ 1 (1000 + 30 * hours)) (at_ 1 (1000 + 50 * hours)) 10 late_check two_missed
    tt tt eq_refl attested_history ltac:(vm_compute; split; discriminate) ltac:(vm_compute; discriminate)
    ltac:(vm_compute; discriminate) ltac:(vm_compute; discriminate) late_check_run ltac:(vm_compute; reflexivity) two_missed_run).
Defined.

Example missed_check_locks_out_witness :
  submitAttestation (mkMsg 10 (1000 + 40 * hours)) 8 late_check = Revert (Error AttestationTooEarly) ∧
  isAttestationCurrent (1000 + 40 * hours) 10 late_check = Ok (late_check, true).
Proof.
  destruct (missed_check_locks_out start attested (at_ 1 (1000 + 30 * hours)) 10 late_check tt eq_refl attested_history
    ltac:(vm_compute; split; discriminate) ltac:(vm_compute; discriminate) late_check_run
    ltac:(vm_compute; discriminate) ltac:(vm_compute; reflexivity) (1000 + 40 * hours) ltac:(vm_compute; split; [discriminate|reflexivity]))
    as [H1 H2].
  split; [apply H1; discriminate|exact H2].
Defined.

(** A challenge suspends the provider; the owner reinstates it a week later. *)
Definition challenged : world := commit (challengeAttestation (at_ 1 2000) 10 32) attested.
Definition reinstated : world := commit (exec (at_ 1 (2000 + 7 * days)) (CallReinstate 10)) challenged.
Lemma reinstate_run : exec (at_ 1 (2000 + 7 * days)) (CallReinstate 10) challenged = Ok (reinstated, tt).
Proof. vm_compute. reflexivity. Qed.

Example suspension_ends_by_owner_witness :
  suspended (record 10 (self reinstated)) = false ∧ suspended_at 10 (self challenged) + 7 * days ≤ 2000 + 7 * days.
Proof.
  split; [vm_compute; reflexivity|].
  destruct (suspension_ends_by_owner (at_ 1 (2000 + 7 * days)) (CallReinstate 10) challenged reinstated tt 10 reinstate_run
    ltac:(vm_compute; reflexivity)) as [H1 _].
  destruct (H1 ltac:(vm_compute; reflexivity)) as (_ & _ & H2). exact H2.
Defined.

(** Each call in turn; a call that reverts leaves no trace. *)
Definition attempt (w : world) (calls : list (message * call)) : world :=
  fold_left (λ w mc, commit (exec mc.1 mc.2) w) calls w.

(** A provider that attests ten seconds after each deadline is suspended after three
    days by a verifier that checks five seconds after each deadline: none of its
    attestations after the first is accepted. *)
Definition punctual : list (message * call) :=
  flat_map (λ i, [(at_ 1 (1000 + 24 * hours * i + 5), CallCheck 10); (at_ 10 (1000 + 24 * hours * i + 10), CallSubmit 8)]) [1; 2; 3].

Theorem prompt_checks_suspend :
  suspended (record 10 (self (attempt attested punctual))) = true ∧
  totalAttestations (record 10 (self (attempt attested punctual))) = 1.
Proof. vm_compute. split; reflexivity. Qed.

(** At the first deadline nothing is missed yet; at the second deadline both are
    counted. *)
Theorem second_deadline_counted_early :
  missedAttestations (record 10 (self (attempt attested [(at_ 1 (1000 + 24 * hours), CallCheck 10)]))) = 0 ∧
  missedAttestations (record 10 (self (attempt attested [(at_ 1 (1000 + 48 * hours), CallCheck 10)]))) = 2.
Proof. vm_compute. split; reflexivity. Qed.

(** A limit of [2 ^ 32] misses is compared as 0: the first miss suspends. *)
Theorem miss_limit_truncated :
  suspended (record 10 (self (attempt attested
    [(at_ 1 2000, CallSetMaxMissed (2 ^ 32)); (at_ 1 (1000 + 30 * hours), CallCheck 10)]))) = true.
Proof. vm_compute. reflexivity. Qed.
End Verification.
