(* ===== verification/BunkerPricing.v ===== *)
(** * The pricing contract (src/contracts/src/BunkerPricing.sol)

    Resource prices, multipliers and provider rates, and the cost of a request.
    The theorems: the configuration stays valid, costs are monotone and rounded up,
    provider rates stay within their bounds whatever the defaults become, and the
    oracle is used only with a fresh positive price. *)

From S2P Require Import Prelude Solidity BunkerToken Runs.
Local Open Scope Z_scope.

Module BunkerPricing.

Definition BPS_DENOMINATOR : Z := 10000.

Record ResourcePrices := mkPrices {
  cpuPerCoreHour : Z;
  memoryPerGBHour : Z;
  storagePerGBMonth : Z;
  networkPerGB : Z;
  gpuBasicPerHour : Z;
  gpuPremiumPerHour : Z
}.

Definition set_cpuPerCoreHour (v : Z) (r : ResourcePrices) : ResourcePrices :=
  mkPrices v (memoryPerGBHour r) (storagePerGBMonth r) (networkPerGB r) (gpuBasicPerHour r)
    (gpuPremiumPerHour r).
Definition set_memoryPerGBHour (v : Z) (r : ResourcePrices) : ResourcePrices :=
  mkPrices (cpuPerCoreHour r) v (storagePerGBMonth r) (networkPerGB r) (gpuBasicPerHour r)
    (gpuPremiumPerHour r).
Definition set_storagePerGBMonth (v : Z) (r : ResourcePrices) : ResourcePrices :=
  mkPrices (cpuPerCoreHour r) (memoryPerGBHour r) v (networkPerGB r) (gpuBasicPerHour r)
    (gpuPremiumPerHour r).
Definition set_networkPerGB (v : Z) (r : ResourcePrices) : ResourcePrices :=
  mkPrices (cpuPerCoreHour r) (memoryPerGBHour r) (storagePerGBMonth r) v (gpuBasicPerHour r)
    (gpuPremiumPerHour r).
Definition set_gpuBasicPerHour (v : Z) (r : ResourcePrices) : ResourcePrices :=
  mkPrices (cpuPerCoreHour r) (memoryPerGBHour r) (storagePerGBMonth r) (networkPerGB r) v
    (gpuPremiumPerHour r).
Definition set_gpuPremiumPerHour (v : Z) (r : ResourcePrices) : ResourcePrices :=
  mkPrices (cpuPerCoreHour r) (memoryPerGBHour r) (storagePerGBMonth r) (networkPerGB r)
    (gpuBasicPerHour r) v.

Record Multipliers := mkMultipliers {
  redundancy : Z;
  tor : Z;
  premiumSLA : Z;
  spot : Z
}.

Record ResourceRequest := mkRequest {
  cpuCores : Z;
  memoryGB : Z;
  storageGB : Z;
  networkGB : Z;
  durationHours : Z;
  useGPUBasic : bool;
  useGPUPremium : bool;
  useTor : bool;
  usePremiumSLA : bool;
  useSpot : bool
}.

Record ProviderPricing := mkProviderPricing {
  pp_cpu : Z;   (** cpuPerCoreHour *)
  pp_memory : Z;   (** memoryPerGBHour *)
  pp_storage : Z;   (** storagePerGBMonth *)
  pp_network : Z;   (** networkPerGB *)
  isSet : bool
}.

Record State := mkState {
  minStaleThreshold : Z;
  maxStaleThreshold : Z;
  maxMultiplierBps : Z;
  prices : ResourcePrices;
  multipliers : Multipliers;
  priceOracle : Addr;
  stalePriceThreshold : Z;
  useOracleForPricing : bool;
  providerPrices : gmap Addr ProviderPricing;
  minPriceMultiplierBps : Z;
  maxPriceMultiplierBps : Z
}.

Definition set_minStaleThreshold (v : Z) (r : State) : State :=
  mkState v (maxStaleThreshold r) (maxMultiplierBps r) (prices r) (multipliers r) (priceOracle r)
    (stalePriceThreshold r) (useOracleForPricing r) (providerPrices r) (minPriceMultiplierBps r)
    (maxPriceMultiplierBps r).
Definition set_maxStaleThreshold (v : Z) (r : State) : State :=
  mkState (minStaleThreshold r) v (maxMultiplierBps r) (prices r) (multipliers r) (priceOracle r)
    (stalePriceThreshold r) (useOracleForPricing r) (providerPrices r) (minPriceMultiplierBps r)
    (maxPriceMultiplierBps r).
Definition set_maxMultiplierBps (v : Z) (r : State) : State :=
  mkState (minStaleThreshold r) (maxStaleThreshold r) v (prices r) (multipliers r) (priceOracle r)
    (stalePriceThreshold r) (useOracleForPricing r) (providerPrices r) (minPriceMultiplierBps r)
    (maxPriceMultiplierBps r).
Definition set_prices (v : ResourcePrices) (r : State) : State :=
  mkState (minStaleThreshold r) (maxStaleThreshold r) (maxMultiplierBps r) v (multipliers r)
    (priceOracle r) (stalePriceThreshold r) (useOracleForPricing r) (providerPrices r)
    (minPriceMultiplierBps r) (maxPriceMultiplierBps r).
Definition set_multipliers (v : Multipliers) (r : State) : State :=
  mkState (minStaleThreshold r) (maxStaleThreshold r) (maxMultiplierBps r) (prices r) v
    (priceOracle r) (stalePriceThreshold r) (useOracleForPricing r) (providerPrices r)
    (minPriceMultiplierBps r) (maxPriceMultiplierBps r).
Definition set_priceOracle (v : Addr) (r : State) : State :=
  mkState (minStaleThreshold r) (maxStaleThreshold r) (maxMultiplierBps r) (prices r)
    (multipliers r) v (stalePriceThreshold r) (useOracleForPricing r) (providerPrices r)
    (minPriceMultiplierBps r) (maxPriceMultiplierBps r).
Definition set_stalePriceThreshold (v : Z) (r : State) : State :=
  mkState (minStaleThreshold r) (maxStaleThreshold r) (maxMultiplierBps r) (prices r)
    (multipliers r) (priceOracle r) v (useOracleForPricing r) (providerPrices r)
    (minPriceMultiplierBps r) (maxPriceMultiplierBps r).
Definition set_useOracleForPricing (v : bool) (r : State) : State :=
  mkState (minStaleThreshold r) (maxStaleThreshold r) (maxMultiplierBps r) (prices r)
    (multipliers r) (priceOracle r) (stalePriceThreshold r) v (providerPrices r)
    (minPriceMultiplierBps r) (maxPriceMultiplierBps r).
Definition set_providerPrices (v : gmap Addr ProviderPricing) (r : State) : State :=
  mkState (minStaleThreshold r) (maxStaleThreshold r) (maxMultiplierBps r) (prices r)
    (multipliers r) (priceOracle r) (stalePriceThreshold r) (useOracleForPricing r) v
    (minPriceMultiplierBps r) (maxPriceMultiplierBps r).
Definition set_minPriceMultiplierBps (v : Z) (r : State) : State :=
  mkState (minStaleThreshold r) (maxStaleThreshold r) (maxMultiplierBps r) (prices r)
    (multipliers r) (priceOracle r) (stalePriceThreshold r) (useOracleForPricing r)
    (providerPrices r) v (maxPriceMultiplierBps r).
Definition set_maxPriceMultiplierBps (v : Z) (r : State) : State :=
  mkState (minStaleThreshold r) (maxStaleThreshold r) (maxMultiplierBps r) (prices r)
    (multipliers r) (priceOracle r) (stalePriceThreshold r) (useOracleForPricing r)
    (providerPrices r) (minPriceMultiplierBps r) v.

(** The storage after the constructor. *)
Definition init : State :=
  mkState (5 * minutes) (24 * hours) 100000
    (mkPrices 500000000000000000 100000000000000000 50000000000000000 20000000000000000
      5000000000000000000 15000000000000000000)
    (mkMultipliers 30000 12000 15000 5000) 0 (1 * hours) false ∅ 5000 30000.

Inductive PricingErr :=
  | ZeroPrice | ZeroMultiplier | StalePriceData | NegativePrice | OracleNotSet | PriceBelowMinimum
  | PriceAboveMaximum | InvalidPriceBounds | InvalidStalePriceThreshold | MultiplierTooHigh
  | InvalidMultiplierCap | InvalidThresholdBounds | ThresholdTooLong.

(** The Chainlink feed, a contract outside the repository: its answer per address;
    [None] is a revert. *)
Record round := mkRound { roundId : Z; answer : Z; updatedAt : Z; answeredInRound : Z }.
Record feed := mkFeed { latestRoundData : Addr → option round; decimals : Addr → option Z }.

Definition no_pricing : ProviderPricing := mkProviderPricing 0 0 0 0 false.
Definition provider_price (p : Addr) (s : State) : ProviderPricing := default no_pricing (providerPrices s !! p).

Section Operations.
Context {T G : Type} `{BaseContracts G}.
Abbreviation M := (tx (chain State T G) PricingErr).

Definition _ceilDiv (a b : Z) : M Z :=
  if a =? 0 then mret 0 else a1 ← sub a 1; q ← div a1 b; add q 1.

(** [a * b * c], and [x * bps] divided by the denominator rounding up. *)
Definition mul3 (a b c : Z) : M Z := x ← mul a b; mul x c.
Definition scale (x bps : Z) : M Z := y ← mul x bps; _ceilDiv y BPS_DENOMINATOR.

Definition _calculateBaseCost (req : ResourceRequest) (p : ResourcePrices) : M Z :=
  x ← mul3 (cpuCores req) (cpuPerCoreHour p) (durationHours req);
  cpuCost ← _ceilDiv x 1000;
  x ← mul3 (memoryGB req) (memoryPerGBHour p) (durationHours req);
  memoryCost ← _ceilDiv x 1000;
  storageCost ← (if (0 <? storageGB req) && (0 <? durationHours req) then
      x ← mul3 (storageGB req) (storagePerGBMonth p) (durationHours req); _ceilDiv x 730
    else mret 0);
  networkCost ← mul (networkGB req) (networkPerGB p);
  gpuCost ← (if useGPUBasic req then mul (gpuBasicPerHour p) (durationHours req)
    else if useGPUPremium req then mul (gpuPremiumPerHour p) (durationHours req)
    else mret 0);
  total ← add cpuCost memoryCost;
  total ← add total storageCost;
  total ← add total networkCost;
  total ← add total gpuCost;
  m ← get multipliers;
  total ← scale total (redundancy m);
  total ← (if useTor req then scale total (tor m) else mret total);
  total ← (if usePremiumSLA req then scale total (premiumSLA m) else mret total);
  if useSpot req then scale total (spot m) else mret total.

Definition getTokenPrice (f : feed) (now : Z) : M (Z * Z) :=
  oracle ← get priceOracle;
  revert_if (oracle =? 0)%N OracleNotSet;;
  r ← of_option ExternalRevert (latestRoundData f oracle);
  revert_if (answer r <=? 0) NegativePrice;;
  revert_if (answeredInRound r <? roundId r) StalePriceData;;
  threshold ← get stalePriceThreshold;
  age ← sub now (updatedAt r);
  revert_if (threshold <? age) StalePriceData;;
  d ← of_option ExternalRevert (decimals f oracle);
  mret (answer r, d).

(** [10 ** d] *)
Definition pow10 (d : Z) : M Z := if 10 ^ d <=? max_uint256 then mret (10 ^ d) else fail ArithmeticPanic.

Definition _convertUsdToBunker (f : feed) (now usdCost : Z) : M Z :=
  pd ← getTokenPrice f now;
  e ← pow10 pd.2;
  x ← mul usdCost e;
  _ceilDiv x pd.1.

(** [if (useOracleForPricing) totalCost = _convertUsdToBunker(totalCost)] *)
Definition to_tokens (f : feed) (now cost : Z) : M Z :=
  use ← get useOracleForPricing;
  if (use : bool) then _convertUsdToBunker f now cost else mret cost.

Definition calculateCost (f : feed) (now : Z) (req : ResourceRequest) : M Z :=
  p ← get prices;
  total ← _calculateBaseCost req p;
  to_tokens f now total.

Definition calculateCostUSD (req : ResourceRequest) : M Z :=
  p ← get prices;
  _calculateBaseCost req p.

(** The least and the greatest price the bounds allow. *)
Definition bounded_price (bps defaultPrice : Z) : M Z :=
  x ← mul defaultPrice bps;
  div x BPS_DENOMINATOR.

Definition _clampToProviderBounds (providerPrice defaultPrice : Z) : M Z :=
  lo ← get minPriceMultiplierBps;
  minPrice ← bounded_price lo defaultPrice;
  hi ← get maxPriceMultiplierBps;
  maxPrice ← bounded_price hi defaultPrice;
  if providerPrice <? minPrice then mret minPrice
  else if maxPrice <? providerPrice then mret maxPrice
  else mret providerPrice.

Definition _validateProviderPrice (providerPrice defaultPrice : Z) : M unit :=
  revert_if (providerPrice =? 0) ZeroPrice;;
  lo ← get minPriceMultiplierBps;
  minAllowed ← bounded_price lo defaultPrice;
  hi ← get maxPriceMultiplierBps;
  maxAllowed ← bounded_price hi defaultPrice;
  revert_if (providerPrice <? minAllowed) PriceBelowMinimum;;
  revert_if (maxAllowed <? providerPrice) PriceAboveMaximum.

(** The prices a provider's requests are billed at. *)
Definition provider_prices (p : Addr) : M ResourcePrices :=
  pp ← get (provider_price p);
  d ← get prices;
  if isSet pp then
    cpu ← _clampToProviderBounds (pp_cpu pp) (cpuPerCoreHour d);
    mem ← _clampToProviderBounds (pp_memory pp) (memoryPerGBHour d);
    sto ← _clampToProviderBounds (pp_storage pp) (storagePerGBMonth d);
    net ← _clampToProviderBounds (pp_network pp) (networkPerGB d);
    mret (mkPrices cpu mem sto net (gpuBasicPerHour d) (gpuPremiumPerHour d))
  else mret d.

Definition calculateProviderCost (f : feed) (now : Z) (p : Addr) (req : ResourceRequest) : M Z :=
  q ← provider_prices p;
  total ← _calculateBaseCost req q;
  to_tokens f now total.

Definition getPrices : M ResourcePrices := get prices.
Definition getMultipliers : M Multipliers := get multipliers.
Definition getProviderPrices (p : Addr) : M ProviderPricing := get (provider_price p).

(** ** Providers *)

Definition setProviderPrices (msg : message) (pp : ProviderPricing) : M unit :=
  d ← get prices;
  _validateProviderPrice (pp_cpu pp) (cpuPerCoreHour d);;
  _validateProviderPrice (pp_memory pp) (memoryPerGBHour d);;
  _validateProviderPrice (pp_storage pp) (storagePerGBMonth d);;
  _validateProviderPrice (pp_network pp) (networkPerGB d);;
  put (λ s, set_providerPrices (<[sender msg :=
    mkProviderPricing (pp_cpu pp) (pp_memory pp) (pp_storage pp) (pp_network pp) true]> (providerPrices s)) s).

Definition clearProviderPrices (msg : message) : M unit :=
  put (λ s, set_providerPrices (delete (sender msg) (providerPrices s)) s).

(** ** Administration *)

Definition setPrices (msg : message) (p : ResourcePrices) : M unit :=
  onlyOwner msg;;
  revert_if ((cpuPerCoreHour p =? 0) || (memoryPerGBHour p =? 0) || (storagePerGBMonth p =? 0) ||
    (networkPerGB p =? 0) || (gpuBasicPerHour p =? 0) || (gpuPremiumPerHour p =? 0)) ZeroPrice;;
  put (set_prices p).

(** One price is set, the others stay. *)
Definition set_price (set : Z → ResourcePrices → ResourcePrices) (msg : message) (newPrice : Z) : M unit :=
  onlyOwner msg;;
  revert_if (newPrice =? 0) ZeroPrice;;
  put (λ s, set_prices (set newPrice (prices s)) s).
Definition setCPUPrice : message → Z → M unit := set_price set_cpuPerCoreHour.
Definition setMemoryPrice : message → Z → M unit := set_price set_memoryPerGBHour.
Definition setStoragePrice : message → Z → M unit := set_price set_storagePerGBMonth.
Definition setNetworkPrice : message → Z → M unit := set_price set_networkPerGB.

Definition setGPUPrices (msg : message) (basicPerHour premiumPerHour : Z) : M unit :=
  onlyOwner msg;;
  revert_if ((basicPerHour =? 0) || (premiumPerHour =? 0)) ZeroPrice;;
  put (λ s, set_prices (set_gpuPremiumPerHour premiumPerHour (set_gpuBasicPerHour basicPerHour (prices s))) s).

Definition setMultipliers (msg : message) (m : Multipliers) : M unit :=
  onlyOwner msg;;
  revert_if ((redundancy m =? 0) || (tor m =? 0) || (premiumSLA m =? 0) || (spot m =? 0)) ZeroMultiplier;;
  cap ← get maxMultiplierBps;
  revert_if ((cap <? redundancy m) || (cap <? tor m) || (cap <? premiumSLA m) || (cap <? spot m)) MultiplierTooHigh;;
  put (set_multipliers m).

Definition setPriceOracle (msg : message) (newOracle : Addr) : M unit :=
  onlyOwner msg;;
  put (set_priceOracle newOracle);;
  use ← get useOracleForPricing;
  when ((newOracle =? 0)%N && use) (put (set_useOracleForPricing false)).

Definition enableOraclePricing (msg : message) (enabled : bool) : M unit :=
  onlyOwner msg;;
  oracle ← get priceOracle;
  revert_if (enabled && (oracle =? 0)%N) OracleNotSet;;
  put (set_useOracleForPricing enabled).

Definition setStalePriceThreshold (msg : message) (newThreshold : Z) : M unit :=
  onlyOwner msg;;
  lo ← get minStaleThreshold;
  hi ← get maxStaleThreshold;
  revert_if ((newThreshold <? lo) || (hi <? newThreshold)) InvalidStalePriceThreshold;;
  put (set_stalePriceThreshold newThreshold).

Definition setProviderPriceBounds (msg : message) (minBps maxBps : Z) : M unit :=
  onlyOwner msg;;
  revert_if ((minBps =? 0) || (maxBps =? 0) || (maxBps <=? minBps)) InvalidPriceBounds;;
  put (λ s, set_maxPriceMultiplierBps maxBps (set_minPriceMultiplierBps minBps s)).

Definition setMaxMultiplierBps (msg : message) (newMax : Z) : M unit :=
  onlyOwner msg;;
  revert_if ((newMax <? BPS_DENOMINATOR) || (500000 <? newMax)) InvalidMultiplierCap;;
  put (set_maxMultiplierBps newMax).

Definition setStaleThresholdBounds (msg : message) (newMin newMax : Z) : M unit :=
  onlyOwner msg;;
  revert_if ((newMin =? 0) || (newMax <=? newMin)) InvalidThresholdBounds;;
  revert_if (7 * days <? newMax) ThresholdTooLong;;
  put (λ s, set_maxStaleThreshold newMax (set_minStaleThreshold newMin s));;
  t ← get stalePriceThreshold;
  when (t <? newMin) (put (set_stalePriceThreshold newMin));;
  t ← get stalePriceThreshold;
  when (newMax <? t) (put (set_stalePriceThreshold newMax)).

(** ** Calls *)

Inductive call :=
  | CallSetProvider (pp : ProviderPricing)
  | CallClearProvider
  | CallSetPrices (p : ResourcePrices)
  | CallSetCPU (n : Z)
  | CallSetMemory (n : Z)
  | CallSetStorage (n : Z)
  | CallSetNetwork (n : Z)
  | CallSetGPU (basic premium : Z)
  | CallSetMultipliers (m : Multipliers)
  | CallSetOracle (a : Addr)
  | CallEnableOracle (b : bool)
  | CallSetStale (n : Z)
  | CallSetBounds (lo hi : Z)
  | CallSetMaxMultiplier (n : Z)
  | CallSetStaleBounds (lo hi : Z).

(** The arguments at their types. *)
Definition nonneg_prices (p : ResourcePrices) : Prop :=
  0 ≤ cpuPerCoreHour p ∧ 0 ≤ memoryPerGBHour p ∧ 0 ≤ storagePerGBMonth p ∧ 0 ≤ networkPerGB p ∧
  0 ≤ gpuBasicPerHour p ∧ 0 ≤ gpuPremiumPerHour p.

Definition call_wf (c : call) : Prop :=
  match c with
  | CallSetProvider pp => 0 ≤ pp_cpu pp ∧ 0 ≤ pp_memory pp ∧ 0 ≤ pp_storage pp ∧ 0 ≤ pp_network pp
  | CallSetPrices p => nonneg_prices p
  | CallSetCPU n | CallSetMemory n | CallSetStorage n | CallSetNetwork n | CallSetStale n | CallSetMaxMultiplier n => 0 ≤ n
  | CallSetGPU a b | CallSetBounds a b | CallSetStaleBounds a b => 0 ≤ a ∧ 0 ≤ b
  | CallSetMultipliers m => 0 ≤ redundancy m ∧ 0 ≤ tor m ∧ 0 ≤ premiumSLA m ∧ 0 ≤ spot m
  | CallClearProvider | CallSetOracle _ | CallEnableOracle _ => True
  end.

Definition exec (msg : message) (c : call) : M unit :=
  match c with
  | CallSetProvider pp => setProviderPrices msg pp
  | CallClearProvider => clearProviderPrices msg
  | CallSetPrices p => setPrices msg p
  | CallSetCPU n => setCPUPrice msg n
  | CallSetMemory n => setMemoryPrice msg n
  | CallSetStorage n => setStoragePrice msg n
  | CallSetNetwork n => setNetworkPrice msg n
  | CallSetGPU a b => setGPUPrices msg a b
  | CallSetMultipliers m => setMultipliers msg m
  | CallSetOracle a => setPriceOracle msg a
  | CallEnableOracle b => enableOraclePricing msg b
  | CallSetStale n => setStalePriceThreshold msg n
  | CallSetBounds a b => setProviderPriceBounds msg a b
  | CallSetMaxMultiplier n => setMaxMultiplierBps msg n
  | CallSetStaleBounds a b => setStaleThresholdBounds msg a b
  end.

Inductive step : chain State T G → chain State T G → Prop :=
  | step_call msg c w : call_wf c → step w (commit (exec msg c) w)
  | step_base w g' : step w (mkChain (self w) (tok w) g').
End Operations.

(** ** The configuration *)

Record prices_ok (p : ResourcePrices) : Prop := {
  p_cpu : 0 < cpuPerCoreHour p; p_memory : 0 < memoryPerGBHour p; p_storage : 0 < storagePerGBMonth p;
  p_network : 0 < networkPerGB p; p_basic : 0 < gpuBasicPerHour p; p_premium : 0 < gpuPremiumPerHour p
}.

Definition multiplier_ok (n : Z) : Prop := 0 < n ≤ 500000.

Record config_ok (s : State) : Prop := {
  c_prices : prices_ok (prices s);
  c_multipliers : multiplier_ok (redundancy (multipliers s)) ∧ multiplier_ok (tor (multipliers s)) ∧
    multiplier_ok (premiumSLA (multipliers s)) ∧ multiplier_ok (spot (multipliers s));
  c_cap : BPS_DENOMINATOR ≤ maxMultiplierBps s ≤ 500000;
  c_stale : 0 < minStaleThreshold s ≤ stalePriceThreshold s ∧
    stalePriceThreshold s ≤ maxStaleThreshold s ≤ 7 * days;
  c_bounds : 0 < minPriceMultiplierBps s < maxPriceMultiplierBps s;
  c_oracle : useOracleForPricing s = true → priceOracle s ≠ 0%N;
  c_providers : ∀ p, let pp := provider_price p s in
    isSet pp = true → 0 < pp_cpu pp ∧ 0 < pp_memory pp ∧ 0 < pp_storage pp ∧ 0 < pp_network pp
}.

Lemma pricing_init_ok : config_ok init.
Proof.
  split; [split; done|by split_and!|done|by split_and!|done|done|].
  intros p. by cbn.
Qed.

Section Calls.
Context {T G : Type} `{BaseContracts G}.
Implicit Types w : chain State T G.

Lemma validate_Ok pp d w w' u : _validateProviderPrice pp d w = Ok (w', u) → w' = w ∧ pp ≠ 0.
Proof. intros Hc. unfold _validateProviderPrice, bounded_price in Hc. tx_inv Hc. by zbool. Qed.

(** The three ways a call changes the configuration. *)
Lemma pricing_exec_ok msg c w w' u :
  call_wf c → config_ok (self w) → exec msg c w = Ok (w', u) → config_ok (self w').
Proof.
  intros Hwf Hok Hc. destruct c; cbn [exec call_wf] in *;
    unfold setProviderPrices, clearProviderPrices, setPrices, setCPUPrice, setMemoryPrice, setStoragePrice, setNetworkPrice,
      set_price, setGPUPrices, setMultipliers, setPriceOracle, enableOraclePricing, setStalePriceThreshold,
      setProviderPriceBounds, setMaxMultiplierBps, setStaleThresholdBounds, nonneg_prices in *; tx_inv Hc; zbool; cbn [self];
    repeat match goal with
    | Hx : _validateProviderPrice _ _ _ = Ok _ |- _ => apply validate_Ok in Hx as [-> ?]
    | Hx : (_ =? _)%N = true |- _ => apply N.eqb_eq in Hx
    | Hx : (_ =? _)%N = false |- _ => apply N.eqb_neq in Hx
    end.
  all: destruct Hok as [[] Hm Hcap Hst Hb Ho Hp]; unfold multiplier_ok in *.
  1: { split; try done. intros p. unfold provider_price in *. cbn. rewrite lookup_insert. case_decide; [cbn; lia|apply Hp]. }
  1: { split; try done. intros p. unfold provider_price in *. cbn. rewrite lookup_delete. case_decide; [done|apply Hp]. }
  all: split; try done; try split; cbn in *; unfold multiplier_ok; try lia; try done.
  all: intros Hu; destruct_or!; try congruence; by apply N.eqb_neq.
Qed.

Lemma pricing_history_ok w w' : self w = init → rtc step w w' → config_ok (self w').
Proof.
  intros Hi Hs. assert (Hok : config_ok (self w)) by (rewrite Hi; apply pricing_init_ok).
  clear Hi. induction Hs as [|x y z Hstep _ IH]; [done|]. apply IH. destruct Hstep as [msg c x Hwf|x g']; [|done].
  apply (commit_inv _ (λ y, config_ok (self y))); [|done]. intros y' u. by apply pricing_exec_ok.
Qed.

(** Type.  In every history the prices stay positive, the multipliers lie between 1 and
    500000 basis points, the age limit of the oracle lies between its bounds and
    within 7 days, provider rates are positive, and oracle pricing is on only with
    an oracle. *)
Theorem pricing_configuration_valid w w' :
  self w = init → rtc step w w' →
  prices_ok (prices (self w')) ∧
  0 < redundancy (multipliers (self w')) ≤ 500000 ∧ 0 < spot (multipliers (self w')) ≤ 500000 ∧
  minStaleThreshold (self w') ≤ stalePriceThreshold (self w') ≤ maxStaleThreshold (self w') ∧
  maxStaleThreshold (self w') ≤ 7 * days ∧
  0 < minPriceMultiplierBps (self w') < maxPriceMultiplierBps (self w') ∧
  (useOracleForPricing (self w') = true → priceOracle (self w') ≠ 0%N).
Proof.
  intros Hi Hs. destruct (pricing_history_ok w w' Hi Hs). unfold multiplier_ok in *. split_and!; try done; lia.
Qed.

(** ** What a request costs *)

Definition ceil_div (a b : Z) : Z := if a =? 0 then 0 else (a - 1) / b + 1.
Definition scaled (x bps : Z) : Z := ceil_div (x * bps) BPS_DENOMINATOR.

Definition gpu_cost (req : ResourceRequest) (p : ResourcePrices) : Z :=
  if useGPUBasic req then gpuBasicPerHour p * durationHours req
  else if useGPUPremium req then gpuPremiumPerHour p * durationHours req else 0.

Definition resource_cost (req : ResourceRequest) (p : ResourcePrices) : Z :=
  ceil_div (cpuCores req * cpuPerCoreHour p * durationHours req) 1000 +
  ceil_div (memoryGB req * memoryPerGBHour p * durationHours req) 1000 +
  (if (0 <? storageGB req) && (0 <? durationHours req)
   then ceil_div (storageGB req * storagePerGBMonth p * durationHours req) 730 else 0) +
  networkGB req * networkPerGB p + gpu_cost req p.

Definition base_cost (m : Multipliers) (req : ResourceRequest) (p : ResourcePrices) : Z :=
  let c := scaled (resource_cost req p) (redundancy m) in
  let c := if useTor req then scaled c (tor m) else c in
  let c := if usePremiumSLA req then scaled c (premiumSLA m) else c in
  if useSpot req then scaled c (spot m) else c.

Lemma ceilDiv_Ok a b w w' r : _ceilDiv a b w = Ok (w', r) → w' = w ∧ r = ceil_div a b.
Proof. intros Hc. unfold _ceilDiv in Hc. unfold ceil_div. by tx_inv Hc. Qed.

Lemma scale_Ok x bps w w' r : scale x bps w = Ok (w', r) → w' = w ∧ r = scaled x bps.
Proof. intros Hc. unfold scale in Hc. tx_inv Hc. by apply ceilDiv_Ok in Hc. Qed.

Ltac cost_inv :=
  repeat match goal with
  | Hx : _ceilDiv _ _ _ = Ok _ |- _ => apply ceilDiv_Ok in Hx as [? ?]; subst
  | Hx : scale _ _ _ = Ok _ |- _ => apply scale_Ok in Hx as [? ?]; subst
  end.

Lemma baseCost_Ok req p w w' c :
  _calculateBaseCost req p w = Ok (w', c) → w' = w ∧ c = base_cost (multipliers (self w)) req p.
Proof.
  intros Hc. unfold _calculateBaseCost, mul3 in Hc. tx_inv Hc; cost_inv;
    unfold base_cost, resource_cost, gpu_cost;
    repeat match goal with Hx : ?b = true |- context [?b] => rewrite Hx | Hx : ?b = false |- context [?b] => rewrite Hx end;
    split; done.
Qed.

(** Rounding up. *)
Lemma ceil_div_spec a b : 0 ≤ a → 0 < b → 0 ≤ ceil_div a b ∧ a ≤ b * ceil_div a b < a + b.
Proof.
  intros Ha Hb. unfold ceil_div. destruct (Z.eqb_spec a 0); [lia|].
  pose proof (Z.mul_div_le (a - 1) b Hb). pose proof (Z.mul_succ_div_gt (a - 1) b Hb).
  pose proof (Z.div_pos (a - 1) b ltac:(lia) Hb). nia.
Qed.

Lemma ceil_div_mono a a' b : 0 ≤ a ≤ a' → 0 < b → ceil_div a b ≤ ceil_div a' b.
Proof.
  intros Ha Hb. pose proof (ceil_div_spec a b ltac:(lia) Hb). pose proof (ceil_div_spec a' b ltac:(lia) Hb). nia.
Qed.

Lemma scaled_spec x bps : 0 ≤ x → 0 ≤ bps → 0 ≤ scaled x bps ∧ x * bps ≤ 10000 * scaled x bps < x * bps + 10000.
Proof. intros Hx Hb. apply ceil_div_spec; [nia|done]. Qed.

Lemma scaled_mono x x' bps : 0 ≤ x ≤ x' → 0 ≤ bps → scaled x bps ≤ scaled x' bps.
Proof. intros Hx Hb. apply ceil_div_mono; [nia|done]. Qed.

Definition request_wf (r : ResourceRequest) : Prop :=
  0 ≤ cpuCores r ∧ 0 ≤ memoryGB r ∧ 0 ≤ storageGB r ∧ 0 ≤ networkGB r ∧ 0 ≤ durationHours r.

Definition request_le (r r' : ResourceRequest) : Prop :=
  cpuCores r ≤ cpuCores r' ∧ memoryGB r ≤ memoryGB r' ∧ storageGB r ≤ storageGB r' ∧ networkGB r ≤ networkGB r' ∧
  durationHours r ≤ durationHours r' ∧ useGPUBasic r = useGPUBasic r' ∧ useGPUPremium r = useGPUPremium r' ∧
  useTor r = useTor r' ∧ usePremiumSLA r = usePremiumSLA r' ∧ useSpot r = useSpot r'.

Definition prices_le (p p' : ResourcePrices) : Prop :=
  cpuPerCoreHour p ≤ cpuPerCoreHour p' ∧ memoryPerGBHour p ≤ memoryPerGBHour p' ∧
  storagePerGBMonth p ≤ storagePerGBMonth p' ∧ networkPerGB p ≤ networkPerGB p' ∧
  gpuBasicPerHour p ≤ gpuBasicPerHour p' ∧ gpuPremiumPerHour p ≤ gpuPremiumPerHour p'.

Lemma mul3_mono a b c a' b' c' : 0 ≤ a ≤ a' → 0 ≤ b ≤ b' → 0 ≤ c ≤ c' → 0 ≤ a * b * c ≤ a' * b' * c'.
Proof. intros Ha Hb Hc. assert (0 ≤ a * b ≤ a' * b') by nia. nia. Qed.

Lemma billed_mono a b c a' b' c' k :
  0 ≤ a ≤ a' → 0 ≤ b ≤ b' → 0 ≤ c ≤ c' → 0 < k → 0 ≤ ceil_div (a * b * c) k ≤ ceil_div (a' * b' * c') k.
Proof.
  intros Ha Hb Hc Hk. pose proof (mul3_mono a b c a' b' c' Ha Hb Hc).
  split; [apply ceil_div_spec; lia|apply ceil_div_mono; lia].
Qed.

(** Nothing stored or no time costs nothing, so that the guard on storage does not
    matter. *)
Lemma storage_guard r p :
  request_wf r →
  (if (0 <? storageGB r) && (0 <? durationHours r)
   then ceil_div (storageGB r * storagePerGBMonth p * durationHours r) 730 else 0) =
  ceil_div (storageGB r * storagePerGBMonth p * durationHours r) 730.
Proof.
  intros Hr. unfold request_wf in Hr. destruct (Z.ltb_spec 0 (storageGB r)), (Z.ltb_spec 0 (durationHours r)); cbn; try done.
  - assert (durationHours r = 0) as -> by lia. by rewrite Z.mul_0_r.
  - assert (storageGB r = 0) as -> by lia. by rewrite !Z.mul_0_l.
  - assert (storageGB r = 0) as -> by lia. by rewrite !Z.mul_0_l.
Qed.

Lemma resource_cost_mono r r' p p' :
  request_wf r → request_le r r' → nonneg_prices p → prices_le p p' → 0 ≤ resource_cost r p ≤ resource_cost r' p'.
Proof.
  intros Hr Hle Hp Hple. unfold resource_cost. rewrite !storage_guard by (unfold request_wf, request_le in *; lia).
  unfold request_wf, request_le, nonneg_prices, prices_le in *.
  destruct Hle as (L1 & L2 & L3 & L4 & L5 & F1 & F2 & _). unfold gpu_cost. rewrite <-F1, <-F2.
  pose proof (billed_mono (cpuCores r) (cpuPerCoreHour p) (durationHours r) (cpuCores r') (cpuPerCoreHour p') (durationHours r') 1000).
  pose proof (billed_mono (memoryGB r) (memoryPerGBHour p) (durationHours r) (memoryGB r') (memoryPerGBHour p') (durationHours r') 1000).
  pose proof (billed_mono (storageGB r) (storagePerGBMonth p) (durationHours r) (storageGB r') (storagePerGBMonth p') (durationHours r') 730).
  pose proof (mul3_mono 1 (networkGB r) (networkPerGB p) 1 (networkGB r') (networkPerGB p')).
  pose proof (mul3_mono 1 (gpuBasicPerHour p) (durationHours r) 1 (gpuBasicPerHour p') (durationHours r')).
  pose proof (mul3_mono 1 (gpuPremiumPerHour p) (durationHours r) 1 (gpuPremiumPerHour p') (durationHours r')).
  rewrite !Z.mul_1_l in *. destruct (useGPUBasic r), (useGPUPremium r); lia.
Qed.

Definition multipliers_ok (m : Multipliers) : Prop :=
  multiplier_ok (redundancy m) ∧ multiplier_ok (tor m) ∧ multiplier_ok (premiumSLA m) ∧ multiplier_ok (spot m).

Lemma scaled_if_mono (b : bool) x x' bps :
  0 ≤ x ≤ x' → 0 < bps → 0 ≤ (if b then scaled x bps else x) ≤ (if b then scaled x' bps else x').
Proof.
  intros Hx Hb. destruct b; [|done]. pose proof (scaled_spec x bps ltac:(lia) ltac:(lia)).
  pose proof (scaled_mono x x' bps Hx ltac:(lia)). lia.
Qed.

Lemma base_cost_mono m r r' p p' :
  multipliers_ok m → request_wf r → request_le r r' → nonneg_prices p → prices_le p p' →
  0 ≤ base_cost m r p ≤ base_cost m r' p'.
Proof.
  intros (M1 & M2 & M3 & M4) Hr Hle Hp Hple. unfold multiplier_ok in *.
  pose proof (resource_cost_mono r r' p p' Hr Hle Hp Hple) as Hc.
  destruct Hle as (_ & _ & _ & _ & _ & _ & _ & F3 & F4 & F5). unfold base_cost. rewrite <-F3, <-F4, <-F5.
  repeat apply scaled_if_mono; try lia.
  apply (scaled_if_mono true); lia.
Qed.

(** Functional.  A larger request never costs less: with the same options, more of any
    resource or more hours never lowers the cost. *)
Theorem cost_monotone w0 w r r' c c' w1 w2 :
  self w0 = init → rtc step w0 w → request_wf r → request_le r r' →
  calculateCostUSD r w = Ok (w1, c) → calculateCostUSD r' w = Ok (w2, c') → 0 ≤ c ≤ c'.
Proof.
  intros Hi Hs Hr Hle Hc Hc'. destruct (pricing_history_ok w0 w Hi Hs) as [[] Hm _ _ _ _ _].
  unfold calculateCostUSD in *. tx_inv Hc. tx_inv Hc'.
  apply baseCost_Ok in Hc as [_ ->], Hc' as [_ ->]. apply base_cost_mono; try done.
  unfold nonneg_prices. lia.
Qed.

(** The factor of an option, in basis points. *)
Definition option_factor (b : bool) (bps : Z) : Z := if b then bps else BPS_DENOMINATOR.

Lemma option_step (b : bool) x bps :
  0 ≤ x → 0 < bps →
  let y := if b then scaled x bps else x in let f := option_factor b bps in
  0 ≤ y ∧ 0 < f ∧ x * f ≤ 10000 * y ≤ x * f + 10000 * Z.b2z b.
Proof.
  intros Hx Hb. unfold option_factor, BPS_DENOMINATOR. destruct b; cbn [Z.b2z]; [|lia].
  pose proof (scaled_spec x bps Hx ltac:(lia)). lia.
Qed.

(** Rounding one step after another. *)
Lemma round_chain a x y z f e d :
  0 < f → 0 ≤ d → a ≤ d * x < a + e → x * f ≤ 10000 * y ≤ x * f + z →
  a * f ≤ (10000 * d) * y < a * f + (e * f + d * z).
Proof. intros. nia. Qed.

Lemma resource_cost_exact r p :
  request_wf r → nonneg_prices p →
  let exact := 730 * (cpuCores r * cpuPerCoreHour p * durationHours r + memoryGB r * memoryPerGBHour p * durationHours r) +
    1000 * (storageGB r * storagePerGBMonth p * durationHours r) +
    730000 * (networkGB r * networkPerGB p + gpu_cost r p) in
  exact ≤ 730000 * resource_cost r p < exact + 730000 * 3.
Proof.
  intros Hr Hp exact. unfold resource_cost. rewrite storage_guard by done. unfold request_wf, nonneg_prices in *.
  pose proof (ceil_div_spec (cpuCores r * cpuPerCoreHour p * durationHours r) 1000).
  pose proof (ceil_div_spec (memoryGB r * memoryPerGBHour p * durationHours r) 1000).
  pose proof (ceil_div_spec (storageGB r * storagePerGBMonth p * durationHours r) 730).
  assert (0 ≤ cpuCores r * cpuPerCoreHour p * durationHours r) by nia.
  assert (0 ≤ memoryGB r * memoryPerGBHour p * durationHours r) by nia.
  assert (0 ≤ storageGB r * storagePerGBMonth p * durationHours r) by nia.
  subst exact. lia.
Qed.

(** C23: bounds.  Costs are rounded up, by little, whatever options are set.  The
    cost is at least the exact price of the resources times the factors for
    redundancy, Tor, premium SLA and spot (those that are set), and exceeds it by
    less than three units times these factors (the roundings of the processor,
    the memory and the storage) plus one unit for each factor, times the factors
    after it.  (The exact price is over 730000, for the milli-units and the hours
    of a month, and each factor over 10000.) *)
Theorem cost_rounds_up w0 w r c w1 :
  self w0 = init → rtc step w0 w → request_wf r →
  calculateCostUSD r w = Ok (w1, c) →
  let p := prices (self w) in let mu := multipliers (self w) in
  let fR := redundancy mu in
  let fT := option_factor (useTor r) (tor mu) in
  let fP := option_factor (usePremiumSLA r) (premiumSLA mu) in
  let fS := option_factor (useSpot r) (spot mu) in
  let exact := 730 * (cpuCores r * cpuPerCoreHour p * durationHours r + memoryGB r * memoryPerGBHour p * durationHours r) +
    1000 * (storageGB r * storagePerGBMonth p * durationHours r) +
    730000 * (networkGB r * networkPerGB p + gpu_cost r p) in
  let slack := (((3 * fR + 10000) * fT + 10000 ^ 2 * Z.b2z (useTor r)) * fP +
    10000 ^ 3 * Z.b2z (usePremiumSLA r)) * fS + 10000 ^ 4 * Z.b2z (useSpot r) in
  exact * (fR * fT * fP * fS) ≤ c * (730000 * 10000 ^ 4) < exact * (fR * fT * fP * fS) + 730000 * slack.
Proof.
  intros Hi Hs Hr Hc p mu fR fT fP fS exact slack.
  destruct (pricing_history_ok w0 w Hi Hs) as [[] (M1 & M2 & M3 & M4) _ _ _ _ _]. unfold multiplier_ok in *.
  unfold calculateCostUSD in Hc. tx_inv Hc. apply baseCost_Ok in Hc as [_ ->]. unfold base_cost. fold p mu. fold mu in M1, M2, M3, M4.
  assert (Hp : nonneg_prices p) by (unfold nonneg_prices; subst p; lia).
  pose proof (resource_cost_exact r p Hr Hp) as H0. cbn zeta in H0. fold exact in H0.
  assert (Hrc : 0 ≤ resource_cost r p).
  { apply (resource_cost_mono r r p p); try done; unfold request_le, prices_le; split_and!; done || lia. }
  set (c0 := resource_cost r p) in *.
  pose proof (option_step true c0 (redundancy mu) Hrc ltac:(lia)) as (P1 & _ & S1). cbn [option_factor Z.b2z] in S1.
  set (c1 := scaled c0 (redundancy mu)) in *.
  pose proof (option_step (useTor r) c1 (tor mu) P1 ltac:(lia)) as (P2 & F2 & S2).
  set (c2 := if useTor r then scaled c1 (tor mu) else c1) in *.
  pose proof (option_step (usePremiumSLA r) c2 (premiumSLA mu) P2 ltac:(lia)) as (P3 & F3 & S3).
  set (c3 := if usePremiumSLA r then scaled c2 (premiumSLA mu) else c2) in *.
  pose proof (option_step (useSpot r) c3 (spot mu) P3 ltac:(lia)) as (_ & F4 & S4).
  fold fR in S1. fold fT in F2, S2. fold fP in F3, S3. fold fS in F4, S4.
  assert (F1 : 0 < fR) by apply M1.
  pose proof (round_chain _ _ _ _ _ _ (730000) F1 ltac:(lia) H0 S1) as H1.
  pose proof (round_chain _ _ _ _ _ _ (10000 * (730000)) F2 ltac:(lia) H1 S2) as H2.
  pose proof (round_chain _ _ _ _ _ _ (10000 * (10000 * (730000))) F3 ltac:(lia) H2 S3) as H3.
  pose proof (round_chain _ _ _ _ _ _ (10000 * (10000 * (10000 * (730000)))) F4 ltac:(lia) H3 S4) as H4.
  subst slack. revert H4. generalize (if useSpot r then scaled c3 (spot mu) else c3). intros c4 H4.
  rewrite !Z.mul_assoc in *. lia.
Qed.

(** ** Provider rates *)

Definition bounded (bps d : Z) : Z := d * bps / BPS_DENOMINATOR.
Definition bounded_prices (bps : Z) (d : ResourcePrices) : ResourcePrices :=
  mkPrices (bounded bps (cpuPerCoreHour d)) (bounded bps (memoryPerGBHour d)) (bounded bps (storagePerGBMonth d))
    (bounded bps (networkPerGB d)) (gpuBasicPerHour d) (gpuPremiumPerHour d).

Lemma bounded_mono lo hi d : 0 ≤ lo ≤ hi → 0 ≤ d → 0 ≤ bounded lo d ≤ bounded hi d.
Proof.
  intros Hb Hd. unfold bounded. split; [apply Z.div_pos; [nia|done]|]. apply Z.div_le_mono; [done|nia].
Qed.

Lemma clamp_Ok x d w w' r :
  0 ≤ minPriceMultiplierBps (self w) ≤ maxPriceMultiplierBps (self w) → 0 ≤ d →
  _clampToProviderBounds x d w = Ok (w', r) →
  w' = w ∧ bounded (minPriceMultiplierBps (self w)) d ≤ r ≤ bounded (maxPriceMultiplierBps (self w)) d.
Proof.
  intros Hb Hd Hc. pose proof (bounded_mono _ _ d Hb Hd). unfold _clampToProviderBounds, bounded_price in Hc. unfold bounded in *.
  tx_inv Hc; zbool; split; try done; lia.
Qed.

(** Bounds.  What a provider with its own rates charges stays within the bounds relative to
    the current default prices, whatever they were when the rates were set: between
    the cost at the minimum and the cost at the maximum multiple. *)
Theorem provider_cost_bounded w0 w f now p r c w1 :
  self w0 = init → rtc step w0 w → request_wf r →
  isSet (provider_price p (self w)) = true → useOracleForPricing (self w) = false →
  calculateProviderCost f now p r w = Ok (w1, c) →
  base_cost (multipliers (self w)) r (bounded_prices (minPriceMultiplierBps (self w)) (prices (self w))) ≤ c ≤
  base_cost (multipliers (self w)) r (bounded_prices (maxPriceMultiplierBps (self w)) (prices (self w))).
Proof.
  intros Hi Hs Hr Hset Huse Hc. destruct (pricing_history_ok w0 w Hi Hs) as [[] Hm _ _ Hb _ _].
  unfold calculateProviderCost, provider_prices, to_tokens in Hc. tx_inv Hc; try congruence.
  all: repeat match goal with Hx : _clampToProviderBounds _ _ _ = Ok _ |- _ =>
    apply clamp_Ok in Hx as [-> ?]; [|lia|lia] end.
  all: match goal with Hx : _calculateBaseCost _ _ _ = Ok _ |- _ => apply baseCost_Ok in Hx as [-> ->] end; try congruence.
  assert (Hlo : ∀ d, 0 < d → 0 ≤ bounded (minPriceMultiplierBps (self w)) d) 
    by (intros d Hd; apply (bounded_mono _ (maxPriceMultiplierBps (self w)) d); lia).
  assert (Hrr : request_le r r) by (unfold request_le; split_and!; done).
  split; apply base_cost_mono; try done; unfold nonneg_prices, prices_le; cbn.
  all: pose proof (Hlo _ p_cpu0); pose proof (Hlo _ p_memory0); pose proof (Hlo _ p_storage0); pose proof (Hlo _ p_network0); lia.
Qed.

(** Safety.  With oracle pricing on, a cost is returned only from a usable price: positive,
    answered in its own round, and not older than the threshold, which never exceeds
    7 days; the cost is then the price in dollars divided by it, rounded up. *)
Theorem oracle_price_usable w0 w f now r c w1 :
  self w0 = init → rtc step w0 w → request_wf r → useOracleForPricing (self w) = true →
  calculateCost f now r w = Ok (w1, c) →
  ∃ rd d, latestRoundData f (priceOracle (self w)) = Some rd ∧ decimals f (priceOracle (self w)) = Some d ∧
    0 < answer rd ∧ roundId rd ≤ answeredInRound rd ∧ updatedAt rd ≤ now ≤ updatedAt rd + 7 * days ∧
    c = ceil_div (base_cost (multipliers (self w)) r (prices (self w)) * 10 ^ d) (answer rd).
Proof.
  intros Hi Hs Hr Huse Hc. destruct (pricing_history_ok w0 w Hi Hs) as [_ _ _ Hst _ _ _].
  unfold calculateCost, to_tokens, _convertUsdToBunker, getTokenPrice, pow10 in Hc. tx_inv Hc;
    match goal with Hx : _calculateBaseCost _ _ _ = Ok _ |- _ => apply baseCost_Ok in Hx as [-> ->] end; try congruence.
  cost_inv. zbool. do 2 eexists. split_and!; try eassumption; try lia.
Qed.

(** ** Costs can be computed *)

Lemma ceilDiv_runs a b w :
  0 ≤ a ≤ max_uint256 → 2 ≤ b → _ceilDiv a b w = Ok (w, ceil_div a b).
Proof.
  intros Ha Hb. unfold _ceilDiv, ceil_div. destruct (Z.eqb_spec a 0); [done|]. tx_run.
  erewrite bind_run by (apply div_Ok; split; [lia|reflexivity]). apply add_Ok. split; [|done].
  pose proof (Z.div_le_upper_bound (a - 1) b (a - 1) ltac:(lia) ltac:(nia)). lia.
Qed.

Lemma mul3_runs a b c w :
  0 ≤ a ≤ 2 ^ 40 → 0 ≤ b ≤ 2 ^ 100 → 0 ≤ c ≤ 2 ^ 40 →
  mul3 a b c w = Ok (w, a * b * c) ∧ 0 ≤ a * b * c ≤ 2 ^ 180.
Proof.
  intros Ha Hb Hc. assert (Hab : 0 ≤ a * b ≤ 2 ^ 140) by nia. assert (Habc : 0 ≤ a * b * c ≤ 2 ^ 180) by nia.
  split; [|done]. unfold mul3. erewrite bind_run by (apply mul_Ok; split; [unfold max_uint256, max_uint; lia|reflexivity]).
  apply mul_Ok. split; [unfold max_uint256, max_uint; lia|done].
Qed.

Lemma ceil_div_le a b : 0 ≤ a → 2 ≤ b → 0 ≤ ceil_div a b ≤ a.
Proof.
  intros Ha Hb. pose proof (ceil_div_spec a b Ha ltac:(lia)). split; [lia|]. unfold ceil_div in *.
  destruct (Z.eqb_spec a 0); [lia|]. pose proof (Z.div_le_upper_bound (a - 1) b (a - 1) ltac:(lia) ltac:(nia)). lia.
Qed.

Lemma scale_runs x bps w :
  0 ≤ x ≤ 2 ^ 220 → multiplier_ok bps → scale x bps w = Ok (w, scaled x bps) ∧ 0 ≤ scaled x bps ≤ 64 * x.
Proof.
  intros Hx Hb. unfold multiplier_ok in Hb. pose proof (scaled_spec x bps ltac:(lia) ltac:(lia)).
  split; [|nia]. unfold scale. assert (0 ≤ x * bps ≤ 2 ^ 239) by nia.
  erewrite bind_run by (apply mul_Ok; split; [unfold max_uint256, max_uint; lia|reflexivity]).
  apply ceilDiv_runs; [unfold max_uint256, max_uint; lia|done].
Qed.

Definition small (n x : Z) : Prop := 0 ≤ x ≤ 2 ^ n.

(** [m] computes a small number and changes nothing. *)
Definition computes (n : Z) (m : tx (chain State T G) PricingErr Z) w : Prop := ∃ v, m w = Ok (w, v) ∧ small n v.

Lemma computes_bind {A} n m (k : Z → tx (chain State T G) PricingErr A) w :
  computes n m w → (∀ v, small n v → succeeds (k v w)) → succeeds ((m ≫= k) w).
Proof. intros (v & Hm & Hv) Hk. eapply succeeds_bind; [exact Hm|]. by apply Hk. Qed.

Lemma computes_mul3 a b c w : small 40 a → small 100 b → small 40 c → computes 180 (mul3 a b c) w.
Proof. intros Ha Hb Hc. destruct (mul3_runs a b c w Ha Hb Hc). by eexists. Qed.

Lemma computes_ceilDiv a b w : small 180 a → 2 ≤ b → computes 180 (_ceilDiv a b) w.
Proof.
  intros Ha Hb. pose proof (ceil_div_le a b (proj1 Ha) Hb). unfold computes, small in *. eexists.
  split; [apply ceilDiv_runs; [unfold max_uint256, max_uint; lia|done]|lia].
Qed.

Lemma computes_mul a b w : small 100 a → small 40 b → computes 180 (mul a b) w ∧ computes 180 (mul b a) w.
Proof.
  intros Ha Hb. unfold computes, small in *. assert (0 ≤ a * b ≤ 2 ^ 140) by nia.
  split; eexists; (split; [apply mul_Ok; split; [unfold max_uint256, max_uint; nia|reflexivity]|nia]).
Qed.

Lemma computes_add n a b w : 180 ≤ n ≤ 200 → small n a → small 180 b → computes (n + 1) (add a b) w.
Proof.
  intros Hn Ha Hb. unfold computes, small in *. assert (2 ^ (n + 1) = 2 * 2 ^ n) by (rewrite Z.pow_add_r, Z.mul_comm by lia; done).
  assert (2 ^ 180 ≤ 2 ^ n) by (apply Z.pow_le_mono_r; lia). assert (2 ^ n ≤ 2 ^ 200) by (apply Z.pow_le_mono_r; lia).
  eexists. split; [apply add_Ok; split; [unfold max_uint256, max_uint; lia|reflexivity]|lia].
Qed.

Lemma computes_scale n (b : bool) x bps w :
  0 ≤ n ≤ 220 → small n x → multiplier_ok bps → computes (n + 6) (if b then scale x bps else mret x) w.
Proof.
  intros Hn Hx Hb. assert (Hp : 2 ^ (n + 6) = 64 * 2 ^ n) by (rewrite Z.pow_add_r, Z.mul_comm by lia; done).
  assert (2 ^ n ≤ 2 ^ 220) by (apply Z.pow_le_mono_r; lia). unfold computes, small in *.
  destruct (scale_runs x bps w ltac:(lia) Hb) as [Hs Hle]. destruct b; eexists; (split; [done|lia]).
Qed.

(** Liveness.  Realistic requests can always be priced: with quantities up to 2^40 and prices up
    to 2^100 no intermediate product overflows, whatever valid multipliers are set. *)
Theorem cost_computed w0 w r :
  self w0 = init → rtc step w0 w →
  small 40 (cpuCores r) → small 40 (memoryGB r) → small 40 (storageGB r) → small 40 (networkGB r) →
  small 40 (durationHours r) →
  (let p := prices (self w) in cpuPerCoreHour p ≤ 2 ^ 100 ∧ memoryPerGBHour p ≤ 2 ^ 100 ∧ storagePerGBMonth p ≤ 2 ^ 100 ∧
    networkPerGB p ≤ 2 ^ 100 ∧ gpuBasicPerHour p ≤ 2 ^ 100 ∧ gpuPremiumPerHour p ≤ 2 ^ 100) →
  calculateCostUSD r w = Ok (w, base_cost (multipliers (self w)) r (prices (self w))).
Proof.
  intros Hi Hs R1 R2 R3 R4 R5 Hp. destruct (pricing_history_ok w0 w Hi Hs) as [[] (M1 & M2 & M3 & M4) _ _ _ _ _].
  set (p := prices (self w)) in *. cbn beta zeta in Hp.
  assert (Hok : succeeds (_calculateBaseCost r p w)).
  { unfold _calculateBaseCost.
    do 2 (eapply computes_bind; [apply computes_mul3; unfold small in *; lia|]; intros;
      eapply computes_bind; [by apply computes_ceilDiv|]; intros).
    apply (computes_bind 180).
    { destruct (_ && _); [|by eexists]. destruct (computes_mul3 (storageGB r) (storagePerGBMonth p) (durationHours r) w) as (x & Hx & Hsm);
        [done|unfold small; lia|done|]. unfold computes. rewrite (bind_run _ _ _ _ _ Hx). by apply computes_ceilDiv. }
    intros. apply (computes_bind 180); [exact (proj2 (computes_mul (networkPerGB p) _ w ltac:(unfold small; lia) R4))|]. intros.
    apply (computes_bind 180).
    { destruct (useGPUBasic r); [exact (proj1 (computes_mul (gpuBasicPerHour p) _ w ltac:(unfold small; lia) R5))|].
      destruct (useGPUPremium r); [exact (proj1 (computes_mul (gpuPremiumPerHour p) _ w ltac:(unfold small; lia) R5))|by eexists]. }
    intros. apply (computes_bind (180 + 1)); [by apply computes_add|]. intros.
    apply (computes_bind (181 + 1)); [by apply computes_add|]. intros.
    apply (computes_bind (182 + 1)); [by apply computes_add|]. intros.
    apply (computes_bind (183 + 1)); [by apply computes_add|]. intros. tx_ok.
    apply (computes_bind (184 + 6)); [by apply (computes_scale 184 true)|]. intros.
    apply (computes_bind (190 + 6)); [by apply computes_scale|]. intros.
    apply (computes_bind (196 + 6)); [by apply computes_scale|]. intros last Hlast.
    destruct (computes_scale 202 (useSpot r) last (spot (multipliers (self w))) w ltac:(lia) Hlast M4) as (c & Hc & _).
    by rewrite Hc. }
  unfold calculateCostUSD. tx_run. apply succeeds_Ok in Hok as [[w' c] Hok].
  fold p. rewrite Hok. by apply baseCost_Ok in Hok as [-> ->].
Qed.
End Calls.

(** ** Runs *)

#[export] Instance pricing_call_wf_dec c : Decision (call_wf c).
Proof. destruct c; unfold call_wf, nonneg_prices; apply _. Defined.

(** Provider 10 doubles its CPU rate; then the owner 1 lowers the default CPU price to
    a tenth, and names the oracle 7. *)
Abbreviation world := (chain State ledger admin).
Definition start : world := mkChain init ∅ (mkAdmin 1 false).
Definition play : world → list (message * call) → option world := runs exec call_wf 99.
Definition season : list (message * call) := [
  (at_ 10 100, CallSetProvider (mkProviderPricing (10 ^ 18) (10 ^ 17) (5 * 10 ^ 16) (2 * 10 ^ 16) true));
  (at_ 1 200, CallSetCPU (5 * 10 ^ 16));
  (at_ 1 300, CallSetOracle 7)].
Definition changed : world := default start (play start season).
Definition with_oracle : world := default start (play start (season ++ [(at_ 1 400, CallEnableOracle true)])).

Lemma pricing_history calls w : play start calls = Some w → rtc step start w.
Proof.
  intros Hp. apply rtc_nsteps. exists (length calls).
  refine (runs_steps exec call_wf 99 (λ _, true) step start calls w _ _ Hp).
  - intros msg c w1 _ Hc _ _ _ _ _. by constructor.
  - by apply forallb_forall.
Qed.

Lemma changed_history : rtc step start changed.
Proof. apply (pricing_history season). vm_compute. reflexivity. Qed.
Lemma oracle_history : rtc step start with_oracle.
Proof. apply (pricing_history (season ++ [(at_ 1 400, CallEnableOracle true)])). vm_compute. reflexivity. Qed.

(** Two cores and 4 GB for a day, and the same for two days. *)
Definition one_day : ResourceRequest := mkRequest 2000 4000 10 1 24 false false false false false.
Definition two_days : ResourceRequest := mkRequest 2000 4000 10 1 48 false false false false false.

(** A feed at address 7: the token costs one dollar, with 8 decimals. *)
Definition dollar : feed :=
  mkFeed (λ a, if (a =? 7)%N then Some (mkRound 5 (10 ^ 8) 1000 5) else None) (λ _, Some 8).

Example pricing_configuration_valid_witness :
  cpuPerCoreHour (prices (self changed)) = 5 * 10 ^ 16 ∧ prices_ok (prices (self changed)).
Proof.
  split; [vm_compute; reflexivity|]. exact (proj1 (pricing_configuration_valid start changed eq_refl changed_history)).
Defined.

Definition cost_of (r : ResourceRequest) (w : world) : Z := base_cost (multipliers (self w)) r (prices (self w)).
Lemma one_day_runs : calculateCostUSD one_day changed = Ok (changed, cost_of one_day changed).
Proof. vm_compute. reflexivity. Qed.
Lemma two_days_runs : calculateCostUSD two_days changed = Ok (changed, cost_of two_days changed).
Proof. vm_compute. reflexivity. Qed.

Example cost_monotone_witness :
  0 < cost_of one_day changed ∧ cost_of one_day changed ≤ cost_of two_days changed.
Proof.
  split; [vm_compute; reflexivity|].
  exact (proj2 (cost_monotone start changed one_day two_days _ _ changed changed eq_refl changed_history
    ltac:(unfold request_wf; cbn; lia) ltac:(unfold request_le; cbn; split_and!; done || lia) one_day_runs two_days_runs)).
Defined.

(** The same day over Tor, with the premium SLA, on spot. *)
Definition all_options : ResourceRequest := mkRequest 2000 4000 10 1 24 false false true true true.
Lemma all_options_runs : calculateCostUSD all_options changed = Ok (changed, cost_of all_options changed).
Proof. vm_compute. reflexivity. Qed.

Example cost_rounds_up_witness :
  let exact := 730 * (2000 * (5 * 10 ^ 16) * 24 + 4000 * 10 ^ 17 * 24) + 1000 * (10 * (5 * 10 ^ 16) * 24) + 730000 * (2 * 10 ^ 16) in
  let mu := multipliers (self changed) in
  exact * (30000 * tor mu * premiumSLA mu * spot mu) ≤ cost_of all_options changed * (730000 * 10000 ^ 4).
Proof.
  pose proof (proj1 (cost_rounds_up start changed all_options _ changed eq_refl changed_history
    ltac:(unfold request_wf; cbn; lia) all_options_runs)) as Hle.
  vm_compute in Hle. vm_compute. exact Hle.
Defined.

Lemma provider_runs :
  calculateProviderCost dollar 400 10 one_day changed =
  Ok (changed, cost_of one_day changed + (10 ^ 17 * 3 - 10 ^ 17) * 24 * 3).
Proof. vm_compute. reflexivity. Qed.

Example provider_cost_bounded_witness :
  cost_of one_day changed + (10 ^ 17 * 3 - 10 ^ 17) * 24 * 3 ≤
  base_cost (multipliers (self changed)) one_day (bounded_prices 30000 (prices (self changed))).
Proof.
  exact (proj2 (provider_cost_bounded start changed dollar 400 10 one_day _ changed eq_refl changed_history
    ltac:(unfold request_wf; cbn; lia) ltac:(vm_compute; reflexivity) ltac:(vm_compute; reflexivity) provider_runs)).
Defined.

Example cost_computed_witness : calculateCostUSD one_day changed = Ok (changed, cost_of one_day changed).
Proof.
  exact (cost_computed start changed one_day eq_refl changed_history
    ltac:(unfold small; cbn; lia) ltac:(unfold small; cbn; lia) ltac:(unfold small; cbn; lia) ltac:(unfold small; cbn; lia)
    ltac:(unfold small; cbn; lia) ltac:(vm_compute; repeat split; discriminate)).
Defined.

Lemma oracle_runs : calculateCost dollar 1500 one_day with_oracle = Ok (with_oracle, cost_of one_day with_oracle).
Proof. vm_compute. reflexivity. Qed.

Example oracle_price_usable_witness : ∃ rd, latestRoundData dollar 7 = Some rd ∧ 0 < answer rd ∧ 1500 ≤ updatedAt rd + 7 * days.
Proof.
  destruct (oracle_price_usable start with_oracle dollar 1500 one_day _ with_oracle eq_refl oracle_history
    ltac:(unfold request_wf; cbn; lia) ltac:(vm_compute; reflexivity) oracle_runs) as (rd & d & H1 & _ & H2 & _ & H3 & _).
  exists rd. split; [exact H1|]. split; [exact H2|]. exact (proj2 H3).
Defined.

(** The same number is a cost in dollars with 8 decimals and a cost in token wei with
    18: at one dollar per token, [calculateCost] and [calculateCostUSD] return the
    same value, 10^10 times apart in the documented units. *)
Theorem oracle_units_disagree :
  calculateCost dollar 1500 one_day with_oracle = Ok (with_oracle, cost_of one_day with_oracle) ∧
  calculateCostUSD one_day with_oracle = Ok (with_oracle, cost_of one_day with_oracle).
Proof. split; vm_compute; reflexivity. Qed.

(** A lowered cap leaves multipliers above it in force. *)
Theorem multiplier_above_lowered_cap :
  match play start [(at_ 1 100, CallSetMaxMultiplier 10000)] with
  | Some w => maxMultiplierBps (self w) < redundancy (multipliers (self w))
  | None => False
  end.
Proof. vm_compute. reflexivity. Qed.
End BunkerPricing.
