(* ===== verification/BunkerRegistry.v ===== *)
(** * The name registry contract (src/contracts/src/BunkerRegistry.sol)

    Vanity names with fees, expiry, reservations, transfers and reverse resolution:
    the storage and every function.  The theorems are in [BunkerRegistrySafety]. *)

From Stdlib Require Import Ascii.
From S2P Require Import Prelude Solidity.
Local Open Scope Z_scope.

Module Registry.

Definition BURN_BPS : Z := 8000.
Definition BPS_DENOMINATOR : Z := 10000.
Definition MAX_NAMES_PER_OWNER : Z := 100.
Definition MIN_REGISTRATION_FEE : Z := 1000 * 10 ^ 18.
Definition MAX_BULK_SIZE : Z := 20.
Definition PREMIUM_1_CHAR_MULTIPLIER : Z := 100.
Definition PREMIUM_2_CHAR_MULTIPLIER : Z := 50.
Definition PREMIUM_3_CHAR_MULTIPLIER : Z := 10.
Definition PREMIUM_4_CHAR_MULTIPLIER : Z := 5.
Definition MAX_DESCRIPTION_LENGTH : Z := 160.
Definition MAX_AVATAR_URL_LENGTH : Z := 256.

(** The discount of a staking tier, in basis points. *)
Definition _tierDiscountBps : list Z := [0; 0; 500; 1000; 1500; 2000].

Record SubdomainRecord := mkRecord {
  owner_of : Addr;   (** owner *)
  deploymentID : Z;   (** bytes32 *)
  registeredAt : Z;   (** uint48 *)
  expiresAt : Z;   (** uint48 *)
  reservedUntil : Z;   (** uint48, 0 = not reserved *)
  referrer : Addr
}.

Definition set_owner_of (v : Addr) (r : SubdomainRecord) : SubdomainRecord :=
  mkRecord v (deploymentID r) (registeredAt r) (expiresAt r) (reservedUntil r) (referrer r).
Definition set_deploymentID (v : Z) (r : SubdomainRecord) : SubdomainRecord :=
  mkRecord (owner_of r) v (registeredAt r) (expiresAt r) (reservedUntil r) (referrer r).
Definition set_expiresAt (v : Z) (r : SubdomainRecord) : SubdomainRecord :=
  mkRecord (owner_of r) (deploymentID r) (registeredAt r) v (reservedUntil r) (referrer r).
Definition set_reservedUntil (v : Z) (r : SubdomainRecord) : SubdomainRecord :=
  mkRecord (owner_of r) (deploymentID r) (registeredAt r) (expiresAt r) v (referrer r).

Definition no_record : SubdomainRecord := mkRecord 0 0 0 0 0 0.

Record Metadata := mkMetadata { description : string; avatarURL : string }.

Record State := mkState {
  treasury : Addr;
  registrationFee : Z;
  stakingContract : Addr;
  expirationPeriod : Z;
  gracePeriod : Z;
  reservationPeriod : Z;
  changeFee : Z;
  referralDiscountBps : Z;
  referralRewardBps : Z;
  squattingGracePeriod : Z;
  shortNamesEnabled : bool;
  reservedNames : gset Z;   (** the hashes marked true *)
  subdomains : gmap Z SubdomainRecord;
  nameOf : gmap Z string;
  _ownedNames : gmap Addr (list Z);
  metadata : gmap Z Metadata;
  primaryName : gmap Z Z
}.

Definition set_treasury (v : Addr) (r : State) : State :=
  mkState v (registrationFee r) (stakingContract r) (expirationPeriod r) (gracePeriod r)
    (reservationPeriod r) (changeFee r) (referralDiscountBps r) (referralRewardBps r)
    (squattingGracePeriod r) (shortNamesEnabled r) (reservedNames r) (subdomains r) (nameOf r)
    (_ownedNames r) (metadata r) (primaryName r).
Definition set_registrationFee (v : Z) (r : State) : State :=
  mkState (treasury r) v (stakingContract r) (expirationPeriod r) (gracePeriod r)
    (reservationPeriod r) (changeFee r) (referralDiscountBps r) (referralRewardBps r)
    (squattingGracePeriod r) (shortNamesEnabled r) (reservedNames r) (subdomains r) (nameOf r)
    (_ownedNames r) (metadata r) (primaryName r).
Definition set_stakingContract (v : Addr) (r : State) : State :=
  mkState (treasury r) (registrationFee r) v (expirationPeriod r) (gracePeriod r)
    (reservationPeriod r) (changeFee r) (referralDiscountBps r) (referralRewardBps r)
    (squattingGracePeriod r) (shortNamesEnabled r) (reservedNames r) (subdomains r) (nameOf r)
    (_ownedNames r) (metadata r) (primaryName r).
Definition set_expirationPeriod (v : Z) (r : State) : State :=
  mkState (treasury r) (registrationFee r) (stakingContract r) v (gracePeriod r)
    (reservationPeriod r) (changeFee r) (referralDiscountBps r) (referralRewardBps r)
    (squattingGracePeriod r) (shortNamesEnabled r) (reservedNames r) (subdomains r) (nameOf r)
    (_ownedNames r) (metadata r) (primaryName r).
Definition set_gracePeriod (v : Z) (r : State) : State :=
  mkState (treasury r) (registrationFee r) (stakingContract r) (expirationPeriod r) v
    (reservationPeriod r) (changeFee r) (referralDiscountBps r) (referralRewardBps r)
    (squattingGracePeriod r) (shortNamesEnabled r) (reservedNames r) (subdomains r) (nameOf r)
    (_ownedNames r) (metadata r) (primaryName r).
Definition set_reservationPeriod (v : Z) (r : State) : State :=
  mkState (treasury r) (registrationFee r) (stakingContract r) (expirationPeriod r) (gracePeriod r)
    v (changeFee r) (referralDiscountBps r) (referralRewardBps r) (squattingGracePeriod r)
    (shortNamesEnabled r) (reservedNames r) (subdomains r) (nameOf r) (_ownedNames r) (metadata r)
    (primaryName r).
Definition set_changeFee (v : Z) (r : State) : State :=
  mkState (treasury r) (registrationFee r) (stakingContract r) (expirationPeriod r) (gracePeriod r)
    (reservationPeriod r) v (referralDiscountBps r) (referralRewardBps r) (squattingGracePeriod r)
    (shortNamesEnabled r) (reservedNames r) (subdomains r) (nameOf r) (_ownedNames r) (metadata r)
    (primaryName r).
Definition set_referralDiscountBps (v : Z) (r : State) : State :=
  mkState (treasury r) (registrationFee r) (stakingContract r) (expirationPeriod r) (gracePeriod r)
    (reservationPeriod r) (changeFee r) v (referralRewardBps r) (squattingGracePeriod r)
    (shortNamesEnabled r) (reservedNames r) (subdomains r) (nameOf r) (_ownedNames r) (metadata r)
    (primaryName r).
Definition set_referralRewardBps (v : Z) (r : State) : State :=
  mkState (treasury r) (registrationFee r) (stakingContract r) (expirationPeriod r) (gracePeriod r)
    (reservationPeriod r) (changeFee r) (referralDiscountBps r) v (squattingGracePeriod r)
    (shortNamesEnabled r) (reservedNames r) (subdomains r) (nameOf r) (_ownedNames r) (metadata r)
    (primaryName r).
Definition set_squattingGracePeriod (v : Z) (r : State) : State :=
  mkState (treasury r) (registrationFee r) (stakingContract r) (expirationPeriod r) (gracePeriod r)
    (reservationPeriod r) (changeFee r) (referralDiscountBps r) (referralRewardBps r) v
    (shortNamesEnabled r) (reservedNames r) (subdomains r) (nameOf r) (_ownedNames r) (metadata r)
    (primaryName r).
Definition set_shortNamesEnabled (v : bool) (r : State) : State :=
  mkState (treasury r) (registrationFee r) (stakingContract r) (expirationPeriod r) (gracePeriod r)
    (reservationPeriod r) (changeFee r) (referralDiscountBps r) (referralRewardBps r)
    (squattingGracePeriod r) v (reservedNames r) (subdomains r) (nameOf r) (_ownedNames r)
    (metadata r) (primaryName r).
Definition set_reservedNames (v : gset Z) (r : State) : State :=
  mkState (treasury r) (registrationFee r) (stakingContract r) (expirationPeriod r) (gracePeriod r)
    (reservationPeriod r) (changeFee r) (referralDiscountBps r) (referralRewardBps r)
    (squattingGracePeriod r) (shortNamesEnabled r) v (subdomains r) (nameOf r) (_ownedNames r)
    (metadata r) (primaryName r).
Definition set_subdomains (v : gmap Z SubdomainRecord) (r : State) : State :=
  mkState (treasury r) (registrationFee r) (stakingContract r) (expirationPeriod r) (gracePeriod r)
    (reservationPeriod r) (changeFee r) (referralDiscountBps r) (referralRewardBps r)
    (squattingGracePeriod r) (shortNamesEnabled r) (reservedNames r) v (nameOf r) (_ownedNames r)
    (metadata r) (primaryName r).
Definition set_nameOf (v : gmap Z string) (r : State) : State :=
  mkState (treasury r) (registrationFee r) (stakingContract r) (expirationPeriod r) (gracePeriod r)
    (reservationPeriod r) (changeFee r) (referralDiscountBps r) (referralRewardBps r)
    (squattingGracePeriod r) (shortNamesEnabled r) (reservedNames r) (subdomains r) v
    (_ownedNames r) (metadata r) (primaryName r).
Definition set__ownedNames (v : gmap Addr (list Z)) (r : State) : State :=
  mkState (treasury r) (registrationFee r) (stakingContract r) (expirationPeriod r) (gracePeriod r)
    (reservationPeriod r) (changeFee r) (referralDiscountBps r) (referralRewardBps r)
    (squattingGracePeriod r) (shortNamesEnabled r) (reservedNames r) (subdomains r) (nameOf r) v
    (metadata r) (primaryName r).
Definition set_metadata (v : gmap Z Metadata) (r : State) : State :=
  mkState (treasury r) (registrationFee r) (stakingContract r) (expirationPeriod r) (gracePeriod r)
    (reservationPeriod r) (changeFee r) (referralDiscountBps r) (referralRewardBps r)
    (squattingGracePeriod r) (shortNamesEnabled r) (reservedNames r) (subdomains r) (nameOf r)
    (_ownedNames r) v (primaryName r).
Definition set_primaryName (v : gmap Z Z) (r : State) : State :=
  mkState (treasury r) (registrationFee r) (stakingContract r) (expirationPeriod r) (gracePeriod r)
    (reservationPeriod r) (changeFee r) (referralDiscountBps r) (referralRewardBps r)
    (squattingGracePeriod r) (shortNamesEnabled r) (reservedNames r) (subdomains r) (nameOf r)
    (_ownedNames r) (metadata r) v.

Inductive RegistryErr :=
  | NameAlreadyRegistered | NameNotRegistered | NotNameOwner | InvalidName | InvalidAddress | InvalidDeploymentID
  | TooManyNames | FeeBelowMinimum | CannotTransferToSelf | NameExpired | NameReserved | ReservationExpired
  | NotReservationOwner | InvalidReferrer | MetadataDescriptionTooLong | MetadataAvatarURLTooLong
  | ArrayLengthMismatch | ArrayTooLarge | NameNotSquatted | InvalidPeriod | ShortNamesDisabled.

Definition rec (h : Z) (s : State) : SubdomainRecord := default no_record (subdomains s !! h).
Definition owned (a : Addr) (s : State) : list Z := default [] (_ownedNames s !! a).
Definition primary (d : Z) (s : State) : Z := default 0 (primaryName s !! d).
Definition put_rec (h : Z) (r : SubdomainRecord) (s : State) : State := set_subdomains (<[h := r]> (subdomains s)) s.
Definition delete_rec (h : Z) (s : State) : State := set_subdomains (delete h (subdomains s)) s.
Definition put_owned (a : Addr) (l : list Z) (s : State) : State := set__ownedNames (<[a := l]> (_ownedNames s)) s.
Definition put_name (h : Z) (n : string) (s : State) : State := set_nameOf (<[h := n]> (nameOf s)) s.
Definition delete_name (h : Z) (s : State) : State := set_nameOf (delete h (nameOf s)) s.
Definition delete_metadata (h : Z) (s : State) : State := set_metadata (delete h (metadata s)) s.
Definition delete_primary (d : Z) (s : State) : State := set_primaryName (delete d (primaryName s)) s.

(** [None] is a revert of the constructor. *)
Definition constructor (_token _treasury : Addr) (_registrationFee : Z) (_owner _stakingContract : Addr) : option State :=
  if (_owner =? 0)%N then None    (* OwnableInvalidOwner *)
  else if (_token =? 0)%N || (_treasury =? 0)%N then None
  else if (0 <? _registrationFee) && (_registrationFee <? MIN_REGISTRATION_FEE) then None
  else Some (mkState _treasury _registrationFee _stakingContract (365 * days) (30 * days) (48 * hours)
    (10000 * 10 ^ 18) 1000 500 (7 * days) false ∅ ∅ ∅ ∅ ∅ ∅).

(** ** Names *)

Definition _isAlphanumeric (c : ascii) : bool :=
  ((48 <=? N_of_ascii c) && (N_of_ascii c <=? 57))%N || ((97 <=? N_of_ascii c) && (N_of_ascii c <=? 122))%N.

Definition is_hyphen (c : ascii) : bool := (N_of_ascii c =? 45)%N.

(** The loop over the characters between the first and the last. *)
Fixpoint middle_valid (prevHyphen : bool) (b : list ascii) : bool :=
  match b with
  | [] => true
  | c :: b =>
    if negb (_isAlphanumeric c) && negb (is_hyphen c) then false
    else if is_hyphen c && prevHyphen then false
    else middle_valid (is_hyphen c) b
  end.

Definition name_valid (name : string) : bool :=
  let b := String.list_ascii_of_string name in
  match b, last b with
  | first :: _, Some final =>
    (Z.of_nat (length b) <=? 32) && _isAlphanumeric first && _isAlphanumeric final &&
    middle_valid false (take (length b - 2) (drop 1 b))
  | _, _ => false
  end.

(** [_removeOwnedName]: the first occurrence is overwritten by the last element,
    which is popped. *)
Definition swap_pop (h : Z) (names : list Z) : list Z :=
  match list_find (λ x, x = h) names with
  | Some (i, _) => removelast (<[i := List.last names 0]> names)
  | None => names
  end.

Definition remove_owned (a : Addr) (h : Z) (s : State) : State := put_owned a (swap_pop h (owned a s)) s.

Section Operations.
Context {T G : Type} `{Token T} `{BaseContracts G}.
Context (this : Addr) (keccak256 : string → Z).
(** [getTier] of the staking contract at an address; [None] is a call that fails,
    which the registry catches. *)
Context (getTier : Addr → Addr → option Z).
Abbreviation M := (tx (chain State T G) RegistryErr).

Definition _validateName (name : string) : M unit := revert_if (negb (name_valid name)) InvalidName.

Definition _isExpired (now h : Z) : M bool :=
  exp ← get (λ s, expiresAt (rec h s));
  mret ((0 <? exp) && (exp <? now)).

Definition _isInGracePeriod (now h : Z) : M bool :=
  exp ← get (λ s, expiresAt (rec h s));
  if (0 <? exp) && (exp <? now) then
    grace ← get gracePeriod; t ← add exp grace; mret (now <=? t)
  else mret false.

Definition _isFullyExpired (now h : Z) : M bool :=
  exp ← get (λ s, expiresAt (rec h s));
  if 0 <? exp then
    grace ← get gracePeriod; t ← add exp grace; mret (t <? now)
  else mret false.

Definition _calculatePrice (name : string) : M Z :=
  price ← get registrationFee;
  let nameLen := Z.of_nat (String.length name) in
  if nameLen =? 1 then mul price PREMIUM_1_CHAR_MULTIPLIER
  else if nameLen =? 2 then mul price PREMIUM_2_CHAR_MULTIPLIER
  else if nameLen =? 3 then mul price PREMIUM_3_CHAR_MULTIPLIER
  else if nameLen =? 4 then mul price PREMIUM_4_CHAR_MULTIPLIER
  else mret price.

Definition _applyStakingDiscount (price : Z) (user : Addr) : M Z :=
  staking ← get stakingContract;
  if (staking =? 0)%N then mret price else
  match getTier staking user with
  | None => mret price
  | Some tier =>
    let tier := if 5 <? tier then 5 else tier in
    discount ← of_option IndexPanic (_tierDiscountBps !! Z.to_nat tier);
    if 0 <? discount then
      x ← mul price discount; y ← div x BPS_DENOMINATOR; sub price y
    else mret price
  end.

Definition _applyReferralDiscount (price : Z) : M (Z * Z) :=
  bps ← get referralDiscountBps;
  x ← mul price bps;
  y ← div x BPS_DENOMINATOR;
  discounted ← sub price y;
  bps ← get referralRewardBps;
  x ← mul price bps;
  reward ← div x BPS_DENOMINATOR;
  mret (discounted, reward).

Definition _collectFee (payer : Addr) (amount : Z) (referrer : Addr) (referrerReward : Z) : M unit :=
  if amount =? 0 then mret tt else
  safeTransferFrom this payer this amount;;
  x ← mul amount BURN_BPS;
  burnAmount ← div x BPS_DENOMINATOR;
  y ← sub amount burnAmount;
  treasuryAmount ← sub y referrerReward;
  burn_some this burnAmount;;
  to ← get treasury;
  pay this to treasuryAmount;;
  pay this referrer referrerReward.

(** The price of a name for a user, and charging it. *)
Definition user_price (name : string) (user : Addr) : M Z :=
  price ← _calculatePrice name;
  _applyStakingDiscount price user.
Definition charge (msg : message) (name : string) : M unit :=
  price ← user_price name (sender msg);
  _collectFee (sender msg) price 0 0.

(** The checks [register] and [reserve] share. *)
Definition check_name (msg : message) (name : string) : M unit :=
  _validateName name;;
  short ← get shortNamesEnabled;
  revert_if ((Z.of_nat (String.length name) <=? 3) && negb short) ShortNamesDisabled;;
  taken ← get (λ s, bool_decide (keccak256 name ∈ reservedNames s));
  revert_if taken NameReserved.
Definition check_room (a : Addr) : M unit :=
  l ← get (owned a);
  revert_if (MAX_NAMES_PER_OWNER <=? Z.of_nat (length l)) TooManyNames.

(** [if (id != 0 && primaryName[id] == nameHash) delete primaryName[id]] *)
Definition clear_primary (h : Z) (r : SubdomainRecord) : M unit :=
  p ← get (primary (deploymentID r));
  when (negb (deploymentID r =? 0) && (p =? h)) (put (delete_primary (deploymentID r))).

(** The record of a name the sender owns. *)
Definition my_record (msg : message) (h : Z) (notOwner : RegistryErr) : M SubdomainRecord :=
  r ← get (rec h);
  revert_if (owner_of r =? 0)%N NameNotRegistered;;
  revert_if (negb (owner_of r =? sender msg)%N) notOwner;;
  mret r.

(** What becomes of the old record when a name is registered again: a name that is
    fully expired or whose reservation has expired is taken from its owner. *)
Definition clear_stale (msg : message) (h : Z) : M unit :=
  r ← get (rec h);
  if (owner_of r =? 0)%N then mret tt else
  full ← _isFullyExpired (timestamp msg) h;
  if (full : bool) then
    put (remove_owned (owner_of r) h);;
    clear_primary h r;;
    put (delete_metadata h)
  else if (0 <? reservedUntil r) && (reservedUntil r <? timestamp msg) then
    put (remove_owned (owner_of r) h);;
    put (delete_metadata h)
  else revert NameAlreadyRegistered.

Definition _registerInternal (msg : message) (name : string) (dep : Z) (ref : Addr) : M unit :=
  check_name msg name;;
  revert_if (dep =? 0) InvalidDeploymentID;;
  check_room (sender msg);;
  let h := keccak256 name in
  clear_stale msg h;;
  price ← user_price name (sender msg);
  (if negb (ref =? 0)%N then
    d ← _applyReferralDiscount price;
    _collectFee (sender msg) d.1 ref d.2
  else _collectFee (sender msg) price 0 0);;
  period ← get expirationPeriod;
  e ← add (timestamp msg) period;
  put (put_rec h (mkRecord (sender msg) dep (uint 48 (timestamp msg)) (uint 48 e) 0 ref));;
  put (put_name h name);;
  put (λ s, put_owned (sender msg) (owned (sender msg) s ++ [h]) s).

Definition register (msg : message) (name : string) (dep : Z) : M unit :=
  whenNotPaused;; _registerInternal msg name dep 0.

Definition registerWithReferral (msg : message) (name : string) (dep : Z) (ref : Addr) : M unit :=
  whenNotPaused;;
  revert_if (ref =? 0)%N InvalidReferrer;;
  revert_if (ref =? sender msg)%N InvalidReferrer;;
  _registerInternal msg name dep ref.

Fixpoint register_all (msg : message) (names : list string) (deps : list Z) : M unit :=
  match names, deps with
  | name :: names, dep :: deps => _registerInternal msg name dep 0;; register_all msg names deps
  | _, _ => mret tt
  end.

Definition bulkRegister (msg : message) (names : list string) (deps : list Z) : M unit :=
  whenNotPaused;;
  revert_if (negb (Z.of_nat (length names) =? Z.of_nat (length deps))) ArrayLengthMismatch;;
  revert_if (MAX_BULK_SIZE <? Z.of_nat (length names)) ArrayTooLarge;;
  register_all msg names deps.

(** [isZero] says whether an expiry of 0 counts as past, as in [bulkRenew]. *)
Definition renew_one (isZero : bool) (msg : message) (name : string) : M unit :=
  let h := keccak256 name in
  r ← my_record msg h NotNameOwner;
  full ← _isFullyExpired (timestamp msg) h;
  revert_if full NameExpired;;
  charge msg name;;
  let baseTime := if (isZero && (expiresAt r =? 0)) || (expiresAt r <? timestamp msg)
    then uint 48 (timestamp msg) else expiresAt r in
  period ← get expirationPeriod;
  e ← add_width 48 baseTime (uint 48 period);
  put (put_rec h (set_expiresAt e r)).

Definition renew (msg : message) (name : string) : M unit := whenNotPaused;; renew_one false msg name.

Fixpoint renew_all (msg : message) (names : list string) : M unit :=
  match names with
  | [] => mret tt
  | name :: names => renew_one true msg name;; renew_all msg names
  end.

Definition bulkRenew (msg : message) (names : list string) : M unit :=
  whenNotPaused;;
  revert_if (MAX_BULK_SIZE <? Z.of_nat (length names)) ArrayTooLarge;;
  renew_all msg names.

(** The same when a name is reserved. *)
Definition clear_for_reserve (msg : message) (h : Z) : M unit :=
  r ← get (rec h);
  if (owner_of r =? 0)%N then mret tt else
  full ← _isFullyExpired (timestamp msg) h;
  revert_if (negb full && ((reservedUntil r =? 0) || (timestamp msg <=? reservedUntil r))) NameAlreadyRegistered;;
  put (remove_owned (owner_of r) h).

Definition reserve (msg : message) (name : string) : M unit :=
  whenNotPaused;;
  check_name msg name;;
  check_room (sender msg);;
  let h := keccak256 name in
  clear_for_reserve msg h;;
  charge msg name;;
  period ← get reservationPeriod;
  u ← add (timestamp msg) period;
  period ← get expirationPeriod;
  e ← add (timestamp msg) period;
  put (put_rec h (mkRecord (sender msg) 0 (uint 48 (timestamp msg)) (uint 48 e) (uint 48 u) 0));;
  put (put_name h name);;
  put (λ s, put_owned (sender msg) (owned (sender msg) s ++ [h]) s).

Definition claimReservation (msg : message) (name : string) (dep : Z) : M unit :=
  whenNotPaused;;
  revert_if (dep =? 0) InvalidDeploymentID;;
  let h := keccak256 name in
  r ← my_record msg h NotReservationOwner;
  revert_if (reservedUntil r =? 0) NameNotRegistered;;
  revert_if (reservedUntil r <? timestamp msg) ReservationExpired;;
  put (put_rec h (set_reservedUntil 0 (set_deploymentID dep r))).

Definition cancelReservation (msg : message) (name : string) : M unit :=
  whenNotPaused;;
  let h := keccak256 name in
  r ← my_record msg h NotReservationOwner;
  revert_if (reservedUntil r =? 0) NameNotRegistered;;
  put (delete_rec h);;
  put (delete_name h);;
  put (remove_owned (owner_of r) h).

Definition release (msg : message) (name : string) : M unit :=
  whenNotPaused;;
  let h := keccak256 name in
  r ← my_record msg h NotNameOwner;
  clear_primary h r;;
  put (delete_rec h);;
  put (delete_name h);;
  put (delete_metadata h);;
  put (remove_owned (owner_of r) h).

Definition transferName (msg : message) (name : string) (newOwner : Addr) : M unit :=
  whenNotPaused;;
  revert_if (newOwner =? 0)%N InvalidAddress;;
  revert_if (newOwner =? sender msg)%N CannotTransferToSelf;;
  check_room newOwner;;
  let h := keccak256 name in
  r ← my_record msg h NotNameOwner;
  expired ← _isExpired (timestamp msg) h;
  revert_if expired NameExpired;;
  put (put_rec h (set_owner_of newOwner r));;
  put (remove_owned (owner_of r) h);;
  put (λ s, put_owned newOwner (owned newOwner s ++ [h]) s).

(** [if (changeFee > 0) _collectFee(msg.sender, changeFee, 0, 0)] *)
Definition charge_change (msg : message) : M unit :=
  fee ← get changeFee;
  when (0 <? fee) (_collectFee (sender msg) fee 0 0).

Definition updateDeployment (msg : message) (name : string) (dep : Z) : M unit :=
  whenNotPaused;;
  revert_if (dep =? 0) InvalidDeploymentID;;
  let h := keccak256 name in
  r ← my_record msg h NotNameOwner;
  expired ← _isExpired (timestamp msg) h;
  revert_if expired NameExpired;;
  charge_change msg;;
  clear_primary h r;;
  put (put_rec h (set_deploymentID dep r)).

Definition setMetadata (msg : message) (name desc avatar : string) : M unit :=
  whenNotPaused;;
  revert_if (MAX_DESCRIPTION_LENGTH <? Z.of_nat (String.length desc)) MetadataDescriptionTooLong;;
  revert_if (MAX_AVATAR_URL_LENGTH <? Z.of_nat (String.length avatar)) MetadataAvatarURLTooLong;;
  let h := keccak256 name in
  r ← my_record msg h NotNameOwner;
  expired ← _isExpired (timestamp msg) h;
  revert_if expired NameExpired;;
  charge_change msg;;
  put (λ s, set_metadata (<[h := mkMetadata desc avatar]> (metadata s)) s).

Definition reclaimSquatted (msg : message) (name : string) : M unit :=
  whenNotPaused;;
  let h := keccak256 name in
  r ← get (rec h);
  revert_if (owner_of r =? 0)%N NameNotSquatted;;
  isSquatted ← (if (0 <? reservedUntil r) && (reservedUntil r <? timestamp msg) then mret true
    else if (deploymentID r =? 0) && (reservedUntil r =? 0) then
      period ← get squattingGracePeriod; t ← add (registeredAt r) period; mret (t <? timestamp msg)
    else mret false);
  revert_if (negb isSquatted) NameNotSquatted;;
  put (delete_rec h);;
  put (delete_name h);;
  put (delete_metadata h);;
  put (remove_owned (owner_of r) h).

Definition setPrimaryName (msg : message) (name : string) : M unit :=
  whenNotPaused;;
  let h := keccak256 name in
  r ← my_record msg h NotNameOwner;
  expired ← _isExpired (timestamp msg) h;
  revert_if expired NameExpired;;
  revert_if (deploymentID r =? 0) InvalidDeploymentID;;
  put (λ s, set_primaryName (<[deploymentID r := h]> (primaryName s)) s).

(** ** Views *)

Definition resolve (name : string) : M (Addr * Z * Z) :=
  r ← get (rec (keccak256 name)); mret (owner_of r, deploymentID r, registeredAt r).

Definition isAvailable (now : Z) (name : string) : M bool :=
  r ← get (rec (keccak256 name));
  if (owner_of r =? 0)%N then mret true else
  full ← _isFullyExpired now (keccak256 name);
  if (full : bool) then mret true else
  mret ((0 <? reservedUntil r) && (reservedUntil r <? now)).

Definition isExpired (now : Z) (name : string) : M bool := _isExpired now (keccak256 name).
Definition isInGracePeriod (now : Z) (name : string) : M bool := _isInGracePeriod now (keccak256 name).

Definition reverseResolve (dep : Z) : M string :=
  h ← get (primary dep);
  if h =? 0 then mret ""%string else get (λ s, default ""%string (nameOf s !! h)).

Definition nameCount (a : Addr) : M Z := get (λ s, Z.of_nat (length (owned a s))).
Definition ownedNameAt (a : Addr) (index : Z) : M Z :=
  l ← get (owned a); of_option IndexPanic (l !! Z.to_nat index).
Definition calculatePrice (name : string) (user : Addr) : M Z := user_price name user.

(** ** Administration *)

Definition fee_allowed (fee : Z) : M unit :=
  revert_if ((0 <? fee) && (fee <? MIN_REGISTRATION_FEE)) FeeBelowMinimum.
Definition period_allowed (lo hi period : Z) : M unit :=
  revert_if ((period <? lo) || (hi <? period)) InvalidPeriod.

Definition setRegistrationFee (msg : message) (fee : Z) : M unit :=
  onlyOwner msg;; fee_allowed fee;; put (set_registrationFee fee).
Definition setTreasury (msg : message) (a : Addr) : M unit :=
  onlyOwner msg;; revert_if (a =? 0)%N InvalidAddress;; put (set_treasury a).
Definition setChangeFee (msg : message) (fee : Z) : M unit :=
  onlyOwner msg;; fee_allowed fee;; put (set_changeFee fee).
Definition setExpirationPeriod (msg : message) (period : Z) : M unit :=
  onlyOwner msg;; period_allowed (30 * days) (3650 * days) period;; put (set_expirationPeriod period).
Definition setGracePeriod (msg : message) (period : Z) : M unit :=
  onlyOwner msg;; period_allowed (7 * days) (90 * days) period;; put (set_gracePeriod period).
Definition setReservationPeriod (msg : message) (period : Z) : M unit :=
  onlyOwner msg;; period_allowed (1 * hours) (7 * days) period;; put (set_reservationPeriod period).
Definition setSquattingGracePeriod (msg : message) (period : Z) : M unit :=
  onlyOwner msg;; period_allowed (1 * days) (30 * days) period;; put (set_squattingGracePeriod period).
Definition setReferralDiscountBps (msg : message) (bps : Z) : M unit :=
  onlyOwner msg;; revert_if (2000 <? bps) InvalidPeriod;; put (set_referralDiscountBps bps).
Definition setReferralRewardBps (msg : message) (bps : Z) : M unit :=
  onlyOwner msg;; revert_if (1000 <? bps) InvalidPeriod;; put (set_referralRewardBps bps).
Definition setStakingContract (msg : message) (a : Addr) : M unit :=
  onlyOwner msg;; put (set_stakingContract a).
Definition setShortNamesEnabled (msg : message) (b : bool) : M unit :=
  onlyOwner msg;; put (set_shortNamesEnabled b).
Definition mark_reserved (name : string) (b : bool) (s : State) : State :=
  set_reservedNames (if b then reservedNames s ∪ {[ keccak256 name ]} else reservedNames s ∖ {[ keccak256 name ]}) s.
Definition setReservedName (msg : message) (name : string) (b : bool) : M unit :=
  onlyOwner msg;; put (mark_reserved name b).
Definition batchReserveNames (msg : message) (names : list string) : M unit :=
  onlyOwner msg;; put (λ s, fold_left (λ s n, mark_reserved n true s) names s).
Definition pause (msg : message) : M unit := onlyOwner msg;; set_pause true.
Definition unpause (msg : message) : M unit := onlyOwner msg;; set_pause false.

(** ** Calls *)

Inductive call :=
  | CallRegister (name : string) (dep : Z)
  | CallReferral (name : string) (dep : Z) (ref : Addr)
  | CallBulkRegister (names : list string) (deps : list Z)
  | CallRenew (name : string)
  | CallBulkRenew (names : list string)
  | CallReserve (name : string)
  | CallClaim (name : string) (dep : Z)
  | CallCancel (name : string)
  | CallRelease (name : string)
  | CallTransfer (name : string) (newOwner : Addr)
  | CallUpdate (name : string) (dep : Z)
  | CallSetMetadata (name desc avatar : string)
  | CallReclaim (name : string)
  | CallSetPrimary (name : string)
  | CallSetFee (n : Z)
  | CallSetTreasury (a : Addr)
  | CallSetChangeFee (n : Z)
  | CallSetExpiration (n : Z)
  | CallSetGrace (n : Z)
  | CallSetReservation (n : Z)
  | CallSetSquatting (n : Z)
  | CallSetDiscount (n : Z)
  | CallSetReward (n : Z)
  | CallSetStaking (a : Addr)
  | CallSetShort (b : bool)
  | CallSetReserved (name : string) (b : bool)
  | CallBatchReserve (names : list string)
  | CallPause
  | CallUnpause.

(** Numbers are unsigned. *)
Definition call_wf (c : call) : Prop :=
  match c with
  | CallSetFee n | CallSetChangeFee n | CallSetExpiration n | CallSetGrace n | CallSetReservation n
  | CallSetSquatting n | CallSetDiscount n | CallSetReward n => 0 ≤ n
  | _ => True
  end.

Definition exec (msg : message) (c : call) : M unit :=
  match c with
  | CallRegister n d => register msg n d
  | CallReferral n d r => registerWithReferral msg n d r
  | CallBulkRegister ns ds => bulkRegister msg ns ds
  | CallRenew n => renew msg n
  | CallBulkRenew ns => bulkRenew msg ns
  | CallReserve n => reserve msg n
  | CallClaim n d => claimReservation msg n d
  | CallCancel n => cancelReservation msg n
  | CallRelease n => release msg n
  | CallTransfer n a => transferName msg n a
  | CallUpdate n d => updateDeployment msg n d
  | CallSetMetadata n d a => setMetadata msg n d a
  | CallReclaim n => reclaimSquatted msg n
  | CallSetPrimary n => setPrimaryName msg n
  | CallSetFee n => setRegistrationFee msg n
  | CallSetTreasury a => setTreasury msg a
  | CallSetChangeFee n => setChangeFee msg n
  | CallSetExpiration n => setExpirationPeriod msg n
  | CallSetGrace n => setGracePeriod msg n
  | CallSetReservation n => setReservationPeriod msg n
  | CallSetSquatting n => setSquattingGracePeriod msg n
  | CallSetDiscount n => setReferralDiscountBps msg n
  | CallSetReward n => setReferralRewardBps msg n
  | CallSetStaking a => setStakingContract msg a
  | CallSetShort b => setShortNamesEnabled msg b
  | CallSetReserved n b => setReservedName msg n b
  | CallBatchReserve ns => batchReserveNames msg ns
  | CallPause => pause msg
  | CallUnpause => unpause msg
  end.
End Operations.

(** Times up to 2^47 seconds, so that no expiry leaves its 48 bits. *)
Definition max_time : Z := 2 ^ 47.

(** A history: calls by accounts other than the registry, changes of the token by
    others that do not take from the registry, and changes of the base contracts. *)
Section History.
Context {T G : Type} `{Token T} `{BaseContracts G}.
Context (this : Addr) (keccak256 : string → Z).

Inductive step : chain State T G → chain State T G → Prop :=
  | step_call getTier msg c w :
      call_wf c → sender msg ≠ this → sender msg ≠ 0%N → 0 ≤ timestamp msg ≤ max_time →
      step w (commit (exec this keccak256 getTier msg c) w)
  | step_token w t' : balanceOf (tok w) this ≤ balanceOf t' this → step w (mkChain (self w) t' (base w))
  | step_base w g' : step w (mkChain (self w) (tok w) g').
End History.
End Registry.
