(* ===== verification/BunkerRegistrySafety.v ===== *)
(** * The name registry: its theorems

    The owners' lists are an exact index of the records, a name is safe until its
    grace period is over, fees pass through the contract in full, names are valid,
    and where reverse resolution goes wrong. *)

From Stdlib Require Import Ascii.
From S2P Require Import Prelude Solidity BunkerToken Runs BunkerRegistry.
Local Open Scope Z_scope.
Import Registry.

(** ** Swap and pop *)

Lemma swap_pop_perm h l : h ∈ l → l ≡ₚ h :: swap_pop h l.
Proof.
  intros Hin. unfold swap_pop. destruct (list_find (λ x, x = h) l) as [[i x]|] eqn:Hf.
  - apply list_find_Some in Hf as (Hi & -> & _).
    destruct (exists_last (l := l)) as (l' & z & ->); [by intros ->|].
    rewrite last_last. destruct (decide (i < length l')%nat) as [Hlt|Hge].
    + rewrite insert_app_l, removelast_last by done. rewrite lookup_app_l in Hi by done.
      rewrite <-(take_drop_middle l' i h Hi) at 1. rewrite insert_take_drop by done. solve_Permutation.
    + rewrite lookup_app_r in Hi by lia. apply list_lookup_singleton_Some in Hi as [Hz ->].
      rewrite insert_app_r_alt, Hz by lia. cbn. rewrite removelast_last. solve_Permutation.
  - apply list_find_None in Hf. rewrite Forall_forall in Hf. by destruct (Hf h Hin).
Qed.

Lemma swap_pop_elem h l x : NoDup l → h ∈ l → x ∈ swap_pop h l ↔ x ∈ l ∧ x ≠ h.
Proof.
  intros Hn Hin. pose proof (swap_pop_perm h l Hin) as Hp. revert Hp. generalize (swap_pop h l). intros k Hp.
  rewrite Hp in Hn. apply NoDup_cons in Hn as [Hni _]. rewrite Hp, elem_of_cons. naive_solver.
Qed.

Lemma swap_pop_NoDup h l : NoDup l → h ∈ l → NoDup (swap_pop h l).
Proof. intros Hn Hin. rewrite (swap_pop_perm h l Hin) in Hn. by apply NoDup_cons in Hn as [_ ?]. Qed.

Lemma swap_pop_length h l : h ∈ l → (length (swap_pop h l) < length l)%nat.
Proof. intros Hin. rewrite (Permutation_length (swap_pop_perm h l Hin)). cbn. lia. Qed.

(** ** The index of names by owner *)

Definition record_at (m : gmap Z SubdomainRecord) (h : Z) : SubdomainRecord := default no_record (m !! h).
Definition list_at (o : gmap Addr (list Z)) (a : Addr) : list Z := default [] (o !! a).

Lemma list_at_insert o a l b : list_at (<[a := l]> o) b = if decide (a = b) then l else list_at o b.
Proof. unfold list_at. rewrite lookup_insert. by case_decide. Qed.

Lemma record_at_insert m h r h' : record_at (<[h := r]> m) h' = if decide (h = h') then r else record_at m h'.
Proof. unfold record_at. rewrite lookup_insert. by case_decide. Qed.

Lemma record_at_delete m h h' : record_at (delete h m) h' = if decide (h = h') then no_record else record_at m h'.
Proof. unfold record_at. rewrite lookup_delete. by case_decide. Qed.

(** The lists hold exactly the names of their owners, apart from those in [out]. *)
Record index (out : Z → Prop) (m : gmap Z SubdomainRecord) (o : gmap Addr (list Z)) : Prop := {
  i_in : ∀ a h, h ∈ list_at o a ↔ a ≠ 0%N ∧ owner_of (record_at m h) = a ∧ ¬ out h;
  i_nodup : ∀ a, NoDup (list_at o a);
  i_room : ∀ a, Z.of_nat (length (list_at o a)) ≤ MAX_NAMES_PER_OWNER
}.
Definition all : Z → Prop := λ _, False.

Lemma index_take h m o :
  index all m o → owner_of (record_at m h) ≠ 0%N →
  index (eq h) m (<[owner_of (record_at m h) := swap_pop h (list_at o (owner_of (record_at m h)))]> o).
Proof.
  intros [Hin Hnd Hroom] Hne. set (b := owner_of (record_at m h)) in *.
  assert (Hb : h ∈ list_at o b) by (apply Hin; split_and!; [done|done|tauto]).
  split.
  - intros a x. rewrite list_at_insert. case_decide as Hab.
    + subst a. rewrite swap_pop_elem, Hin by done. unfold all. naive_solver.
    + rewrite Hin. unfold all. split; [|tauto]. intros (Ha & Hx & _). split_and!; [done|done|]. intros <-. done.
  - intros a. rewrite list_at_insert. case_decide; [by apply swap_pop_NoDup|done].
  - intros a. rewrite list_at_insert. case_decide; [|done]. pose proof (swap_pop_length h _ Hb). specialize (Hroom b). lia.
Qed.

Lemma index_unowned h m o : index all m o → owner_of (record_at m h) = 0%N → index (eq h) m o.
Proof.
  intros [Hin Hnd Hroom] Hz. split; [|done..]. intros a x. rewrite Hin. unfold all. split; [|tauto].
  intros (Ha & Hx & _). split_and!; [done|done|]. intros <-. congruence.
Qed.

Lemma index_give h r m o :
  index (eq h) m o → owner_of r ≠ 0%N → Z.of_nat (length (list_at o (owner_of r))) < MAX_NAMES_PER_OWNER →
  index all (<[h := r]> m) (<[owner_of r := list_at o (owner_of r) ++ [h]]> o).
Proof.
  intros [Hin Hnd Hroom] Hne Hlen. split.
  - intros a x. rewrite list_at_insert, record_at_insert. unfold all. destruct (decide (h = x)) as [<-|Hx].
    + case_decide as Ha; [subst a; rewrite elem_of_app; set_solver|]. rewrite Hin. naive_solver.
    + case_decide as Ha; [subst a; rewrite elem_of_app, Hin; set_solver|]. rewrite Hin. naive_solver.
  - intros a. rewrite list_at_insert. case_decide; [|done]. apply NoDup_app. split_and!; [done| |apply NoDup_singleton].
    intros x Hx ->%list_elem_of_singleton. apply Hin in Hx as (_ & _ & Hx). done.
  - intros a. rewrite list_at_insert. case_decide; [|done]. rewrite length_app. cbn. lia.
Qed.

Lemma index_drop h m o : index (eq h) m o → index all (delete h m) o.
Proof.
  intros [Hin Hnd Hroom]. split; [|done..]. intros a x. rewrite Hin, record_at_delete. unfold all.
  case_decide; cbn; naive_solver.
Qed.

Lemma index_modify h r m o : index all m o → owner_of r = owner_of (record_at m h) → index all (<[h := r]> m) o.
Proof.
  intros [Hin Hnd Hroom] Hr. split; [|done..]. intros a x. rewrite Hin, record_at_insert. case_decide; [|done]. subst. by rewrite Hr.
Qed.

(** ** Well-formed storage *)

(** A record in use has a deployment or is a reservation. *)
Record record_good (r : SubdomainRecord) : Prop := {
  r_use : owner_of r ≠ 0%N → reservedUntil r = 0 → deploymentID r ≠ 0;
  r_reserved : 0 ≤ reservedUntil r ≤ max_uint48;
  r_expires : 0 ≤ expiresAt r ≤ max_uint48
}.

Section Storage.
Context (keccak256 : string → Z).

(** Every name in use is recorded under its hash. *)
Record names (m : gmap Z SubdomainRecord) (nm : gmap Z string) : Prop := {
  n_good : ∀ h, record_good (record_at m h);
  n_name : ∀ h, owner_of (record_at m h) ≠ 0%N → ∃ n, nm !! h = Some n ∧ keccak256 n = h ∧ name_valid n = true
}.

Record settings (s : State) : Prop := {
  g_grace : 7 * days ≤ gracePeriod s ≤ 90 * days;
  g_expiration : 30 * days ≤ expirationPeriod s ≤ 3650 * days;
  g_reservation : 1 * hours ≤ reservationPeriod s ≤ 7 * days;
  g_squatting : 1 * days ≤ squattingGracePeriod s ≤ 30 * days;
  g_discount : 0 ≤ referralDiscountBps s ≤ 2000;
  g_reward : 0 ≤ referralRewardBps s ≤ 1000;
  g_fee : registrationFee s = 0 ∨ MIN_REGISTRATION_FEE ≤ registrationFee s;
  g_change : changeFee s = 0 ∨ MIN_REGISTRATION_FEE ≤ changeFee s;
  g_treasury : treasury s ≠ 0%N
}.

Record registry_ok (s : State) : Prop := {
  o_index : index all (subdomains s) (_ownedNames s);
  o_names : names (subdomains s) (nameOf s);
  o_settings : settings s
}.

Lemma names_put h r n m nm :
  names m nm → record_good r → keccak256 n = h → name_valid n = true → names (<[h := r]> m) (<[h := n]> nm).
Proof.
  intros [Hg Hn] Hr Hk Hv. split.
  - intros x. rewrite record_at_insert. by case_decide.
  - intros x. rewrite record_at_insert, lookup_insert. case_decide; [|apply Hn]. subst. eauto.
Qed.

Lemma names_modify h r m nm :
  names m nm → record_good r → owner_of (record_at m h) ≠ 0%N → names (<[h := r]> m) nm.
Proof.
  intros [Hg Hn] Hr Ho. split; intros x; rewrite record_at_insert; case_decide; try done; [|by apply Hn].
  intros _. subst. by apply Hn.
Qed.

Lemma names_delete h m nm : names m nm → names (delete h m) (delete h nm).
Proof.
  intros [Hg Hn]. split; intros x; rewrite record_at_delete; case_decide; try done.
  - rewrite lookup_delete_ne by done. apply Hn.
Qed.

Definition setting_values (s : State) :=
  (gracePeriod s, expirationPeriod s, reservationPeriod s, squattingGracePeriod s, referralDiscountBps s,
   referralRewardBps s, registrationFee s, changeFee s, treasury s).

Lemma settings_same s s' : setting_values s' = setting_values s → settings s → settings s'.
Proof. intros Hv [?????????]. unfold setting_values in Hv. split; congruence. Qed.

(** The storage [s1] while the name [h] changes hands: nobody lists it, and the
    records are still those of [s]. *)
Record freed (h : Z) (s s1 : State) : Prop := {
  f_subdomains : subdomains s1 = subdomains s;
  f_names : nameOf s1 = nameOf s;
  f_index : index (eq h) (subdomains s) (_ownedNames s1);
  f_length : ∀ a, (length (owned a s1) ≤ length (owned a s))%nat;
  f_settings : setting_values s1 = setting_values s
}.

Lemma freed_none h s : registry_ok s → owner_of (rec h s) = 0%N → freed h s s.
Proof. intros [Hi _ _] Ho. split; try done. by apply index_unowned. Qed.

Lemma freed_taken h s : registry_ok s → owner_of (rec h s) ≠ 0%N → freed h s (remove_owned (owner_of (rec h s)) h s).
Proof.
  intros [Hi _ _] Ho. split; try done; [by apply (index_take h)|].
  intros a. unfold owned at 1. cbn. rewrite lookup_insert. case_decide; [|done]. subst. cbn.
  apply Nat.lt_le_incl, swap_pop_length. change (h ∈ list_at (_ownedNames s) (owner_of (record_at (subdomains s) h))).
  apply Hi. split_and!; [done|done|]. unfold all. tauto.
Qed.

Lemma freed_more h s s1 s2 :
  freed h s s1 → subdomains s2 = subdomains s1 → nameOf s2 = nameOf s1 → _ownedNames s2 = _ownedNames s1 →
  setting_values s2 = setting_values s1 → freed h s s2.
Proof. intros [] E1 E2 E3 E4. split; unfold owned in *; rewrite ?E1, ?E2, ?E3, ?E4; done. Qed.

Lemma give_ok h n r s s1 s' :
  registry_ok s → freed h s s1 → record_good r → owner_of r ≠ 0%N →
  Z.of_nat (length (owned (owner_of r) s)) < MAX_NAMES_PER_OWNER → keccak256 n = h → name_valid n = true →
  subdomains s' = <[h := r]> (subdomains s1) → nameOf s' = <[h := n]> (nameOf s1) →
  _ownedNames s' = <[owner_of r := owned (owner_of r) s1 ++ [h]]> (_ownedNames s1) →
  setting_values s' = setting_values s1 → registry_ok s'.
Proof.
  intros [_ Hn Hset] [F1 F2 F3 F4 F5] Hr Ho Hlen Hk Hv E1 E2 E3 E4. split.
  - rewrite E1, E3, F1. apply index_give; [done|done|]. specialize (F4 (owner_of r)). unfold owned, list_at in *. lia.
  - rewrite E1, E2, F1, F2. by apply names_put.
  - by apply (settings_same s); [congruence|].
Qed.

Lemma drop_ok h s s1 s' :
  registry_ok s → freed h s s1 → subdomains s' = delete h (subdomains s1) → nameOf s' = delete h (nameOf s1) →
  _ownedNames s' = _ownedNames s1 → setting_values s' = setting_values s1 → registry_ok s'.
Proof.
  intros [_ Hn Hset] [F1 F2 F3 F4 F5] E1 E2 E3 E4. split.
  - rewrite E1, E3, F1. by apply index_drop.
  - rewrite E1, E2, F1, F2. by apply names_delete.
  - by apply (settings_same s); [congruence|].
Qed.

Lemma modify_ok h r s s' :
  registry_ok s → subdomains s' = <[h := r]> (subdomains s) → record_good r →
  owner_of r = owner_of (rec h s) → owner_of (rec h s) ≠ 0%N → nameOf s' = nameOf s → _ownedNames s' = _ownedNames s →
  setting_values s' = setting_values s → registry_ok s'.
Proof.
  intros [Hi Hn Hset] E1 Hr Ho Hne E2 E3 E4. split.
  - rewrite E1, E3. by apply index_modify.
  - rewrite E1, E2. by apply names_modify.
  - by apply (settings_same s).
Qed.

Lemma same_ok s s' :
  registry_ok s → subdomains s' = subdomains s → nameOf s' = nameOf s → _ownedNames s' = _ownedNames s →
  settings s' → registry_ok s'.
Proof. intros [Hi Hn _] E1 E2 E3 Hset. split; congruence. Qed.

Lemma registry_initial token tr fee o st s :
  0 ≤ fee → constructor token tr fee o st = Some s → registry_ok s.
Proof.
  intros Hf Hc. unfold constructor in Hc. repeat case_match; try done. simplify_eq. zbool.
  repeat match goal with Hx : (_ =? _)%N = false |- _ => apply N.eqb_neq in Hx end.
  split.
  - split; cbn; intros a; unfold list_at, record_at; rewrite lookup_empty; [|apply NoDup_nil_2|done].
    intros h. rewrite lookup_empty. cbn. set_solver.
  - split; intros h; unfold record_at; cbn; rewrite lookup_empty; by cbn.
  - split; cbn [gracePeriod expirationPeriod reservationPeriod squattingGracePeriod referralDiscountBps referralRewardBps
      registrationFee changeFee treasury]; try (vm_compute; split; discriminate); try tauto.
    + destruct (decide (fee = 0)); [by left|right]. destruct_or!; lia.
    + right. vm_compute. discriminate.
    + apply N.eqb_neq. tauto.
Qed.
End Storage.

(** ** Calls *)

Section Calls.
Context {T G : Type} `{TokenLaws T} `{BaseContracts G}.
Context (this : Addr) (keccak256 : string → Z) (getTier : Addr → Addr → option Z).
Implicit Types w : chain State T G.

(** Prices are only read, and fees only move tokens. *)
Lemma user_price_same n a w w' p : user_price getTier n a w = Ok (w', p) → w' = w.
Proof.
  revert w w' p. change (keeps (λ w : chain State T G, w) (user_price getTier n a)).
  unfold user_price, _calculatePrice, _applyStakingDiscount. frame.
Qed.

Lemma referral_same price w w' p : _applyReferralDiscount price w = Ok (w', p) → w' = w.
Proof.
  revert w w' p. change (keeps (λ w : chain State T G, w) (_applyReferralDiscount price)).
  unfold _applyReferralDiscount. frame.
Qed.

Lemma collectFee_self payer n ref rew w w' u : _collectFee this payer n ref rew w = Ok (w', u) → self w' = self w.
Proof.
  revert w w' u. change (keeps (λ w : chain State T G, self w) (_collectFee this payer n ref rew)).
  unfold _collectFee. frame.
Qed.

Lemma charge_self msg n w w' u : charge this getTier msg n w = Ok (w', u) → self w' = self w.
Proof.
  intros Hc. unfold charge in Hc. tx_inv Hc. apply user_price_same in Hs as ->. by apply collectFee_self in Hc.
Qed.

Lemma charge_change_self msg w w' u : charge_change this msg w = Ok (w', u) → self w' = self w.
Proof.
  intros Hc. unfold charge_change in Hc. tx_inv Hc; [|done]. by apply collectFee_self in Hc.
Qed.

(** Comparisons of addresses. *)
Ltac addr_bool :=
  repeat match goal with
  | Hx : negb _ = false |- _ => apply negb_false_iff in Hx
  | Hx : negb _ = true |- _ => apply negb_true_iff in Hx
  | Hx : (_ =? _)%N = true |- _ => apply N.eqb_eq in Hx
  | Hx : (_ =? _)%N = false |- _ => apply N.eqb_neq in Hx
  end.

(** What the checks at the start of a call have tested. *)
Lemma check_name_Ok msg n w w' u : check_name keccak256 msg n w = Ok (w', u) → w' = w ∧ name_valid n = true.
Proof. intros Hc. unfold check_name, _validateName in Hc. tx_inv Hc. by apply negb_false_iff in Hs. Qed.

Lemma check_room_Ok a w w' u :
  check_room a w = Ok (w', u) → w' = w ∧ Z.of_nat (length (owned a (self w))) < MAX_NAMES_PER_OWNER.
Proof. intros Hc. unfold check_room in Hc. tx_inv Hc. by zbool. Qed.

Lemma my_record_Ok msg h e w w' r :
  my_record msg h e w = Ok (w', r) →
  w' = w ∧ r = rec h (self w) ∧ owner_of r = sender msg ∧ owner_of r ≠ 0%N.
Proof.
  intros Hc. unfold my_record in Hc. tx_inv Hc. addr_bool. done.
Qed.

Lemma fullyExpired_Ok now h w w' b :
  _isFullyExpired now h w = Ok (w', b) →
  w' = w ∧ b = (0 <? expiresAt (rec h (self w))) && (expiresAt (rec h (self w)) + gracePeriod (self w) <? now).
Proof. intros Hc. unfold _isFullyExpired in Hc. by tx_inv Hc. Qed.

Lemma expired_Ok now h w w' b : _isExpired now h w = Ok (w', b) → w' = w.
Proof. intros Hc. unfold _isExpired in Hc. by tx_inv Hc. Qed.

Lemma clear_primary_Ok h r w w' u :
  clear_primary h r w = Ok (w', u) →
  self w' = self w ∨ self w' = delete_primary (deploymentID r) (self w).
Proof. intros Hc. unfold clear_primary in Hc. tx_inv Hc; auto. Qed.

Ltac reg_inv :=
  repeat match goal with
  | Hx : user_price _ _ _ _ = Ok _ |- _ => apply user_price_same in Hx; subst
  | Hx : _applyReferralDiscount _ _ = Ok _ |- _ => apply referral_same in Hx; subst
  | Hx : _collectFee _ _ _ _ _ _ = Ok _ |- _ => apply collectFee_self in Hx
  | Hx : charge _ _ _ _ _ = Ok _ |- _ => apply charge_self in Hx
  | Hx : charge_change _ _ _ = Ok _ |- _ => apply charge_change_self in Hx
  | Hx : check_name _ _ _ _ = Ok _ |- _ => apply check_name_Ok in Hx as [? ?]; subst
  | Hx : check_room _ _ = Ok _ |- _ => apply check_room_Ok in Hx as [? ?]; subst
  | Hx : my_record _ _ _ _ = Ok _ |- _ => apply my_record_Ok in Hx as (? & ? & ? & ?); subst
  | Hx : _isFullyExpired _ _ _ = Ok _ |- _ => apply fullyExpired_Ok in Hx as [? ?]; subst
  | Hx : _isExpired _ _ _ = Ok _ |- _ => apply expired_Ok in Hx; subst
  end; addr_bool.

Lemma time_fits t d : 0 ≤ t ≤ max_time → 0 ≤ d ≤ 3650 * days → uint 48 (t + d) = t + d ∧ 0 ≤ t + d ≤ max_uint48.
Proof.
  intros Ht Hd. change (3650 * days) with 315360000 in Hd. unfold max_time, max_uint48, max_uint in *.
  split; [apply uint_id; unfold max_uint; lia|lia].
Qed.

(** The old record is given up. *)
Lemma clear_stale_freed msg h w w' u :
  registry_ok keccak256 (self w) → clear_stale msg h w = Ok (w', u) → freed h (self w) (self w').
Proof.
  intros Hok Hc. unfold clear_stale in Hc. tx_inv Hc; reg_inv.
  - by apply freed_none with keccak256.
  - eapply freed_more; [by apply (freed_taken keccak256)|..];
      match goal with Hx : clear_primary _ _ _ = Ok _ |- _ => by apply clear_primary_Ok in Hx as [->| ->] end.
  - by eapply freed_more; [by apply (freed_taken keccak256)|..].
Qed.

Lemma clear_for_reserve_freed msg h w w' u :
  registry_ok keccak256 (self w) → clear_for_reserve msg h w = Ok (w', u) → freed h (self w) (self w').
Proof.
  intros Hok Hc. unfold clear_for_reserve in Hc. tx_inv Hc; reg_inv.
  - by apply freed_none with keccak256.
  - by apply (freed_taken keccak256).
Qed.

Ltac good_record := split; cbn; [try done|try apply uint_range; try done|apply uint_range; done].

Lemma register_keeps msg n dep ref w w' u :
  sender msg ≠ 0%N → 0 ≤ timestamp msg ≤ max_time → registry_ok keccak256 (self w) →
  _registerInternal this keccak256 getTier msg n dep ref w = Ok (w', u) → registry_ok keccak256 (self w').
Proof.
  intros Hs0 Ht Hok Hc. unfold _registerInternal in Hc. tx_inv Hc; reg_inv; zbool;
    match goal with Hx : clear_stale _ _ _ = Ok _ |- _ => apply clear_stale_freed in Hx as Hf; [|done] end;
    match goal with Hx : self ?x = self _ |- context [self ?x] => rewrite Hx end.
  all: eapply (give_ok keccak256 (keccak256 n) n _ (self w) _ _ Hok Hf); try reflexivity; try done; good_record.
Qed.

Lemma reserve_keeps msg n w w' u :
  sender msg ≠ 0%N → 0 ≤ timestamp msg ≤ max_time → registry_ok keccak256 (self w) →
  reserve this keccak256 getTier msg n w = Ok (w', u) → registry_ok keccak256 (self w').
Proof.
  intros Hs0 Ht Hok Hc. unfold reserve in Hc. tx_inv Hc; reg_inv; zbool.
  match goal with Hx : clear_for_reserve _ _ _ = Ok _ |- _ => apply clear_for_reserve_freed in Hx as Hf; [|done] end.
  match goal with Hx : self ?x = self _ |- context [self ?x] => rewrite Hx end.
  eapply (give_ok keccak256 (keccak256 n) n _ (self w) _ _ Hok Hf); try reflexivity; try done.
  pose proof (f_settings _ _ _ Hf) as Hset. unfold setting_values in Hset. simplify_eq.
  pose proof (g_reservation _ (o_settings _ _ Hok)) as Hp. destruct (time_fits (timestamp msg) (reservationPeriod (self w))) as [Hu _];
    [done|unfold days, hours, minutes in *; lia|].
  split; cbn; [|by apply uint_range..]. intros _. replace (reservationPeriod (self w2)) with (reservationPeriod (self w)).
  rewrite Hu. unfold hours, minutes in Hp. lia.
Qed.

Lemma register_all_keeps msg ns ds w w' u :
  sender msg ≠ 0%N → 0 ≤ timestamp msg ≤ max_time → registry_ok keccak256 (self w) →
  register_all this keccak256 getTier msg ns ds w = Ok (w', u) → registry_ok keccak256 (self w').
Proof.
  intros Hs0 Ht. revert ds w. induction ns as [|n ns IH]; intros [|d ds] w Hok Hc; cbn in Hc; try (by tx_inv Hc).
  apply tx_bind_Ok in Hc as (w1 & u1 & H3 & Hc). apply register_keeps in H3; [|done..]. by eapply IH.
Qed.

Lemma renew_keeps b msg n w w' u :
  registry_ok keccak256 (self w) → renew_one this keccak256 getTier b msg n w = Ok (w', u) →
  registry_ok keccak256 (self w').
Proof.
  intros Hok Hc. unfold renew_one in Hc. tx_inv Hc; reg_inv; zbool.
  match goal with Hx : self ?x = self _ |- _ => rewrite Hx in * end.
  pose proof (n_good _ _ _ (o_names _ _ Hok) (keccak256 n)) as [R1 R2 R3].
  eapply (modify_ok keccak256 (keccak256 n) _ (self w) _ Hok); [reflexivity| |done..]. split; [exact R1|exact R2|]. cbn.
  pose proof (uint_range 48 (timestamp msg) ltac:(lia)). pose proof (uint_range 48 (expirationPeriod (self w)) ltac:(lia)).
  unfold max_uint48 in *. change (record_at (subdomains (self w)) (keccak256 n)) with (rec (keccak256 n) (self w)) in *.
  destruct (_ || _); lia.
Qed.

Lemma renew_all_keeps msg ns w w' u :
  registry_ok keccak256 (self w) → renew_all this keccak256 getTier msg ns w = Ok (w', u) →
  registry_ok keccak256 (self w').
Proof.
  revert w. induction ns as [|n ns IH]; intros w Hok Hc; cbn in Hc; [by tx_inv Hc|].
  apply tx_bind_Ok in Hc as (w1 & u1 & H3 & Hc). apply renew_keeps in H3; [|done]. by eapply IH.
Qed.

Lemma fold_mark_reserved ns s :
  subdomains (fold_left (λ s n, mark_reserved keccak256 n true s) ns s) = subdomains s ∧
  nameOf (fold_left (λ s n, mark_reserved keccak256 n true s) ns s) = nameOf s ∧
  _ownedNames (fold_left (λ s n, mark_reserved keccak256 n true s) ns s) = _ownedNames s ∧
  setting_values (fold_left (λ s n, mark_reserved keccak256 n true s) ns s) = setting_values s.
Proof.
  revert s. induction ns as [|n ns IH]; intros s; [done|]. cbn.
  destruct (IH (mark_reserved keccak256 n true s)) as (-> & -> & -> & ->). done.
Qed.

Lemma registry_exec_ok msg c w w' u :
  call_wf c → sender msg ≠ 0%N → 0 ≤ timestamp msg ≤ max_time → registry_ok keccak256 (self w) →
  exec this keccak256 getTier msg c w = Ok (w', u) → registry_ok keccak256 (self w').
Proof.
  intros Hwf Hs0 Ht Hok Hc. pose proof (o_settings _ _ Hok) as Hset. destruct c; cbn [exec call_wf] in *;
    unfold register, registerWithReferral, bulkRegister, renew, bulkRenew, claimReservation, cancelReservation, release,
      transferName, updateDeployment, setMetadata, reclaimSquatted, setPrimaryName, setRegistrationFee, setTreasury, setChangeFee,
      setExpirationPeriod, setGracePeriod, setReservationPeriod, setSquattingGracePeriod, setReferralDiscountBps,
      setReferralRewardBps, setStakingContract, setShortNamesEnabled, setReservedName, batchReserveNames, pause, unpause,
      set_pause, fee_allowed, period_allowed in Hc.
  all: try (by apply reserve_keeps in Hc).
  all: tx_inv Hc; reg_inv; zbool; cbn [self].
  all: try solve [first [eapply register_keeps; eassumption | eapply register_all_keeps; eassumption
    | eapply renew_keeps; eassumption | eapply renew_all_keeps; eassumption]].
  1: { (* claimReservation *)
    pose proof (n_good _ _ _ (o_names _ _ Hok) (keccak256 name)) as [R1 R2 R3].
    eapply (modify_ok keccak256 (keccak256 name) _ (self w) _ Hok); [reflexivity| |done..]. by split. }
  1: by eapply (drop_ok keccak256 (keccak256 name) (self w)); [done|by apply (freed_taken keccak256)|..].
  1: { (* release *)
    match goal with Hx : clear_primary _ _ _ = Ok _ |- _ => apply clear_primary_Ok in Hx as [->| ->] end;
      by eapply (drop_ok keccak256 (keccak256 name) (self w)); [done|by apply (freed_taken keccak256)|..]. }
  1: { (* transfer *)
    destruct (n_name _ _ _ (o_names _ _ Hok) (keccak256 name)) as (n & Hn & Hk & Hv); [done|].
    pose proof (n_good _ _ _ (o_names _ _ Hok) (keccak256 name)) as [R1 R2 R3].
    eapply (give_ok keccak256 (keccak256 name) n (set_owner_of newOwner (rec (keccak256 name) (self w))) (self w));
      [done|by apply (freed_taken keccak256)|..]; try done.
    - split; [intros _; by apply R1|done|done].
    - cbn. by rewrite insert_id. }
  1: { (* updateDeployment *)
    pose proof (n_good _ _ _ (o_names _ _ Hok) (keccak256 name)) as [R1 R2 R3].
    match goal with Hx : clear_primary _ _ _ = Ok _ |- _ => apply clear_primary_Ok in Hx as [->| ->] end;
    match goal with Hx : self ?x = self w |- _ => rewrite Hx end;
    (eapply (modify_ok keccak256 (keccak256 name) _ (self w) _ Hok); [reflexivity|by split|done..]). }
  1: match goal with Hx : self ?x = self w |- _ => rewrite Hx end; apply (same_ok keccak256 (self w)); try done; by apply (settings_same (self w)).
  1-2: by eapply (drop_ok keccak256 (keccak256 name) (self w)); [done|by apply (freed_taken keccak256)|..].
  14: { destruct (fold_mark_reserved names0 (self w)) as (E1 & E2 & E3 & E4). eapply (same_ok keccak256 (self w)); try done.
    by apply (settings_same (self w)). }
  all: try done; apply (same_ok keccak256 (self w)); try done; destruct Hset; split; try done; cbn; try lia.
Qed.

(** ** A name is safe with its owner *)

(** Not past its grace period, and no reservation that has run out. *)
Definition protected (now : Z) (h : Z) (s : State) : Prop :=
  owner_of (rec h s) ≠ 0%N ∧ now ≤ expiresAt (rec h s) + gracePeriod s ∧
  (reservedUntil (rec h s) = 0 ∨ now ≤ reservedUntil (rec h s)).

Lemma rec_put h r s x : rec x (put_rec h r s) = if decide (h = x) then r else rec x s.
Proof. unfold rec. cbn. rewrite lookup_insert. by case_decide. Qed.

Lemma rec_same s s' h : subdomains s' = subdomains s → rec h s' = rec h s.
Proof. unfold rec. by intros ->. Qed.

(** A protected name is not given up. *)
Lemma clear_stale_protected msg h w w' u :
  protected (timestamp msg) h (self w) → clear_stale msg h w = Ok (w', u) → False.
Proof.
  intros (Ho & He & Hr) Hc. unfold clear_stale in Hc. tx_inv Hc; reg_inv; [done|..]; zbool; destruct_or!; lia.
Qed.

Lemma clear_for_reserve_protected msg h w w' u :
  protected (timestamp msg) h (self w) → clear_for_reserve msg h w = Ok (w', u) → False.
Proof.
  intros (Ho & He & Hr) Hc. unfold clear_for_reserve in Hc. tx_inv Hc; reg_inv; [done|]. zbool. destruct_or!; lia.
Qed.

Section Protected.
Context (msg : message) (h : Z) (Hsend : sender msg ≠ 0%N) (Ht : 0 ≤ timestamp msg ≤ max_time).

Lemma register_protects n dep ref w w' u :
  registry_ok keccak256 (self w) → protected (timestamp msg) h (self w) →
  _registerInternal this keccak256 getTier msg n dep ref w = Ok (w', u) →
  rec h (self w') = rec h (self w) ∧ gracePeriod (self w') = gracePeriod (self w).
Proof.
  intros Hok Hp Hc. unfold _registerInternal in Hc.
  destruct (decide (keccak256 n = h)) as [<-|Hne].
  { exfalso. tx_inv Hc; reg_inv; by eapply clear_stale_protected. }
  tx_inv Hc; reg_inv;
    match goal with Hx : clear_stale _ _ _ = Ok _ |- _ => apply clear_stale_freed in Hx as [F1 _ _ _ F5]; [|done] end;
    match goal with Hx : self ?x = self _ |- context [self ?x] => rewrite Hx end; cbn;
    (split; [|unfold setting_values in F5; by simplify_eq]).
  all: unfold rec; cbn; rewrite lookup_insert_ne by done; by rewrite F1.
Qed.

Lemma register_all_protects ns ds w w' u :
  registry_ok keccak256 (self w) → protected (timestamp msg) h (self w) →
  register_all this keccak256 getTier msg ns ds w = Ok (w', u) → rec h (self w') = rec h (self w).
Proof.
  revert ds w. induction ns as [|n ns IH]; intros [|d ds] w Hok Hp Hc; cbn in Hc; try (by tx_inv Hc).
  apply tx_bind_Ok in Hc as (w1 & u1 & H3 & Hc). apply register_keeps in H3 as Hok1; [|done..].
  apply register_protects in H3 as [E1 E2]; [|done..]. rewrite <-E1. eapply IH; [done| |done].
  unfold protected in *. by rewrite E1, E2.
Qed.

Lemma renew_protects b n w w' u :
  owner_of (rec h (self w)) ≠ sender msg →
  renew_one this keccak256 getTier b msg n w = Ok (w', u) → rec h (self w') = rec h (self w).
Proof.
  intros Hne Hc. unfold renew_one in Hc. tx_inv Hc; reg_inv.
  match goal with Hx : self ?x = self _ |- _ => rewrite Hx in * end.
  rewrite rec_put, decide_False; [done|]. intros Hh. apply Hne. by rewrite <-Hh.
Qed.

Lemma renew_all_protects ns w w' u :
  owner_of (rec h (self w)) ≠ sender msg →
  renew_all this keccak256 getTier msg ns w = Ok (w', u) → rec h (self w') = rec h (self w).
Proof.
  revert w. induction ns as [|n ns IH]; intros w Hne Hc; cbn in Hc; [by tx_inv Hc|].
  apply tx_bind_Ok in Hc as (w1 & u1 & H3 & Hc). apply renew_protects in H3 as E1; [|done].
  rewrite <-E1. eapply IH; [|done]. by rewrite E1.
Qed.

Lemma reserve_protects n w w' u :
  registry_ok keccak256 (self w) → protected (timestamp msg) h (self w) →
  reserve this keccak256 getTier msg n w = Ok (w', u) → rec h (self w') = rec h (self w).
Proof.
  intros Hok Hp Hc. unfold reserve in Hc.
  destruct (decide (keccak256 n = h)) as [<-|Hne].
  { exfalso. tx_inv Hc; reg_inv; by eapply clear_for_reserve_protected. }
  tx_inv Hc; reg_inv;
    match goal with Hx : clear_for_reserve _ _ _ = Ok _ |- _ => apply clear_for_reserve_freed in Hx as [F1 _ _ _ _]; [|done] end;
    match goal with Hx : self ?x = self _ |- context [self ?x] => rewrite Hx end.
  all: unfold rec; cbn; rewrite lookup_insert_ne by done; by rewrite F1.
Qed.

(** Only the owner of a protected name can call a function that changes its record. *)
Lemma exec_protects c w w' u :
  registry_ok keccak256 (self w) → protected (timestamp msg) h (self w) → owner_of (rec h (self w)) ≠ sender msg →
  exec this keccak256 getTier msg c w = Ok (w', u) → rec h (self w') = rec h (self w).
Proof.
  intros Hok Hp Hne Hc.
  destruct c; cbn [exec] in Hc;
    unfold register, registerWithReferral, bulkRegister, renew, bulkRenew, claimReservation, cancelReservation, release,
      transferName, updateDeployment, setMetadata, reclaimSquatted, setPrimaryName, setRegistrationFee, setTreasury, setChangeFee,
      setExpirationPeriod, setGracePeriod, setReservationPeriod, setSquattingGracePeriod, setReferralDiscountBps,
      setReferralRewardBps, setStakingContract, setShortNamesEnabled, setReservedName, batchReserveNames, pause, unpause,
      set_pause, fee_allowed, period_allowed in Hc.
  all: try (by eapply reserve_protects).
  all: tx_inv Hc; reg_inv; cbn [self].
  all: try solve [first [eapply register_protects; eassumption | eapply register_all_protects; eassumption
    | eapply renew_protects; eassumption | eapply renew_all_protects; eassumption | reflexivity]].
  all: try (destruct (decide (keccak256 name = h)) as [Hh|Hh]; [rewrite <-Hh in *|]).
  all: try done.
  all: try match goal with Hx : clear_primary _ _ _ = Ok _ |- _ => apply clear_primary_Ok in Hx as [->| ->] end.
  all: try match goal with Hx : self ?x = self _ |- context [self ?x] => rewrite Hx end.
  all: try done; unfold rec; cbn; try (by rewrite ?lookup_insert_ne, ?lookup_delete_ne by done).
  1-2: exfalso; destruct Hp as (Ho & He & Hr);
    pose proof (n_good _ _ _ (o_names _ _ Hok) (keccak256 name)) as [R1 R2 R3]; zbool.
  - destruct_or!; lia.
  - destruct E0 as [Hd Hz]. exact (R1 Ho Hz Hd).
  - by destruct (fold_mark_reserved names0 (self w)) as (-> & _).
Qed.
End Protected.

(** ** Fees *)

Lemma user_price_at n a w w1 w2 p :
  user_price getTier n a w = Ok (w1, p) → registrationFee (self w2) = registrationFee (self w) →
  stakingContract (self w2) = stakingContract (self w) → user_price getTier n a w2 = Ok (w2, p).
Proof.
  intros Hc E1 E2. revert Hc. unfold user_price, _calculatePrice, _applyStakingDiscount.
  with_strategy transparent [get read mul div sub of_option]
    (unfold mbind, tx_bind, get, read, mul, div, sub, of_option, mret, tx_ret, fail).
  rewrite E1. intros Hc. repeat (case_match; simplify_eq; rewrite ?E2); congruence.
Qed.

Lemma staking_discount_range price a w w' p :
  0 ≤ price → _applyStakingDiscount getTier price a w = Ok (w', p) → 0 ≤ p.
Proof.
  intros Hp Hc. unfold _applyStakingDiscount in Hc. tx_inv Hc; [done|]. case_match; tx_inv Hc; zbool; lia.
Qed.

Lemma user_price_nonneg n a w w' p : 0 ≤ registrationFee (self w) → user_price getTier n a w = Ok (w', p) → 0 ≤ p.
Proof.
  intros Hf Hc. unfold user_price in Hc. apply tx_bind_Ok in Hc as (w1 & price & Hp & Hc).
  apply (staking_discount_range price) in Hc; [done|]. unfold _calculatePrice in Hp. tx_inv Hp; try done.
  all: apply Z.mul_nonneg_nonneg; [done|vm_compute; discriminate].
Qed.

Lemma collectFee_moves payer n ref rew w w' u :
  0 ≤ n → 0 ≤ rew → (n = 0 → rew = 0) → _collectFee this payer n ref rew w = Ok (w', u) →
  0 ≤ n - n * BURN_BPS / BPS_DENOMINATOR - rew ∧
  ∀ a, balanceOf (tok w') a = balanceOf (tok w) a - share a payer n
    + share a (treasury (self w)) (n - n * BURN_BPS / BPS_DENOMINATOR - rew) + share a ref rew.
Proof.
  intros Hn Hr Hz Hc. unfold _collectFee in Hc. tx_inv Hc; zbool.
  { rewrite Hz by done. subst n. change (0 * BURN_BPS / BPS_DENOMINATOR) with 0. split; [done|]. intros a. unfold share. repeat case_decide; lia. }
  assert (Hb : 0 ≤ n * BURN_BPS / BPS_DENOMINATOR) by (apply Z.div_pos; [unfold BURN_BPS; lia|reflexivity]).
  set (b := n * BURN_BPS / BPS_DENOMINATOR) in *. split; [lia|]. intros who.
  repeat match goal with
  | Hx : safeTransferFrom _ _ _ _ _ = Ok _ |- _ => apply safeTransferFrom_Ok in Hx as (? & _ & _ & ?); [|lia]
  | Hx : burn_some _ _ _ = Ok _ |- _ => apply burn_some_Ok in Hx as (? & _ & _ & ?); [|lia]
  | Hx : pay _ _ _ _ = Ok _ |- _ => apply pay_Ok in Hx as (? & _ & _ & ?); [|lia]
  end.
  repeat match goal with Hx : ∀ _, balanceOf _ _ = _ |- _ => specialize (Hx who) end.
  assert (Es : self w1 = self w) by congruence. rewrite <-Es.
  unfold share in *. repeat case_decide; lia.
Qed.

(** The discount and the reward of a referral leave the burn and the treasury
    their parts. *)
Lemma referral_affordable p w w' d r :
  settings (self w) → 0 ≤ p → _applyReferralDiscount p w = Ok (w', (d, r)) →
  0 ≤ d ≤ p ∧ 0 ≤ r ∧ (d = 0 → r = 0) ∧ r ≤ d - d * BURN_BPS / BPS_DENOMINATOR ∧
  d = p - p * referralDiscountBps (self w) / BPS_DENOMINATOR ∧ r = p * referralRewardBps (self w) / BPS_DENOMINATOR.
Proof.
  intros [_ _ _ _ Hd Hr _ _ _] Hp Hc. unfold _applyReferralDiscount in Hc. tx_inv Hc.
  unfold BPS_DENOMINATOR, BURN_BPS in *. set (x := referralDiscountBps (self w)) in *. set (y := referralRewardBps (self w)) in *.
  assert (p * x / 10000 ≤ p * 2000 / 10000) by (apply Z.div_le_mono; nia).
  assert (p * y / 10000 ≤ p * 1000 / 10000) by (apply Z.div_le_mono; nia).
  assert (0 ≤ p * x / 10000) by (apply Z.div_pos; nia). assert (0 ≤ p * y / 10000) by (apply Z.div_pos; nia).
  split_and!; try reflexivity; Z.to_euclidean_division_equations; lia.
Qed.

(** Taking a name from its old owner touches neither the fees nor the token. *)
Definition fee_view (w : chain State T G) := (registrationFee (self w), stakingContract (self w), setting_values (self w), tok w).

Lemma clear_stale_fees msg h : keeps fee_view (clear_stale msg h : tx (chain State T G) RegistryErr unit).
Proof. unfold clear_stale, _isFullyExpired, clear_primary. frame. Qed.

Lemma referral_books msg n dep ref w w' u :
  settings (self w) → registerWithReferral this keccak256 getTier msg n dep ref w = Ok (w', u) →
  ∃ p, user_price getTier n (sender msg) w = Ok (w, p) ∧
    let d := p - p * referralDiscountBps (self w) / BPS_DENOMINATOR in
    let r := p * referralRewardBps (self w) / BPS_DENOMINATOR in
    let kept := d - d * BURN_BPS / BPS_DENOMINATOR - r in
    0 ≤ r ∧ 0 ≤ kept ∧
    ∀ a, balanceOf (tok w') a =
      balanceOf (tok w) a - share a (sender msg) d + share a (treasury (self w)) kept + share a ref r.
Proof.
  intros Hset Hc. unfold registerWithReferral, _registerInternal in Hc. tx_inv Hc; addr_bool; [|done].
  destruct a4 as [d r]; cbn [fst snd] in *.
  match goal with Hx : check_name _ _ _ _ = Ok _ |- _ => apply check_name_Ok in Hx as [-> _] end.
  match goal with Hx : check_room _ _ = Ok _ |- _ => apply check_room_Ok in Hx as [-> _] end.
  match goal with Hx : clear_stale _ _ _ = Ok _ |- _ => apply clear_stale_fees in Hx as Hk end.
  pose proof (f_equal (λ v, v.1.1.1) Hk) as K1. pose proof (f_equal (λ v, v.1.1.2) Hk) as K2.
  pose proof (f_equal (λ v, v.1.2) Hk) as K3. pose proof (f_equal (λ v, v.2) Hk) as K4. cbn [fst snd fee_view] in K1, K2, K3, K4.
  match goal with Hx : user_price _ _ _ _ = Ok _ |- _ => apply user_price_same in Hx as Ew; subst; pose proof Hx as Hup;
    apply user_price_nonneg in Hx as Hp; [|destruct (g_fee _ Hset) as [E1|E1]; unfold MIN_REGISTRATION_FEE in E1; lia] end.
  match goal with Hx : _applyReferralDiscount _ _ = Ok _ |- _ => apply referral_same in Hx as Ew; subst;
    apply referral_affordable in Hx as (Hd & Hr & Hz & Hle & -> & ->); [|by apply (settings_same (self w))|done] end.
  match goal with Hx : _collectFee _ _ _ _ _ _ = Ok _ |- _ => apply collectFee_moves in Hx as [Hkept Hm]; [|lia..] end.
  assert (K5 : referralDiscountBps (self w2) = referralDiscountBps (self w)) by (unfold setting_values in K3; congruence).
  assert (K6 : referralRewardBps (self w2) = referralRewardBps (self w)) by (unfold setting_values in K3; congruence).
  assert (K7 : treasury (self w2) = treasury (self w)) by (unfold setting_values in K3; congruence).
  exists a2. split; [by eapply user_price_at|]. by rewrite <-K4, <-K5, <-K6, <-K7.
Qed.
End Calls.

(** ** Histories *)

Section Claims.
Context {T G : Type} `{TokenLaws T} `{BaseContracts G} (this : Addr) (keccak256 : string → Z).
Implicit Types w : chain State T G.

(** Just deployed. *)
Definition deployed w : Prop := ∃ token tr fee o st, 0 ≤ fee ∧ constructor token tr fee o st = Some (self w).

Lemma registry_history_ok w0 w : deployed w0 → rtc (step this keccak256) w0 w → registry_ok keccak256 (self w).
Proof.
  intros (token & tr & fee & o & st & Hf & Hi). apply (registry_initial keccak256) in Hi; [|done].
  induction 1 as [|w1 w2 w3 Hst _ IH]; [done|]. apply IH. destruct Hst; cbn [self]; try done.
  apply commit_inv; [|done]. intros w' u. by apply registry_exec_ok.
Qed.

(** C14: invariant.  After any history of calls the owners' lists are an exact index of
    the records: a name is in the list of an account precisely if the account owns it,
    once, at most 100 per account; and every name in use is valid and stored under its
    own hash, so that resolving back and forth agrees. *)
Theorem registry_index_exact w0 w :
  deployed w0 → rtc (step this keccak256) w0 w →
  (∀ a h, h ∈ owned a (self w) ↔ a ≠ 0%N ∧ owner_of (rec h (self w)) = a) ∧
  (∀ a, NoDup (owned a (self w)) ∧ Z.of_nat (length (owned a (self w))) ≤ MAX_NAMES_PER_OWNER) ∧
  (∀ h, owner_of (rec h (self w)) ≠ 0%N → ∃ n, nameOf (self w) !! h = Some n ∧ keccak256 n = h ∧ name_valid n = true).
Proof.
  intros Hd Hh. destruct (registry_history_ok w0 w Hd Hh) as [[Hi Hn Hr] [_ Hnames] _].
  split_and!; [|intros a; split; [apply Hn|apply Hr]|exact Hnames]. intros a h. etrans; [apply Hi|]. unfold all. tauto.
Qed.

(** C13: safety.  A name stays with its owner: until the grace period after its expiry is
    over (and, for a reservation, until it runs out), no call by anybody else, the
    owner of the contract included, changes anything in its record. *)
Theorem name_protected w0 w getTier msg c w' u h :
  deployed w0 → rtc (step this keccak256) w0 w → sender msg ≠ 0%N → 0 ≤ timestamp msg ≤ max_time →
  protected (timestamp msg) h (self w) → owner_of (rec h (self w)) ≠ sender msg →
  exec this keccak256 getTier msg c w = Ok (w', u) → rec h (self w') = rec h (self w).
Proof. intros Hd Hh. intros. eapply exec_protects; try done. by eapply registry_history_ok. Qed.

(** C22: functional.  What a registration with a referral costs: the payer pays the
    discounted price, 80% of which is burnt; the referrer gets the reward computed from
    the full price, the treasury the rest, which is never negative, and the registry
    itself keeps nothing. *)
Theorem referral_fee_distributed w0 w getTier msg n dep ref w' u :
  deployed w0 → rtc (step this keccak256) w0 w →
  registerWithReferral this keccak256 getTier msg n dep ref w = Ok (w', u) →
  ∃ p, user_price getTier n (sender msg) w = Ok (w, p) ∧
    let d := p - p * referralDiscountBps (self w) / BPS_DENOMINATOR in
    let r := p * referralRewardBps (self w) / BPS_DENOMINATOR in
    let kept := d - d * BURN_BPS / BPS_DENOMINATOR - r in
    0 ≤ r ∧ 0 ≤ kept ∧
    ∀ a, balanceOf (tok w') a =
      balanceOf (tok w) a - share a (sender msg) d + share a (treasury (self w)) kept + share a ref r.
Proof. intros Hd Hh. apply (referral_books this keccak256). by eapply registry_history_ok. Qed.

(** A registered name always has a deployment, so the second ground of
    [reclaimSquatted] never applies. *)
Theorem registered_name_in_use w0 w h :
  deployed w0 → rtc (step this keccak256) w0 w → owner_of (rec h (self w)) ≠ 0%N → reservedUntil (rec h (self w)) = 0 →
  deploymentID (rec h (self w)) ≠ 0.
Proof. intros Hd Hh. apply (n_good _ _ _ (o_names _ _ (registry_history_ok w0 w Hd Hh)) h). Qed.
End Claims.

(** ** Which names are valid *)

Definition letter_or_digit (c : ascii) : Prop :=
  (48 ≤ N_of_ascii c ≤ 57)%N ∨ (97 ≤ N_of_ascii c ≤ 122)%N.
Definition hyphen (c : ascii) : Prop := N_of_ascii c = 45%N.

(** 1 to 32 characters, all of them lower-case letters, digits or hyphens, the first
    and the last not a hyphen, and no two hyphens in a row. *)
Definition well_formed_name (name : string) : Prop :=
  let b := String.list_ascii_of_string name in
  1 ≤ Z.of_nat (length b) ≤ 32 ∧ (∀ c, c ∈ b → letter_or_digit c ∨ hyphen c) ∧
  (∀ c, head b = Some c → letter_or_digit c) ∧ (∀ c, last b = Some c → letter_or_digit c) ∧
  (∀ i c d, b !! i = Some c → b !! S i = Some d → hyphen c → ¬ hyphen d).

Definition no_double (b : list ascii) : Prop :=
  ∀ i c d, b !! i = Some c → b !! S i = Some d → hyphen c → ¬ hyphen d.

Lemma alphanumeric_spec c : _isAlphanumeric c = true ↔ letter_or_digit c.
Proof.
  unfold _isAlphanumeric, letter_or_digit. rewrite orb_true_iff, !andb_true_iff, !N.leb_le. done.
Qed.

Lemma hyphen_spec c : is_hyphen c = true ↔ hyphen c.
Proof. apply N.eqb_eq. Qed.

Lemma letter_not_hyphen c : letter_or_digit c → ¬ hyphen c.
Proof. unfold letter_or_digit, hyphen. lia. Qed.

Lemma no_double_cons c d b : no_double (c :: d :: b) ↔ (hyphen c → ¬ hyphen d) ∧ no_double (d :: b).
Proof.
  split.
  - intros Hn. split; [by apply (Hn 0%nat)|]. intros i. apply (Hn (S i)).
  - intros [Hh Hn] [|i] x y; cbn; [|apply Hn]. intros [= ->] [= ->]. done.
Qed.

Lemma no_double_snoc b c : ¬ hyphen c → no_double (b ++ [c]) ↔ no_double b.
Proof.
  intros Hc. split; intros Hn i x y Hx Hy.
  - apply (Hn i); by apply lookup_app_l_Some.
  - apply lookup_app_Some in Hy as [Hy|[_ Hy]].
    + apply (Hn i); [|done]. rewrite lookup_app_l in Hx; [done|]. apply lookup_lt_Some in Hy. lia.
    + apply list_lookup_singleton_Some in Hy as [_ <-]. done.
Qed.

Lemma middle_valid_spec c b :
  middle_valid (is_hyphen c) b = true ↔ (∀ x, x ∈ b → letter_or_digit x ∨ hyphen x) ∧ no_double (c :: b).
Proof.
  revert c. induction b as [|d b IH]; intros c; cbn.
  { split; [|done]. intros _. split; [set_solver|]. by intros [|i]. }
  rewrite no_double_cons.
  transitivity ((letter_or_digit d ∨ hyphen d) ∧ (hyphen c → ¬ hyphen d) ∧ middle_valid (is_hyphen d) b = true).
  - rewrite <-alphanumeric_spec, <-!hyphen_spec.
    destruct (_isAlphanumeric d), (is_hyphen d), (is_hyphen c); cbn; intuition congruence.
  - rewrite IH. split.
    + intros (Hd & Hh & Hb & Hn). split; [|done]. intros x [-> | Hx]%elem_of_cons; [done|by apply Hb].
    + intros (Hb & Hh & Hn). split_and!; [apply Hb; set_solver|done| |done]. intros x Hx. apply Hb. set_solver.
Qed.

Lemma not_hyphen_false c : ¬ hyphen c → is_hyphen c = false.
Proof. intros Hc. apply not_true_iff_false. by rewrite hyphen_spec. Qed.

Lemma name_ends x m y :
  (Z.of_nat (length (x :: m ++ [y])) <=? 32) && _isAlphanumeric x && _isAlphanumeric y && middle_valid false m = true ↔
  1 ≤ Z.of_nat (length (x :: m ++ [y])) ≤ 32 ∧ (∀ c, c ∈ x :: m ++ [y] → letter_or_digit c ∨ hyphen c) ∧
  (∀ c, Some x = Some c → letter_or_digit c) ∧ (∀ c, Some y = Some c → letter_or_digit c) ∧ no_double ((x :: m) ++ [y]).
Proof.
  rewrite !andb_true_iff, Z.leb_le, !alphanumeric_spec. split.
  - intros [[[Hl Hx] Hy] Hm]. pose proof (letter_not_hyphen x Hx) as Hnx. pose proof (letter_not_hyphen y Hy) as Hny.
    rewrite <-(not_hyphen_false x Hnx), middle_valid_spec in Hm. destruct Hm as [Hm Hd].
    split_and!; [cbn; lia|done| |congruence|congruence|by apply no_double_snoc].
    intros c [->|[Hc|Hc]%elem_of_app]%elem_of_cons; [by left|by apply Hm|]. apply list_elem_of_singleton in Hc as ->. by left.
  - intros ([_ Hl] & Hc & Hx & Hy & Hd). specialize (Hx x eq_refl). specialize (Hy y eq_refl). split_and!; try done.
    rewrite <-(not_hyphen_false x) by (by apply letter_not_hyphen). apply middle_valid_spec.
    split; [|by apply no_double_snoc in Hd; [|by apply letter_not_hyphen]].
    intros c Hin. apply Hc. set_solver.
Qed.

(** C33: equivalence.  The one-pass check of the registry accepts exactly the names of 1
    to 32 characters made of lower-case letters, digits and hyphens that neither start
    nor end with a hyphen and have no two hyphens in a row. *)
Theorem validate_name_spec name : name_valid name = true ↔ well_formed_name name.
Proof.
  unfold name_valid, well_formed_name. fold (no_double (String.list_ascii_of_string name)).
  generalize (String.list_ascii_of_string name) as b. intros b.
  destruct b as [|x b]; [cbn; lia|]. destruct (exists_last (l := x :: b)) as (m & y & Hm); [done|].
  destruct m as [|x' m]; cbn in Hm; injection Hm as <- ->.
  - cbn. rewrite andb_true_r, !andb_true_iff, alphanumeric_spec.
    split.
    + intros ((_ & Hx) & _). split_and!; [lia|lia| | | |].
      * intros c ->%list_elem_of_singleton. by left.
      * by intros c [= <-].
      * by intros c [= <-].
      * by intros [|i].
    + intros (_ & _ & Hx & _). specialize (Hx x eq_refl). done.
  - assert (Ht : take (length (x :: m ++ [y]) - 2) (drop 1 (x :: m ++ [y])) = m).
    { cbn [drop]. rewrite drop_0. apply take_app_length'. cbn. rewrite length_app. cbn. lia. }
    assert (Hl : last (x :: m ++ [y]) = Some y) by apply (last_snoc _ (x :: m)).
    rewrite Ht, Hl. apply name_ends.
Qed.

(** ** Runs *)

#[export] Instance registry_call_wf_dec c : Decision (call_wf c).
Proof. destruct c; apply _. Defined.

(** An injective stand-in for the hash, and users without a staking tier.  The registry
    99 charges 1000 tokens per name; 10 and 20 have 100,000 each; 50 is the treasury. *)
Definition digits (name : string) : Z :=
  fold_left (λ n c, n * 256 + Z.of_N (N_of_ascii c)) (String.list_ascii_of_string name) 1.
Definition no_tier (_ _ : Addr) : option Z := None.
Abbreviation registry_world := (chain State ledger admin).
Definition tokens (n : Z) : N := Z.to_N (n * 10 ^ 18).
Definition empty_registry : State :=
  mkState 50 (1000 * 10 ^ 18) 0 (365 * days) (30 * days) (48 * hours) (10000 * 10 ^ 18) 1000 500 (7 * days) false ∅ ∅ ∅ ∅ ∅ ∅.
Definition registry_start : registry_world :=
  mkChain empty_registry (<[10%N := tokens 100000]> (<[20%N := tokens 100000]> ∅)) (mkAdmin 1 false).
Definition registry_play : registry_world → list (message * call) → option registry_world :=
  runs (exec 99 digits no_tier) call_wf 99.

Lemma registry_start_deployed : deployed registry_start.
Proof. exists 2%N, 50%N, (1000 * 10 ^ 18), 1%N, 0%N. split; [lia|]. vm_compute. reflexivity. Qed.

(** 10 registers a name. *)
Definition one_name : registry_world := commit (exec 99 digits no_tier (at_ 10 1000) (CallRegister "alpha" 77)) registry_start.
Lemma one_name_history : rtc (step 99 digits) registry_start one_name.
Proof. apply rtc_once. apply step_call; [done|done|done|vm_compute; split; discriminate]. Qed.

Example registry_index_exact_witness : digits "alpha" ∈ owned 10 (self one_name).
Proof.
  destruct (registry_index_exact 99 digits registry_start one_name registry_start_deployed one_name_history) as [Hi _].
  apply Hi. split; [discriminate|vm_compute; reflexivity].
Defined.

(** A day later 20 takes another name; 10 keeps its own. *)
Definition two_names : registry_world := commit (exec 99 digits no_tier (at_ 20 90000) (CallReferral "beta1" 78 10)) one_name.
Lemma two_names_run : exec 99 digits no_tier (at_ 20 90000) (CallReferral "beta1" 78 10) one_name = Ok (two_names, tt).
Proof. vm_compute. reflexivity. Qed.

Example name_protected_witness : rec (digits "alpha") (self two_names) = rec (digits "alpha") (self one_name).
Proof.
  refine (name_protected 99 digits registry_start one_name no_tier (at_ 20 90000) (CallReferral "beta1" 78 10) two_names tt
    (digits "alpha") registry_start_deployed one_name_history _ _ _ _ two_names_run).
  - discriminate.
  - vm_compute. split; discriminate.
  - vm_compute. split; [discriminate|]. split; [discriminate|]. by left.
  - vm_compute. discriminate.
Defined.

Lemma Ok_value {E W A} (w w' : W) (p q : A) : (Ok (w, p) : result E (W * A)) = Ok (w', q) → p = q.
Proof. by intros [= _ ->]. Qed.

(** The referral costs 900 tokens, of which 720 are burnt and 10 gets 50. *)
Example referral_fee_distributed_witness :
  balanceOf (tok two_names) 10%N = balanceOf (tok one_name) 10%N + 50 * 10 ^ 18 ∧
  balanceOf (tok two_names) 99%N = balanceOf (tok one_name) 99%N.
Proof.
  destruct (referral_fee_distributed 99 digits registry_start one_name no_tier (at_ 20 90000) "beta1" 78 10 two_names tt
    registry_start_deployed one_name_history two_names_run) as (p & Hp & _ & _ & Hb).
  assert (Hc : user_price no_tier "beta1" 20 one_name = Ok (one_name, 1000 * 10 ^ 18)) by (vm_compute; reflexivity).
  pose proof (Ok_value _ _ _ _ (eq_trans (eq_sym Hp) Hc)) as ->. split; rewrite Hb; vm_compute; reflexivity.
Defined.

(** ** Where names and deployments come apart *)

Definition view {A} (m : tx registry_world RegistryErr A) (w : registry_world) : option A :=
  match m w with Ok (_, a) => Some a | Revert _ => None end.

(** Nobody checks whose deployment a name points to: 20 points a name of its own at
    the deployment of 10 and becomes its primary name. *)
Definition hijack : list (message * call) :=
  [(at_ 10 1000, CallRegister "alice-app" 77); (at_ 10 1001, CallSetPrimary "alice-app");
   (at_ 20 2000, CallRegister "mallory" 77); (at_ 20 2001, CallSetPrimary "mallory")].

Theorem primary_name_taken_over :
  registry_play registry_start (take 2 hijack) ≫= view (reverseResolve 77) = Some "alice-app" ∧
  registry_play registry_start hijack ≫= view (reverseResolve 77) = Some "mallory".
Proof. vm_compute. split; reflexivity. Qed.

(** A name that is reserved after it has expired keeps its old primary entry and its
    old metadata: the deployment of 10 resolves back to a name that 20 owns and that
    points elsewhere. *)
Definition reserve_expired : list (message * call) :=
  [(at_ 10 1000, CallRegister "alpha" 77); (at_ 10 1001, CallSetPrimary "alpha"); (at_ 10 1002, CallSetMetadata "alpha" "mine" "a.png");
   (at_ 20 (1000 + 396 * days), CallReserve "alpha"); (at_ 20 (1001 + 396 * days), CallClaim "alpha" 88)].

Theorem reserved_name_keeps_old_entries :
  registry_play registry_start reserve_expired ≫= view (reverseResolve 77) = Some "alpha" ∧
  registry_play registry_start reserve_expired ≫= view (resolve digits "alpha") = Some (20%N, 88, 1000 + 396 * days) ∧
  (λ w : registry_world, metadata (self w) !! digits "alpha") <$> registry_play registry_start reserve_expired
    = Some (Some (mkMetadata "mine" "a.png")).
Proof. vm_compute. split; [reflexivity|]. split; reflexivity. Qed.

(** A reservation that is given its deployment by [updateDeployment] rather than by
    [claimReservation] is still a reservation: anybody takes it from its owner when the
    reservation runs out, although it is in use. *)
Definition used_reservation : list (message * call) :=
  [(at_ 10 1000, CallReserve "gamma"); (at_ 10 1001, CallUpdate "gamma" 77); (at_ 20 (1001 + 48 * hours), CallReclaim "gamma")].

Theorem used_reservation_reclaimed :
  registry_play registry_start (take 2 used_reservation) ≫= view (resolve digits "gamma") = Some (10%N, 77, 1000) ∧
  registry_play registry_start used_reservation ≫= view (resolve digits "gamma") = Some (0%N, 0, 0).
Proof. vm_compute. split; reflexivity. Qed.
