(* ===== verification/BunkerEdgeRegistry.v ===== *)
(** * The edge-provider registry contract (src/contracts/src/BunkerEdgeRegistry.sol)

    Registration, freezing and slashing of edge providers.  The registry holds no
    tokens: it reads the stakes of the staking contract and slashes them there.  Its
    world is its own storage, the world of the staking contract of [BunkerStaking] (in
    the place other contracts have their token) and its base contracts; a call to the
    staking contract runs the staking contract's own code with the registry as sender.
    The theorems are in [BunkerEdgeSafety]. *)

From S2P Require Import Prelude Solidity BunkerToken BunkerStaking.
Local Open Scope Z_scope.

Module EdgeRegistry.

Definition SLASHER_ROLE : string := "SLASHER_ROLE".
Definition MIN_EDGE_STAKE_FLOOR : Z := 1000000 * 10 ^ 18.
Definition MIN_EDGE_STAKE_CEILING : Z := 1000000000 * 10 ^ 18.
Definition APPEAL_WINDOW_FLOOR : Z := 12 * hours.
Definition APPEAL_WINDOW_CEILING : Z := 14 * days.

Record EdgeProviderInfo := mkInfo {
  nodeId : Z;   (** bytes32 *)
  region : Z;   (** bytes32 *)
  registeredAt : Z;   (** uint48 *)
  active : bool;
  frozen : bool;
  endpointURL : string;
  tlsPubkeyHash : string   (** bytes *)
}.

Definition set_frozen (v : bool) (r : EdgeProviderInfo) : EdgeProviderInfo :=
  mkInfo (nodeId r) (region r) (registeredAt r) (active r) v (endpointURL r) (tlsPubkeyHash r).
Definition set_endpointURL (v : string) (r : EdgeProviderInfo) : EdgeProviderInfo :=
  mkInfo (nodeId r) (region r) (registeredAt r) (active r) (frozen r) v (tlsPubkeyHash r).
Definition set_tlsPubkeyHash (v : string) (r : EdgeProviderInfo) : EdgeProviderInfo :=
  mkInfo (nodeId r) (region r) (registeredAt r) (active r) (frozen r) (endpointURL r) v.

Record EdgeSlashProposal := mkProposal {
  provider : Addr;
  amount : Z;   (** uint128 *)
  proposedAt : Z;   (** uint48 *)
  executed : bool;
  appealed : bool;
  resolved : bool;
  appealWindowSnapshot : Z;
  reason : string
}.

Definition set_executed (v : bool) (r : EdgeSlashProposal) : EdgeSlashProposal :=
  mkProposal (provider r) (amount r) (proposedAt r) v (appealed r) (resolved r)
    (appealWindowSnapshot r) (reason r).
Definition set_appealed (v : bool) (r : EdgeSlashProposal) : EdgeSlashProposal :=
  mkProposal (provider r) (amount r) (proposedAt r) (executed r) v (resolved r)
    (appealWindowSnapshot r) (reason r).
Definition set_resolved (v : bool) (r : EdgeSlashProposal) : EdgeSlashProposal :=
  mkProposal (provider r) (amount r) (proposedAt r) (executed r) (appealed r) v
    (appealWindowSnapshot r) (reason r).

Definition no_info : EdgeProviderInfo := mkInfo 0 0 0 false false "" "".
Definition no_proposal : EdgeSlashProposal := mkProposal 0 0 0 false false false 0 "".

Record State := mkState {
  minStakeForEdge : Z;
  appealWindow : Z;
  slashingEnabled : bool;
  edgeProviders : gmap Addr EdgeProviderInfo;
  nodeIdToEdgeProvider : gmap Z Addr;
  slashProposalCount : Z;
  slashProposals : gmap Z EdgeSlashProposal
}.

Definition set_minStakeForEdge (v : Z) (r : State) : State :=
  mkState v (appealWindow r) (slashingEnabled r) (edgeProviders r) (nodeIdToEdgeProvider r)
    (slashProposalCount r) (slashProposals r).
Definition set_appealWindow (v : Z) (r : State) : State :=
  mkState (minStakeForEdge r) v (slashingEnabled r) (edgeProviders r) (nodeIdToEdgeProvider r)
    (slashProposalCount r) (slashProposals r).
Definition set_slashingEnabled (v : bool) (r : State) : State :=
  mkState (minStakeForEdge r) (appealWindow r) v (edgeProviders r) (nodeIdToEdgeProvider r)
    (slashProposalCount r) (slashProposals r).
Definition set_edgeProviders (v : gmap Addr EdgeProviderInfo) (r : State) : State :=
  mkState (minStakeForEdge r) (appealWindow r) (slashingEnabled r) v (nodeIdToEdgeProvider r)
    (slashProposalCount r) (slashProposals r).
Definition set_nodeIdToEdgeProvider (v : gmap Z Addr) (r : State) : State :=
  mkState (minStakeForEdge r) (appealWindow r) (slashingEnabled r) (edgeProviders r) v
    (slashProposalCount r) (slashProposals r).
Definition set_slashProposalCount (v : Z) (r : State) : State :=
  mkState (minStakeForEdge r) (appealWindow r) (slashingEnabled r) (edgeProviders r)
    (nodeIdToEdgeProvider r) v (slashProposals r).
Definition set_slashProposals (v : gmap Z EdgeSlashProposal) (r : State) : State :=
  mkState (minStakeForEdge r) (appealWindow r) (slashingEnabled r) (edgeProviders r)
    (nodeIdToEdgeProvider r) (slashProposalCount r) v.

Inductive EdgeErr :=
  | ZeroAddress | ZeroAmount | InsufficientStake | InsufficientSlashableBalance | AlreadyRegistered | NotActive
  | NodeIdAlreadyClaimed | ProviderIsFrozen | SlashingNotEnabled | InvalidProposalId | ProposalAlreadyExecuted
  | AppealWindowNotElapsed | AppealWindowElapsed | ProposalAppealed | ProposalNotAppealed | ProposalAlreadyResolved
  | NotProposalProvider | InvalidMinStake | InvalidAppealWindow.

Definition info (a : Addr) (s : State) : EdgeProviderInfo := default no_info (edgeProviders s !! a).
Definition node_owner (n : Z) (s : State) : Addr := default 0%N (nodeIdToEdgeProvider s !! n).
Definition proposal (id : Z) (s : State) : EdgeSlashProposal := default no_proposal (slashProposals s !! id).
Definition put_info (a : Addr) (i : EdgeProviderInfo) (s : State) : State := set_edgeProviders (<[a := i]> (edgeProviders s)) s.
Definition put_node (n : Z) (a : Addr) (s : State) : State := set_nodeIdToEdgeProvider (<[n := a]> (nodeIdToEdgeProvider s)) s.
Definition delete_node (n : Z) (s : State) : State := set_nodeIdToEdgeProvider (delete n (nodeIdToEdgeProvider s)) s.
Definition put_proposal (id : Z) (p : EdgeSlashProposal) (s : State) : State :=
  set_slashProposals (<[id := p]> (slashProposals s)) s.

(** [None] is a revert of the constructor. *)
Definition constructor (_stakingContract _initialOwner : Addr) : option State :=
  if (_initialOwner =? 0)%N then None    (* OwnableInvalidOwner *)
  else if (_stakingContract =? 0)%N || (_initialOwner =? 0)%N then None
  else Some (mkState (50000000 * 10 ^ 18) (48 * hours) false ∅ ∅ 0 ∅).

Section Operations.
Context {T G GS : Type} `{Token T} `{BaseContracts G} `{BaseContracts GS}.
(** The addresses of the registry and of the staking contract. *)
Context (this stakingContract : Addr).
Abbreviation staking_world := (chain Staking.State T GS).
Abbreviation M := (tx (chain State staking_world G) EdgeErr).

(** A call to the staking contract; its revert is passed on. *)
Definition call_staking {A} (m : tx staking_world Staking.StakingErr A) : M A :=
  λ w, match m (tok w) with
       | Ok (sw, a) => Ok (mkChain (self w) sw (base w), a)
       | Revert _ => Revert ExternalRevert
       end.
Definition staking_info (p : Addr) : M Staking.ProviderInfo := call_staking (Staking.getProviderInfo p).
Definition staking_slash (now : Z) (p : Addr) (n : Z) : M unit :=
  call_staking (Staking.slash stakingContract (mkMsg this now) p n).

(** ** Registration *)

Definition _requireMinStake (p : Addr) : M unit :=
  i ← staking_info p;
  required ← get minStakeForEdge;
  revert_if (Staking.stakedAmount i <? required) InsufficientStake.

Definition registerEdgeProvider (msg : message) (node reg : Z) (url tls : string) : M unit :=
  whenNotPaused;;
  i ← get (info (sender msg));
  revert_if (active i) AlreadyRegistered;;
  revert_if (frozen i) ProviderIsFrozen;;
  o ← get (node_owner node);
  revert_if (negb (node =? 0) && negb (o =? 0)%N) NodeIdAlreadyClaimed;;
  _requireMinStake (sender msg);;
  put (put_info (sender msg) (mkInfo node reg (uint 48 (timestamp msg)) true (frozen i) url tls));;
  when (negb (node =? 0)) (put (put_node node (sender msg))).

Definition deregisterEdgeProvider (msg : message) : M unit :=
  i ← get (info (sender msg));
  revert_if (negb (active i)) NotActive;;
  when (negb (nodeId i =? 0)) (put (delete_node (nodeId i)));;
  put (put_info (sender msg) (mkInfo 0 0 (registeredAt i) false (frozen i) "" "")).

Definition updateEndpoint (msg : message) (url tls : string) : M unit :=
  i ← get (info (sender msg));
  revert_if (negb (active i)) NotActive;;
  revert_if (frozen i) ProviderIsFrozen;;
  put (put_info (sender msg) (set_tlsPubkeyHash tls (set_endpointURL url i))).

Definition freezeEdgeProvider (msg : message) (p : Addr) : M unit :=
  onlyRole SLASHER_ROLE msg;;
  i ← get (info p);
  revert_if (negb (active i)) NotActive;;
  put (put_info p (set_frozen true i)).

Definition unfreezeEdgeProvider (msg : message) (p : Addr) : M unit :=
  onlyOwner msg;;
  i ← get (info p);
  put (put_info p (set_frozen false i)).

(** ** Slash proposals and appeals *)

Definition _getValidProposal (id : Z) : M EdgeSlashProposal :=
  count ← get slashProposalCount;
  revert_if (count <=? id) InvalidProposalId;;
  get (proposal id).

Definition proposeEdgeSlash (msg : message) (p : Addr) (n : Z) (why : string) : M Z :=
  onlyRole SLASHER_ROLE msg;;
  revert_if (p =? 0)%N ZeroAddress;;
  revert_if (n =? 0) ZeroAmount;;
  i ← get (info p);
  revert_if (negb (active i)) NotActive;;
  si ← staking_info p;
  slashable ← add (Staking.stakedAmount si) (Staking.unbonding si);
  revert_if (slashable <? n) InsufficientSlashableBalance;;
  id ← get slashProposalCount;
  next ← add id 1;
  put (set_slashProposalCount next);;
  window ← get appealWindow;
  put (put_proposal id (mkProposal p n (uint 48 (timestamp msg)) false false false window why));;
  mret id.

Definition executeEdgeSlash (msg : message) (id : Z) : M unit :=
  onlyRole SLASHER_ROLE msg;;
  enabled ← get slashingEnabled;
  revert_if (negb enabled) SlashingNotEnabled;;
  p ← _getValidProposal id;
  revert_if (executed p) ProposalAlreadyExecuted;;
  revert_if (appealed p) ProposalAppealed;;
  windowEnd ← add (proposedAt p) (appealWindowSnapshot p);
  revert_if (timestamp msg <? windowEnd) AppealWindowNotElapsed;;
  put (put_proposal id (set_executed true p));;
  staking_slash (timestamp msg) (provider p) (amount p).

Definition appealEdgeSlash (msg : message) (id : Z) : M unit :=
  p ← _getValidProposal id;
  revert_if (executed p) ProposalAlreadyExecuted;;
  revert_if (appealed p) ProposalAppealed;;
  revert_if (negb (sender msg =? provider p)%N) NotProposalProvider;;
  windowEnd ← add (proposedAt p) (appealWindowSnapshot p);
  revert_if (windowEnd <=? timestamp msg) AppealWindowElapsed;;
  put (put_proposal id (set_appealed true p)).

Definition resolveEdgeSlashAppeal (msg : message) (id : Z) (uphold : bool) : M unit :=
  onlyOwner msg;;
  p ← _getValidProposal id;
  revert_if (negb (appealed p)) ProposalNotAppealed;;
  revert_if (resolved p) ProposalAlreadyResolved;;
  revert_if (executed p) ProposalAlreadyExecuted;;
  put (put_proposal id (set_resolved true p));;
  when uphold (
    enabled ← get slashingEnabled;
    revert_if (negb enabled) SlashingNotEnabled;;
    put (put_proposal id (set_executed true (set_resolved true p)));;
    staking_slash (timestamp msg) (provider p) (amount p)).

(** ** Administration and views *)

Definition setMinStakeForEdge (msg : message) (n : Z) : M unit :=
  onlyOwner msg;;
  revert_if ((n <? MIN_EDGE_STAKE_FLOOR) || (MIN_EDGE_STAKE_CEILING <? n)) InvalidMinStake;;
  put (set_minStakeForEdge n).
Definition setAppealWindow (msg : message) (n : Z) : M unit :=
  onlyOwner msg;;
  revert_if ((n <? APPEAL_WINDOW_FLOOR) || (APPEAL_WINDOW_CEILING <? n)) InvalidAppealWindow;;
  put (set_appealWindow n).
Definition setSlashingEnabled (msg : message) (b : bool) : M unit := onlyOwner msg;; put (set_slashingEnabled b).
Definition pause (msg : message) : M unit := onlyOwner msg;; set_pause true.
Definition unpause (msg : message) : M unit := onlyOwner msg;; set_pause false.

Definition isActiveEdgeProvider (p : Addr) : M bool := get (λ s, active (info p s) && negb (frozen (info p s))).
Definition getEdgeProviderInfo (p : Addr) : M EdgeProviderInfo := get (info p).
Definition getEdgeSlashProposal (id : Z) : M EdgeSlashProposal := get (proposal id).

(** ** Calls *)

Inductive call :=
  | CallRegister (node reg : Z) (url tls : string)
  | CallDeregister
  | CallUpdateEndpoint (url tls : string)
  | CallFreeze (p : Addr)
  | CallUnfreeze (p : Addr)
  | CallPropose (p : Addr) (n : Z) (why : string)
  | CallExecute (id : Z)
  | CallAppeal (id : Z)
  | CallResolve (id : Z) (uphold : bool)
  | CallSetMinStake (n : Z)
  | CallSetWindow (n : Z)
  | CallSetSlashing (b : bool)
  | CallPause
  | CallUnpause.

(** Numbers are unsigned and amounts have 128 bits. *)
Definition call_wf (c : call) : Prop :=
  match c with
  | CallPropose _ n _ => 0 ≤ n ≤ max_uint128
  | CallExecute id | CallAppeal id | CallResolve id _ => 0 ≤ id
  | CallSetMinStake n | CallSetWindow n => 0 ≤ n
  | _ => True
  end.

Definition exec (msg : message) (c : call) : M unit :=
  match c with
  | CallRegister node reg url tls => registerEdgeProvider msg node reg url tls
  | CallDeregister => deregisterEdgeProvider msg
  | CallUpdateEndpoint url tls => updateEndpoint msg url tls
  | CallFreeze p => freezeEdgeProvider msg p
  | CallUnfreeze p => unfreezeEdgeProvider msg p
  | CallPropose p n why => proposeEdgeSlash msg p n why;; mret tt
  | CallExecute id => executeEdgeSlash msg id
  | CallAppeal id => appealEdgeSlash msg id
  | CallResolve id uphold => resolveEdgeSlashAppeal msg id uphold
  | CallSetMinStake n => setMinStakeForEdge msg n
  | CallSetWindow n => setAppealWindow msg n
  | CallSetSlashing b => setSlashingEnabled msg b
  | CallPause => pause msg
  | CallUnpause => unpause msg
  end.

(** A history of the two contracts together: calls to the registry, any step of the
    staking contract by others, and changes of the base contracts. *)
Inductive step : chain State staking_world G → chain State staking_world G → Prop :=
  | step_call msg c w :
      call_wf c → sender msg ≠ this → sender msg ≠ 0%N → 0 ≤ timestamp msg ≤ max_uint48 →
      (∀ a, balanceOf (tok (tok w)) a ≤ SUPPLY_CAP) → step w (commit (exec msg c) w)
  | step_staking w sw : Staking.step stakingContract (tok w) sw → step w (mkChain (self w) sw (base w))
  | step_base w g : step w (mkChain (self w) (tok w) g).
End Operations.
End EdgeRegistry.
