(* ===== verification/BunkerEdgeSafety.v ===== *)
(** * The edge-provider registry: its theorems

    The registry composed with the staking contract: what it does there is a history
    of the staking contract, stakes are slashed only with due process, once per
    proposal and by exactly the amount, node identities are unique, and where a slash
    can be evaded. *)

From S2P Require Import Prelude Solidity BunkerToken Unbonding BunkerStaking BunkerStakingBooks Runs BunkerStakingSafety BunkerEdgeRegistry.
Import EdgeRegistry.
Local Open Scope Z_scope.

Section Calls.
Context {T G GS : Type} `{TokenLaws T} `{BaseContracts G} `{BaseContracts GS}.
Context (this stakingContract : Addr).
Implicit Types w : chain State (chain Staking.State T GS) G.

Lemma call_staking_Ok {A} (m : tx (chain Staking.State T GS) Staking.StakingErr A) w w' a :
  call_staking m w = Ok (w', a) ↔ ∃ sw, m (tok w) = Ok (sw, a) ∧ w' = mkChain (self w) sw (base w).
Proof.
  unfold call_staking. destruct (m (tok w)) as [[sw b]|e]; [|naive_solver]. split.
  - intros [= <- <-]. eauto.
  - intros (sw' & [= <- <-] & ->). done.
Qed.

Lemma staking_info_Ok p w w' i : staking_info p w = Ok (w', i) → w' = w ∧ i = Staking.provider p (self (tok w)).
Proof.
  unfold staking_info, Staking.getProviderInfo. intros (sw & Hg & ->)%call_staking_Ok. tx_inv Hg. by destruct w.
Qed.

Lemma valid_proposal_Ok id w w' p :
  EdgeRegistry._getValidProposal id w = Ok (w', p) → w' = w ∧ p = proposal id (self w) ∧ id < slashProposalCount (self w).
Proof. intros Hc. unfold EdgeRegistry._getValidProposal in Hc. tx_inv Hc. zbool. done. Qed.

Ltac edge_inv :=
  repeat match goal with
  | Hx : _requireMinStake _ _ = Ok _ |- _ => unfold _requireMinStake in Hx; tx_inv Hx
  | Hx : staking_info _ _ = Ok _ |- _ => apply staking_info_Ok in Hx as [? ?]; subst
  | Hx : EdgeRegistry._getValidProposal _ _ = Ok _ |- _ => apply valid_proposal_Ok in Hx as (? & ? & ?); subst
  | Hx : staking_slash _ _ _ _ _ _ = Ok _ |- _ => unfold staking_slash in Hx; apply call_staking_Ok in Hx as (? & ? & ?); subst
  | Hx : negb _ = false |- _ => apply negb_false_iff in Hx
  | Hx : negb _ = true |- _ => apply negb_true_iff in Hx
  end; cbn [self tok base] in *.

(** ** What a call does to the proposals and to the stakes *)

(** A step of a proposal; [slashed] says whether its amount is taken. *)
Inductive edge_step (msg : message) w : bool → EdgeSlashProposal → EdgeSlashProposal → Prop :=
  | es_appeal p : executed p = false → appealed p = false → sender msg = provider p →
      timestamp msg < proposedAt p + appealWindowSnapshot p → edge_step msg w false p (set_appealed true p)
  | es_execute p : executed p = false → appealed p = false → hasRole (base w) SLASHER_ROLE (sender msg) = true →
      slashingEnabled (self w) = true → proposedAt p + appealWindowSnapshot p ≤ timestamp msg →
      edge_step msg w true p (set_executed true p)
  | es_dismiss p : executed p = false → appealed p = true → resolved p = false → sender msg = owner (base w) →
      edge_step msg w false p (set_resolved true p)
  | es_uphold p : executed p = false → appealed p = true → resolved p = false → sender msg = owner (base w) →
      slashingEnabled (self w) = true → edge_step msg w true p (set_executed true (set_resolved true p)).

Inductive edge_effect (msg : message) w w' : Prop :=
  | ee_same : slashProposals (self w') = slashProposals (self w) →
      slashProposalCount (self w') = slashProposalCount (self w) → tok w' = tok w → edge_effect msg w w'
  | ee_new p : let n := slashProposalCount (self w) in
      slashProposals (self w') = <[n := p]> (slashProposals (self w)) → slashProposalCount (self w') = n + 1 →
      tok w' = tok w → 0 < amount p ≤ max_uint128 → hasRole (base w) SLASHER_ROLE (sender msg) = true →
      active (info (provider p) (self w)) = true → provider p ≠ 0%N →
      amount p ≤ Staking.stakedAmount (Staking.provider (provider p) (self (tok w)))
        + Staking.unbonding (Staking.provider (provider p) (self (tok w))) →
      p = mkProposal (provider p) (amount p) (uint 48 (timestamp msg)) false false false (appealWindow (self w)) (reason p) →
      edge_effect msg w w'
  | ee_step b id p' : 0 ≤ id < slashProposalCount (self w) →
      slashProposals (self w') = <[id := p']> (slashProposals (self w)) →
      slashProposalCount (self w') = slashProposalCount (self w) →
      edge_step msg w b (proposal id (self w)) p' →
      (if b then ∃ u, Staking.slash stakingContract (mkMsg this (timestamp msg)) (provider p') (amount p') (tok w) = Ok (tok w', u)
       else tok w' = tok w) → edge_effect msg w w'.

Lemma edge_exec_effect msg c w w' u :
  call_wf c → exec this stakingContract msg c w = Ok (w', u) → edge_effect msg w w'.
Proof.
  intros Hwf Hc. destruct c; cbn [exec call_wf] in *;
    unfold registerEdgeProvider, deregisterEdgeProvider, updateEndpoint, freezeEdgeProvider, unfreezeEdgeProvider,
      proposeEdgeSlash, executeEdgeSlash, appealEdgeSlash, resolveEdgeSlashAppeal, setMinStakeForEdge, setAppealWindow,
      setSlashingEnabled, pause, unpause, set_pause in Hc; tx_inv Hc; edge_inv; zbool.
  all: try by apply ee_same.
  - eapply ee_new; try reflexivity; cbn; try done; [lia|]. by apply N.eqb_neq.
  - eapply (ee_step _ _ _ true id); try reflexivity; [lia|by constructor|eauto].
  - eapply (ee_step _ _ _ false id); try reflexivity; [lia|constructor; try done]. by apply N.eqb_eq.
  - eapply (ee_step _ _ _ true id); cbn; [lia|by rewrite insert_insert_eq|done|by constructor|eauto].
  - eapply (ee_step _ _ _ false id); try reflexivity; [lia|by constructor].
Qed.

(** ** Well-formed storage *)

Record edge_proposal_ok (p : EdgeSlashProposal) : Prop := {
  ep_amount : 0 < amount p ≤ max_uint128;
  ep_window : APPEAL_WINDOW_FLOOR ≤ appealWindowSnapshot p ≤ APPEAL_WINDOW_CEILING;
  ep_time : 0 ≤ proposedAt p ≤ max_uint48;
  ep_resolved : resolved p = true → appealed p = true;
  ep_provider : provider p ≠ 0%N
}.

Record edge_settings (s : State) : Prop := {
  se_stake : MIN_EDGE_STAKE_FLOOR ≤ minStakeForEdge s ≤ MIN_EDGE_STAKE_CEILING;
  se_window : APPEAL_WINDOW_FLOOR ≤ appealWindow s ≤ APPEAL_WINDOW_CEILING
}.

Record edge_proposals (s : State) : Prop := {
  sp_count : 0 ≤ slashProposalCount s;
  sp_dense : ∀ id, 0 ≤ id < slashProposalCount s → edge_proposal_ok (proposal id s);
  sp_none : ∀ id, ¬ 0 ≤ id < slashProposalCount s → slashProposals s !! id = None
}.

(** The node identities of the active providers and their reverse mapping. *)
Record edge_nodes (s : State) : Prop := {
  sn_owner : ∀ a, nodeId (info a s) ≠ 0 → node_owner (nodeId (info a s)) s = a;
  sn_node : ∀ n, node_owner n s ≠ 0%N → n ≠ 0 ∧ nodeId (info (node_owner n s) s) = n;
  sn_active : ∀ a, active (info a s) = false → nodeId (info a s) = 0;
  sn_zero : active (info 0 s) = false
}.

Lemma edge_step_ok msg w b p p' : edge_proposal_ok p → edge_step msg w b p p' → edge_proposal_ok p'.
Proof. intros [] Hs. destruct Hs; split; cbn; done. Qed.

Lemma edge_effect_ok msg w w' :
  edge_settings (self w) → edge_proposals (self w) → edge_effect msg w w' → edge_proposals (self w').
Proof.
  intros Hset [Hc Hd Hn] [E1 E2 _|p n E1 E2 _ Ha _ _ Hp _ Heq|b id p' Hid E1 E2 Hs _]; split; try lia; intros i Hi;
    unfold proposal in *; rewrite E1 in *.
  - apply Hd. lia.
  - apply Hn. lia.
  - rewrite lookup_insert. case_decide; [|apply Hd; lia]. cbn. rewrite Heq in *. cbn in *. split; try done.
    + apply Hset.
    + by apply uint_range.
  - rewrite lookup_insert_ne by lia. apply Hn. lia.
  - rewrite lookup_insert. case_decide; [|apply Hd; lia]. cbn. eapply edge_step_ok, Hs. by apply Hd.
  - rewrite lookup_insert_ne by lia. apply Hn. lia.
Qed.

Lemma edge_exec_settings msg c w w' u :
  edge_settings (self w) → exec this stakingContract msg c w = Ok (w', u) → edge_settings (self w').
Proof.
  intros [H1' H2'] Hc. destruct c; cbn [exec] in Hc;
    unfold registerEdgeProvider, deregisterEdgeProvider, updateEndpoint, freezeEdgeProvider, unfreezeEdgeProvider,
      proposeEdgeSlash, executeEdgeSlash, appealEdgeSlash, resolveEdgeSlashAppeal, setMinStakeForEdge, setAppealWindow,
      setSlashingEnabled, pause, unpause, set_pause in Hc; tx_inv Hc; edge_inv; zbool; by split.
Qed.

Lemma info_put a i s b : info b (put_info a i s) = if decide (a = b) then i else info b s.
Proof. unfold info. cbn. rewrite lookup_insert. by case_decide. Qed.

Lemma node_put n a s m : node_owner m (put_node n a s) = if decide (n = m) then a else node_owner m s.
Proof. unfold node_owner. cbn. rewrite lookup_insert. by case_decide. Qed.

Lemma node_delete n s m : node_owner m (delete_node n s) = if decide (n = m) then 0%N else node_owner m s.
Proof. unfold node_owner. cbn. rewrite lookup_delete. by case_decide. Qed.

(** Storage that differs in other fields only. *)
Lemma nodes_same s s' :
  edge_nodes s → (∀ a, nodeId (info a s') = nodeId (info a s) ∧ active (info a s') = active (info a s)) →
  (∀ n, node_owner n s' = node_owner n s) → edge_nodes s'.
Proof.
  intros [H1' H2' H3' H4'] Hi Hn. split.
  - intros a. rewrite (proj1 (Hi a)), Hn. apply H1'.
  - intros n. rewrite Hn, (proj1 (Hi _)). apply H2'.
  - intros a. rewrite (proj1 (Hi a)), (proj2 (Hi a)). apply H3'.
  - by rewrite (proj2 (Hi _)).
Qed.

Lemma nodes_modify a i s :
  edge_nodes s → nodeId i = nodeId (info a s) → active i = active (info a s) → edge_nodes (put_info a i s).
Proof. intros Hok H1' H2'. apply (nodes_same s); [done| |done]. intros b. rewrite info_put. case_decide; by subst. Qed.

(** A provider that was not active takes a free node identity. *)
Lemma nodes_register a i n s :
  edge_nodes s → active (info a s) = false → a ≠ 0%N → active i = true → nodeId i = n → n ≠ 0 → node_owner n s = 0%N →
  edge_nodes (put_node n a (put_info a i s)).
Proof.
  intros [H1' H2' H3' H4'] Ha Ha0 Hi Hn Hn0 Hfree.
  assert (Hinfo : ∀ b, info b (put_node n a (put_info a i s)) = info b (put_info a i s)) by done. split.
  - intros b. rewrite Hinfo, info_put, node_put. destruct (decide (a = b)) as [<-|Hb].
    + intros _. by rewrite decide_True.
    + intros Hnb. specialize (H1' b Hnb). case_decide as Hm; [|done]. rewrite <-Hm in H1'.
      rewrite Hfree in H1'. subst b. by rewrite (H3' _ H4') in Hnb.
  - intros m. rewrite Hinfo, node_put, info_put. case_decide as Hm.
    + intros _. rewrite decide_True by done. by subst.
    + change (node_owner m (put_info a i s)) with (node_owner m s). intros Ho. destruct (H2' m Ho) as [Hm0 Hmo].
      split; [done|]. rewrite decide_False; [done|]. intros ->. rewrite (H3' _ Ha) in Hmo. congruence.
  - intros b. rewrite Hinfo, info_put. case_decide; [congruence|apply H3'].
  - by rewrite Hinfo, info_put, decide_False.
Qed.

(** One that has none takes none. *)
Lemma nodes_none a i s :
  edge_nodes s → nodeId (info a s) = 0 → nodeId i = 0 → (active i = true → a ≠ 0%N) → edge_nodes (put_info a i s).
Proof.
  intros [H1' H2' H3' H4'] Ha Hn Ha0. split.
  - intros b. rewrite info_put. case_decide; [done|apply H1'].
  - intros m Ho. destruct (H2' m Ho) as [Hm0 Hmo]. split; [done|]. change (node_owner m (put_info a i s)) with (node_owner m s).
    rewrite info_put. case_decide as Hab; [|done]. subst a. congruence.
  - intros b. rewrite info_put. case_decide; [done|apply H3'].
  - rewrite info_put. case_decide; [|done]. apply not_true_iff_false. intros Hx. by apply Ha0.
Qed.

(** A provider gives up its node identity. *)
Lemma nodes_deregister a i s :
  edge_nodes s → nodeId (info a s) ≠ 0 → nodeId i = 0 → active i = false → edge_nodes (put_info a i (delete_node (nodeId (info a s)) s)).
Proof.
  intros [H1' H2' H3' H4'] Ha Hn Hact. set (s1 := delete_node (nodeId (info a s)) s).
  assert (Hinfo : ∀ b, info b (put_info a i s1) = if decide (a = b) then i else info b s) by (intros b; apply (info_put a i s1)).
  assert (Hnode : ∀ m, node_owner m (put_info a i s1) = if decide (nodeId (info a s) = m) then 0%N else node_owner m s)
    by (intros m; apply (node_delete _ s)).
  split.
  - intros b. rewrite Hinfo. case_decide as Hab; [done|]. intros Hb. rewrite Hnode. case_decide as Hm; [|by apply H1'].
    exfalso. apply Hab. rewrite <-(H1' a Ha), <-(H1' b Hb). by rewrite Hm.
  - intros m. rewrite Hnode. case_decide as Hm; [done|]. intros Ho. destruct (H2' m Ho) as [Hm0 Hmo]. split; [done|].
    rewrite Hinfo. case_decide as Hab; [|done]. subst a. congruence.
  - intros b. rewrite Hinfo. case_decide; [done|apply H3'].
  - rewrite Hinfo. by case_decide.
Qed.

Lemma edge_exec_nodes msg c w w' u :
  sender msg ≠ 0%N → edge_nodes (self w) → exec this stakingContract msg c w = Ok (w', u) → edge_nodes (self w').
Proof.
  intros Hs0 Hok Hc. destruct c; cbn [exec] in Hc;
    unfold registerEdgeProvider, deregisterEdgeProvider, updateEndpoint, freezeEdgeProvider, unfreezeEdgeProvider,
      proposeEdgeSlash, executeEdgeSlash, appealEdgeSlash, resolveEdgeSlashAppeal, setMinStakeForEdge, setAppealWindow,
      setSlashingEnabled, pause, unpause, set_pause in Hc; tx_inv Hc; edge_inv; zbool; try done.
  8-15: by apply (nodes_same (self w)).
  - apply nodes_register; try done. destruct_or!; [done|by apply N.eqb_eq].
  - apply nodes_none; try done. by apply Hok.
  - by apply nodes_deregister.
  - by apply nodes_none.
  - by apply nodes_modify.
  - by apply nodes_modify.
  - by apply nodes_modify.
Qed.

(** ** Histories of the two contracts *)

Context (Hthis : this ≠ stakingContract) (Hthis0 : this ≠ 0%N).
Abbreviation edge_world_step := (EdgeRegistry.step (T := T) (G := G) (GS := GS) this stakingContract).

Record edge_ok (s : State) : Prop := {
  eo_settings : edge_settings s;
  eo_proposals : edge_proposals s;
  eo_nodes : edge_nodes s
}.

(** Both contracts just deployed. *)
Definition edge_deployed w : Prop :=
  (∃ o, EdgeRegistry.constructor stakingContract o = Some (self w)) ∧ initial (tok w).

Lemma edge_initial w : edge_deployed w → edge_ok (self w).
Proof.
  intros [[o Hc] _]. unfold EdgeRegistry.constructor in Hc. repeat case_match; try done. injection Hc as <-.
  split; split; cbn [minStakeForEdge appealWindow slashProposalCount].
  1-2: vm_compute; split; discriminate.
  1-2: lia.
  1: done.
  all: unfold info, node_owner; cbn [edgeProviders nodeIdToEdgeProvider]; try intros ?; rewrite ?lookup_empty; done.
Qed.

Lemma edge_history_ok w0 w : edge_deployed w0 → rtc edge_world_step w0 w → edge_ok (self w).
Proof.
  intros Hi%edge_initial. induction 1 as [|w1 w2 w3 Hst _ IH]; [done|]. apply IH. clear IH.
  destruct Hst as [msg c w1 Hwf _ Hs0 _ _| |]; [|done..]. apply (commit_inv _ (λ w, edge_ok (self w))); [|done].
  intros w' u Hc. destruct Hi. split.
  - by eapply edge_exec_settings.
  - eapply edge_effect_ok; [done..|]. by eapply edge_exec_effect.
  - by eapply edge_exec_nodes.
Qed.

(** A call that changes the staking contract is one step of it. *)
Lemma edge_call_staking msg c w :
  call_wf c → 0 ≤ timestamp msg → edge_proposals (self w) → (∀ a, balanceOf (tok (tok w)) a ≤ SUPPLY_CAP) →
  let w' := commit (exec this stakingContract msg c) w in
  tok w' = tok w ∨ Staking.step stakingContract (tok w) (tok w').
Proof.
  intros Hwf Ht Hp Hcap. cbn zeta. unfold commit. destruct (exec _ _ _ _ _) as [[w' u]|e] eqn:Hc; [|by left].
  apply edge_exec_effect in Hc as [| |[] id p' Hid _ _ Hs Hsl]; try (by left); [|done]. right. destruct Hsl as [u' Hsl].
  destruct (sp_dense _ Hp id Hid) as [Ha _ _ _ _].
  assert (Ha' : 0 ≤ amount p') by (inversion Hs; subst; cbn; lia).
  replace (tok w') with (commit (Staking.exec stakingContract (mkMsg this (timestamp msg))
    (Staking.CallSlash (provider p') (amount p'))) (tok w)) by (unfold commit; cbn [Staking.exec]; by rewrite Hsl).
  by apply Staking.step_call.
Qed.

Lemma edge_nsteps_ok n w0 w : edge_deployed w0 → nsteps edge_world_step n w0 w → edge_ok (self w).
Proof. intros Hd Hs. eapply edge_history_ok; [done|]. apply rtc_nsteps. eauto. Qed.

Lemma edge_projects n w0 w :
  edge_deployed w0 → nsteps edge_world_step n w0 w →
  ∃ m, (m ≤ n)%nat ∧ nsteps (Staking.step stakingContract) m (tok w0) (tok w).
Proof.
  intros Hd. revert w. induction n as [|n IH]; intros w Hs.
  { inversion Hs; subst. exists 0%nat. split; [done|constructor]. }
  apply nsteps_inv_r in Hs as (w1 & Hs & Hlast). destruct (IH w1 Hs) as (m & Hm & Hst).
  pose proof (edge_nsteps_ok _ _ _ Hd Hs) as [_ Hp _].
  assert (Hone : tok w = tok w1 ∨ Staking.step stakingContract (tok w1) (tok w)).
  { destruct Hlast as [msg c w1 Hwf _ _ Ht Hcap|w1 sw Hsw|w1 g]; [|by right|by left].
    apply edge_call_staking; try done. lia. }
  destruct Hone as [->|Hone]; [exists m; split; [lia|done]|].
  exists (S m). split; [lia|]. by eapply nsteps_r.
Qed.

(** What the staking contract takes when the registry slashes. *)
Lemma edge_slash_takes m sw0 sw sw' msg p n u :
  initial sw0 → nsteps (Staking.step stakingContract) m sw0 sw → Z.of_nat m < max_steps → 0 ≤ n →
  Staking.slash stakingContract msg p n sw = Ok (sw', u) →
  let i := Staking.provider p (self sw) in let i' := Staking.provider p (self sw') in
  Staking.stakedAmount i' = Staking.stakedAmount i - Z.min n (Staking.stakedAmount i) ∧
  Staking.unbonding i' = Staking.unbonding i - (n - Z.min n (Staking.stakedAmount i)) ∧
  ∀ q, q ≠ p → Staking.stakedAmount (Staking.provider q (self sw')) = Staking.stakedAmount (Staking.provider q (self sw)) ∧
    Staking.unbonding (Staking.provider q (self sw')) = Staking.unbonding (Staking.provider q (self sw)).
Proof.
  intros Hi Hs Hm Hn Hc i i'. destruct (history_good stakingContract m sw0 sw Hi Hs ltac:(lia)) as [Hk Hp _ _].
  destruct (slashImmediate_slash stakingContract _ _ Hk (max_steps_bound m Hm) Hp msg p n sw' u Hn Hc)
    as (w3 & He & _ & f & _ & _ & _ & F4 & _).
  injection He as E1 E2 E3 E4 E5 E6. rewrite E2 in F4. destruct F4 as [_ _ B3 B4 _ _ B7].
  split_and!; [exact B3|exact B4|]. intros q Hq. destruct (B7 q Hq) as (Q1 & Q2 & _). done.
Qed.

(** ** Theorems *)

(** C12: safety.  The registry takes stake only with due process and then exactly what was
    proposed.  In any history, a call to the registry either leaves the staking contract
    alone and executes no proposal, or it executes one proposal: slashing is enabled, the
    proposal was not executed before, and either a slasher calls after the full appeal
    window without an appeal, or the owner upholds an appeal not yet resolved.  Then the
    provider loses the proposed amount, active stake first, and nobody else anything. *)
Theorem edge_slash_due_process n w0 w1 w2 msg c u :
  edge_deployed w0 → nsteps edge_world_step n w0 w1 → Z.of_nat n < max_steps → call_wf c →
  exec this stakingContract msg c w1 = Ok (w2, u) →
  (tok w2 = tok w1 ∧ ∀ id, executed (proposal id (self w2)) = executed (proposal id (self w1))) ∨
  ∃ id, let p := proposal id (self w1) in
    let i := Staking.provider (provider p) (self (tok w1)) in
    let i' := Staking.provider (provider p) (self (tok w2)) in
    (0 ≤ id < slashProposalCount (self w1) ∧ executed p = false ∧ executed (proposal id (self w2)) = true) ∧
    slashingEnabled (self w1) = true ∧
    ((hasRole (base w1) SLASHER_ROLE (sender msg) = true ∧ appealed p = false ∧
      proposedAt p + appealWindowSnapshot p ≤ timestamp msg) ∨
     (sender msg = owner (base w1) ∧ appealed p = true ∧ resolved p = false)) ∧
    Staking.stakedAmount i' + Staking.unbonding i' = Staking.stakedAmount i + Staking.unbonding i - amount p ∧
    Staking.stakedAmount i' = Staking.stakedAmount i - Z.min (amount p) (Staking.stakedAmount i) ∧
    ∀ q, q ≠ provider p →
      Staking.stakedAmount (Staking.provider q (self (tok w2))) = Staking.stakedAmount (Staking.provider q (self (tok w1))) ∧
      Staking.unbonding (Staking.provider q (self (tok w2))) = Staking.unbonding (Staking.provider q (self (tok w1))).
Proof.
  intros Hd Hs Hn Hwf Hc. destruct (edge_nsteps_ok _ _ _ Hd Hs) as [_ Hp _].
  destruct (edge_projects _ _ _ Hd Hs) as (m & Hm & Hst). apply edge_exec_effect in Hc; [|done].
  destruct Hc as [E1 E2 E3|p k E1 E2 E3 _ _ _ _ _ Heq|b id p' Hid E1 E2 Hstep Hsl].
  - left. unfold proposal. by rewrite E1.
  - left. split; [done|]. intros id. unfold proposal. rewrite E1, lookup_insert. case_decide as Hk; [|done].
    rewrite Heq, (sp_none _ Hp) by (subst; unfold k; lia). done.
  - assert (Hp' : proposal id (self w2) = p') by (unfold proposal; by rewrite E1, lookup_insert_eq).
    destruct b.
    + right. exists id. destruct Hsl as [u' Hsl]. destruct (sp_dense _ Hp id Hid) as [Ha _ _ _ _].
      assert (Hsame : provider p' = provider (proposal id (self w1)) ∧ amount p' = amount (proposal id (self w1)))
        by (inversion Hstep; by subst). destruct Hsame as [Q1 Q2]. rewrite Q1, Q2 in Hsl. rewrite Hp'.
      destruct (edge_slash_takes m (tok w0) (tok w1) (tok w2) _ _ (amount (proposal id (self w1))) _ (proj2 Hd) Hst
        ltac:(lia) ltac:(lia) Hsl) as (B1 & B2 & B3).
      split; [inversion Hstep; by subst|]. split; [by inversion Hstep|]. split; [inversion Hstep; subst; tauto|].
      split_and!; [lia|exact B1|exact B3].
    + left. split; [done|]. intros i. destruct (decide (i = id)) as [->|Hne].
      * rewrite Hp'. by inversion Hstep; subst.
      * unfold proposal. by rewrite E1, lookup_insert_ne.
Qed.

Lemma edge_step_final msg w b p p' :
  edge_proposal_ok p → executed p = true ∨ resolved p = true → edge_step msg w b p p' → False.
Proof.
  intros [_ _ _ Hra _] Hfin Hstep. inversion Hstep; subst; destruct Hfin as [Hf|Hf]; try congruence;
    specialize (Hra Hf); congruence.
Qed.

(** Safety.  Each proposal is decided once: after it was executed, or after an appeal
    against it was resolved, no later step of either contract changes it, so nothing is
    slashed twice for one proposal and a dismissed proposal is never executed. *)
Theorem edge_proposal_final w0 w1 w2 id :
  edge_deployed w0 → rtc edge_world_step w0 w1 → rtc edge_world_step w1 w2 → 0 ≤ id < slashProposalCount (self w1) →
  executed (proposal id (self w1)) = true ∨ resolved (proposal id (self w1)) = true →
  proposal id (self w2) = proposal id (self w1) ∧ slashProposalCount (self w1) ≤ slashProposalCount (self w2).
Proof.
  intros Hd Hs1 Hs2. revert Hs1. induction Hs2 as [|w1 w3 w2 Hst Hs2 IH]; [done|]. intros Hs1 Hid Hfin.
  pose proof (edge_history_ok _ _ Hd Hs1) as [_ Hp _].
  assert (Hone : proposal id (self w3) = proposal id (self w1) ∧ slashProposalCount (self w1) ≤ slashProposalCount (self w3)).
  { destruct Hst as [msg c w1 Hwf _ _ _ _| |]; [|done..].
    apply (commit_inv _ (λ w, proposal id (self w) = proposal id (self w1) ∧ _ ≤ slashProposalCount (self w))); [|done].
    intros w u Hc. apply edge_exec_effect in Hc; [|done].
    destruct Hc as [E1 E2 _|p k E1 E2 _ _ _ _ _ _ _|b i p' Hi E1 E2 Hstep _]; unfold proposal; rewrite E1, E2.
    - done.
    - rewrite lookup_insert_ne by (unfold k; lia). split; [done|lia].
    - destruct (decide (i = id)) as [->|]; [|by rewrite lookup_insert_ne]. exfalso.
      eapply edge_step_final; [|done|exact Hstep]. by apply Hp. }
  destruct Hone as [E1 E2]. rewrite E1 in IH. destruct IH as [F1 F2]; [by eapply rtc_r|lia|done|]. split; [congruence|lia].
Qed.

(** Invariant.  In every history the node identities of the edge providers are unique
    and the reverse mapping is exact: a registered identity leads to the provider that
    has it and back, identities of deregistered providers are free again, and the
    configuration stays in its limits. *)
Theorem edge_identities_exact w0 w :
  edge_deployed w0 → rtc edge_world_step w0 w →
  (∀ a, nodeId (info a (self w)) ≠ 0 → active (info a (self w)) = true ∧ node_owner (nodeId (info a (self w))) (self w) = a) ∧
  (∀ n, node_owner n (self w) ≠ 0%N → nodeId (info (node_owner n (self w)) (self w)) = n) ∧
  (∀ a b, nodeId (info a (self w)) = nodeId (info b (self w)) → nodeId (info a (self w)) ≠ 0 → a = b) ∧
  edge_settings (self w).
Proof.
  intros Hd Hs. destruct (edge_history_ok _ _ Hd Hs) as [Hset _ [H1' H2' H3' _]].
  split_and!; [|intros n Hn; by apply H2'| |done].
  - intros a Ha. split; [|by apply H1']. apply not_false_iff_true. intros Hf. by rewrite (H3' _ Hf) in Ha.
  - intros a b Hab Ha. rewrite <-(H1' a Ha), <-(H1' b); congruence.
Qed.
End Calls.

(** ** Runs of both contracts *)

(** Base contracts with an owner and a list of slashers. *)
Record crew := mkCrew { crew_owner : Addr; crew_slashers : list Addr; crew_paused : bool }.
#[export] Instance crew_base : BaseContracts crew := {|
  owner := crew_owner;
  hasRole g _ a := bool_decide (a ∈ crew_slashers g);
  paused := crew_paused;
  set_paused b g := if Bool.eqb b (crew_paused g) then None else Some (mkCrew (crew_owner g) (crew_slashers g) b)
|}.

#[export] Instance edge_call_wf_dec c : Decision (call_wf c).
Proof. destruct c; apply _. Defined.

Abbreviation edge_world := (chain State (chain Staking.State ledger crew) crew).

(** Calls to the registry at 98 and to the staking contract at 99. *)
Inductive either_call := OnEdge (c : call) | OnStaking (c : Staking.call).

Definition edge_act (w : edge_world) (msg : message) (c : either_call) : option edge_world :=
  if bool_decide (0 ≤ timestamp msg ≤ max_uint48 ∧ sender msg ≠ 0%N) && capped (tok (tok w)) then
    match c with
    | OnEdge c =>
      if bool_decide (call_wf c ∧ sender msg ≠ 98%N) then
        match exec 98 99 msg c w with Ok (w', _) => Some w' | Revert _ => None end
      else None
    | OnStaking c =>
      if bool_decide (Staking.call_wf c ∧ sender msg ≠ 99%N) then
        match Staking.exec 99 msg c (tok w) with Ok (sw, _) => Some (mkChain (self w) sw (base w)) | Revert _ => None end
      else None
    end
  else None.

Fixpoint edge_play (w : edge_world) (calls : list (message * either_call)) : option edge_world :=
  match calls with
  | [] => Some w
  | (msg, c) :: rest => w ← edge_act w msg c; edge_play w rest
  end.

Lemma edge_act_step w msg c w' : edge_act w msg c = Some w' → EdgeRegistry.step 98 99 w w'.
Proof.
  unfold edge_act. destruct (bool_decide (0 ≤ _ ≤ _ ∧ _) && capped _) eqn:Hb; [|done].
  apply andb_true_iff in Hb as [[Ht Hs0]%bool_decide_eq_true Hcap].
  pose proof (λ a, capped_balance (tok (tok w)) a Hcap) as Hbal.
  destruct c as [c|c]; case_bool_decide as Hwf; try done; destruct Hwf as [Hwf Hs].
  - destruct (exec 98 99 msg c w) as [[w1 u]|] eqn:He; [|done]. intros [= <-].
    replace w1 with (commit (exec 98 99 msg c) w) by (unfold commit; by rewrite He). by apply step_call.
  - destruct (Staking.exec 99 msg c (tok w)) as [[sw u]|] eqn:He; [|done]. intros [= <-]. apply step_staking.
    replace sw with (commit (Staking.exec 99 msg c) (tok w)) by (unfold commit; by rewrite He).
    apply Staking.step_call; try done. lia.
Qed.

Lemma edge_play_steps w calls w' : edge_play w calls = Some w' → nsteps (EdgeRegistry.step 98 99) (length calls) w w'.
Proof.
  revert w. induction calls as [|[msg c] calls IH]; intros w; cbn; [intros [= ->]; constructor|].
  destruct (edge_act w msg c) as [w1|] eqn:He; [|done]. cbn. intros Hp.
  eapply nsteps_l; [by eapply edge_act_step|by apply IH].
Qed.

(** Both contracts with owner 1, who may slash; the registry 98 may slash too. *)
Definition edge_start : edge_world := mkChain
  (default (mkState 0 0 false ∅ ∅ 0 ∅) (EdgeRegistry.constructor 99 1))
  (mkChain (self start) (tok start) (mkCrew 1 [1; 98]%N false))
  (mkCrew 1 [1%N] false).

Lemma edge_start_deployed : edge_deployed 99 edge_start.
Proof. split; [by exists 1%N|]. exists 5%N, 6%N, 1%N. vm_compute. reflexivity. Qed.

(** Provider 10 stakes, registers as an edge provider and is proposed for a slash. *)
Definition edge_setup : list (message * either_call) := [
  (at_ 10 100, OnStaking (Staking.CallStake (60 * 10 ^ 24)));
  (at_ 1 200, OnStaking (Staking.CallSetSlashing true));
  (at_ 10 300, OnEdge (CallRegister 7 1 "edge.example" "key"));
  (at_ 1 400, OnEdge (CallSetSlashing true));
  (at_ 1 500, OnEdge (CallPropose 10 (10 ^ 24) "downtime"))].
Definition edge_proposed : edge_world := default edge_start (edge_play edge_start edge_setup).
Lemma edge_setup_runs : edge_play edge_start edge_setup = Some edge_proposed.
Proof. vm_compute. reflexivity. Qed.

Definition edge_late : message := at_ 1 (500 + 48 * hours).
Definition edge_slashed : edge_world := commit (exec 98 99 edge_late (CallExecute 0)) edge_proposed.
Lemma edge_execute_runs : exec 98 99 edge_late (CallExecute 0) edge_proposed = Ok (edge_slashed, tt).
Proof. vm_compute. reflexivity. Qed.

Example edge_slash_due_process_witness :
  executed (proposal 0 (self edge_slashed)) = true ∧
  ∃ id, slashingEnabled (self edge_proposed) = true ∧ executed (proposal id (self edge_slashed)) = true.
Proof.
  assert (He : executed (proposal 0 (self edge_slashed)) = true) by (vm_compute; reflexivity). split; [exact He|].
  destruct (edge_slash_due_process 98 99 ltac:(done) ltac:(done) 5 edge_start edge_proposed edge_slashed edge_late (CallExecute 0) tt
    edge_start_deployed (edge_play_steps _ _ _ edge_setup_runs) ltac:(vm_compute; reflexivity) ltac:(vm_compute; discriminate)
    edge_execute_runs) as [[_ Hsame]|(id & (_ & _ & Hid) & Hen & _)].
  - exfalso. specialize (Hsame 0). rewrite He in Hsame. vm_compute in Hsame. discriminate.
  - exists id. split; [exact Hen|exact Hid].
Defined.

Lemma edge_slashed_history : rtc (EdgeRegistry.step 98 99) edge_start edge_slashed.
Proof.
  apply rtc_nsteps. exists 6%nat. refine (edge_play_steps edge_start (edge_setup ++ [(edge_late, OnEdge (CallExecute 0))]) _ _).
  vm_compute. reflexivity.
Qed.

(** The slashed provider deregisters; its executed proposal stays as it is. *)
Definition edge_left : edge_world := commit (exec 98 99 (at_ 10 300000) CallDeregister) edge_slashed.
Lemma edge_left_step : rtc (EdgeRegistry.step 98 99) edge_slashed edge_left.
Proof.
  apply rtc_once, (edge_act_step edge_slashed (at_ 10 300000) (OnEdge CallDeregister)). vm_compute. reflexivity.
Qed.

Example edge_proposal_final_witness : proposal 0 (self edge_left) = proposal 0 (self edge_slashed).
Proof.
  exact (proj1 (edge_proposal_final 98 99 ltac:(done) ltac:(done) edge_start edge_slashed edge_left 0 edge_start_deployed edge_slashed_history
    edge_left_step ltac:(vm_compute; split; [discriminate|reflexivity]) ltac:(left; vm_compute; reflexivity))).
Defined.

Example edge_identities_exact_witness : node_owner 7 (self edge_slashed) = 10%N ∧ nodeId (info 10 (self edge_slashed)) = 7.
Proof.
  assert (Hn : nodeId (info 10 (self edge_slashed)) = 7) by (vm_compute; reflexivity). split; [|exact Hn].
  destruct (edge_identities_exact 98 99 ltac:(done) ltac:(done) edge_start edge_slashed edge_start_deployed edge_slashed_history) as [Hi _].
  rewrite <-Hn. apply Hi. rewrite Hn. discriminate.
Defined.

(** ** What the registry does not prevent *)

(** The slash is all or nothing: the proposed amount is not lowered to what the provider
    still has, as the staking contract does for its own proposals.  A provider whose
    unstake request matures within the appeal window takes it out, and the proposal can
    no longer be executed although 55 of the 60 million are still there. *)
Definition edge_evasion : list (message * either_call) := [
  (at_ 10 100, OnStaking (Staking.CallStake (60 * 10 ^ 24)));
  (at_ 1 200, OnStaking (Staking.CallSetSlashing true));
  (at_ 10 300, OnEdge (CallRegister 7 1 "edge.example" "key"));
  (at_ 1 400, OnEdge (CallSetSlashing true));
  (at_ 10 500, OnStaking (Staking.CallRequestUnstake (5 * 10 ^ 24)));
  (at_ 1 (500 + 13 * days), OnEdge (CallPropose 10 (60 * 10 ^ 24) "fraud"));
  (at_ 10 (500 + 14 * days), OnStaking (Staking.CallCompleteUnstake 0))].

Theorem edge_slash_evaded :
  match edge_play edge_start edge_evasion with
  | Some w =>
    exec 98 99 (at_ 1 (500 + 15 * days)) (CallExecute 0) w = Revert ExternalRevert ∧
    Staking.stakedAmount (Staking.provider 10 (self (tok w))) = 55 * 10 ^ 24 ∧
    is_Some (edge_act w (at_ 1 (500 + 15 * days)) (OnStaking (Staking.CallSlash 10 (55 * 10 ^ 24))))
  | None => False
  end.
Proof. vm_compute. split; [reflexivity|]. split; [reflexivity|]. by eexists. Qed.

(** While the registry is paused a provider still changes its endpoint. *)
Theorem paused_endpoint_update :
  match edge_play edge_start (edge_setup ++ [(at_ 1 600, OnEdge CallPause); (at_ 10 700, OnEdge (CallUpdateEndpoint "new.example" "k"))]) with
  | Some w => paused (base w) = true ∧ endpointURL (info 10 (self w)) = "new.example"
  | None => False
  end.
Proof. vm_compute. split; reflexivity. Qed.

(** A provider that the staking contract has frozen registers as an edge provider, and
    one that has asked for its whole stake back is still active. *)
Theorem edge_needs_no_active_stake :
  match edge_play edge_start [(at_ 10 100, OnStaking (Staking.CallStake (60 * 10 ^ 24))); (at_ 1 200, OnStaking (Staking.CallFreeze 10));
    (at_ 10 300, OnEdge (CallRegister 7 1 "edge.example" "key"))] with
  | Some w => Staking.frozen (Staking.provider 10 (self (tok w))) = true ∧ isActiveEdgeProvider 10 w = Ok (w, true)
  | None => False
  end ∧
  match edge_play edge_start (edge_setup ++ [(at_ 10 600, OnStaking (Staking.CallRequestUnstake (60 * 10 ^ 24)))]) with
  | Some w => Staking.stakedAmount (Staking.provider 10 (self (tok w))) = 0 ∧ isActiveEdgeProvider 10 w = Ok (w, true)
  | None => False
  end.
Proof. vm_compute. split; split; reflexivity. Qed.
