(* ===== verification/Gossip.v ===== *)
(** * Gossip of shared state

    [GossipProtocol] (internal/p2p/gossip.go): a key/value state that every node
    sends to its peers, and the list of peers it is sent to.

    The peers map holds pointers to [GossipPeer] objects, and a send writes to
    its object after the lock is released; so the objects live in a [gp_heap]
    and the map holds locations.  The stake verifier is [Stake]'s.  The router is
    reached through the interface [Transport], and encoding/json is a pair of
    parameters.  A loop over a Go map takes the order in which it visits the
    keys as an argument.  [UpdateState] and [gossip] release their locks between
    the local write and each send, so a history is a sequence of the locked
    sections ([gp_op]), in any interleaving.

    Theorems: the state and the peers stay within their limits; every entry was
    written locally or came from a staked sender the validator accepted; an
    eviction takes an oldest entry; what a merge does to each key.  Two further
    theorems show that a departing node's broadcast removes nothing and that
    peers keep an abandoned entry alive between them for ever. *)

From S2P Require Import Prelude NetAddr BanList Stake Float64 Diversity PeerScorer Framing PeerTable RouterPipeline.
Local Open Scope Z_scope.

(** ** Data *)

Definition maxStateEntries : Z := 10000.
Definition gossipMaxPeers : Z := 1000.
Definition maxStateValueSize : Z := 64 * 1024.

Record stateEntry {V : Type} := mkEntry { se_Value : V; se_LastUpdated : time }.
Arguments stateEntry : clear implicits.
Arguments mkEntry {V} _ _.

Record GossipPeer := mkGossipPeer {
  gp_Node : Node;
  gp_LastGossip : time;
  gp_LastSeen : time;
  gp_StateHash : list Z
}.

(** What the [Value] of a message holds: a state map or something else. *)
Inductive gossip_value (V : Type) :=
  | StateMap (m : gmap string V)
  | NotAMap.
Arguments StateMap {V} _.
Arguments NotAMap {V}.

Record GossipMessage {V : Type} := mkGossip {
  gm_Type : string;
  gm_Key : string;
  gm_Value : gossip_value V;
  gm_Timestamp : time;
  gm_From : NodeID
}.
Arguments GossipMessage : clear implicits.
Arguments mkGossip {V} _ _ _ _ _.

Abbreviation StateValidator V := (NodeID → string → V → bool).

Record GossipProtocol {V : Type} := mkGP {
  gp_stakeVerifier : option StakeVerifier;
  gp_stateValidator : option (StateValidator V);
  gp_state : gmap string (stateEntry V);
  gp_peers : gmap NodeID nat;
  gp_heap : list GossipPeer
}.
Arguments GossipProtocol : clear implicits.
Arguments mkGP {V} _ _ _ _ _.

Definition NewGossipProtocol {V} : GossipProtocol V := mkGP None None ∅ ∅ [].

(** The router, as the protocol uses it: a send succeeds or fails. *)
Class Transport (R : Type) := {
  transmit : time → NodeID → Message → R → R * bool
}.

(** ** The oldest of some stamped keys

    The loop of both evictions: the first key visited is taken, and replaced by
    a later one only when that one's stamp is before. *)

Section Oldest.
Context {K : Type}.

Definition older (acc : option (K * time)) (kt : K * time) : option (K * time) :=
  match acc with
  | None => Some kt
  | Some (_, t) => if kt.2 <? t then Some kt else acc
  end.

Definition oldest (stamps : list (K * time)) : option (K * time) := foldl older None stamps.

Lemma foldl_older stamps acc :
  match foldl older acc stamps with
  | None => acc = None ∧ stamps = []
  | Some kt => (Some kt = acc ∨ kt ∈ stamps) ∧ Forall (λ kt', kt.2 ≤ kt'.2) stamps ∧
      match acc with None => True | Some kt' => kt.2 ≤ kt'.2 end
  end.
Proof.
  revert acc. induction stamps as [|kt stamps IH]; intros acc; cbn.
  { destruct acc; repeat split; auto; lia. }
  specialize (IH (older acc kt)).
  destruct (foldl older (older acc kt) stamps) as [kt'|].
  - destruct IH as (Hin & Hall & Hacc). rewrite elem_of_cons, Forall_cons.
    unfold older in *. destruct acc as [[k0 t0]|]; cbn in *; [|naive_solver].
    destruct (Z.ltb_spec kt.2 t0); cbn in *; naive_solver lia.
  - destruct IH as [IH _]. unfold older in IH. destruct acc as [[? ?]|]; [|done].
    by destruct (_ <? _).
Qed.

Lemma oldest_Some stamps kt :
  oldest stamps = Some kt → kt ∈ stamps ∧ Forall (λ kt', kt.2 ≤ kt'.2) stamps.
Proof.
  intros H. pose proof (foldl_older stamps None) as Hf. unfold oldest in H. rewrite H in Hf.
  destruct Hf as ([Hn|Hin] & Hall & _); [done|auto].
Qed.

Lemma oldest_None stamps : oldest stamps = None → stamps = [].
Proof.
  intros H. pose proof (foldl_older stamps None) as Hf. unfold oldest in H. rewrite H in Hf.
  by destruct Hf.
Qed.
End Oldest.

(** ** Operations *)

Section Protocol.
Context {V : Type}.
Implicit Types (gp : GossipProtocol V).

Definition set_state (s : gmap string (stateEntry V)) gp : GossipProtocol V :=
  mkGP (gp_stakeVerifier gp) (gp_stateValidator gp) s (gp_peers gp) (gp_heap gp).
Definition set_peers (ps : gmap NodeID nat) gp : GossipProtocol V :=
  mkGP (gp_stakeVerifier gp) (gp_stateValidator gp) (gp_state gp) ps (gp_heap gp).
Definition set_heap (h : list GossipPeer) gp : GossipProtocol V :=
  mkGP (gp_stakeVerifier gp) (gp_stateValidator gp) (gp_state gp) (gp_peers gp) h.

Definition SetStakeVerifier (sv : option StakeVerifier) gp : GossipProtocol V :=
  mkGP sv (gp_stateValidator gp) (gp_state gp) (gp_peers gp) (gp_heap gp).

Definition SetStateValidator (v : option (StateValidator V)) gp : GossipProtocol V :=
  mkGP (gp_stakeVerifier gp) v (gp_state gp) (gp_peers gp) (gp_heap gp).

Definition state_stamps (order : list string) gp : list (string * time) :=
  omap (λ k, (λ e, (k, se_LastUpdated e)) <$> gp_state gp !! k) order.

Definition evictOldestStateLocked (order : list string) gp : GossipProtocol V :=
  match oldest (state_stamps order gp) with
  | None => gp
  | Some (oldestKey, _) => set_state (delete oldestKey (gp_state gp)) gp
  end.

(** The part of [UpdateState] under the lock. *)
Definition storeState (now : time) (order : list string) (key : string) (value : V) gp :
    GossipProtocol V :=
  let put gp := set_state (<[key := mkEntry value now]> (gp_state gp)) gp in
  match gp_state gp !! key with
  | Some _ => put gp
  | None =>
      if Z.of_nat (size (gp_state gp)) >=? maxStateEntries
      then put (evictOldestStateLocked order gp)
      else put gp
  end.

Definition CleanStaleState (now : time) (maxAge : duration) gp : GossipProtocol V :=
  let cutoff := now - maxAge in
  set_state (filter (λ kv, (se_LastUpdated kv.2 <? cutoff) = false) (gp_state gp)) gp.

(** The part of [RemoveLocalState] under the lock. *)
Definition clearState gp : GossipProtocol V := set_state ∅ gp.

Definition GetState (key : string) gp : option V := se_Value <$> gp_state gp !! key.

Definition GetStateByPrefix (prefix : string) gp : gmap string V :=
  se_Value <$> filter (λ kv, String.prefix prefix kv.1 = true) (gp_state gp).

Definition peer_stamps (order : list NodeID) gp : list (NodeID * time) :=
  omap (λ id, l ← gp_peers gp !! id; (λ p, (id, gp_LastSeen p)) <$> gp_heap gp !! l) order.

Definition evictLeastRecentPeerLocked (order : list NodeID) gp : GossipProtocol V :=
  match oldest (peer_stamps order gp) with
  | None => gp
  | Some (oldestID, _) => set_peers (delete oldestID (gp_peers gp)) gp
  end.

Definition AddPeer (now : time) (order : list NodeID) (node : Node) gp : GossipProtocol V :=
  match gp_peers gp !! ID node with
  | Some l =>
      set_heap (alter (λ p, mkGossipPeer node (gp_LastGossip p) now (gp_StateHash p)) l (gp_heap gp)) gp
  | None =>
      let gp := if Z.of_nat (size (gp_peers gp)) >=? gossipMaxPeers
                then evictLeastRecentPeerLocked order gp else gp in
      let l := length (gp_heap gp) in
      set_heap (gp_heap gp ++ [mkGossipPeer node now now []])
        (set_peers (<[ID node := l]> (gp_peers gp)) gp)
  end.

Definition gp_RemovePeer (nodeID : NodeID) gp : GossipProtocol V :=
  set_peers (delete nodeID (gp_peers gp)) gp.

(** *** Sending *)

Section Send.
Context (marshal : GossipMessage V → option bytes).
Context {Ps} `{PaymentService Ps} {R} `{Transport R}.

(** The message a node sends: its whole state, without the time stamps. *)
Definition state_message (now : time) gp : GossipMessage V :=
  mkGossip "state_update" "" (StateMap (se_Value <$> gp_state gp)) now 0%N.

Definition sendGossip (now : time) (l : nat) (gp : GossipProtocol V) (r : R) : GossipProtocol V * R :=
  match gp_heap gp !! l with
  | None => (gp, r)
  | Some peer =>
      match marshal (state_message now gp) with
      | None => (gp, r)
      | Some msgData =>
          let '(r, ok) := transmit now (ID (gp_Node peer))
                            (mkMsg "gossip" 0%N 0%N msgData now 0%N [] 0) r in
          if ok then
            (set_heap (alter (λ p, mkGossipPeer (gp_Node p) now (gp_LastSeen p) (gp_StateHash p))
                         l (gp_heap gp)) gp, r)
          else (gp, r)
      end
  end.

(** Whether [gossip] sends to a peer: the verifier, when set, is asked. *)
Definition peer_staked (now : time) (ps : option Ps) (id : NodeID) (gp : GossipProtocol V) :
    GossipProtocol V * bool :=
  match gp_stakeVerifier gp with
  | None => (gp, true)
  | Some sv => let '(sv, b) := IsStaked now ps id sv in (SetStakeVerifier (Some sv) gp, b)
  end.

Definition gossipTo (now : time) (ps : option Ps) (l : nat) (gp : GossipProtocol V) (r : R) :
    GossipProtocol V * R :=
  match gp_heap gp !! l with
  | None => (gp, r)
  | Some peer =>
      let '(gp, ok) := peer_staked now ps (ID (gp_Node peer)) gp in
      if ok then sendGossip now l gp r else (gp, r)
  end.

(** [order]: the order in which the peers map is copied. *)
Definition gossip (now : time) (ps : option Ps) (order : list NodeID) (gp : GossipProtocol V) (r : R) :
    GossipProtocol V * R :=
  foldl (λ '(gp, r) l, gossipTo now ps l gp r) (gp, r) (omap (λ id, gp_peers gp !! id) order).

Definition UpdateState (now : time) (ps : option Ps) (state_order : list string)
    (order : list NodeID) (key : string) (value : V) (gp : GossipProtocol V) (r : R) :
    GossipProtocol V * R :=
  gossip now ps order (storeState now state_order key value gp) r.

Definition RemoveLocalState (now : time) (ps : option Ps) (order : list NodeID)
    (gp : GossipProtocol V) (r : R) : GossipProtocol V * R :=
  gossip now ps order (clearState gp) r.
End Send.

(** *** Receiving *)

Section Receive.
Context (unmarshal : bytes → option (GossipMessage V)).
(** The length of [json.Marshal] of a value; [None] is an error. *)
Context (value_size : V → option Z).
Context {Ps} `{PaymentService Ps}.

Inductive gossip_error := UnstakedSender | BadPayload.

(** The checks of one received entry. *)
Definition accepts (senderID : NodeID) (k : string) (v : V) gp : bool :=
  match value_size v with
  | None => false
  | Some n =>
      if n >? maxStateValueSize then false
      else match gp_stateValidator gp with
           | Some validator => validator senderID k v
           | None => true
           end
  end.

Definition merge_entry (now : time) (senderID : NodeID) gp (kv : string * V) : GossipProtocol V :=
  let '(k, v) := kv in
  if accepts senderID k v gp then
    match gp_state gp !! k with
    | Some _ => set_state (<[k := mkEntry v now]> (gp_state gp)) gp
    | None =>
        if Z.of_nat (size (gp_state gp)) <? maxStateEntries
        then set_state (<[k := mkEntry v now]> (gp_state gp)) gp
        else gp
    end
  else gp.

Definition merge_state (now : time) (senderID : NodeID) (order : list (string * V)) gp :
    GossipProtocol V := foldl (merge_entry now senderID) gp order.

(** The sender check: a message without a sender is not checked. *)
Definition sender_staked (now : time) (ps : option Ps) (from : option Node) (gp : GossipProtocol V) :
    GossipProtocol V * bool :=
  match from with
  | None => (gp, true)
  | Some node => peer_staked now ps (ID node) gp
  end.

Definition sender_id (from : option Node) : NodeID :=
  match from with None => 0%N | Some node => ID node end.

(** [order]: the entries of the received map, in the order the loop visits them. *)
Definition HandleGossipMessage (now : time) (ps : option Ps) (payload : bytes) (from : option Node)
    (order : list (string * V)) (gp : GossipProtocol V) : GossipProtocol V * option gossip_error :=
  let '(gp, ok) := sender_staked now ps from gp in
  if negb ok then (gp, Some UnstakedSender)
  else match unmarshal payload with
       | None => (gp, Some BadPayload)
       | Some m =>
           if decide (gm_Type m = "state_update") then
             match gm_Value m with
             | StateMap _ => (merge_state now (sender_id from) order gp, None)
             | NotAMap => (gp, None)
             end
           else (gp, None)
       end.

(** The order is one of the received map. *)
Definition order_of (payload : bytes) (order : list (string * V)) : Prop :=
  match unmarshal payload with
  | Some m => match gm_Value m with
              | StateMap sm => order ≡ₚ map_to_list sm
              | NotAMap => True
              end
  | None => True
  end.
End Receive.
End Protocol.

(** ** Histories *)

Lemma fmap_alter_same {A B} (f : A → B) (g : A → A) i (l : list A) :
  (∀ x, f (g x) = f x) → f <$> alter g i l = f <$> l.
Proof.
  intros Hfg. apply list_eq; intros j. rewrite !list_lookup_fmap, list_lookup_alter.
  case_decide; [|done]. subst. destruct (l !! j); cbn; by rewrite ?Hfg.
Qed.

Section History.
Context {V : Type} (marshal : GossipMessage V → option bytes)
  (unmarshal : bytes → option (GossipMessage V)) (value_size : V → option Z).
Context {Ps} `{PaymentService Ps} {R} `{Transport R}.
Implicit Types (gp : GossipProtocol V) (r : R).

(** The locked sections of the protocol's methods. *)
Inductive gp_op :=
  | OpStore (now : time) (order : list string) (key : string) (value : V)
  | OpClean (now : time) (maxAge : duration)
  | OpClear
  | OpAddPeer (now : time) (order : list NodeID) (node : Node)
  | OpRemovePeer (nodeID : NodeID)
  | OpSetVerifier (sv : option StakeVerifier)
  | OpSetValidator (v : option (StateValidator V))
  | OpSend (now : time) (ps : option Ps) (l : nat)
  | OpHandle (now : time) (ps : option Ps) (payload : bytes) (from : option Node)
      (order : list (string * V)).

Definition gp_exec (o : gp_op) (w : GossipProtocol V * R) : GossipProtocol V * R :=
  let '(gp, r) := w in
  match o with
  | OpStore now order key value => (storeState now order key value gp, r)
  | OpClean now maxAge => (CleanStaleState now maxAge gp, r)
  | OpClear => (clearState gp, r)
  | OpAddPeer now order node => (AddPeer now order node gp, r)
  | OpRemovePeer nodeID => (gp_RemovePeer nodeID gp, r)
  | OpSetVerifier sv => (SetStakeVerifier sv gp, r)
  | OpSetValidator v => (SetStateValidator v gp, r)
  | OpSend now ps l => gossipTo marshal now ps l gp r
  | OpHandle now ps payload from order =>
      ((HandleGossipMessage unmarshal value_size now ps payload from order gp).1, r)
  end.

(** The orders an operation is given are orders of the maps it visits. *)
Definition op_ok (o : gp_op) gp : Prop :=
  match o with
  | OpStore _ order _ _ => order ≡ₚ (map_to_list (gp_state gp)).*1
  | OpAddPeer _ order _ => order ≡ₚ (map_to_list (gp_peers gp)).*1
  | OpHandle _ _ payload _ order => order_of unmarshal payload order
  | _ => True
  end.

Inductive gp_trace : list gp_op → GossipProtocol V * R → GossipProtocol V * R → Prop :=
  | trace_nil w : gp_trace [] w w
  | trace_snoc os o w w' :
      gp_trace os w w' → op_ok o w'.1 → gp_trace (os ++ [o]) w (gp_exec o w').

(** *** What an operation leaves alone *)

Lemma peer_staked_rest now (ps : option Ps) id gp :
  let gp' := (peer_staked now ps id gp).1 in
  gp_state gp' = gp_state gp ∧ gp_peers gp' = gp_peers gp ∧ gp_heap gp' = gp_heap gp ∧
  gp_stateValidator gp' = gp_stateValidator gp.
Proof.
  unfold peer_staked. destruct (gp_stakeVerifier gp); [|done]. by destruct (IsStaked _ _ _ _).
Qed.

Lemma sender_staked_rest now (ps : option Ps) from gp :
  let gp' := (sender_staked now ps from gp).1 in
  gp_state gp' = gp_state gp ∧ gp_peers gp' = gp_peers gp ∧ gp_heap gp' = gp_heap gp ∧
  gp_stateValidator gp' = gp_stateValidator gp.
Proof. destruct from; [apply peer_staked_rest|done]. Qed.

Lemma gossipTo_rest now (ps : option Ps) l gp r :
  let gp' := (gossipTo marshal now ps l gp r).1 in
  gp_state gp' = gp_state gp ∧ gp_peers gp' = gp_peers gp ∧
  gp_Node <$> gp_heap gp' = gp_Node <$> gp_heap gp.
Proof.
  unfold gossipTo. destruct (gp_heap gp !! l) as [peer|]; [|done].
  pose proof (peer_staked_rest now ps (ID (gp_Node peer)) gp) as (Hs & Hp & Hh & _).
  destruct (peer_staked _ _ _ _) as [gp1 ok]; cbn in *. rewrite <- Hs, <- Hp, <- Hh.
  destruct ok; [|done]. unfold sendGossip.
  destruct (gp_heap gp1 !! l); [|done]. destruct (marshal _); [|done].
  destruct (transmit _ _ _ _) as [r' []]; [|done]. cbn. repeat split.
  by apply fmap_alter_same.
Qed.

Lemma merge_entry_rest now sender kv gp :
  let gp' := merge_entry value_size now sender gp kv in
  gp_peers gp' = gp_peers gp ∧ gp_heap gp' = gp_heap gp ∧
  gp_stateValidator gp' = gp_stateValidator gp.
Proof. destruct kv as [k v]; unfold merge_entry. by split_ifs. Qed.

Lemma merge_state_rest now sender order gp :
  let gp' := merge_state value_size now sender order gp in
  gp_peers gp' = gp_peers gp ∧ gp_heap gp' = gp_heap gp ∧
  gp_stateValidator gp' = gp_stateValidator gp.
Proof.
  revert gp. unfold merge_state. induction order as [|kv order IH]; intros gp; [done|]. cbn.
  destruct (IH (merge_entry value_size now sender gp kv)) as (-> & -> & ->).
  apply merge_entry_rest.
Qed.

Lemma accepts_validator sender k v gp gp' :
  gp_stateValidator gp' = gp_stateValidator gp →
  accepts value_size sender k v gp' = accepts value_size sender k v gp.
Proof. unfold accepts. by intros ->. Qed.

(** *** The merge, entry by entry *)

Lemma merge_entry_lookup now sender k v gp k' :
  gp_state (merge_entry value_size now sender gp (k, v)) !! k' =
    if decide (k = k' ∧ accepts value_size sender k v gp = true ∧
               (is_Some (gp_state gp !! k) ∨ Z.of_nat (size (gp_state gp)) < maxStateEntries))
    then Some (mkEntry v now) else gp_state gp !! k'.
Proof.
  unfold merge_entry. destruct (accepts value_size sender k v gp) eqn:Ha.
  - destruct (gp_state gp !! k) as [e|] eqn:Hk; cbn.
    + rewrite lookup_insert. repeat case_decide; naive_solver.
    + destruct (Z.ltb_spec (Z.of_nat (size (gp_state gp))) maxStateEntries); cbn.
      * rewrite lookup_insert. repeat case_decide; naive_solver.
      * case_decide as Hd; [|done]. destruct Hd as (_ & _ & [[? ?]|?]); [done|lia].
  - case_decide; naive_solver.
Qed.

Lemma merge_entry_size now sender kv gp :
  Z.of_nat (size (gp_state gp)) ≤ maxStateEntries →
  Z.of_nat (size (gp_state (merge_entry value_size now sender gp kv))) ≤ maxStateEntries.
Proof.
  intros Hs. destruct kv as [k v]; unfold merge_entry.
  destruct (accepts _ _ _ _ _); [|done].
  destruct (gp_state gp !! k) as [e|] eqn:Hk; cbn.
  - rewrite map_size_insert_Some; eauto.
  - destruct (Z.ltb_spec (Z.of_nat (size (gp_state gp))) maxStateEntries); [|done]. cbn.
    rewrite map_size_insert_None by done. lia.
Qed.

Lemma merge_state_size now sender order gp :
  Z.of_nat (size (gp_state gp)) ≤ maxStateEntries →
  Z.of_nat (size (gp_state (merge_state value_size now sender order gp))) ≤ maxStateEntries.
Proof.
  revert gp. unfold merge_state. induction order as [|kv order IH]; intros gp Hs; [done|].
  cbn. apply IH, merge_entry_size, Hs.
Qed.

Lemma merge_state_provenance now sender order gp k e :
  gp_state (merge_state value_size now sender order gp) !! k = Some e →
  gp_state gp !! k = Some e ∨
  ∃ v, (k, v) ∈ order ∧ accepts value_size sender k v gp = true ∧ e = mkEntry v now.
Proof.
  revert gp. unfold merge_state. induction order as [|[k0 v0] order IH]; intros gp Hk; [by left|].
  cbn [foldl] in Hk. destruct (IH _ Hk) as [Ho | (v & Hin & Ha & ->)].
  - rewrite merge_entry_lookup in Ho. case_decide as Hd; [|by left].
    destruct Hd as (-> & Ha & _). right. exists v0. simplify_eq. set_solver.
  - right. exists v. rewrite <- (accepts_validator sender k v gp _ (proj2 (proj2 (merge_entry_rest now sender (k0, v0) gp)))).
    set_solver.
Qed.

(** A key the node already has, or a node with room for all of the map's
    entries: the merge stores exactly the accepted entries. *)
Lemma merge_state_exact now sender order gp k :
  NoDup order.*1 →
  (is_Some (gp_state gp !! k) ∨ Z.of_nat (size (gp_state gp)) + len order ≤ maxStateEntries) →
  gp_state (merge_state value_size now sender order gp) !! k =
    match (list_to_map order : gmap string V) !! k with
    | Some v => if accepts value_size sender k v gp then Some (mkEntry v now) else gp_state gp !! k
    | None => gp_state gp !! k
    end.
Proof.
  revert gp. unfold merge_state. induction order as [|[k0 v0] order IH]; intros gp Hnd Hroom; [done|].
  apply NoDup_cons in Hnd as [Hni Hnd]. cbn [foldl].
  set (gp1 := merge_entry value_size now sender gp (k0, v0)).
  assert (Hsz : Z.of_nat (size (gp_state gp1)) ≤ Z.of_nat (size (gp_state gp)) + 1).
  { unfold gp1, merge_entry. destruct (accepts _ _ _ _ _); [|lia].
    destruct (gp_state gp !! k0) eqn:Hk0; [|destruct (_ <? _); [|lia]]; cbn.
    - rewrite map_size_insert_Some by eauto. lia.
    - rewrite map_size_insert_None by done. lia. }
  assert (Hroom1 : is_Some (gp_state gp1 !! k) ∨ Z.of_nat (size (gp_state gp1)) + len order ≤ maxStateEntries).
  { destruct Hroom as [Hk|Hl]; [left|right; cbn [length] in Hl; lia].
    unfold gp1. rewrite merge_entry_lookup. case_decide; eauto. }
  rewrite (IH gp1 Hnd Hroom1). cbn [list_to_map foldr].
  assert (Hacc : ∀ v, accepts value_size sender k v gp1 = accepts value_size sender k v gp).
  { intros v. apply accepts_validator, (merge_entry_rest now sender (k0, v0) gp). }
  unfold gp1. rewrite merge_entry_lookup. cbn. rewrite lookup_insert.
  destruct (decide (k0 = k)) as [->|Hne].
  - rewrite (not_elem_of_list_to_map_1 order k Hni).
    destruct (accepts value_size sender k v0 gp) eqn:Ha; [|by rewrite decide_False by naive_solver].
    rewrite decide_True; [done|]. split; [done|]. split; [done|].
    destruct Hroom as [?|Hl]; [by left|right]. cbn [length] in Hl. lia.
  - rewrite decide_False by naive_solver. destruct (list_to_map order !! k); [|done]. by rewrite Hacc.
Qed.

(** *** Evictions *)

Lemma elem_of_keys `{Countable K} {A} (m : gmap K A) (order : list K) k :
  order ≡ₚ (map_to_list m).*1 → k ∈ order ↔ is_Some (m !! k).
Proof.
  intros ->. rewrite list_elem_of_fmap. split.
  - intros ([k' a] & -> & Hin). apply elem_of_map_to_list in Hin. eauto.
  - intros [a Ha]. exists (k, a). by rewrite elem_of_map_to_list.
Qed.

Lemma evict_state_spec order gp :
  order ≡ₚ (map_to_list (gp_state gp)).*1 → gp_state gp ≠ ∅ →
  ∃ k e, gp_state gp !! k = Some e ∧
    map_Forall (λ _ e', se_LastUpdated e ≤ se_LastUpdated e') (gp_state gp) ∧
    evictOldestStateLocked order gp = set_state (delete k (gp_state gp)) gp.
Proof.
  intros Ho Hne. unfold evictOldestStateLocked.
  assert (Hst : ∀ k t, (k, t) ∈ state_stamps order gp ↔
            ∃ e, gp_state gp !! k = Some e ∧ se_LastUpdated e = t).
  { intros k t. unfold state_stamps. rewrite list_elem_of_omap. split.
    - intros (k' & _ & He). destruct (gp_state gp !! k') as [e|] eqn:Hk; naive_solver.
    - intros (e & He & <-). exists k. rewrite (elem_of_keys _ _ _ Ho), He. eauto. }
  destruct (oldest _) as [[k t]|] eqn:Hold.
  - apply oldest_Some in Hold as [Hin Hall]. rewrite Forall_forall in Hall.
    apply Hst in Hin as (e & He & <-). exists k, e. split_and!; [done| |done].
    intros k' e' Hk'. apply (Hall (k', se_LastUpdated e')), Hst. eauto.
  - apply oldest_None in Hold. destruct Hne. apply map_empty. intros k.
    destruct (gp_state gp !! k) as [e|] eqn:Hk; [|done]. exfalso.
    assert (Hin : (k, se_LastUpdated e) ∈ state_stamps order gp) by (apply Hst; eauto).
    rewrite Hold in Hin. by apply not_elem_of_nil in Hin.
Qed.

(** The map of peers points to live objects that carry the peer's own id. *)
Definition peers_ok gp : Prop :=
  map_Forall (λ id l, (ID ∘ gp_Node) <$> gp_heap gp !! l = Some id) (gp_peers gp).

Lemma evict_peer_spec order gp :
  order ≡ₚ (map_to_list (gp_peers gp)).*1 → peers_ok gp → gp_peers gp ≠ ∅ →
  ∃ id l p, gp_peers gp !! id = Some l ∧ gp_heap gp !! l = Some p ∧
    (∀ id' l' p', gp_peers gp !! id' = Some l' → gp_heap gp !! l' = Some p' →
       gp_LastSeen p ≤ gp_LastSeen p') ∧
    evictLeastRecentPeerLocked order gp = set_peers (delete id (gp_peers gp)) gp.
Proof.
  intros Ho Hok Hne. unfold evictLeastRecentPeerLocked.
  assert (Hst : ∀ id t, (id, t) ∈ peer_stamps order gp ↔
            ∃ l p, gp_peers gp !! id = Some l ∧ gp_heap gp !! l = Some p ∧ gp_LastSeen p = t).
  { intros id t. unfold peer_stamps. rewrite list_elem_of_omap. split.
    - intros (id' & _ & He). destruct (gp_peers gp !! id') as [l|] eqn:Hk; cbn in He; [|done].
      destruct (gp_heap gp !! l) as [p|] eqn:Hl; naive_solver.
    - intros (l & p & Hl & Hp & <-). exists id. rewrite (elem_of_keys _ _ _ Ho), Hl. cbn.
      rewrite Hp. eauto. }
  destruct (oldest _) as [[id t]|] eqn:Hold.
  - apply oldest_Some in Hold as [Hin Hall]. rewrite Forall_forall in Hall.
    apply Hst in Hin as (l & p & Hl & Hp & <-). exists id, l, p. split_and!; [done..| |done].
    intros id' l' p' Hl' Hp'. apply (Hall (id', gp_LastSeen p')), Hst. eauto 6.
  - apply oldest_None in Hold. destruct Hne. apply map_empty. intros id.
    destruct (gp_peers gp !! id) as [l|] eqn:Hk; [|done]. exfalso.
    pose proof (Hok id l Hk) as Hid. cbn in Hid.
    destruct (gp_heap gp !! l) as [p|] eqn:Hp; [|done].
    assert (Hin : (id, gp_LastSeen p) ∈ peer_stamps order gp) by (apply Hst; eauto).
    rewrite Hold in Hin. by apply not_elem_of_nil in Hin.
Qed.

(** *** The invariant *)

Definition gossip_wf gp : Prop :=
  Z.of_nat (size (gp_state gp)) ≤ maxStateEntries ∧
  Z.of_nat (size (gp_peers gp)) ≤ gossipMaxPeers ∧ peers_ok gp.

Lemma evict_state_size order gp :
  order ≡ₚ (map_to_list (gp_state gp)).*1 → maxStateEntries ≤ Z.of_nat (size (gp_state gp)) →
  Z.of_nat (size (gp_state (evictOldestStateLocked order gp))) = Z.of_nat (size (gp_state gp)) - 1 ∧
  gp_peers (evictOldestStateLocked order gp) = gp_peers gp ∧
  gp_heap (evictOldestStateLocked order gp) = gp_heap gp ∧
  gp_state (evictOldestStateLocked order gp) ⊆ gp_state gp.
Proof.
  intros Ho Hs. destruct (evict_state_spec order gp Ho) as (k & e & Hk & _ & ->).
  { intros He. rewrite He, map_size_empty in Hs. unfold maxStateEntries in Hs. lia. }
  cbn. rewrite (map_size_delete_Some _ _ (ex_intro _ e Hk)).
  assert (size (gp_state gp) ≠ 0%nat) by (unfold maxStateEntries in Hs; lia).
  split_and!; [lia|done|done|apply delete_subseteq].
Qed.

Lemma storeState_wf now order key value gp :
  order ≡ₚ (map_to_list (gp_state gp)).*1 → gossip_wf gp → gossip_wf (storeState now order key value gp).
Proof.
  intros Ho (Hs & Hp & Hok). unfold storeState.
  destruct (gp_state gp !! key) as [e|] eqn:Hk.
  { split; [|done]. cbn. by rewrite map_size_insert_Some by eauto. }
  destruct (Z.geb_spec (Z.of_nat (size (gp_state gp))) maxStateEntries) as [Hge|Hlt].
  - destruct (evict_state_size order gp Ho Hge) as (Hsz & Hps & Hh & Hsub).
    unfold gossip_wf, peers_ok. cbn. rewrite Hps, Hh. split; [|done].
    rewrite map_size_insert_None; [lia|]. by eapply lookup_weaken_None.
  - split; [|done]. cbn. rewrite map_size_insert_None by done. lia.
Qed.

Lemma gp_RemovePeer_wf id gp : gossip_wf gp → gossip_wf (gp_RemovePeer id gp).
Proof.
  intros (Hs & Hp & Hok). split; [done|]. cbn. split.
  - rewrite map_size_delete. destruct (gp_peers gp !! id); cbn; lia.
  - by apply map_Forall_delete.
Qed.

Lemma peers_ok_heap gp h :
  gp_Node <$> h = gp_Node <$> gp_heap gp → peers_ok gp → peers_ok (set_heap h gp).
Proof.
  intros Hh Hok id l Hl. specialize (Hok id l Hl). cbn in *.
  assert (Heq : gp_Node <$> h !! l = gp_Node <$> gp_heap gp !! l)
    by (rewrite <- !list_lookup_fmap; by rewrite Hh).
  destruct (h !! l), (gp_heap gp !! l); cbn in *; congruence.
Qed.

Lemma evict_peer_size order gp :
  order ≡ₚ (map_to_list (gp_peers gp)).*1 → peers_ok gp →
  gossipMaxPeers ≤ Z.of_nat (size (gp_peers gp)) →
  Z.of_nat (size (gp_peers (evictLeastRecentPeerLocked order gp))) = Z.of_nat (size (gp_peers gp)) - 1 ∧
  gp_state (evictLeastRecentPeerLocked order gp) = gp_state gp ∧
  gp_heap (evictLeastRecentPeerLocked order gp) = gp_heap gp ∧
  gp_peers (evictLeastRecentPeerLocked order gp) ⊆ gp_peers gp.
Proof.
  intros Ho Hok Hs. destruct (evict_peer_spec order gp Ho Hok) as (id & l & p & Hl & _ & _ & ->).
  { intros He. rewrite He, map_size_empty in Hs. unfold gossipMaxPeers in Hs. lia. }
  cbn. rewrite (map_size_delete_Some _ _ (ex_intro _ l Hl)).
  assert (size (gp_peers gp) ≠ 0%nat) by (unfold gossipMaxPeers in Hs; lia).
  split_and!; [lia|done|done|apply delete_subseteq].
Qed.

(** Adding a peer that is not in the map to one with room for it. *)
Lemma add_fresh_peer_wf now node gp :
  gp_peers gp !! ID node = None → Z.of_nat (size (gp_peers gp)) < gossipMaxPeers → gossip_wf gp →
  gossip_wf (set_heap (gp_heap gp ++ [mkGossipPeer node now now []])
               (set_peers (<[ID node := length (gp_heap gp)]> (gp_peers gp)) gp)).
Proof.
  intros Hn Hlt (Hs & Hp & Hok). split; [done|]. cbn. split.
  { rewrite map_size_insert_None by done. lia. }
  intros id l Hl. cbn in Hl. apply lookup_insert_Some in Hl as [[<- <-]|[_ Hl]]; cbn.
  - by rewrite list_lookup_middle.
  - specialize (Hok id l Hl). cbn in Hok. destruct (gp_heap gp !! l) eqn:Hh; [|done].
    by rewrite lookup_app_l, Hh by (by eapply lookup_lt_Some).
Qed.

Lemma AddPeer_wf now order node gp :
  order ≡ₚ (map_to_list (gp_peers gp)).*1 → gossip_wf gp → gossip_wf (AddPeer now order node gp).
Proof.
  intros Ho Hwf. pose proof Hwf as (Hs & Hp & Hok). unfold AddPeer.
  destruct (gp_peers gp !! ID node) as [l|] eqn:Hl.
  { split; [done|]. split; [done|]. intros id l' Hl'. pose proof (Hok id l' Hl') as Hid. cbn in *.
    rewrite list_lookup_alter. case_decide; [|done]. subst l'.
    pose proof (Hok _ _ Hl) as Hid'. cbn in Hid'. destruct (gp_heap gp !! l); cbn in *; congruence. }
  destruct (Z.geb_spec (Z.of_nat (size (gp_peers gp))) gossipMaxPeers) as [Hge|Hlt].
  - destruct (evict_peer_size order gp Ho Hok Hge) as (Hsz & Hst & Hh & Hsub).
    apply add_fresh_peer_wf; [by eapply lookup_weaken_None|lia|].
    split; [by rewrite Hst|]. split; [lia|]. intros id l Hin. rewrite Hh.
    apply Hok. by eapply lookup_weaken.
  - apply add_fresh_peer_wf; [done|lia|done].
Qed.

Lemma gossip_wf_rest gp gp' :
  gp_state gp' = gp_state gp → gp_peers gp' = gp_peers gp →
  gp_Node <$> gp_heap gp' = gp_Node <$> gp_heap gp → gossip_wf gp → gossip_wf gp'.
Proof.
  intros Hs Hp Hh (H1 & H2 & H3). unfold gossip_wf. rewrite Hs, Hp. split_and!; [done..|].
  pose proof (peers_ok_heap gp _ Hh H3) as H4. unfold peers_ok in *. by rewrite Hp.
Qed.

Lemma HandleGossipMessage_wf now (ps : option Ps) payload from order gp :
  gossip_wf gp → gossip_wf (HandleGossipMessage unmarshal value_size now ps payload from order gp).1.
Proof.
  intros Hwf. unfold HandleGossipMessage.
  pose proof (sender_staked_rest now ps from gp) as (Hs & Hp & Hh & _).
  destruct (sender_staked now ps from gp) as [gp1 ok]; cbn in *.
  assert (Hwf1 : gossip_wf gp1) by (apply (gossip_wf_rest gp); congruence).
  split_ifs; cbn; try done.
  destruct (merge_state_rest now (sender_id from) order gp1) as (Hp1 & Hh1 & _).
  destruct Hwf1 as (H1 & H2 & H3). unfold gossip_wf, peers_ok. rewrite Hp1, Hh1.
  split; [by apply merge_state_size|done].
Qed.

Lemma gp_exec_wf o w : op_ok o w.1 → gossip_wf w.1 → gossip_wf (gp_exec o w).1.
Proof.
  destruct w as [gp r]; destruct o; cbn; intros Hok Hwf; try done.
  - by apply storeState_wf.
  - destruct Hwf as (Hs & Hp & Hpk). split; [|done]. cbn.
    etrans; [|exact Hs]. apply inj_le, map_size_filter.
  - destruct Hwf as (Hs & Hp & Hpk). split; [|done]. cbn. by rewrite map_size_empty.
  - by apply AddPeer_wf.
  - by apply gp_RemovePeer_wf.
  - destruct (gossipTo_rest now ps l gp r) as (H1 & H2 & H3). by eapply gossip_wf_rest.
  - by apply HandleGossipMessage_wf.
Qed.

(** Invariant.  Whatever a node stores, receives, forgets and adds, in any
    interleaving of the locked sections and whatever its peers send, it holds at
    most 10,000 state entries and 1,000 peers, and every entry of the peers map
    points to an object for that very peer. *)
Theorem gossip_capacity os r0 w :
  gp_trace os (NewGossipProtocol, r0) w →
  Z.of_nat (size (gp_state w.1)) ≤ maxStateEntries ∧
  Z.of_nat (size (gp_peers w.1)) ≤ gossipMaxPeers ∧
  ∀ id l, gp_peers w.1 !! id = Some l → ∃ p, gp_heap w.1 !! l = Some p ∧ ID (gp_Node p) = id.
Proof.
  intros Ht. assert (Hwf : gossip_wf w.1).
  { remember (NewGossipProtocol, r0) as w0 eqn:Hw0.
    induction Ht as [|os o w w' Ht IH Hok]; [subst; by vm_compute|]. apply gp_exec_wf; auto. }
  destruct Hwf as (Hs & Hp & Hok). split_and!; [done..|]. intros id l Hl.
  specialize (Hok id l Hl). cbn in Hok. destruct (gp_heap w.1 !! l) as [p|]; [|done].
  exists p. naive_solver.
Qed.

(** *** Where an entry comes from *)

(** The operation [o], run on [gp], is the one that may write the entry [e] of
    [k]: a local update, or a message of a staked sender that holds the entry
    and whose entry passes the size limit and the validator. *)
Definition writes (o : gp_op) gp (k : string) (e : stateEntry V) : Prop :=
  match o with
  | OpStore now _ key value => key = k ∧ e = mkEntry value now
  | OpHandle now ps payload from _ =>
      (sender_staked now ps from gp).2 = true ∧
      ∃ m sm, unmarshal payload = Some m ∧ gm_Type m = "state_update" ∧ gm_Value m = StateMap sm ∧
        sm !! k = Some (se_Value e) ∧ se_LastUpdated e = now ∧
        accepts value_size (sender_id from) k (se_Value e) gp = true
  | _ => False
  end.

Lemma HandleGossipMessage_writes now (ps : option Ps) payload from order gp k e :
  order_of unmarshal payload order →
  gp_state (HandleGossipMessage unmarshal value_size now ps payload from order gp).1 !! k = Some e →
  gp_state gp !! k = Some e ∨ writes (OpHandle now ps payload from order) gp k e.
Proof.
  unfold HandleGossipMessage, writes, order_of. intros Ho.
  pose proof (sender_staked_rest now ps from gp) as (Hs & _ & _ & Hv).
  destruct (sender_staked now ps from gp) as [gp1 ok]; cbn in *.
  destruct ok; cbn; [|rewrite Hs; auto].
  destruct (unmarshal payload) as [m|]; cbn; [|rewrite Hs; auto].
  case_decide; cbn; [|rewrite Hs; auto].
  destruct (gm_Value m) as [sm|] eqn:Hsm; cbn; [|rewrite Hs; auto].
  intros [Hold | (v & Hin & Ha & ->)]%merge_state_provenance; [left; congruence|right].
  split; [done|]. exists m, sm. split_and!; try done.
  - cbn. by rewrite Ho, elem_of_map_to_list in Hin.
  - cbn. by rewrite <- (accepts_validator _ _ _ gp gp1 Hv).
Qed.

Lemma gp_exec_writes o w k e :
  op_ok o w.1 → gp_state (gp_exec o w).1 !! k = Some e →
  gp_state w.1 !! k = Some e ∨ writes o w.1 k e.
Proof.
  destruct w as [gp r]; destruct o; cbn; intros Hok He; auto.
  - unfold storeState in He. destruct (gp_state gp !! key) eqn:Hk.
    { cbn in He. apply lookup_insert_Some in He; naive_solver. }
    destruct (Z.geb_spec (Z.of_nat (size (gp_state gp))) maxStateEntries) as [Hge|Hlt]; cbn in He;
      apply lookup_insert_Some in He as [[-> <-]|[_ He]]; auto.
    destruct (evict_state_size order gp Hok Hge) as (_ & _ & _ & Hsub). left.
    by eapply lookup_weaken.
  - apply map_lookup_filter_Some in He as [He _]. auto.
  - by rewrite lookup_empty in He.
  - unfold AddPeer in He. destruct (gp_peers gp !! ID node); [by left|].
    destruct (Z.geb_spec (Z.of_nat (size (gp_peers gp))) gossipMaxPeers) as [Hge|Hlt]; [|by left].
    left. cbn in He. unfold evictLeastRecentPeerLocked in He. by destruct (oldest _) as [[? ?]|].
  - left. by destruct (gossipTo_rest now ps l gp r) as (<- & _).
  - by eapply HandleGossipMessage_writes.
Qed.

Lemma entry_has_writer os r0 w k e :
  gp_trace os (NewGossipProtocol, r0) w → gp_state w.1 !! k = Some e →
  ∃ os1 o os2 w1, os = os1 ++ o :: os2 ∧ gp_trace os1 (NewGossipProtocol, r0) w1 ∧
    writes o w1.1 k e.
Proof.
  intros Ht. remember (NewGossipProtocol, r0) as w0 eqn:Hw0.
  induction Ht as [|os o w w' Ht IH Hok]; intros He; [by subst|].
  destruct (gp_exec_writes o w' k e Hok He) as [Hold|Hw].
  - destruct (IH Hw0 Hold) as (os1 & o1 & os2 & w1 & -> & Ht1 & Hw1).
    exists os1, o1, (os2 ++ [o]), w1. by rewrite <- app_assoc.
  - exists os, o, [], w'. auto.
Qed.

(** Safety.  Every entry a node holds was put there by one operation of its
    history: by a local update with that value at that time, or by a message
    that named no sender or one the stake verifier accepted when it was
    handled, that carried the value under that key, and whose entry was within
    64 KB and passed the validator in force at that moment. *)
Theorem gossip_provenance os r0 w k e :
  gp_trace os (NewGossipProtocol, r0) w → gp_state w.1 !! k = Some e →
  ∃ os1 o os2 w1, os = os1 ++ o :: os2 ∧ gp_trace os1 (NewGossipProtocol, r0) w1 ∧
    match o with
    | OpStore now _ key value => key = k ∧ e = mkEntry value now
    | OpHandle now ps payload from _ =>
        (sender_staked now ps from w1.1).2 = true ∧
        ∃ m sm, unmarshal payload = Some m ∧ gm_Type m = "state_update" ∧ gm_Value m = StateMap sm ∧
          sm !! k = Some (se_Value e) ∧ se_LastUpdated e = now ∧
          accepts value_size (sender_id from) k (se_Value e) w1.1 = true
    | _ => False
    end.
Proof. apply entry_has_writer. Qed.

(** *** The validator of a history *)

Definition sets_validator (o : gp_op) : bool :=
  match o with OpSetValidator _ => true | _ => false end.

Lemma gp_exec_validator o w :
  sets_validator o = false → gp_stateValidator (gp_exec o w).1 = gp_stateValidator w.1.
Proof.
  destruct w as [gp r]; destruct o; cbn; intros Ho; try done.
  - unfold storeState, evictOldestStateLocked. by split_ifs.
  - unfold AddPeer, evictLeastRecentPeerLocked. by split_ifs.
  - unfold gossipTo, sendGossip, peer_staked. by split_ifs.
  - unfold HandleGossipMessage. pose proof (sender_staked_rest now ps from gp) as (_ & _ & _ & Hv).
    destruct (sender_staked now ps from gp) as [gp1 ok]. cbn in Hv. rewrite <- Hv.
    split_ifs; try done. cbn. by destruct (merge_state_rest now (sender_id from) order gp1) as (_ & _ & ->).
Qed.

(** A validator set first and not replaced is in force from then on. *)
Lemma validator_in_force v os r0 w :
  gp_trace (OpSetValidator v :: os) (NewGossipProtocol, r0) w →
  Forall (λ o, sets_validator o = false) os → gp_stateValidator w.1 = v.
Proof.
  intros Ht. remember (OpSetValidator v :: os) as os0 eqn:Hos.
  revert os Hos. induction Ht as [|os1 o w0 w' Ht IH Hok]; intros os Hos Hall; [done|].
  destruct os1 as [|o1 os1]; cbn in Hos.
  - injection Hos as -> _. destruct w' as [gp r]. done.
  - injection Hos as -> <-. apply Forall_app in Hall as [Hall Ho].
    rewrite gp_exec_validator; [by eapply IH|]. by apply Forall_cons in Ho as [Ho _].
Qed.

(** *** Local updates and merges *)

Lemma gossip_state now (ps : option Ps) order gp r :
  gp_state (gossip marshal now ps order gp r).1 = gp_state gp.
Proof.
  unfold gossip. generalize (omap (λ id, gp_peers gp !! id) order) as ls. intros ls.
  revert gp r. induction ls as [|l ls IH]; intros gp r; [done|]. cbn.
  destruct (gossipTo_rest now ps l gp r) as (Hs & _). destruct (gossipTo marshal now ps l gp r) as [gp1 r1].
  cbn in Hs. rewrite IH. exact Hs.
Qed.

(** Functional.  [UpdateState] always stores the value, and changes nothing
    else unless the key is new and the state is full; then exactly one other
    entry goes, one with the smallest time of last update, whatever the order
    in which the map is visited. *)
Theorem UpdateState_evicts_oldest now (ps : option Ps) so order key value gp r :
  so ≡ₚ (map_to_list (gp_state gp)).*1 →
  let st' := gp_state (UpdateState marshal now ps so order key value gp r).1 in
  if decide (gp_state gp !! key = None ∧ maxStateEntries ≤ Z.of_nat (size (gp_state gp)))
  then ∃ k e, gp_state gp !! k = Some e ∧
         map_Forall (λ _ e', se_LastUpdated e ≤ se_LastUpdated e') (gp_state gp) ∧
         st' = <[key := mkEntry value now]> (delete k (gp_state gp))
  else st' = <[key := mkEntry value now]> (gp_state gp).
Proof.
  intros Ho. cbn zeta. unfold UpdateState. rewrite gossip_state. unfold storeState.
  case_decide as Hd.
  - destruct Hd as [Hn Hge]. rewrite Hn.
    destruct (Z.geb_spec (Z.of_nat (size (gp_state gp))) maxStateEntries); [|lia].
    destruct (evict_state_spec so gp Ho) as (k & e & Hk & Hmin & ->); [|by exists k, e].
    intros He. rewrite He, map_size_empty in Hge. by unfold maxStateEntries in Hge.
  - destruct (gp_state gp !! key) eqn:Hk; [done|].
    destruct (Z.geb_spec (Z.of_nat (size (gp_state gp))) maxStateEntries); [|done].
    destruct Hd. by split.
Qed.


(** Cleaning keeps exactly the entries that are not older than the age. *)
Lemma CleanStaleState_lookup now maxAge gp k e :
  gp_state (CleanStaleState now maxAge gp) !! k = Some e ↔
  gp_state gp !! k = Some e ∧ now - maxAge ≤ se_LastUpdated e.
Proof. cbn. rewrite map_lookup_filter_Some. cbn. by rewrite Z.ltb_ge. Qed.
End History.

(** ** What leaving and expiry do not do *)

(** A network that delivers: the messages sent, in order. *)
#[export] Instance outbox : Transport (list (NodeID * Message)) := {|
  transmit _ to msg r := (r ++ [(to, msg)], true)
|}.

Section Exchange.
Context {V : Type} (marshal : GossipMessage V → option bytes)
  (unmarshal : bytes → option (GossipMessage V)) (value_size : V → option Z).
Context {Ps} `{PaymentService Ps}.
Implicit Types (gp : GossipProtocol V).

Lemma state_message_ext now gp gp' :
  gp_state gp' = gp_state gp → state_message now gp' = state_message now gp.
Proof. unfold state_message. by intros ->. Qed.

(** Every message a round of gossip sends carries the node's whole state. *)
Definition carries_state (now : time) gp (out : list (NodeID * Message)) : Prop :=
  Forall (λ sent, marshal (state_message now gp) = Some (Payload sent.2)) out.

Lemma gossipTo_outbox now (ps : option Ps) l gp out :
  carries_state now gp out → carries_state now gp (gossipTo marshal now ps l gp out).2.
Proof.
  intros Hout. unfold gossipTo. destruct (gp_heap gp !! l) as [peer|]; [|done].
  pose proof (peer_staked_rest now ps (ID (gp_Node peer)) gp) as (Hs & _).
  destruct (peer_staked _ _ _ _) as [gp1 ok]; cbn in Hs. destruct ok; [|done].
  unfold sendGossip. destruct (gp_heap gp1 !! l); [|done].
  rewrite (state_message_ext now gp gp1 Hs).
  destruct (marshal (state_message now gp)) as [b|] eqn:Hb; [|done].
  cbn. apply Forall_app. split; [done|]. by apply Forall_singleton.
Qed.

Lemma gossip_outbox now (ps : option Ps) order gp :
  carries_state now gp (gossip marshal now ps order gp []).2.
Proof.
  unfold gossip. generalize (omap (λ id, gp_peers gp !! id) order) as ls. intros ls.
  assert (Hgen : ∀ gp1 out, gp_state gp1 = gp_state gp → carries_state now gp out →
    carries_state now gp (foldl (λ '(gp, r) l, gossipTo marshal now ps l gp r) (gp1, out) ls).2).
  { induction ls as [|l ls IH]; intros gp1 out Hst Hout; [done|]. cbn.
    pose proof (gossipTo_rest marshal now ps l gp1 out) as (Hs & _).
    pose proof (gossipTo_outbox now ps l gp1 out) as Ho.
    destruct (gossipTo marshal now ps l gp1 out) as [gp2 out2]. cbn in Hs, Ho.
    unfold carries_state in *. rewrite (state_message_ext now gp gp1 Hst) in Ho.
    apply IH; [congruence|auto]. }
  apply Hgen; [done|]. constructor.
Qed.

(** Safety.  The broadcast of a node that leaves removes nothing: whatever
    message [RemoveLocalState] sends, a peer that handles it has the same state
    afterwards, so the entries the node published stay with its peers.  The
    hypothesis is that a state message with an empty map decodes to one. *)
Theorem leave_removes_nothing now (ps ps' : option Ps) order gp now' sent from eorder gp' :
  (∀ b, marshal (mkGossip "state_update" "" (StateMap ∅) now 0%N) = Some b →
     ∃ m, unmarshal b = Some m ∧ gm_Value m = StateMap ∅) →
  sent ∈ (RemoveLocalState marshal now ps order gp []).2 →
  order_of unmarshal (Payload sent.2) eorder →
  gp_state (HandleGossipMessage unmarshal value_size now' ps' (Payload sent.2) from eorder gp').1 =
    gp_state gp'.
Proof.
  intros Hjson Hin Ho. unfold RemoveLocalState in Hin.
  pose proof (gossip_outbox now ps order (clearState gp)) as Hall.
  unfold carries_state in Hall. rewrite Forall_forall in Hall. apply Hall in Hin.
  unfold state_message, clearState in Hin. cbn in Hin. rewrite fmap_empty in Hin.
  destruct (Hjson _ Hin) as (m & Hm & Hv). unfold order_of in Ho. rewrite Hm, Hv in Ho.
  rewrite map_to_list_empty in Ho. apply Permutation_nil_r in Ho as ->.
  unfold HandleGossipMessage. rewrite Hm, Hv.
  pose proof (sender_staked_rest now' ps' from gp') as (Hs & _).
  destruct (sender_staked now' ps' from gp') as [gp1 ok]; cbn in Hs. by split_ifs.
Qed.

(** [node] hears [peer] at [now] and then drops what is older than half an hour. *)
Definition hear (now : time) (peer node : GossipProtocol V) : GossipProtocol V :=
  match marshal (state_message now peer) with
  | None => node
  | Some b =>
      let order := match unmarshal b with
                   | Some m => match gm_Value m with
                               | StateMap sm => map_to_list sm
                               | NotAMap => []
                               end
                   | None => []
                   end in
      CleanStaleState now (30 * minute)
        (HandleGossipMessage unmarshal value_size now (None : option Ps) b None order node).1
  end.

(** Two nodes that hear each other every ten seconds, from [now] on. *)
Fixpoint rounds (n : nat) (now : time) (a b : GossipProtocol V) : GossipProtocol V * GossipProtocol V :=
  match n with
  | O => (a, b)
  | S n =>
      let b' := hear now a b in
      rounds n (now + 10 * second) (hear now b' a) b'
  end.

Lemma clean_fresh now gp :
  map_Forall (λ _ e, se_LastUpdated e = now) (gp_state gp) →
  gp_state (CleanStaleState now (30 * minute) gp) = gp_state gp.
Proof.
  intros Hall. apply map_filter_id. intros k e He. cbn; rewrite (Hall k e He).
  unfold minute, second. apply Z.ltb_ge. lia.
Qed.

Lemma hear_singleton now peer node k v n e :
  se_Value <$> gp_state peer = {[k := v]} →
  (∃ b m, marshal (mkGossip "state_update" "" (StateMap {[k := v]}) now 0%N) = Some b ∧
     unmarshal b = Some m ∧ gm_Type m = "state_update" ∧ gm_Value m = StateMap {[k := v]}) →
  value_size v = Some n → n ≤ maxStateValueSize → gp_stateValidator node = None →
  gp_state node = ∅ ∨ gp_state node = {[k := e]} →
  gp_state (hear now peer node) = {[k := mkEntry v now]} ∧ gp_stateValidator (hear now peer node) = None.
Proof.
  intros Hpeer (b & m & Hb & Hm & Ht & Hv) Hn Hle Hval Hnode. unfold hear, state_message.
  rewrite Hpeer, Hb, Hm, Hv, map_to_list_singleton.
  assert (Hh : gp_state (HandleGossipMessage unmarshal value_size now (None : option Ps) b None
                           [(k, v)] node).1 = {[k := mkEntry v now]} ∧
               gp_stateValidator (HandleGossipMessage unmarshal value_size now (None : option Ps) b None
                           [(k, v)] node).1 = None).
  { unfold HandleGossipMessage. cbn. rewrite Hm, decide_True, Hv by done.
    unfold merge_state, merge_entry, accepts. cbn.
    rewrite Hn, Hval. destruct (Z.gtb_spec n maxStateValueSize); [lia|].
    destruct Hnode as [He|He]; rewrite He.
    - rewrite lookup_empty, map_size_empty. cbn. by rewrite insert_empty.
    - rewrite lookup_singleton_eq. cbn. by rewrite insert_singleton_eq. }
  destruct Hh as [Hst ?]. split; [|done]. rewrite clean_fresh; [done|].
  rewrite Hst. by apply map_Forall_singleton.
Qed.

(** Liveness.  Two peers that gossip keep an entry alive between them: when
    one of them holds an entry nobody updates any more, then after any number
    of ten-second rounds, each followed by the removal of entries older than
    half an hour, both still hold it. *)
Theorem abandoned_entry_never_expires rnds now a b k v n e :
  (∀ t, ∃ p m, marshal (mkGossip "state_update" "" (StateMap {[k := v]}) t 0%N) = Some p ∧
     unmarshal p = Some m ∧ gm_Type m = "state_update" ∧ gm_Value m = StateMap {[k := v]}) →
  value_size v = Some n → n ≤ maxStateValueSize →
  gp_stateValidator a = None → gp_stateValidator b = None →
  gp_state a = {[k := mkEntry v e]} → gp_state b = ∅ →
  let '(a', b') := rounds (S rnds) now a b in GetState k a' = Some v ∧ GetState k b' = Some v.
Proof.
  intros Hjson Hn Hle Hva Hvb Ha Hb.
  assert (Hgen : ∀ rnds now a b ea eb,
    gp_stateValidator a = None → gp_stateValidator b = None →
    gp_state a = {[k := mkEntry v ea]} → gp_state b = ∅ ∨ gp_state b = {[k := mkEntry v eb]} →
    let '(a', b') := rounds (S rnds) now a b in GetState k a' = Some v ∧ GetState k b' = Some v).
  { clear -Hjson Hn Hle. induction rnds as [|rnds IH]; intros now a b ea eb Hva Hvb Ha Hb;
      cbn [rounds];
      (destruct (hear_singleton now a b k v n (mkEntry v eb)) as [Hb1 Hvb1];
         [by rewrite Ha, map_fmap_singleton|done..|]);
      (destruct (hear_singleton now (hear now a b) a k v n (mkEntry v ea)) as [Ha1 Hva1];
         [by rewrite Hb1, map_fmap_singleton|by auto..|]).
    - unfold GetState. by rewrite Ha1, Hb1, lookup_singleton_eq.
    - by eapply (IH _ _ _ now now); [| |exact Ha1|right; exact Hb1]. }
  by eapply (Hgen _ _ _ _ e e); [| |exact Ha|left].
Qed.
End Exchange.

(** ** Instances for the examples *)

Section Examples.

Definition toy_marshal (m : GossipMessage string) : option bytes :=
  Some [Z.pos (encode (gm_Type m, gm_Key m,
    match gm_Value m with StateMap sm => Some sm | NotAMap => None end,
    gm_Timestamp m, gm_From m))].

Definition toy_unmarshal (b : bytes) : option (GossipMessage string) :=
  match b with
  | [Z.pos p] =>
      (λ '(ty, key, v, ts, from),
         mkGossip ty key (match v with Some sm => StateMap sm | None => NotAMap end) ts from) <$>
      (decode p : option (string * string * option (gmap string string) * Z * N))
  | _ => None
  end.

Lemma toy_roundtrip m b : toy_marshal m = Some b → toy_unmarshal b = Some m.
Proof.
  unfold toy_marshal, toy_unmarshal. intros [= <-]. rewrite decode_encode. cbn.
  destruct m as [ty key [sm|] ts from]; reflexivity.
Qed.

Definition toy_size (v : string) : option Z := Some (Z.of_nat (String.length v) + 2).

#[local] Instance toy_service : PaymentService unit := {|
  HasMinimumStake _ _ := Some true;
  ps_GetTier _ _ := Some "gold";
  GetStakedAmount _ _ := None;
  NodeIDToProvider _ _ := None
|}.

Abbreviation toy_ops := (gp_op (V := string) (Ps := unit)).

(** Node 7 announced its wallet; a validator that wants values of three
    characters. *)
Definition toy_sender : Node := mkNode 7%N "10.0.0.1" 9000 "EU".
Definition toy_state : gmap string string := {["expose:a" := "abc"; "expose:b" := "toolong"]}.
Definition toy_payload : bytes :=
  default [] (toy_marshal (mkGossip "state_update" "" (StateMap toy_state) minute 0%N)).

Definition toy_history : list toy_ops := [
  OpSetVerifier (Some (RegisterPeerWallet 7%N 99%N NewStakeVerifier));
  OpSetValidator (Some (λ _ _ v, Nat.eqb (String.length v) 3));
  OpAddPeer 0 [] toy_sender;
  OpStore second [] "local" "value";
  OpHandle minute (Some tt) toy_payload (Some toy_sender) (map_to_list toy_state)].

Definition toy_run (ops : list toy_ops) : GossipProtocol string * list (NodeID * Message) :=
  foldl (λ w o, gp_exec toy_marshal toy_unmarshal toy_size o w) (NewGossipProtocol, []) ops.

Lemma toy_trace : gp_trace toy_marshal toy_unmarshal toy_size toy_history (NewGossipProtocol, [])
                    (toy_run toy_history).
Proof.
  unfold toy_history, toy_run. cbn [foldl].
  apply (trace_snoc _ _ _ (take 4 toy_history)); [|vm_compute; reflexivity].
  apply (trace_snoc _ _ _ (take 3 toy_history)); [|vm_compute; reflexivity].
  apply (trace_snoc _ _ _ (take 2 toy_history)); [|vm_compute; reflexivity].
  apply (trace_snoc _ _ _ (take 1 toy_history)); [|exact I].
  apply (trace_snoc _ _ _ []); [|exact I]. constructor.
Qed.

Lemma gossip_capacity_witness :
  size (gp_state (toy_run toy_history).1) = 2%nat ∧
  Z.of_nat (size (gp_peers (toy_run toy_history).1)) ≤ gossipMaxPeers.
Proof.
  split; [vm_compute; reflexivity|].
  apply (gossip_capacity toy_marshal toy_unmarshal toy_size toy_history [] (toy_run toy_history) toy_trace).
Defined.

(** The received entry has an operation of the history that wrote it; the one
    the validator refuses is not there. *)
Lemma gossip_provenance_witness :
  gp_state (toy_run toy_history).1 !! "expose:b" = None ∧
  ∃ os1 o os2, toy_history = os1 ++ o :: os2 ∧
    match o with OpStore _ _ _ _ | OpHandle _ _ _ _ _ => True | _ => False end.
Proof.
  split; [vm_compute; reflexivity|].
  destruct (gossip_provenance toy_marshal toy_unmarshal toy_size toy_history [] (toy_run toy_history)
              "expose:a" (mkEntry "abc" minute) toy_trace) as (os1 & o & os2 & w1 & Hos & _ & Hw).
  { vm_compute. reflexivity. }
  exists os1, o, os2. split; [exact Hos|]. by destruct o.
Defined.

Lemma UpdateState_evicts_oldest_witness :
  gp_state (UpdateState toy_marshal hour (None : option unit) ["local"; "expose:a"] [7%N] "new" "v"
              (toy_run toy_history).1 ([] : list (NodeID * Message))).1 =
  <["new" := mkEntry "v" hour]> (gp_state (toy_run toy_history).1).
Proof.
  pose proof (UpdateState_evicts_oldest toy_marshal hour (None : option unit) ["local"; "expose:a"]
    [7%N] "new" "v" (toy_run toy_history).1 ([] : list (NodeID * Message))) as Hu.
  rewrite decide_False in Hu by (vm_compute; intros [_ H]; exact (H eq_refl)).
  apply Hu. vm_compute. apply perm_swap.
Defined.


(** A node that published an entry leaves; its peer keeps the entry. *)
Lemma leave_removes_nothing_witness :
  let leaving := (toy_run toy_history).1 in
  let sent := (RemoveLocalState toy_marshal hour (Some tt) [7%N] leaving []).2 in
  let peer := storeState second [] "local" "value" NewGossipProtocol in
  length sent = 1%nat ∧
  ∀ s, s ∈ sent →
    gp_state (HandleGossipMessage toy_unmarshal toy_size hour (Some tt) (Payload s.2) None [] peer).1 =
      gp_state peer.
Proof.
  split; [vm_compute; reflexivity|]. intros s Hs.
  apply (leave_removes_nothing toy_marshal toy_unmarshal toy_size hour (Some tt) (Some tt) [7%N]
    (toy_run toy_history).1 hour s None [] (storeState second [] "local" "value" NewGossipProtocol)).
  - intros b Hb. exists (mkGossip "state_update" "" (StateMap ∅) hour 0%N).
    split; [by apply toy_roundtrip|reflexivity].
  - exact Hs.
  - apply list_elem_of_singleton in Hs as ->. vm_compute. reflexivity.
Defined.

Lemma abandoned_entry_never_expires_witness :
  let a := storeState 0 [] "k" "v" NewGossipProtocol in
  let '(a', b') := rounds toy_marshal toy_unmarshal toy_size (Ps := unit) 100 0 a NewGossipProtocol in
  GetState "k" a' = Some "v" ∧ GetState "k" b' = Some "v".
Proof.
  apply (abandoned_entry_never_expires toy_marshal toy_unmarshal toy_size 99 0
    (storeState 0 [] "k" "v" NewGossipProtocol) NewGossipProtocol "k" "v" 3 0); try reflexivity.
  - intros t. eexists _, _. split; [reflexivity|]. split; [by apply toy_roundtrip|split; reflexivity].
  - vm_compute. discriminate.
Defined.
End Examples.
