(* ===== verification/ServiceRouting.v ===== *)
(** * Service discovery: from a host name to a provider

    A provider announces a container port as a gossip entry
    "expose:<deployment>:<port>", and the node that registered a vanity name
    keeps "subdomain:<name>" (internal/daemon/container_manager.go).  The
    validator of internal/daemon/gossip_adapter.go decides which entries a node
    takes from its peers; the adapter of the same file reads them back, with a
    cached look-up of names in the registry contract; [Resolver]
    (internal/ingress/resolver.go) turns the subdomain of a request into a
    service; internal/daemon/subdomain_cleanup.go drops expired names.

    The resolver is written against the two interfaces the source declares,
    [GossipReader] and [SubdomainResolver], which the adapter implements.  A
    value that is re-read through encoding/json, the contract and hexutil are
    parameters.  Each loop over a map takes its own visiting order.

    Theorems: what [Resolve] may return, and that a registered service is found;
    names are only ever written locally and a remote service entry names its
    sender as provider; a cached answer of the contract is at most five minutes
    old; when a deployment id survives the contract's bytes32.  And where the
    code falls short: an announced service is never resolved, any staked peer
    can replace or withdraw another's service. *)

From S2P Require Import Prelude NetAddr BanList Stake Float64 Diversity PeerScorer Framing PeerTable RouterPipeline Gossip.
From stdpp Require Import pretty.
From Stdlib Require Import Ascii.
Local Open Scope Z_scope.

(** ** Data *)

Record ServiceEntry := mkService {
  sv_DeploymentID : string;
  sv_ProviderNodeID : string;
  sv_ProviderAddr : string;
  sv_ContainerPort : Z;
  sv_HostPort : Z;
  sv_LastSeen : time;
  sv_RuntimeType : string
}.

(** A gossip value: a Go [interface{}] that holds nothing, a service entry (a
    local update), a string, or what JSON gives: an object or something else. *)
Inductive gvalue :=
  | VNil
  | VService (e : ServiceEntry)
  | VString (s : string)
  | VObject (fields : list (string * gvalue))
  | VOther.

Definition field (k : string) (fields : list (string * gvalue)) : option gvalue :=
  snd <$> List.find (λ kv, bool_decide (kv.1 = k)) fields.

(** [NodeID.String]: the 64 hexadecimal digits of the 32 bytes. *)
Definition id_bytes (id : NodeID) : list Z :=
  (λ i, Z.of_N id / 256 ^ (31 - Z.of_nat i) mod 256) <$> seq 0 32.

Definition NodeID_String (id : NodeID) : string := hex_bytes (id_bytes id).

(** [hex.DecodeString]: two digits per byte. *)
Fixpoint DecodeString (s : list ascii) : option (list Z) :=
  match s with
  | [] => Some []
  | hi :: lo :: rest =>
      h ← hex_digit hi; l ← hex_digit lo; bs ← DecodeString rest; Some (16 * h + l :: bs)
  | _ => None
  end.

(** Go's [strings.TrimPrefix]. *)
Definition TrimPrefix (p s : string) : string :=
  if String.prefix p s then String.substring (String.length p) (String.length s - String.length p) s else s.

(** ** The validator *)

(** The node id a service value names as its provider, [None] when its type is
    not one of a service; a missing field is the empty string. *)
Definition provider_of (v : gvalue) : option string :=
  match v with
  | VService e => Some (sv_ProviderNodeID e)
  | VObject fields =>
      Some (match field "provider_node_id" fields with Some (VString nid) => nid | _ => "" end)
  | _ => None
  end.

Definition validateExposeEntry (senderID : NodeID) (value : gvalue) : bool :=
  match value with
  | VNil => true
  | _ =>
      match provider_of value with
      | None => false
      | Some nid =>
          if decide (nid = ""%string) then false else bool_decide (nid = NodeID_String senderID)
      end
  end.

(** The local node's id is not used. *)
Definition NewGossipStateValidator (localNodeID : NodeID) : StateValidator gvalue :=
  λ senderID key value,
    if decide (senderID = 0%N) then true
    else if String.prefix "expose:" key then validateExposeEntry senderID value
    else if String.prefix "subdomain:" key then false
    else true.

(** ** Announcing a service *)

Inductive exposure :=
  | NotExposed                                  (* no gossip, or a colon in the id *)
  | ExposePanics                                (* no node information *)
  | Exposed (key : string) (entry : ServiceEntry).

Definition has_colon (s : string) : bool := contains_char ":" (to_chars s).

Definition expose_key (deploymentID : string) (containerPort : Z) : string :=
  "expose:" +:+ deploymentID +:+ ":" +:+ pretty containerPort.

(** The entry [publishServiceExposure] writes with [UpdateState]; [LastSeen] is
    left at its zero value. *)
Definition publishServiceExposure (gossip : bool) (node : option Node) (deploymentID : string)
    (containerPort hostPort : Z) : exposure :=
  if negb gossip then NotExposed
  else match node with
       | None => ExposePanics
       | Some info =>
           let addr := nd_Address info +:+ ":" +:+ pretty (Port info + 2) in
           let entry := mkService deploymentID (NodeID_String (ID info)) addr containerPort hostPort 0
                          "container" in
           if has_colon deploymentID then NotExposed
           else Exposed (expose_key deploymentID containerPort) entry
       end.

(** The keys [removeServiceExposure] sets to nil, for the ports of a deployment. *)
Definition removeServiceExposure (containerID : string) (ports : option (list Z)) : list string :=
  match ports with
  | None => []
  | Some ports => expose_key containerID <$> ports
  end.

(** ** Deployment ids in the contract

    [decode] is [hexutil.Decode]. *)

Definition deploymentIDToBytes32 (decode : string → option (list Z)) (id : string) : option (list Z) :=
  let hexStr := if (4 <? Z.of_nat (String.length id)) && String.prefix "dep-" id
                then TrimPrefix "dep-" id else id in
  decoded ← decode ("0x" +:+ hexStr);
  if 32 <? len decoded then None
  else Some (replicate (32 - length decoded) 0 ++ decoded).

(** The loop that skips leading zero bytes stops at the last byte. *)
Fixpoint skip_zeros (b : list Z) : list Z :=
  match b with
  | 0 :: ((_ :: _) as rest) => skip_zeros rest
  | _ => b
  end.

Definition bytes32ToDeploymentID (b : list Z) : string := hex_bytes (skip_zeros b).

(** ** The adapter *)

Definition defaultSubdomainCacheTTL : duration := 5 * minute.
Definition defaultSubdomainNegativeCacheTTL : duration := 2 * minute.

Record cachedSubdomainResult := mkCached {
  ca_DeploymentID : string;
  ca_Found : bool;
  ca_FetchedAt : time
}.

Record GossipServiceAdapter := mkAdapter {
  subdomainCache : gmap string cachedSubdomainResult;
  ad_cacheTTL : duration;
  ad_negativeTTL : duration
}.

Definition NewGossipServiceAdapter : GossipServiceAdapter :=
  mkAdapter ∅ defaultSubdomainCacheTTL defaultSubdomainNegativeCacheTTL.

Definition toServiceEntry (reparse : gvalue → option ServiceEntry) (val : gvalue) : option ServiceEntry :=
  match val with
  | VService e => Some e
  | _ =>
      entry ← reparse val;
      if decide (sv_DeploymentID entry = "" ∨ sv_ProviderAddr entry = "") then None else Some entry
  end.

Definition GetExposedServices (reparse : gvalue → option ServiceEntry) (gp : GossipProtocol gvalue) :
    gmap string ServiceEntry :=
  omap (λ val, match val with VNil => None | _ => toServiceEntry reparse val end)
    (GetStateByPrefix "expose:" gp).

Definition ResolveVanityName (name : string) (gp : GossipProtocol gvalue) : option string :=
  match GetState ("subdomain:" +:+ name) gp with
  | Some (VString depID) => Some depID
  | _ => None
  end.

(** [contract] answers for a name with the deployment id stored for it; [None]
    is an error or no registration.  The outer [None] is an adapter without a
    payment service. *)
Definition ResolveOnChain (now : time) (contract : option (string → option (list Z))) (name : string)
    (a : GossipServiceAdapter) : GossipServiceAdapter * option string :=
  let remember r := mkAdapter (<[name := r]> (subdomainCache a)) (ad_cacheTTL a) (ad_negativeTTL a) in
  let ask :=
    match contract with
    | None => (a, None)
    | Some lookup =>
        match lookup name with
        | None => (remember (mkCached "" false now), None)
        | Some reg =>
            let depID := bytes32ToDeploymentID reg in
            if decide (depID = "" ∨ depID = hex_bytes (replicate 32 0))
            then (remember (mkCached "" false now), None)
            else (remember (mkCached depID true now), Some depID)
        end
    end in
  match subdomainCache a !! name with
  | Some cached =>
      let ttl := if ca_Found cached then ad_cacheTTL a else ad_negativeTTL a in
      if time_sub now (ca_FetchedAt cached) <? ttl
      then (a, if ca_Found cached then Some (ca_DeploymentID cached) else None)
      else ask
  | None => ask
  end.

Definition InvalidateSubdomainCache (name : string) (a : GossipServiceAdapter) : GossipServiceAdapter :=
  mkAdapter (delete name (subdomainCache a)) (ad_cacheTTL a) (ad_negativeTTL a).

(** ** The resolver *)

Class GossipReader (D : Type) := {
  exposedServices : D → gmap string ServiceEntry
}.

Class SubdomainResolver (D : Type) := {
  vanityName : string → D → option string;
  nameOnChain : time → string → D → D * option string
}.

(** Whether the two interfaces are set; the daemon sets both. *)
Record Resolver := mkResolver {
  rs_services : gmap string ServiceEntry;
  rs_gossip : bool;
  rs_subdomainResolver : bool
}.

Definition NewResolver (gossip sub : bool) : Resolver := mkResolver ∅ gossip sub.

Definition minPrefixLen : Z := 8.

(** [time.Since(entry.LastSeen) < 5*time.Minute] *)
Definition fresh (now : time) (e : ServiceEntry) : bool := time_sub now (sv_LastSeen e) <? 5 * minute.

Definition fresh_service (now : time) (id : string) (r : Resolver) : option ServiceEntry :=
  match rs_services r !! id with
  | Some e => if fresh now e then Some e else None
  | None => None
  end.

Definition bare (depID : string) : string := TrimPrefix "dep-" depID.

Definition resolveByPrefix (now : time) (order : list (string * ServiceEntry)) (prefix : string) :
    option ServiceEntry :=
  if Z.of_nat (String.length prefix) <? minPrefixLen then None
  else snd <$> List.find (λ kv, String.prefix prefix (bare kv.1) && fresh now kv.2) order.

Definition findServiceByDeploymentID (now : time) (order : list (string * ServiceEntry))
    (depID : string) (r : Resolver) : option ServiceEntry :=
  match fresh_service now depID r with
  | Some e => Some e
  | None => snd <$> List.find (λ kv, bool_decide (bare kv.1 = depID) && fresh now kv.2) order
  end.

Section Resolution.
Context {D : Type} `{GossipReader D} `{SubdomainResolver D}.

Definition resolveVanity (now : time) (name : string) (r : Resolver) (d : D) : option ServiceEntry :=
  if negb (rs_subdomainResolver r) then None
  else match vanityName name d with
       | None => None
       | Some depID => if decide (depID = ""%string) then None else fresh_service now depID r
       end.

Definition resolveOnChain (now : time) (order : list (string * ServiceEntry)) (name : string)
    (r : Resolver) (d : D) : D * option ServiceEntry :=
  if negb (rs_subdomainResolver r) then (d, None)
  else match nameOnChain now name d with
       | (d, None) => (d, None)
       | (d, Some depID) =>
           (d, if decide (depID = ""%string) then None else findServiceByDeploymentID now order depID r)
       end.

(** [order]: the exposed services, in the order the loop visits them. *)
Definition refreshFromGossip (order : list (string * ServiceEntry)) (r : Resolver) : Resolver :=
  if negb (rs_gossip r) then r
  else mkResolver (foldl (λ m kv, <[sv_DeploymentID kv.2 := kv.2]> m) (rs_services r) order)
         (rs_gossip r) (rs_subdomainResolver r).

(** [visit i m] is the order in which the [i]th loop of the call visits [m]. *)
Definition resolveOnce (visit : nat → gmap string ServiceEntry → list (string * ServiceEntry))
    (now : time) (subdomain : string) (r : Resolver) (d : D) : Resolver * D * option ServiceEntry :=
  match fresh_service now subdomain r with
  | Some e => (r, d, Some e)
  | None =>
  match resolveByPrefix now (visit 0%nat (rs_services r)) subdomain with
  | Some e => (r, d, Some e)
  | None =>
  match resolveVanity now subdomain r d with
  | Some e => (r, d, Some e)
  | None =>
      let r := if rs_gossip r then refreshFromGossip (visit 1%nat (exposedServices d)) r else r in
      match (if rs_gossip r then resolveByPrefix now (visit 2%nat (rs_services r)) subdomain else None) with
      | Some e => (r, d, Some e)
      | None =>
      match (if rs_gossip r then resolveVanity now subdomain r d else None) with
      | Some e => (r, d, Some e)
      | None =>
          let '(d, res) := resolveOnChain now (visit 3%nat (rs_services r)) subdomain r d in
          (r, d, res)
      end
      end
  end
  end
  end.

(** What follows the first dot, when something does. *)
Definition parent (subdomain : string) : option string :=
  match String.index 0 "." subdomain with
  | None => None
  | Some idx =>
      if (idx <? String.length subdomain - 1)%nat
      then Some (String.substring (idx + 1) (String.length subdomain - (idx + 1)) subdomain)
      else None
  end.

(** The second attempt has visits of its own. *)
Definition Resolve (visit : nat → gmap string ServiceEntry → list (string * ServiceEntry))
    (now : time) (subdomain : string) (r : Resolver) (d : D) : Resolver * D * option ServiceEntry :=
  match resolveOnce visit now subdomain r d with
  | (r, d, Some e) => (r, d, Some e)
  | (r, d, None) =>
      match parent subdomain with
      | None => (r, d, None)
      | Some p => resolveOnce (λ i, visit (4 + i)%nat) now p r d
      end
  end.

Definition Register (now : time) (e : ServiceEntry) (r : Resolver) : Resolver :=
  let e := mkService (sv_DeploymentID e) (sv_ProviderNodeID e) (sv_ProviderAddr e) (sv_ContainerPort e)
             (sv_HostPort e) now (sv_RuntimeType e) in
  mkResolver (<[sv_DeploymentID e := e]> (rs_services r)) (rs_gossip r) (rs_subdomainResolver r).

Definition Unregister (deploymentID : string) (r : Resolver) : Resolver :=
  mkResolver (delete deploymentID (rs_services r)) (rs_gossip r) (rs_subdomainResolver r).
End Resolution.

(** The adapter, with the gossip state and the contract it reads, is both. *)
Record Directory := mkDirectory {
  dir_gossip : GossipProtocol gvalue;
  dir_adapter : GossipServiceAdapter;
  dir_contract : option (string → option (list Z))
}.

Section Adapter.
Context (reparse : gvalue → option ServiceEntry).

#[export] Instance adapter_reader : GossipReader Directory := {|
  exposedServices d := GetExposedServices reparse (dir_gossip d)
|}.
End Adapter.

#[export] Instance adapter_resolver : SubdomainResolver Directory := {|
  vanityName name d := ResolveVanityName name (dir_gossip d);
  nameOnChain now name d :=
    let '(a, res) := ResolveOnChain now (dir_contract d) name (dir_adapter d) in
    (mkDirectory (dir_gossip d) a (dir_contract d), res)
|}.

(** ** Expired names

    [expired] is the contract's answer for a name, [None] an error; [order] the
    keys of the "subdomain:" entries, in the order the loop visits them. *)
Definition cleanExpiredSubdomains (now : time) (expired : string → option bool) (order : list string)
    (orders : string → list string) (gp : GossipProtocol gvalue) : GossipProtocol gvalue :=
  foldl (λ gp key,
    let name := TrimPrefix "subdomain:" key in
    if decide (name = ""%string) then gp
    else match expired name with
         | Some true => storeState now (orders key) key VNil gp
         | _ => gp
         end) gp order.

(** ** What is resolved *)

Section Sound.
Context {D : Type} `{GossipReader D} `{SubdomainResolver D}.
Implicit Types (r : Resolver) (d : D) (e : ServiceEntry).

(** [e] is a service of [r] that the name [s] stands for: its deployment id, a
    prefix of at least eight characters of it without "dep-", or a vanity name
    that gossip or the contract maps to it. *)
Inductive reaches (now : time) r d (s : string) e : Prop :=
  | reach_id : rs_services r !! s = Some e → reaches now r d s e
  | reach_prefix k :
      rs_services r !! k = Some e → minPrefixLen ≤ Z.of_nat (String.length s) →
      String.prefix s (bare k) = true → reaches now r d s e
  | reach_vanity id :
      vanityName s d = Some id → rs_services r !! id = Some e → reaches now r d s e
  | reach_chain id k :
      (nameOnChain now s d).2 = Some id → rs_services r !! k = Some e →
      k = id ∨ bare k = id → reaches now r d s e.

Lemma fresh_service_Some now id r e :
  fresh_service now id r = Some e ↔ rs_services r !! id = Some e ∧ fresh now e = true.
Proof.
  unfold fresh_service. destruct (rs_services r !! id) as [e'|]; [|by split; [|intros [? _]]].
  destruct (fresh now e') eqn:Hf; split.
  - by intros [= <-].
  - by intros [[= <-] _].
  - done.
  - intros [[= <-] Hf']. congruence.
Qed.

Lemma find_Some {A} (f : A → bool) l x : List.find f l = Some x → x ∈ l ∧ f x = true.
Proof.
  intros Hf. apply List.find_some in Hf as [Hin Hf]. split; [by apply list_elem_of_In|done].
Qed.

Lemma find_service now (m : gmap string ServiceEntry) order (f : string → bool) e :
  order ≡ₚ map_to_list m →
  snd <$> List.find (λ kv, f kv.1 && fresh now kv.2) order = Some e →
  ∃ k, m !! k = Some e ∧ f k = true ∧ fresh now e = true.
Proof.
  intros Ho. destruct (List.find _ order) as [[k e']|] eqn:Hf; [|done].
  apply find_Some in Hf as [Hin Hf]. cbn in *. intros [= <-].
  rewrite Ho, elem_of_map_to_list in Hin. apply andb_true_iff in Hf as [? ?]. eauto.
Qed.

Lemma resolveByPrefix_sound now order s r d e :
  order ≡ₚ map_to_list (rs_services r) → resolveByPrefix now order s = Some e →
  reaches now r d s e ∧ fresh now e = true.
Proof.
  unfold resolveByPrefix. intros Ho.
  destruct (Z.ltb_spec (Z.of_nat (String.length s)) minPrefixLen); [done|].
  intros (k & Hk & Hp & Hf)%(find_service now _ _ (λ k, String.prefix s (bare k)) _ Ho).
  split; [by eapply reach_prefix|done].
Qed.

Lemma resolveVanity_sound now s r d e :
  resolveVanity now s r d = Some e → reaches now r d s e ∧ fresh now e = true.
Proof.
  unfold resolveVanity. destruct (rs_subdomainResolver r); [|done]. cbn.
  destruct (vanityName s d) as [id|] eqn:Hv; [|done]. case_decide; [done|].
  intros [Hs Hf]%fresh_service_Some. split; [by eapply reach_vanity|done].
Qed.

Lemma resolveOnChain_sound now order s r d d' e :
  order ≡ₚ map_to_list (rs_services r) → resolveOnChain now order s r d = (d', Some e) →
  reaches now r d s e ∧ fresh now e = true.
Proof.
  intros Ho. unfold resolveOnChain. destruct (rs_subdomainResolver r); [|done]. cbn.
  destruct (nameOnChain now s d) as [d1 [id|]] eqn:Hn; [|done]. case_decide; [done|].
  intros [= <- Hfind]. unfold findServiceByDeploymentID in Hfind.
  assert (Hid : (nameOnChain now s d).2 = Some id) by (by rewrite Hn).
  destruct (fresh_service now id r) as [e'|] eqn:Hfs.
  - injection Hfind as ->. apply fresh_service_Some in Hfs as [Hs Hf].
    split; [by eapply reach_chain; eauto|done].
  - destruct (find_service now _ _ (λ k, bool_decide (bare k = id)) e Ho Hfind) as (k & Hk & Hb & Hf).
    apply bool_decide_eq_true in Hb. split; [by eapply reach_chain; eauto|done].
Qed.

Definition orders_maps (visit : nat → gmap string ServiceEntry → list (string * ServiceEntry)) : Prop :=
  ∀ i m, visit i m ≡ₚ map_to_list m.

Lemma resolveOnce_sound visit now s r d r' d' e :
  orders_maps visit → resolveOnce visit now s r d = (r', d', Some e) →
  reaches now r' d s e ∧ fresh now e = true.
Proof.
  intros Hv. unfold resolveOnce.
  destruct (fresh_service now s r) as [e0|] eqn:H1.
  { intros [= <- <- <-]. apply fresh_service_Some in H1 as [? ?]. split; [by apply reach_id|done]. }
  destruct (resolveByPrefix now (visit 0%nat (rs_services r)) s) as [e0|] eqn:H2.
  { intros [= <- <- <-]. eapply resolveByPrefix_sound; [apply Hv|exact H2]. }
  destruct (resolveVanity now s r d) as [e0|] eqn:H3.
  { intros [= <- <- <-]. by apply resolveVanity_sound. }
  cbn zeta. set (r1 := if rs_gossip r then _ else r).
  destruct (if rs_gossip r1 then resolveByPrefix _ _ _ else None) as [e0|] eqn:H4.
  { intros [= <- <- <-]. destruct (rs_gossip r1); [|done]. eapply resolveByPrefix_sound; [apply Hv|exact H4]. }
  destruct (if rs_gossip r1 then resolveVanity _ _ _ _ else None) as [e0|] eqn:H5.
  { intros [= <- <- <-]. destruct (rs_gossip r1); [|done]. by apply resolveVanity_sound. }
  destruct (resolveOnChain now (visit 3%nat (rs_services r1)) s r1 d) as [d1 res] eqn:H6.
  intros [= <- <- ->]. eapply resolveOnChain_sound; [apply Hv|exact H6].
Qed.

(** Safety.  Whatever the orders in which the maps are visited, the service
    a request is routed to was seen in the last five minutes and is one the
    subdomain stands for, or its parent after one label is stripped: by its
    deployment id, by a prefix of at least eight characters, or by a vanity name
    from gossip or from the contract. *)
Theorem Resolve_sound visit now sub r d r' d' e :
  orders_maps visit → Resolve visit now sub r d = (r', d', Some e) →
  fresh now e = true ∧
  (reaches now r' d sub e ∨
   ∃ p, parent sub = Some p ∧ reaches now r' (resolveOnce visit now sub r d).1.2 p e).
Proof.
  intros Hv. unfold Resolve.
  destruct (resolveOnce visit now sub r d) as [[r1 d1] [e1|]] eqn:H1.
  - intros [= <- <- <-]. apply resolveOnce_sound in H1 as [? ?]; [auto|done].
  - destruct (parent sub) as [p|] eqn:Hp; [|done]. intros H2.
    apply resolveOnce_sound in H2 as [? ?]; [|intros i m; apply Hv]. eauto 6.
Qed.

(** Functional.  A registered service is found at once under its deployment
    id, for five minutes, whatever gossip and the contract say. *)
Theorem Register_Resolve visit now now' e r d :
  time_sub now' now < 5 * minute →
  ∃ e', Resolve visit now' (sv_DeploymentID e) (Register now e r) d = (Register now e r, d, Some e') ∧
    sv_ProviderAddr e' = sv_ProviderAddr e ∧ sv_ContainerPort e' = sv_ContainerPort e ∧
    sv_ProviderNodeID e' = sv_ProviderNodeID e ∧ sv_LastSeen e' = now.
Proof.
  intros Ht. eexists. unfold Resolve, resolveOnce, fresh_service, Register. cbn.
  rewrite lookup_insert_eq. unfold fresh. cbn.
  apply Z.ltb_lt in Ht. cbn in Ht. rewrite Ht. auto.
Qed.

(** ** An announced service is not resolved *)

Lemma fold_services_stale (Q : ServiceEntry → Prop) order (m : gmap string ServiceEntry) :
  Forall (λ kv : string * ServiceEntry, Q kv.2) order → map_Forall (λ _ e, Q e) m →
  map_Forall (λ _ e, Q e) (foldl (λ m kv, <[sv_DeploymentID kv.2 := kv.2]> m) m order).
Proof.
  revert m. induction order as [|[k e] order IH]; intros m Hall Hm; [done|]. cbn.
  apply Forall_cons in Hall as [He Hall]. apply IH; [done|]. by apply map_Forall_insert_2.
Qed.

Lemma resolveOnce_services (Q : ServiceEntry → Prop) visit now s r d :
  orders_maps visit → map_Forall (λ _ e, Q e) (exposedServices d) →
  map_Forall (λ _ e, Q e) (rs_services r) →
  map_Forall (λ _ e, Q e) (rs_services (resolveOnce visit now s r d).1.1).
Proof.
  intros Hv Hex Hr. unfold resolveOnce.
  destruct (fresh_service now s r); [done|]. destruct (resolveByPrefix now _ s); [done|].
  destruct (resolveVanity now s r d); [done|]. cbn zeta.
  set (r1 := if rs_gossip r then _ else r).
  assert (Hr1 : map_Forall (λ _ e, Q e) (rs_services r1)).
  { unfold r1, refreshFromGossip. destruct (rs_gossip r); [|done]. cbn.
    apply fold_services_stale; [|done]. apply Forall_forall. intros [k e] Hin.
    rewrite (Hv 1%nat (exposedServices d)), elem_of_map_to_list in Hin. by apply (Hex k). }
  destruct (if rs_gossip r1 then _ else _); [done|]. destruct (if rs_gossip r1 then _ else _); [done|].
  by destruct (resolveOnChain _ _ _ _ _).
Qed.

Lemma resolveOnce_stale (Q : ServiceEntry → Prop) visit now s r d :
  orders_maps visit → (∀ e, Q e → fresh now e = false) →
  map_Forall (λ _ e, Q e) (exposedServices d) → map_Forall (λ _ e, Q e) (rs_services r) →
  (resolveOnce visit now s r d).2 = None.
Proof.
  intros Hv HQ Hex Hr. pose proof (resolveOnce_services Q visit now s r d Hv Hex Hr) as Hq.
  destruct (resolveOnce visit now s r d) as [[r' d'] [e|]] eqn:He; [|done]. exfalso.
  apply resolveOnce_sound in He as [Hreach Hf]; [|done]. cbn in Hq.
  assert (Hz : Q e) by (destruct Hreach; by eapply Hq). rewrite (HQ e Hz) in Hf. done.
Qed.

Lemma resolveOnce_directory visit now s r d :
  (resolveOnce visit now s r d).1.2 = d ∨
  (resolveOnce visit now s r d).1.2 = (nameOnChain now s d).1.
Proof.
  unfold resolveOnce, resolveOnChain.
  destruct (fresh_service now s r); [by left|]. destruct (resolveByPrefix now _ s); [by left|].
  destruct (resolveVanity now s r d); [by left|]. cbn zeta.
  set (r1 := if rs_gossip r then _ else r).
  destruct (if rs_gossip r1 then _ else _); [by left|]. destruct (if rs_gossip r1 then _ else _); [by left|].
  destruct (rs_subdomainResolver r1); [|by left]. cbn. right. by destruct (nameOnChain now s d) as [d' []].
Qed.

(** No stale service is ever resolved, and none of its attempts brings a fresh
    one, when looking up a name leaves the announced services alone. *)
Lemma Resolve_stale (Q : ServiceEntry → Prop) visit now sub r d :
  orders_maps visit → (∀ e, Q e → fresh now e = false) →
  (∀ s, exposedServices (nameOnChain now s d).1 = exposedServices d) →
  map_Forall (λ _ e, Q e) (exposedServices d) → map_Forall (λ _ e, Q e) (rs_services r) →
  (Resolve visit now sub r d).2 = None ∧
  map_Forall (λ _ e, Q e) (rs_services (Resolve visit now sub r d).1.1).
Proof.
  intros Hv HQ Hlaw Hex Hr.
  pose proof (resolveOnce_services Q visit now sub r d Hv Hex Hr) as Hq1.
  pose proof (resolveOnce_stale Q visit now sub r d Hv HQ Hex Hr) as Hn1.
  pose proof (resolveOnce_directory visit now sub r d) as Hd1. unfold Resolve.
  destruct (resolveOnce visit now sub r d) as [[r1 d1] res1]; cbn in *. subst res1.
  destruct (parent sub) as [p|]; [|done].
  assert (Hv' : orders_maps (λ i, visit (4 + i)%nat)) by (intros i m; apply Hv).
  assert (Hex1 : map_Forall (λ _ e, Q e) (exposedServices d1)).
  { destruct Hd1 as [->| ->]; [done|]. by rewrite Hlaw. }
  split; [by apply (resolveOnce_stale Q)|by apply (resolveOnce_services Q)].
Qed.
End Sound.

(** Liveness.  A service announced with [publishServiceExposure] carries the
    zero time as [LastSeen] and is therefore never routed to: when the services
    a resolver knows and those its adapter reads from gossip all do, no subdomain
    resolves, at any time more than five minutes after the zero time. *)
Theorem announced_services_unreachable reparse visit now sub r d :
  orders_maps visit → 5 * minute ≤ now →
  map_Forall (λ _ e, sv_LastSeen e = 0) (rs_services r) →
  map_Forall (λ _ e, sv_LastSeen e = 0) (GetExposedServices reparse (dir_gossip d)) →
  (Resolve (H := adapter_reader reparse) visit now sub r d).2 = None ∧
  map_Forall (λ _ e, sv_LastSeen e = 0)
    (rs_services (Resolve (H := adapter_reader reparse) visit now sub r d).1.1).
Proof.
  intros Hv Hnow Hr Hex. apply (Resolve_stale (λ e, sv_LastSeen e = 0)); try done.
  - intros e He. unfold fresh, time_sub. rewrite He. apply Z.ltb_ge.
    unfold minute, second, min_int64, max_int64 in *. lia.
  - intros s. cbn. by destruct (ResolveOnChain _ _ _ _).
Qed.

(** What is announced has the zero time. *)
Lemma published_LastSeen gossip node id port host key e :
  publishServiceExposure gossip node id port host = Exposed key e →
  sv_LastSeen e = 0 ∧ key = expose_key id port ∧ sv_DeploymentID e = id.
Proof.
  unfold publishServiceExposure. destruct gossip; [|done]. cbn. destruct node as [info|]; [|done].
  destruct (has_colon id); [done|]. intros [= <- <-]. done.
Qed.

(** ** Who may write what *)

Definition is_byte (b : Z) : Prop := 0 ≤ b < 256.

Lemma hex_char_inj a b : 0 ≤ a < 16 → 0 ≤ b < 16 → hex_char a = hex_char b → a = b.
Proof.
  intros Ha Hb Hab. unfold hex_char in Hab. apply (f_equal nat_of_ascii) in Hab.
  destruct (Z.ltb_spec a 10), (Z.ltb_spec b 10); rewrite !nat_ascii_embedding in Hab by lia; lia.
Qed.

Lemma hex_bytes_inj bs bs' :
  Forall is_byte bs → Forall is_byte bs' → hex_bytes bs = hex_bytes bs' → bs = bs'.
Proof.
  unfold hex_bytes. intros Hb Hb' Heq. apply (f_equal String.list_ascii_of_string) in Heq.
  rewrite !String.list_ascii_of_string_of_list_ascii in Heq. revert bs' Hb' Heq.
  induction Hb as [|b bs Hb _ IH]; intros bs' Hb' Heq; destruct bs' as [|b' bs']; try done.
  apply Forall_cons in Hb' as [Hb1 Hb']. cbn in Heq. injection Heq as Hhi Hlo Hrest.
  unfold is_byte in *. f_equal; [|by apply IH].
  pose proof (Z.div_mod b 16) as Hd. pose proof (Z.div_mod b' 16) as Hd'.
  apply hex_char_inj in Hhi; [|split; [apply Z.div_pos; lia|apply Z.div_lt_upper_bound; lia]..].
  apply hex_char_inj in Hlo; [|apply Z.mod_pos_bound; lia..]. lia.
Qed.

Lemma hex_digit_char d : 0 ≤ d < 16 → hex_digit (hex_char d) = Some d.
Proof.
  intros Hd. assert (Hn : (Z.to_nat d < 16)%nat) by lia. rewrite <- (Z2Nat.id d) by lia.
  generalize (Z.to_nat d) Hn. clear. intros n Hn.
  do 16 (destruct n as [|n]; [vm_compute; reflexivity|]). lia.
Qed.

Lemma DecodeString_hex bs : Forall is_byte bs → DecodeString (to_chars (hex_bytes bs)) = Some bs.
Proof.
  intros Hb. unfold to_chars, hex_bytes. rewrite String.list_ascii_of_string_of_list_ascii.
  induction Hb as [|b bs Hb _ IH]; [reflexivity|]. cbn. unfold is_byte in Hb.
  rewrite (hex_digit_char (b / 16)) by (split; [apply Z.div_pos; lia|apply Z.div_lt_upper_bound; lia]).
  cbn. rewrite (hex_digit_char (b mod 16)) by (apply Z.mod_pos_bound; lia). cbn.
  rewrite IH. cbn. do 2 f_equal. pose proof (Z.div_mod b 16). lia.
Qed.

Lemma id_bytes_are_bytes id : Forall is_byte (id_bytes id).
Proof.
  apply Forall_fmap, Forall_forall. intros i _. cbn. unfold is_byte. apply Z.mod_pos_bound. lia.
Qed.

Lemma digits_mod (n m : Z) (k : nat) :
  (∀ i, (i < k)%nat → n / 256 ^ Z.of_nat i mod 256 = m / 256 ^ Z.of_nat i mod 256) →
  n mod 256 ^ Z.of_nat k = m mod 256 ^ Z.of_nat k.
Proof.
  induction k as [|k IH]; intros Hall; [by rewrite !Z.mod_1_r|].
  rewrite Nat2Z.inj_succ, Z.pow_succ_r, (Z.mul_comm 256) by lia.
  rewrite !Z.rem_mul_r by lia. rewrite IH by (intros; apply Hall; lia).
  by rewrite (Hall k) by lia.
Qed.

(** Two node ids print the same only if they are the same 32 bytes. *)
Lemma NodeID_String_inj id id' :
  (id < 2 ^ 256)%N → (id' < 2 ^ 256)%N → NodeID_String id = NodeID_String id' → id = id'.
Proof.
  intros Hid Hid' Heq. apply hex_bytes_inj in Heq; [|apply id_bytes_are_bytes..].
  assert (Hdig : ∀ i, (i < 32)%nat →
    Z.of_N id / 256 ^ Z.of_nat i mod 256 = Z.of_N id' / 256 ^ Z.of_nat i mod 256).
  { intros i Hi. apply (f_equal (lookup (31 - i)%nat)) in Heq. unfold id_bytes in Heq.
    rewrite !list_lookup_fmap, !lookup_seq_lt in Heq by lia. cbn in Heq. injection Heq as Heq.
    replace (31 - Z.of_nat (31 - i)) with (Z.of_nat i) in Heq by lia. exact Heq. }
  apply digits_mod in Hdig.
  assert (Hpow : 256 ^ Z.of_nat 32 = Z.of_N (2 ^ 256)) by (vm_compute; reflexivity).
  rewrite Hpow in Hdig. rewrite !Z.mod_small in Hdig by lia. lia.
Qed.

Lemma validator_expose local sender key value :
  sender ≠ 0%N → String.prefix "expose:" key = true →
  NewGossipStateValidator local sender key value = true ↔
  value = VNil ∨ provider_of value = Some (NodeID_String sender).
Proof.
  intros Hs Hk. unfold NewGossipStateValidator. rewrite decide_False, Hk by done.
  assert (Hne : NodeID_String sender ≠ ""%string) by done.
  assert (Hv : validateExposeEntry sender value = true ↔
    value = VNil ∨ match provider_of value with
                   | None => False
                   | Some nid => nid = NodeID_String sender
                   end).
  { destruct value; cbn; try (split; [by intros; auto|by intros [?|?]]); try (split; by auto).
    all: case_decide as Hn; [|rewrite bool_decide_eq_true]; split; try by auto.
    all: intros [?|Heq]; try done; congruence. }
  rewrite Hv. destruct (provider_of value); split; intros [?|?]; auto; try done.
  - right. congruence.
  - right. congruence.
Qed.

Lemma validator_subdomain local sender key value :
  sender ≠ 0%N → String.prefix "subdomain:" key = true →
  NewGossipStateValidator local sender key value = false.
Proof.
  intros Hs Hk. unfold NewGossipStateValidator. rewrite decide_False, Hk by done.
  destruct key as [|c key]; [done|]. cbn [String.prefix] in *.
  destruct (Ascii.ascii_dec "s" c) as [<-|]; [reflexivity|discriminate].
Qed.

Section Authorisation.
Context (marshal : GossipMessage gvalue → option bytes)
  (unmarshal : bytes → option (GossipMessage gvalue)) (value_size : gvalue → option Z).
Context {Ps} `{PaymentService Ps} {R} `{Transport R}.

Abbreviation op := (gp_op (V := gvalue) (Ps := Ps)).

(** A message with a named sender, as the router delivers it. *)
Definition sender_named (o : op) : Prop :=
  match o with
  | OpHandle _ _ _ from _ => sender_id from ≠ 0%N
  | _ => True
  end.

Lemma accepts_valid local sender k v (gp : GossipProtocol gvalue) :
  gp_stateValidator gp = Some (NewGossipStateValidator local) →
  accepts value_size sender k v gp = true → NewGossipStateValidator local sender k v = true.
Proof. unfold accepts. intros ->. by destruct (value_size v); [destruct (_ >? _)|]. Qed.

(** Safety.  On a node that installs the validator before it handles
    messages: every vanity name it holds was written by itself, and every
    service it holds that is not a withdrawal was either announced by itself or
    came from the node it names as its provider. *)
Theorem routing_entries_authorised local (os : list op) r0 w k e :
  gp_trace marshal unmarshal value_size (OpSetValidator (Some (NewGossipStateValidator local)) :: os)
    (NewGossipProtocol, r0 : R) w →
  Forall (λ o, sets_validator o = false) os → Forall sender_named os →
  gp_state w.1 !! k = Some e →
  (String.prefix "subdomain:" k = true →
     ∃ order, OpStore (se_LastUpdated e) order k (se_Value e) ∈ os) ∧
  (String.prefix "expose:" k = true → se_Value e ≠ VNil →
     (∃ order, OpStore (se_LastUpdated e) order k (se_Value e) ∈ os) ∨
     ∃ now ps payload from order, OpHandle now ps payload from order ∈ os ∧
       provider_of (se_Value e) = Some (NodeID_String (sender_id from))).
Proof.
  intros Ht Hval Hnamed He.
  destruct (entry_has_writer _ _ _ _ _ _ _ _ Ht He) as (os1 & o & os2 & w1 & Hos & Ht1 & Hw).
  destruct os1 as [|o1 os1]; cbn in Hos; injection Hos as <- ->; [done|].
  assert (Hin : o ∈ os1 ++ o :: os2) by (apply elem_of_app; right; by left).
  apply Forall_app in Hval as [Hval _].
  pose proof (validator_in_force _ _ _ _ _ _ _ Ht1 Hval) as Hv.
  rewrite Forall_forall in Hnamed. pose proof (Hnamed o Hin) as Ho.
  destruct o as [now order key value| | | | | | | |now ps payload from order]; try done; cbn in Hw.
  - destruct Hw as [-> ->]. split; [eauto|]. intros _ _. left. eauto.
  - destruct Hw as (_ & m & sm & _ & _ & _ & _ & _ & Hacc). cbn in Ho.
    apply (accepts_valid local) in Hacc; [|done]. split.
    + intros Hk. by rewrite (validator_subdomain _ _ _ _ Ho Hk) in Hacc.
    + intros Hk Hne. right. apply (validator_expose _ _ _ _ Ho Hk) in Hacc as [?|Hp]; [done|].
      exists now, ps, payload, from, order. auto.
Qed.

(** A message from another node than [local]. *)
Definition from_other (local : NodeID) (o : op) : Prop :=
  match o with
  | OpHandle _ _ _ from _ => sender_id from ≠ 0%N ∧ sender_id from ≠ local ∧ (sender_id from < 2 ^ 256)%N
  | _ => True
  end.

(** Liveness.  A service is announced once, and the entry is not refreshed:
    when all local updates of its key are more than half an hour old, the
    periodic clean-up leaves the node without its own announcement, whatever
    other nodes send it (they may only send entries of their own). *)
Theorem own_announcement_expires local (os : list op) now r0 w k e :
  (local < 2 ^ 256)%N →
  gp_trace marshal unmarshal value_size
    ((OpSetValidator (Some (NewGossipStateValidator local)) :: os) ++ [OpClean now (30 * minute)])
    (NewGossipProtocol, r0 : R) w →
  Forall (λ o, sets_validator o = false) os → Forall (from_other local) os →
  Forall (λ o, match o with
               | OpStore t _ key _ => key = k → t < now - 30 * minute
               | _ => True
               end) os →
  String.prefix "expose:" k = true → gp_state w.1 !! k = Some e →
  provider_of (se_Value e) ≠ Some (NodeID_String local).
Proof.
  intros Hloc Ht Hval Hother Hold Hk He Hp.
  inversion Ht as [|os' o w0 w' Ht' _ Hos Hw0 Hw]. subst w0.
  rewrite app_comm_cons in Hos. apply app_inj_tail in Hos as [-> ->]. subst w. destruct w' as [gp r]. cbn [gp_exec fst] in He.
  apply CleanStaleState_lookup in He as [He Hrecent].
  destruct (entry_has_writer _ _ _ _ _ (gp, r) _ _ Ht' He) as (os1 & o & os2 & w1 & Hos & Ht1 & Hw).
  destruct os1 as [|o1 os1]; cbn in Hos; injection Hos as <- ->; [done|].
  assert (Hin : o ∈ os1 ++ o :: os2) by (apply elem_of_app; right; by left).
  apply Forall_app in Hval as [Hval _].
  pose proof (validator_in_force _ _ _ _ _ _ _ Ht1 Hval) as Hv.
  rewrite Forall_forall in Hother, Hold.
  specialize (Hother o Hin). specialize (Hold o Hin). cbn beta in Hold.
  destruct o as [t order key value| | | | | | | |t ps payload from order]; try done; cbn in Hw.
  - destruct Hw as [-> ->]. cbn [se_LastUpdated] in Hrecent. specialize (Hold eq_refl). lia.
  - destruct Hw as (_ & m & sm & _ & _ & _ & _ & _ & Hacc). destruct Hother as (Hs & Hne & Hlt).
    apply (accepts_valid local) in Hacc; [|done].
    apply (validator_expose _ _ _ _ Hs Hk) in Hacc as [Hn|Hp']; [by rewrite Hn in Hp|].
    rewrite Hp in Hp'. apply (inj Some) in Hp'. by apply NodeID_String_inj in Hp'.
Qed.

(** Safety.  The validator does not look at whose service is replaced: any
    peer whose messages are taken can withdraw another provider's service, and
    can put a service of its own under the other's key, and so take the
    deployment's traffic. *)
Theorem foreign_service_replaced now (ps : option Ps) payload from order m k v n gp local :
  (sender_staked now ps from gp).2 = true → sender_id from ≠ 0%N →
  unmarshal payload = Some m → gm_Type m = "state_update" → gm_Value m = StateMap {[k := v]} →
  order ≡ₚ map_to_list ({[k := v]} : gmap string gvalue) →
  gp_stateValidator gp = Some (NewGossipStateValidator local) →
  value_size v = Some n → n ≤ maxStateValueSize →
  String.prefix "expose:" k = true → is_Some (gp_state gp !! k) →
  v = VNil ∨ provider_of v = Some (NodeID_String (sender_id from)) →
  GetState k (HandleGossipMessage unmarshal value_size now ps payload from order gp).1 = Some v.
Proof.
  intros Hst Hs Hm Ht Hv Ho Hval Hn Hle Hk Hold Hvalid. unfold HandleGossipMessage.
  pose proof (sender_staked_rest now ps from gp) as (Hst' & _ & _ & Hval').
  destruct (sender_staked now ps from gp) as [gp1 ok]; cbn in *. subst ok. cbn.
  rewrite Hm, decide_True, Hv by done. cbn. unfold GetState.
  rewrite map_to_list_singleton in Ho. apply Permutation_singleton_r in Ho as ->.
  rewrite merge_state_exact; [|apply NoDup_singleton|left; by rewrite Hst'].
  cbn. rewrite lookup_insert_eq. unfold accepts. rewrite Hn, Hval', Hval.
  destruct (Z.gtb_spec n maxStateValueSize); [lia|].
  by rewrite (proj2 (validator_expose local _ k v Hs Hk) Hvalid).
Qed.
End Authorisation.

(** ** Answers of the contract *)

Section Chain.
(** The contract, as a function of time. *)
Context (contract : time → option (string → option (list Z))).

(** What the adapter makes of the contract's answer. *)
Definition chain_answer (t : time) (name : string) : option string :=
  lookup ← contract t; reg ← lookup name;
  let depID := bytes32ToDeploymentID reg in
  if decide (depID = "" ∨ depID = hex_bytes (replicate 32 0)) then None else Some depID.

Inductive ad_op := AdResolve (now : time) (name : string) | AdInvalidate (name : string).

Definition ad_step (o : ad_op) (a : GossipServiceAdapter) : GossipServiceAdapter :=
  match o with
  | AdResolve now name => (ResolveOnChain now (contract now) name a).1
  | AdInvalidate name => InvalidateSubdomainCache name a
  end.

Definition cache_true (a : GossipServiceAdapter) : Prop :=
  ad_cacheTTL a = defaultSubdomainCacheTTL ∧ ad_negativeTTL a = defaultSubdomainNegativeCacheTTL ∧
  map_Forall (λ name c,
    chain_answer (ca_FetchedAt c) name = if ca_Found c then Some (ca_DeploymentID c) else None)
    (subdomainCache a).

(** Asking the contract, and what is remembered of it. *)
Lemma ResolveOnChain_spec now name a :
  cache_true a →
  cache_true (ResolveOnChain now (contract now) name a).1 ∧
  let res := (ResolveOnChain now (contract now) name a).2 in
  res = chain_answer now name ∨
  ∃ t, chain_answer t name = res ∧
    time_sub now t < match res with Some _ => 5 * minute | None => 2 * minute end.
Proof.
  intros (Ht & Hn & Hc). unfold ResolveOnChain.
  set (ask := match contract now with None => _ | Some _ => _ end).
  assert (Hask : cache_true ask.1 ∧ ask.2 = chain_answer now name).
  { unfold ask, chain_answer. destruct (contract now) as [lk|] eqn:Hct; [|done]. cbn.
    assert (Hrem : ∀ c, ca_FetchedAt c = now →
      chain_answer now name = (if ca_Found c then Some (ca_DeploymentID c) else None) →
      cache_true (mkAdapter (<[name := c]> (subdomainCache a)) (ad_cacheTTL a) (ad_negativeTTL a))).
    { intros c Hf Hans. split_and!; [done..|]. apply map_Forall_insert_2; [by rewrite Hf|done]. }
    unfold chain_answer in Hrem. rewrite Hct in Hrem. cbn in Hrem.
    destruct (lk name) as [reg|]; cbn in *; [case_decide|]; (split; [by apply Hrem|done]). }
  destruct (subdomainCache a !! name) as [c|] eqn:Hl; [|destruct Hask; auto].
  destruct (Z.ltb_spec (time_sub now (ca_FetchedAt c))
    (if ca_Found c then ad_cacheTTL a else ad_negativeTTL a)) as [Hlt|]; [|destruct Hask; auto].
  split; [done|]. cbn. right. exists (ca_FetchedAt c). rewrite (Hc name c Hl), Ht, Hn in *.
  by destruct (ca_Found c).
Qed.

(** Safety.  After any sequence of look-ups and invalidations, the answer for
    a name is the contract's of that moment, or the contract's of some earlier
    moment: less than five minutes ago when it is a deployment, less than two
    when it is a miss. *)
Theorem chain_answers_recent ops now name :
  let a := run ad_step ops NewGossipServiceAdapter in
  let res := (ResolveOnChain now (contract now) name a).2 in
  res = chain_answer now name ∨
  ∃ t, chain_answer t name = res ∧
    time_sub now t < match res with Some _ => 5 * minute | None => 2 * minute end.
Proof.
  intros a. apply ResolveOnChain_spec. apply run_preserves; [|done].
  intros [now' name'|name'] a' Ha; cbn; [by apply ResolveOnChain_spec|].
  destruct Ha as (Ht & Hn & Hc). split_and!; [done..|]. by apply map_Forall_delete.
Qed.
End Chain.

(** ** Deployment ids in the contract *)

Lemma substring_all s : String.substring 0 (String.length s) s = s.
Proof. induction s as [|c s IH]; [done|]. cbn. by rewrite IH. Qed.

Lemma TrimPrefix_app p s : TrimPrefix p (p +:+ s) = s.
Proof.
  assert (Hp : String.prefix p (p +:+ s) = true).
  { induction p as [|c p IH]; [by destruct s|].
    change (String c p +:+ s) with (String c (p +:+ s)). cbn [String.prefix].
    destruct (Ascii.ascii_dec c c); [exact IH|congruence]. }
  unfold TrimPrefix. rewrite Hp. clear Hp. induction p as [|c p IH]; [|exact IH].
  change ("" +:+ s) with s. cbn [String.length]. rewrite Nat.sub_0_r. apply substring_all.
Qed.

Lemma skip_zeros_pad n bs : bs ≠ [] → skip_zeros (replicate n 0 ++ bs) = skip_zeros bs.
Proof.
  intros Hbs. induction n as [|n IH]; [done|]. cbn [replicate app]. rewrite <- IH.
  destruct n as [|n]; cbn; [|done]. by destruct bs.
Qed.

Lemma skip_zeros_fix bs : skip_zeros bs = bs ↔ bs = [0] ∨ hd 1 bs ≠ 0.
Proof.
  assert (Hlen : ∀ l, (length (skip_zeros l) ≤ length l)%nat).
  { induction l as [|[] [|y l] IH]; cbn in *; try lia. }
  destruct bs as [|[] [|y bs]]; cbn; try (split; [by auto|by auto]).
  split; [|by intros [?|?]]. intros Heq. exfalso.
  pose proof (Hlen (y :: bs)) as Hl. apply (f_equal length) in Heq. cbn in Hl, Heq. lia.
Qed.

Lemma skip_zeros_bytes bs : Forall is_byte bs → Forall is_byte (skip_zeros bs).
Proof.
  induction bs as [|[] [|y bs] IH]; cbn [skip_zeros]; auto. intros Hall. apply IH.
  by apply Forall_cons in Hall as [_ ?].
Qed.

(** Roundtrip.  A deployment id of up to 32 bytes is stored in the contract,
    and read back as the same digits exactly when its first byte is not zero
    (or it is the single byte zero): an id with leading zero bytes comes back
    shorter, and no service has it.  The hypothesis is that [hexutil.Decode]
    reads the digits of a byte string. *)
Theorem deployment_id_roundtrip decode bs :
  (∀ bs, Forall is_byte bs → decode ("0x" +:+ hex_bytes bs) = Some bs) →
  Forall is_byte bs → bs ≠ [] → (length bs ≤ 32)%nat →
  ∃ b, deploymentIDToBytes32 decode ("dep-" +:+ hex_bytes bs) = Some b ∧ length b = 32%nat ∧
    (bytes32ToDeploymentID b = hex_bytes bs ↔ bs = [0] ∨ hd 1 bs ≠ 0).
Proof.
  intros Hdec Hb Hne Hlen. exists (replicate (32 - length bs) 0 ++ bs).
  assert (Hlong : ∃ c s, hex_bytes bs = String c s) by (destruct bs; cbn; eauto; done).
  split_and!.
  - unfold deploymentIDToBytes32. destruct Hlong as (c & s & Hs).
    replace (4 <? _) with true; [|rewrite Hs; symmetry; apply Z.ltb_lt;
      change (String.length ("dep-" +:+ String c s)) with (5 + String.length s)%nat; lia].
    replace (String.prefix "dep-" _) with true by (rewrite Hs; reflexivity).
    cbn [andb]. rewrite TrimPrefix_app, Hdec by done. cbn. destruct (Z.ltb_spec 32 (len bs)); [lia|done].
  - rewrite length_app, length_replicate. lia.
  - unfold bytes32ToDeploymentID. rewrite skip_zeros_pad by done. rewrite <- skip_zeros_fix.
    split; [|by intros ->]. apply hex_bytes_inj; [by apply skip_zeros_bytes|done].
Qed.

(** Functional.  A name the contract maps to no deployment (32 zero bytes) is
    still answered, with the deployment "00": the comparison with 64 zeros never
    holds of an id whose leading zero bytes were dropped. *)
Theorem unset_deployment_answered contract t lk name :
  contract t = Some lk → lk name = Some (replicate 32 0) →
  chain_answer contract t name = Some "00"%string.
Proof. unfold chain_answer. intros -> Hl. cbn. by rewrite Hl. Qed.

(** ** Expired names *)

Lemma storeState_existing now order key (v : gvalue) gp :
  is_Some (gp_state gp !! key) →
  gp_state (storeState now order key v gp) = <[key := mkEntry v now]> (gp_state gp).
Proof. intros [e He]. unfold storeState. by rewrite He. Qed.

(** Functional.  The hourly clean-up marks exactly the names that the
    contract says have expired as removed, leaves every other entry (those the
    contract gives no answer for included), and never evicts one. *)
Theorem cleanup_marks_expired now expired order orders gp k :
  order ≡ₚ (map_to_list (GetStateByPrefix "subdomain:" gp)).*1 →
  gp_state (cleanExpiredSubdomains now expired order orders gp) !! k =
    if decide (String.prefix "subdomain:" k = true ∧ is_Some (gp_state gp !! k) ∧
               TrimPrefix "subdomain:" k ≠ ""%string ∧ expired (TrimPrefix "subdomain:" k) = Some true)
    then Some (mkEntry VNil now) else gp_state gp !! k.
Proof.
  intros Ho.
  assert (Hkeys : ∀ k, k ∈ order ↔ String.prefix "subdomain:" k = true ∧ is_Some (gp_state gp !! k)).
  { intros k'. rewrite (elem_of_keys _ _ _ Ho). unfold GetStateByPrefix.
    rewrite lookup_fmap, fmap_is_Some. unfold is_Some. setoid_rewrite map_lookup_filter_Some. cbn.
    naive_solver. }
  transitivity (if decide (k ∈ order ∧ TrimPrefix "subdomain:" k ≠ ""%string ∧
                  expired (TrimPrefix "subdomain:" k) = Some true)
                then Some (mkEntry VNil now) else gp_state gp !! k).
  2: { repeat case_decide; naive_solver. }
  assert (Hex : ∀ k, k ∈ order → is_Some (gp_state gp !! k)) by (intros ? ?%Hkeys; naive_solver).
  clear Ho Hkeys. unfold cleanExpiredSubdomains. revert gp Hex.
  induction order as [|key order IH]; intros gp Hex; [by rewrite decide_False by set_solver|]. cbn [foldl].
  set (gp1 := if decide _ then gp else _).
  assert (Hgp1 : gp_state gp1 !! k =
    if decide (key = k ∧ TrimPrefix "subdomain:" k ≠ ""%string ∧
               expired (TrimPrefix "subdomain:" k) = Some true)
    then Some (mkEntry VNil now) else gp_state gp !! k).
  { unfold gp1. destruct (decide (TrimPrefix "subdomain:" key = ""%string)) as [Hn|Hn]; [by rewrite decide_False by (intros (<- & ? & ?); congruence)|].
    destruct (expired (TrimPrefix "subdomain:" key)) as [[]|] eqn:Hx;
      try (by rewrite decide_False by (intros (<- & ? & ?); congruence)).
    rewrite storeState_existing by (apply Hex; by left). rewrite lookup_insert.
    destruct (decide (key = k)) as [<-|Hne]; [by rewrite decide_True|].
    by rewrite decide_False by (intros (? & _); congruence). }
  assert (Hmono : ∀ k', is_Some (gp_state gp !! k') → is_Some (gp_state gp1 !! k')).
  { intros k' Hk'. unfold gp1.
    destruct (decide (TrimPrefix "subdomain:" key = ""%string)); [done|]. destruct (expired (TrimPrefix "subdomain:" key)) as [[]|]; try done.
    rewrite storeState_existing by (apply Hex; by left). rewrite lookup_insert. destruct (decide (key = k')); [eexists; reflexivity|done]. }
  rewrite IH by (intros; apply Hmono, Hex; by right). rewrite Hgp1.
  repeat case_decide; set_solver.
Qed.

(** ** Instances for the examples *)

Section RoutingExamples.

(** Payload 1 announces a service of node 7 under another provider's key,
    payload 2 withdraws it. *)
Definition demo_value (sender : NodeID) : gvalue :=
  VObject [("provider_node_id", VString (NodeID_String sender)); ("deployment_id", VString "dep-a")].

Definition demo_unmarshal (b : bytes) : option (GossipMessage gvalue) :=
  match b with
  | [1] => Some (mkGossip "state_update" "" (StateMap {["expose:dep-a:80" := demo_value 7%N]}) 0 0%N)
  | [2] => Some (mkGossip "state_update" "" (StateMap {["expose:dep-a:80" := VNil]}) 0 0%N)
  | _ => None
  end.

Definition demo_size (v : gvalue) : option Z := Some 100.

#[local] Instance demo_service : PaymentService unit := {|
  HasMinimumStake _ _ := Some true;
  ps_GetTier _ _ := Some "gold";
  GetStakedAmount _ _ := None;
  NodeIDToProvider _ _ := None
|}.

Definition demo_node (id : NodeID) : Node := mkNode id "10.0.0.1" 9000 "EU".
Definition demo_entry : ServiceEntry :=
  mkService "dep-a" (NodeID_String 5%N) "10.0.0.1:9002" 80 32000 0 "container".

Definition demo_validator : option (StateValidator gvalue) := Some (NewGossipStateValidator 5%N).

Abbreviation demo_ops := (gp_op (V := gvalue) (Ps := unit)).
Definition demo_history : list demo_ops := [
  OpStore second [] "expose:dep-a:80" (VService demo_entry);
  OpHandle minute (Some tt) [1] (Some (demo_node 7%N)) [("expose:dep-a:80", demo_value 7%N)]].

Definition demo_run (ops : list demo_ops) : GossipProtocol gvalue * list (NodeID * Message) :=
  foldl (λ w o, gp_exec (λ _, None) demo_unmarshal demo_size o w) (NewGossipProtocol, []) ops.

Lemma demo_trace :
  gp_trace (λ _, None) demo_unmarshal demo_size (OpSetValidator demo_validator :: demo_history)
    (NewGossipProtocol, []) (demo_run (OpSetValidator demo_validator :: demo_history)).
Proof.
  unfold demo_run, demo_history. cbn [foldl].
  apply (trace_snoc _ _ _ (OpSetValidator demo_validator :: take 1 demo_history)); [|vm_compute; reflexivity].
  apply (trace_snoc _ _ _ [OpSetValidator demo_validator]); [|vm_compute; reflexivity].
  apply (trace_snoc _ _ _ []); [|exact I]. constructor.
Qed.

Lemma routing_entries_authorised_witness :
  let v := demo_value 7%N in
  (∃ order, OpStore minute order "expose:dep-a:80" v ∈ demo_history) ∨
  ∃ now ps payload from order, OpHandle now ps payload from order ∈ demo_history ∧
    provider_of v = Some (NodeID_String (sender_id from)).
Proof.
  apply (routing_entries_authorised (λ _, None) demo_unmarshal demo_size 5%N demo_history []
    (demo_run (OpSetValidator demo_validator :: demo_history)) "expose:dep-a:80"
    (mkEntry (demo_value 7%N) minute)).
  - exact demo_trace.
  - repeat constructor.
  - repeat constructor. discriminate.
  - vm_compute. reflexivity.
  - reflexivity.
  - discriminate.
Defined.

(** Node 5's own service is gone after half an hour; node 7's, under its key,
    has taken its place. *)
Lemma own_announcement_expires_witness :
  provider_of (demo_value 7%N) ≠ Some (NodeID_String 5%N).
Proof.
  apply (own_announcement_expires (λ _, None) demo_unmarshal demo_size 5%N demo_history (31 * minute) []
    (gp_exec (λ _, None) demo_unmarshal demo_size (OpClean (31 * minute) (30 * minute))
       (demo_run (OpSetValidator demo_validator :: demo_history))) "expose:dep-a:80"
    (mkEntry (demo_value 7%N) minute)).
  - vm_compute. reflexivity.
  - apply trace_snoc; [exact demo_trace|exact I].
  - repeat constructor.
  - repeat constructor; discriminate.
  - repeat constructor.
  - reflexivity.
  - vm_compute. reflexivity.
Defined.

Lemma foreign_service_replaced_witness :
  GetState "expose:dep-a:80"
    (HandleGossipMessage demo_unmarshal demo_size minute (Some tt) [2] (Some (demo_node 7%N))
       [("expose:dep-a:80", VNil)]
       (demo_run (OpSetValidator demo_validator :: demo_history)).1).1 = Some VNil.
Proof.
  apply (foreign_service_replaced demo_unmarshal demo_size minute (Some tt) [2] (Some (demo_node 7%N))
    [("expose:dep-a:80", VNil)]
    (mkGossip "state_update" "" (StateMap {["expose:dep-a:80" := VNil]}) 0 0%N) "expose:dep-a:80" VNil 100
    (demo_run (OpSetValidator demo_validator :: demo_history)).1 5%N); try reflexivity.
  - discriminate.
  - vm_compute. discriminate.
  - vm_compute. eexists. reflexivity.
  - by left.
Defined.

Definition demo_visit (i : nat) (m : gmap string ServiceEntry) : list (string * ServiceEntry) := map_to_list m.

#[local] Instance demo_reader : GossipReader Directory := adapter_reader (λ _, None).

(** A directory whose contract maps "shop" to a deployment, and a resolver that
    knows that deployment. *)
Definition demo_directory : Directory :=
  mkDirectory (demo_run []).1 NewGossipServiceAdapter
    (Some (λ name, if decide (name = "shop"%string) then Some (replicate 31 0 ++ [171]) else None)).

Definition demo_resolver : Resolver :=
  Register hour (mkService "dep-ab" (NodeID_String 5%N) "10.0.0.1:9002" 80 32000 0 "container")
    (NewResolver true true).

Lemma demo_visit_orders : orders_maps demo_visit.
Proof. intros i m. reflexivity. Qed.

(** "www.shop" is routed to the deployment registered for "shop". *)
Lemma Resolve_sound_witness :
  ∃ r d e, Resolve demo_visit hour "www.shop" demo_resolver demo_directory = (r, d, Some e) ∧
    fresh hour e = true.
Proof.
  destruct (Resolve demo_visit hour "www.shop" demo_resolver demo_directory) as [[r d] res] eqn:Hres.
  assert (Hsome : is_Some (Resolve demo_visit hour "www.shop" demo_resolver demo_directory).2)
    by (vm_compute; eauto).
  rewrite Hres in Hsome. cbn in Hsome. destruct res as [e|]; [|by destruct Hsome].
  exists r, d, e. split; [reflexivity|].
  exact (proj1 (Resolve_sound demo_visit hour "www.shop" demo_resolver demo_directory r d e
                  demo_visit_orders Hres)).
Defined.

Lemma Register_Resolve_witness :
  ∃ e', Resolve demo_visit (hour + minute) "dep-a" (Register hour demo_entry demo_resolver) demo_directory =
    (Register hour demo_entry demo_resolver, demo_directory, Some e') ∧
    sv_ProviderAddr e' = "10.0.0.1:9002"%string.
Proof.
  destruct (Register_Resolve demo_visit hour (hour + minute) demo_entry demo_resolver demo_directory)
    as (e' & Hr & Ha & _); [vm_compute; reflexivity|].
  exists e'. split; [exact Hr|exact Ha].
Defined.

(** The service announced by node 5 is in its gossip state, and "dep-a" does not
    resolve there. *)
Definition demo_gossip : GossipProtocol gvalue :=
  (demo_run [OpStore second [] "expose:dep-a:80" (VService demo_entry)]).1.

Lemma announced_services_unreachable_witness :
  publishServiceExposure true (Some (demo_node 5%N)) "dep-a" 80 32000 =
    Exposed "expose:dep-a:80" demo_entry ∧
  (Resolve demo_visit hour "dep-a" (NewResolver true true)
     (mkDirectory demo_gossip NewGossipServiceAdapter None)).2 = None.
Proof.
  split; [vm_compute; reflexivity|].
  apply (announced_services_unreachable (λ _, None) demo_visit hour "dep-a" (NewResolver true true)
    (mkDirectory demo_gossip NewGossipServiceAdapter None)).
  - exact demo_visit_orders.
  - vm_compute. discriminate.
  - done.
  - intros k e Hk. apply elem_of_map_to_list in Hk. vm_compute in Hk.
    apply list_elem_of_singleton in Hk. injection Hk as _ ->. reflexivity.
Defined.

Definition demo_decode (s : string) : option (list Z) :=
  match s with
  | String "0" (String "x" s) => DecodeString (to_chars s)
  | _ => None
  end.

Lemma demo_decode_hex bs : Forall is_byte bs → demo_decode ("0x" +:+ hex_bytes bs) = Some bs.
Proof. apply DecodeString_hex. Qed.

(** The id of the bytes 0, 171 comes back as "ab". *)
Lemma deployment_id_roundtrip_witness :
  ∃ b, deploymentIDToBytes32 demo_decode "dep-00ab" = Some b ∧
    bytes32ToDeploymentID b ≠ "00ab"%string.
Proof.
  destruct (deployment_id_roundtrip demo_decode [0; 171]) as (b & Hb & _ & Hiff).
  - exact demo_decode_hex.
  - repeat constructor; unfold is_byte; lia.
  - discriminate.
  - cbn. lia.
  - exists b. split; [exact Hb|]. intros Heq. apply Hiff in Heq as [Heq|Heq]; [discriminate|]. by apply Heq.
Defined.

Lemma cleanup_marks_expired_witness :
  let gp := (demo_run [OpStore second [] "subdomain:shop" (VString "dep-a");
                       OpStore second ["subdomain:shop"] "expose:dep-a:80" (VService demo_entry)]).1 in
  gp_state (cleanExpiredSubdomains hour (λ _, Some true) ["subdomain:shop"] (λ _, []) gp) !!
    "subdomain:shop" = Some (mkEntry VNil hour).
Proof.
  cbn zeta. rewrite cleanup_marks_expired.
  - vm_compute. reflexivity.
  - vm_compute. reflexivity.
Defined.
End RoutingExamples.
