(* ===== verification/EdgeAdmission.v ===== *)
(** * Admission of a request at the edge

    What the ingress proxy decides before it routes a request: the takedown
    list (internal/tunnel/blocklist.go), the store of verified custom domains
    with its DNS proofs and HTTP handlers (internal/ingress/custom_domain.go,
    custom_domain_api.go), and the part of [handleRequest]
    (internal/ingress/proxy.go) up to the dispatch, with the certificate policy
    of internal/ingress/autotls.go.

    Host names are character lists.  [strings.ToLower] and [strings.TrimSpace]
    are modelled on ASCII text; what they do to other text is the parameter
    [unicode_fold].  HMAC-SHA256 and DNS are parameters.

    Theorems: a host whose name, or whose deployment, is on the takedown list is
    refused; a custom host is routed only to a deployment for which its DNS proof
    was seen within the store's lifetime; the number of live hosts of a
    deployment never exceeds the cap.  Two theorems show that a takedown does not
    reach a wildcard host or a host with a port, and one that the CNAME proof
    cannot be published. *)

From S2P Require Import Prelude NetAddr BanList Stake Float64 Diversity PeerScorer Framing PeerTable RouterPipeline Gossip ServiceRouting.
From Stdlib Require Import Ascii.
Local Open Scope Z_scope.

(** ** Text *)

Definition is_ascii_char (c : ascii) : bool := code c <? 128.

(** '\t', '\n', '\v', '\f', '\r' and ' '. *)
Definition is_space_char (c : ascii) : bool :=
  ((9 <=? code c) && (code c <=? 13)) || (code c =? 32).

Definition lower_char (c : ascii) : ascii :=
  if (65 <=? code c) && (code c <=? 90) then ascii_of_nat (nat_of_ascii c + 32) else c.

Fixpoint drop_spaces (s : chars) : chars :=
  match s with
  | c :: rest => if is_space_char c then drop_spaces rest else s
  | [] => []
  end.

Definition trim_spaces (s : chars) : chars := reverse (drop_spaces (reverse (drop_spaces s))).

(** [strings.TrimSuffix(s, ".")] *)
Definition trim_dot (s : chars) : chars :=
  match reverse s with
  | c :: rest => if decide (c = "."%char) then reverse rest else s
  | [] => []
  end.

(** ** Data *)

Record BlockEntry := mkBlock { be_Subdomain : chars; be_Reason : string; be_BlockedAt : time }.

Abbreviation Blocklist := (gmap chars BlockEntry).

Section Names.
Context (unicode_fold : chars → chars).

(** [strings.ToLower(strings.TrimSpace(s))] *)
Definition fold_name (s : chars) : chars :=
  if forallb is_ascii_char s then lower_char <$> trim_spaces s else unicode_fold s.

Definition normalizeSub (s : chars) : chars := trim_dot (fold_name s).

Definition normalizeHost (host : chars) : chars :=
  let host := fold_name host in
  trim_dot (match SplitHostPort host with Some (h, _) => h | None => host end).

(** ** The takedown list *)

Definition NewBlocklist : Blocklist := ∅.

Definition Block (now : time) (subdomain : chars) (reason : string) (b : Blocklist) : Blocklist :=
  let sub := normalizeSub subdomain in
  if decide (sub = []) then b else <[sub := mkBlock sub reason now]> b.

Definition Unblock (subdomain : chars) (b : Blocklist) : Blocklist * bool :=
  let sub := normalizeSub subdomain in
  (delete sub b, bool_decide (is_Some (b !! sub))).

Definition IsBlocked (subdomain : chars) (b : Blocklist) : bool * string :=
  match b !! normalizeSub subdomain with
  | None => (false, "")
  | Some e => (true, be_Reason e)
  end.

(** The admin handler: what it answers and what it does.  [body] is the decoded
    request, [None] when it is not JSON (or could not be read). *)
Inductive admin_request :=
  | AdminGet
  | AdminPost (body : option (chars * string))
  | AdminDelete (query : chars)
  | AdminOther.

Definition BlocklistAdmin (now : time) (r : admin_request) (b : Blocklist) : Blocklist * Z :=
  match r with
  | AdminGet => (b, 200)
  | AdminPost None => (b, 400)
  | AdminPost (Some (subdomain, reason)) =>
      if decide (trim_spaces subdomain = []) then (b, 400) else (Block now subdomain reason b, 201)
  | AdminDelete query =>
      if decide (trim_spaces query = []) then (b, 400)
      else let '(b, found) := Unblock query b in (b, if found then 204 else 404)
  | AdminOther => (b, 405)
  end.

(** ** Verified custom domains *)

Inductive VerifyMethod := MethodCNAME | MethodTXT.

Definition defaultOwnershipTTL : duration := 72 * hour.

Record VerifiedDomain := mkDomain {
  vd_Host : chars;
  vd_DeploymentID : string;
  vd_OwnerWallet : string;
  vd_Method : VerifyMethod;
  vd_VerifiedAt : time;
  vd_ExpiresAt : time
}.

Definition vd_expired (now : time) (v : VerifiedDomain) : bool :=
  negb (time_is_zero (vd_ExpiresAt v)) && (vd_ExpiresAt v <? now).

Record DomainOwnershipStore := mkStore {
  ds_domains : gmap chars VerifiedDomain;
  ds_ttl : duration
}.

Definition NewDomainOwnershipStore (ttl : duration) : DomainOwnershipStore :=
  mkStore ∅ (if ttl <=? 0 then defaultOwnershipTTL else ttl).

Definition new_record (now : time) (host : chars) (deploymentID ownerWallet : string)
    (method : VerifyMethod) (s : DomainOwnershipStore) : VerifiedDomain :=
  mkDomain host deploymentID ownerWallet method now (now + ds_ttl s).

Definition Store (now : time) (host : chars) (deploymentID ownerWallet : string) (method : VerifyMethod)
    (s : DomainOwnershipStore) : DomainOwnershipStore :=
  let host := normalizeHost host in
  mkStore (<[host := new_record now host deploymentID ownerWallet method s]> (ds_domains s)) (ds_ttl s).

(** The record is one of the deployment's and still valid. *)
Definition live_for (now : time) (deploymentID : string) (rec : VerifiedDomain) : bool :=
  bool_decide (vd_DeploymentID rec = deploymentID) && negb (vd_expired now rec).

Definition CountForDeployment (now : time) (deploymentID : string) (s : DomainOwnershipStore) : Z :=
  Z.of_nat (count_map (live_for now deploymentID) (ds_domains s)).

Definition StoreIfUnderCap (now : time) (host : chars) (deploymentID ownerWallet : string)
    (method : VerifyMethod) (maxPerDep : Z) (s : DomainOwnershipStore) :
    DomainOwnershipStore * option VerifiedDomain :=
  let host := normalizeHost host in
  let isRefresh := match ds_domains s !! host with
                   | Some existing => live_for now deploymentID existing
                   | None => false
                   end in
  if (maxPerDep >? 0) && negb isRefresh && (CountForDeployment now deploymentID s >=? maxPerDep)
  then (s, None)
  else let rec := new_record now host deploymentID ownerWallet method s in
       (mkStore (<[host := rec]> (ds_domains s)) (ds_ttl s), Some rec).

Definition LookupByHost (now : time) (host : chars) (s : DomainOwnershipStore) : option VerifiedDomain :=
  match ds_domains s !! normalizeHost host with
  | Some rec => if vd_expired now rec then None else Some rec
  | None => None
  end.

Definition ds_Remove (host : chars) (s : DomainOwnershipStore) : DomainOwnershipStore :=
  mkStore (delete (normalizeHost host) (ds_domains s)) (ds_ttl s).

(** *** DNS proofs *)

Section Proofs.
(** HMAC-SHA256 with the store's secret. *)
Context (hmac : chars → list Z).

Definition GenerateVerificationToken (host : chars) (deploymentID : string) : chars :=
  to_chars (hex_bytes (hmac (normalizeHost host ++ to_chars "|" ++ to_chars deploymentID))).

Context (verifyDom : chars).
(** The DNS at the moment of a call; [None] is a failed look-up. *)
Record dns := mkDNS { LookupCNAME : chars → option chars; LookupTXT : chars → option (list chars) }.

Definition CNAMETarget (host : chars) (deploymentID : string) : chars :=
  GenerateVerificationToken host deploymentID ++ to_chars "." ++ verifyDom.

Definition TXTRecord (host : chars) (deploymentID : string) : chars * chars :=
  let host := normalizeHost host in
  (to_chars "_moltbunker." ++ host,
   to_chars "moltbunker-verify=" ++ GenerateVerificationToken host deploymentID).

Definition CNAME_Verify (d : dns) (host : chars) (deploymentID : string) : bool :=
  let host := normalizeHost host in
  let token := GenerateVerificationToken host deploymentID in
  let want := normalizeHost (token ++ to_chars "." ++ verifyDom) in
  match LookupCNAME d host with
  | None => false
  | Some cname => bool_decide (normalizeHost cname = want)
  end.

Definition TXT_Verify (d : dns) (host : chars) (deploymentID : string) : bool :=
  let host := normalizeHost host in
  let want := to_chars "moltbunker-verify=" ++ GenerateVerificationToken host deploymentID in
  match LookupTXT d (to_chars "_moltbunker." ++ host) with
  | None => false
  | Some records => existsb (λ rec, bool_decide (trim_spaces rec = want)) records
  end.

Definition Verify (method : VerifyMethod) (d : dns) (host : chars) (deploymentID : string) : bool :=
  match method with
  | MethodTXT => TXT_Verify d host deploymentID
  | MethodCNAME => CNAME_Verify d host deploymentID
  end.

(** [handleVerify]: the answer's status.  [post]: the method is POST; [body]:
    host, deployment and wallet of the decoded request. *)
Definition handleVerify (now : time) (d : dns) (method : VerifyMethod) (maxPerDep : Z) (post : bool)
    (body : option (chars * string * string)) (s : DomainOwnershipStore) : DomainOwnershipStore * Z :=
  if negb post then (s, 405)
  else match body with
       | None => (s, 400)
       | Some (host, deploymentID, wallet) =>
           if decide (host = [] ∨ deploymentID = ""%string) then (s, 400)
           else if negb (Verify method d host deploymentID) then (s, 422)
           else match StoreIfUnderCap now host deploymentID wallet method maxPerDep s with
                | (s, None) => (s, 409)
                | (s, Some _) => (s, 200)
                end
       end.
End Proofs.

(** ** The proxy *)

Record Proxy := mkProxy {
  px_domain : chars;
  px_customDomains : option DomainOwnershipStore;
  px_blocklist : option Blocklist
}.

Inductive decision :=
  | InvalidHost                                       (* 400 *)
  | TakenDown                                         (* 403 *)
  | Dispatch (subdomain : chars) (customDomain : bool).

Definition extractSubdomain (host : chars) (p : Proxy) : chars :=
  let host := match SplitHostPort host with Some (h, _) => h | None => host end in
  let suffix := "."%char :: px_domain p in
  if has_suffix suffix host then take (length host - length suffix) host else [].

Definition resolveCustomDomain (now : time) (host : chars) (p : Proxy) : chars :=
  match px_customDomains p with
  | None => []
  | Some store =>
      match LookupByHost now host store with
      | None => []
      | Some rec => to_chars (vd_DeploymentID rec)
      end
  end.

Definition isBlocked (ids : list chars) (p : Proxy) : bool :=
  match px_blocklist p with
  | None => false
  | Some b => existsb (λ id, negb (bool_decide (id = [])) && (IsBlocked id b).1) ids
  end.

(** [handleRequest] up to the edge chain and the dispatch. *)
Definition handleRequest (now : time) (host : chars) (p : Proxy) : decision :=
  let check subdomain custom :=
    if isBlocked [host; subdomain] p then TakenDown else Dispatch subdomain custom in
  let subdomain := extractSubdomain host p in
  if decide (subdomain = []) then
    let depID := resolveCustomDomain now host p in
    if decide (depID = []) then InvalidHost else check depID true
  else check subdomain false.

(** [hostPolicy]: whether a certificate may be issued; [resolves] is the
    resolver's answer for a subdomain, [None] when there is no resolver. *)
Definition hostPolicy (now : time) (resolves : option (chars → bool)) (host : chars) (p : Proxy) : bool :=
  let suffix := "."%char :: px_domain p in
  if negb (has_suffix suffix host) then
    match px_customDomains p with
    | Some store => bool_decide (is_Some (LookupByHost now host store))
    | None => false
    end
  else
    let subdomain := take (length host - length suffix) host in
    if decide (subdomain = []) then false
    else match resolves with Some f => f subdomain | None => true end.
End Names.

(** ** Lemmas on names *)

Lemma drop_spaces_id s : Forall (λ c, is_space_char c = false) s → drop_spaces s = s.
Proof. intros Hs. destruct Hs as [|c s Hc _]; [done|]. cbn. by rewrite Hc. Qed.

Lemma trim_spaces_id s : Forall (λ c, is_space_char c = false) s → trim_spaces s = s.
Proof.
  intros Hs. unfold trim_spaces. rewrite (drop_spaces_id s Hs), drop_spaces_id.
  - apply reverse_involutive.
  - by apply Forall_reverse.
Qed.

(** A character of a host name in lower case. *)
Definition name_char (c : ascii) : bool :=
  ((97 <=? code c) && (code c <=? 122)) || ((48 <=? code c) && (code c <=? 57)) ||
  (code c =? 45) || (code c =? 46) || (code c =? 61) || (code c =? 95).

Lemma name_char_spec c :
  name_char c = true → is_ascii_char c = true ∧ is_space_char c = false ∧ lower_char c = c ∧ c ≠ ":"%char.
Proof.
  destruct c as [[] [] [] [] [] [] [] []]; vm_compute; intros Hc; try discriminate Hc;
    repeat split; discriminate.
Qed.

Definition is_name (s : chars) : Prop := Forall (λ c, name_char c = true) s.

Lemma fold_name_id uf s : is_name s → fold_name uf s = s.
Proof.
  intros Hs. unfold fold_name.
  assert (Ha : forallb is_ascii_char s = true).
  { apply forallb_forall. intros c Hc%list_elem_of_In.
    by apply name_char_spec, (proj1 (Forall_forall _ _) Hs). }
  rewrite Ha, trim_spaces_id.
  - induction Hs as [|c s Hc _ IH]; [done|]. cbn. f_equal; [by apply name_char_spec|].
    apply IH. cbn in Ha. by apply andb_true_iff in Ha as [_ ?].
  - eapply Forall_impl; [exact Hs|]. intros c Hc. by apply name_char_spec.
Qed.

Lemma index_char_None c s : c ∉ s → index_char c s = None.
Proof.
  induction s as [|x s IH]; [done|]. intros Hn. cbn. rewrite decide_False by set_solver.
  rewrite IH by set_solver. done.
Qed.

Lemma SplitHostPort_no_colon s : ":"%char ∉ s → SplitHostPort s = None.
Proof.
  intros Hn. unfold SplitHostPort, last_index_char. rewrite index_char_None; [done|].
  by rewrite elem_of_reverse.
Qed.

Lemma normalizeHost_name uf s : is_name s → normalizeHost uf s = trim_dot s.
Proof.
  intros Hs. unfold normalizeHost. rewrite fold_name_id by done.
  rewrite SplitHostPort_no_colon; [done|]. intros Hin.
  apply (proj1 (Forall_forall _ _) Hs) in Hin. by apply name_char_spec in Hin as (_ & _ & _ & ?).
Qed.

Lemma hex_char_name d : 0 ≤ d < 16 → name_char (hex_char d) = true ∧ hex_char d ≠ "."%char.
Proof.
  intros Hd. assert (Hn : (Z.to_nat d < 16)%nat) by lia. rewrite <- (Z2Nat.id d) by lia.
  generalize (Z.to_nat d) Hn. clear. intros n Hn.
  do 16 (destruct n as [|n]; [by vm_compute|]). lia.
Qed.

Lemma hex_bytes_name bs :
  Forall is_byte bs →
  is_name (to_chars (hex_bytes bs)) ∧ "."%char ∉ to_chars (hex_bytes bs) ∧
  length (to_chars (hex_bytes bs)) = (2 * length bs)%nat.
Proof.
  unfold to_chars, hex_bytes. rewrite String.list_ascii_of_string_of_list_ascii.
  induction 1 as [|b bs Hb _ (IH1 & IH2 & IH3)]; [repeat split; [constructor|set_solver]|].
  unfold is_byte in Hb. cbn.
  destruct (hex_char_name (b / 16)) as [H1 H1'];
    [split; [apply Z.div_pos; lia|apply Z.div_lt_upper_bound; lia]|].
  destruct (hex_char_name (b mod 16)) as [H2 H2']; [apply Z.mod_pos_bound; lia|].
  split_and!; [by repeat constructor|set_solver|]. cbn in IH3. lia.
Qed.

(** ** Takedown *)

Section Takedown.
Context (uf : chars → chars).
Abbreviation norm := (normalizeSub uf).

Inductive block_op := OpBlock (now : time) (sub : chars) (reason : string) | OpUnblock (sub : chars).

Definition block_step (o : block_op) (b : Blocklist) : Blocklist :=
  match o with
  | OpBlock now sub reason => Block uf now sub reason b
  | OpUnblock sub => (Unblock uf sub b).1
  end.

Lemma block_stays x ops b :
  is_Some (b !! norm x) → Forall (λ o, match o with OpUnblock y => norm y ≠ norm x | _ => True end) ops →
  is_Some (run block_step ops b !! norm x).
Proof.
  intros Hb Hops. refine (run_invariant block_step (λ b, is_Some (b !! norm x)) _ ops b _ Hops Hb).
  intros [now y reason|y] b' Ho Hb'; cbn.
  - unfold Block. case_decide; [done|]. rewrite lookup_insert. case_decide; [eauto|done].
  - by rewrite lookup_delete_ne.
Qed.

(** Safety.  Once a name is put on the takedown list, and until it is removed
    from it, no request is dispatched whose host header is that name, whose
    subdomain is, or whose custom domain belongs to a deployment that is, in any
    mixture of case and with or without a trailing dot. *)
Theorem takedown_enforced now0 x reason b ops now host p s custom :
  norm x ≠ [] →
  Forall (λ o, match o with OpUnblock y => norm y ≠ norm x | _ => True end) ops →
  px_blocklist p = Some (run block_step ops (Block uf now0 x reason b)) →
  handleRequest uf now host p = Dispatch s custom →
  norm host ≠ norm x ∧ norm s ≠ norm x.
Proof.
  intros Hx Hops Hp Hreq.
  assert (Hin : is_Some (run block_step ops (Block uf now0 x reason b) !! norm x)).
  { apply block_stays; [|done]. unfold Block. rewrite decide_False by done.
    rewrite lookup_insert_eq. eauto. }
  assert (Hchk : ∀ sub, isBlocked uf [host; sub] p = false → sub ≠ [] →
            norm host ≠ norm x ∧ norm sub ≠ norm x).
  { intros sub Hnb Hne. unfold isBlocked in Hnb. rewrite Hp in Hnb. cbn in Hnb.
    apply orb_false_iff in Hnb as [Hh [Hs _]%orb_false_iff].
    assert (Hno : ∀ id, id ≠ [] → negb (bool_decide (id = [])) &&
      (IsBlocked uf id (run block_step ops (Block uf now0 x reason b))).1 = false → norm id ≠ norm x).
    { intros id Hid Hb Heq. rewrite bool_decide_eq_false_2 in Hb by done. cbn in Hb.
      unfold IsBlocked in Hb. fold (norm id) in Hb. rewrite Heq in Hb.
      destruct Hin as [e He]. by rewrite He in Hb. }
    split; [|by apply Hno]. destruct (decide (host = [])) as [->|Hh']; [|by apply Hno].
    intros Heq. destruct (decide (norm [] = [])) as [Hnil|Hnil]; [congruence|]. by vm_compute in Hnil. }
  unfold handleRequest in Hreq.
  destruct (decide (extractSubdomain host p = [])) as [He|He].
  - destruct (decide (resolveCustomDomain uf now host p = [])) as [Hd|Hd]; [done|].
    destruct (isBlocked uf [host; _] p) eqn:Hb; [done|]. injection Hreq as <- _. by apply Hchk.
  - destruct (isBlocked uf [host; _] p) eqn:Hb; [done|]. injection Hreq as <- _. by apply Hchk.
Qed.
End Takedown.

(** ** Custom domains *)

Section CustomDomains.
Context (uf : chars → chars) (hmac : chars → list Z) (verifyDom : chars).
Context (method : VerifyMethod) (maxPerDep : Z).

(** The verify handler and the revocation of a host. *)
Inductive cd_op :=
  | CdVerify (now : time) (d : dns) (post : bool) (body : option (chars * string * string))
  | CdRemove (host : chars).

Definition cd_step (o : cd_op) (s : DomainOwnershipStore) : DomainOwnershipStore :=
  match o with
  | CdVerify now d post body =>
      (handleVerify uf hmac verifyDom now d method maxPerDep post body s).1
  | CdRemove host => ds_Remove uf host s
  end.

(** A call of the handler either leaves the store alone or stores a record for a
    host whose proof it has just seen, under the cap. *)
Lemma handleVerify_cases now d post body s :
  let s' := (handleVerify uf hmac verifyDom now d method maxPerDep post body s).1 in
  s' = s ∨
  ∃ host dep wallet,
    body = Some (host, dep, wallet) ∧ Verify uf hmac verifyDom method d host dep = true ∧
    (maxPerDep > 0 →
       match ds_domains s !! normalizeHost uf host with
       | Some e => live_for now dep e = true
       | None => False
       end ∨ CountForDeployment now dep s < maxPerDep) ∧
    s' = mkStore (<[normalizeHost uf host := new_record now (normalizeHost uf host) dep wallet method s]>
                    (ds_domains s)) (ds_ttl s).
Proof.
  unfold handleVerify. destruct post; [|by left]. cbn.
  destruct body as [[[host dep] wallet]|]; [|by left]. case_decide; [by left|].
  destruct (Verify uf hmac verifyDom method d host dep) eqn:Hv; [|by left]. cbn.
  unfold StoreIfUnderCap.
  set (isRefresh := match ds_domains s !! normalizeHost uf host with Some _ => _ | None => false end).
  destruct ((maxPerDep >? 0) && negb isRefresh && (CountForDeployment now dep s >=? maxPerDep)) eqn:Hc;
    [by left|]. right. exists host, dep, wallet. split_and!; [done..| |done].
  intros Hmax. replace (maxPerDep >? 0) with true in Hc by (symmetry; apply Z.gtb_lt; lia). cbn in Hc.
  unfold isRefresh in Hc. apply andb_false_iff in Hc as [Hr|Hlt].
  - left. apply negb_false_iff in Hr. by destruct (ds_domains s !! _).
  - right. rewrite Z.geb_leb in Hlt. by apply Z.leb_gt.
Qed.

(** *** Every record has a proof *)

Definition proved (ops : list cd_op) (ttl : duration) (k : chars) (rec : VerifiedDomain) : Prop :=
  vd_ExpiresAt rec = vd_VerifiedAt rec + ttl ∧
  ∃ d post host wallet,
    CdVerify (vd_VerifiedAt rec) d post (Some (host, vd_DeploymentID rec, wallet)) ∈ ops ∧
    normalizeHost uf host = k ∧ Verify uf hmac verifyDom method d host (vd_DeploymentID rec) = true.

Lemma run_proved ops ttl :
  let s := run cd_step ops (NewDomainOwnershipStore ttl) in
  ds_ttl s = ds_ttl (NewDomainOwnershipStore ttl) ∧
  map_Forall (proved ops (ds_ttl (NewDomainOwnershipStore ttl))) (ds_domains s).
Proof.
  induction ops as [|o ops IH] using rev_ind; [done|]. cbn zeta in *. destruct IH as [Ht IH].
  autorewrite with molt. set (s := run cd_step ops (NewDomainOwnershipStore ttl)) in *.
  assert (Hmono : ∀ k rec, proved ops (ds_ttl (NewDomainOwnershipStore ttl)) k rec →
            proved (ops ++ [o]) (ds_ttl (NewDomainOwnershipStore ttl)) k rec).
  { intros k rec (He & d & post & host & w & Hin & Hrest). split; [done|].
    exists d, post, host, w. split; [by apply elem_of_app; left|done]. }
  destruct o as [now d post body|host]; cbn [cd_step].
  - destruct (handleVerify_cases now d post body s) as [-> | (host & dep & w & -> & Hv & _ & ->)].
    + split; [done|]. intros k rec Hk. by apply Hmono, IH.
    + split; [done|]. cbn. apply map_Forall_insert_2; [|intros k rec Hk; by apply Hmono, IH].
      split; [exact (f_equal (Z.add now) Ht)|]. exists d, post, host, w. cbn.
      split; [|done]. apply elem_of_app. right. by left.
  - split; [done|]. cbn. apply map_Forall_delete. intros k rec Hk. by apply Hmono, IH.
Qed.

(** Safety.  A custom host is routed to a deployment only if the handler saw
    the DNS proof for that host and that deployment, not longer ago than the
    lifetime of a record. *)
Theorem custom_domain_proved ops ttl now host rec :
  LookupByHost uf now host (run cd_step ops (NewDomainOwnershipStore ttl)) = Some rec →
  (vd_ExpiresAt rec = 0 ∨ now ≤ vd_VerifiedAt rec + ds_ttl (NewDomainOwnershipStore ttl)) ∧
  ∃ d post host' wallet,
    CdVerify (vd_VerifiedAt rec) d post (Some (host', vd_DeploymentID rec, wallet)) ∈ ops ∧
    normalizeHost uf host' = normalizeHost uf host ∧
    Verify uf hmac verifyDom method d host' (vd_DeploymentID rec) = true.
Proof.
  unfold LookupByHost. destruct (run_proved ops ttl) as [Ht Hall].
  destruct (ds_domains _ !! normalizeHost uf host) as [r|] eqn:Hk; [|done].
  destruct (vd_expired now r) eqn:Hx; [done|]. intros [= ->].
  destruct (Hall _ _ Hk) as (He & Hrest). split; [|done].
  unfold vd_expired, time_is_zero in Hx. apply andb_false_iff in Hx as [Hx|Hx].
  - left. apply negb_false_iff in Hx. by apply Z.eqb_eq.
  - right. apply Z.ltb_ge in Hx. lia.
Qed.

(** *** The cap *)

(** A record that is valid later was valid before. *)
Lemma live_for_earlier now now' dep rec :
  now ≤ now' → live_for now' dep rec = true → live_for now dep rec = true.
Proof.
  intros Hle. unfold live_for, vd_expired. rewrite !andb_true_iff, !negb_true_iff, !andb_false_iff.
  rewrite !Z.ltb_ge. intros [Hd [?|?]]; split; auto. right. lia.
Qed.

Lemma count_map_mono `{Countable K} {A} (P Q : A → bool) (m : gmap K A) :
  (∀ v, P v = true → Q v = true) → (count_map P m ≤ count_map Q m)%nat.
Proof.
  intros HPQ. induction m as [|k v m Hk IH] using map_ind; [by rewrite !count_map_empty|].
  rewrite !count_map_insert_fresh by done. specialize (HPQ v).
  destruct (P v), (Q v); lia.
Qed.

Lemma count_map_delete_le `{Countable K} {A} (P : A → bool) (m : gmap K A) k :
  (count_map P (delete k m) ≤ count_map P m)%nat.
Proof.
  destruct (m !! k) as [v|] eqn:Hk; [|by rewrite delete_id].
  rewrite (count_map_delete P m k v Hk). lia.
Qed.

(** Histories in time: [cd_history t s] when [s] is reachable with the last call
    at or before [t]. *)
Inductive cd_history : time → DomainOwnershipStore → Prop :=
  | cd_new t ttl : cd_history t (NewDomainOwnershipStore ttl)
  | cd_call t now d post body s :
      cd_history t s → t ≤ now → cd_history now (cd_step (CdVerify now d post body) s)
  | cd_revoke t host s : cd_history t s → cd_history t (cd_step (CdRemove host) s).

(** Bounds.  With a positive cap, no deployment ever has more live custom
    hosts than the cap, whatever sequence of verifications and revocations, as
    long as the clock does not go back. *)
Theorem custom_domain_cap t s now dep :
  cd_history t s → 0 < maxPerDep → t ≤ now → CountForDeployment now dep s ≤ maxPerDep.
Proof.
  intros Hh Hmax. revert now dep.
  assert (Hlater : ∀ s t, (∀ dep, CountForDeployment t dep s ≤ maxPerDep) →
    ∀ now dep, t ≤ now → CountForDeployment now dep s ≤ maxPerDep).
  { intros s' t' Hs now dep Hle. etrans; [|exact (Hs dep)]. unfold CountForDeployment.
    apply inj_le, count_map_mono. intros rec. by apply live_for_earlier. }
  assert (Hall : ∀ dep, CountForDeployment t dep s ≤ maxPerDep); [|by eauto].
  induction Hh as [t ttl|t now d post body s Hh IH Hle|t host s Hh IH]; intros dep.
  - unfold CountForDeployment. cbn. rewrite count_map_empty. lia.
  - pose proof (Hlater s t IH now) as Hnow. cbn [cd_step].
    destruct (handleVerify_cases now d post body s) as [-> | (host & dep' & w & _ & _ & Hcap & ->)];
      [by apply Hnow|].
    specialize (Hnow dep Hle). specialize (Hcap ltac:(lia)).
    unfold CountForDeployment in *. cbn [ds_domains]. rewrite count_map_insert.
    pose proof (count_map_delete_le (live_for now dep) (ds_domains s) (normalizeHost uf host)) as Hdel.
    destruct (decide (dep' = dep)) as [->|Hne].
    + destruct Hcap as [Hr|Hlt]; [|destruct (live_for now dep (new_record _ _ _ _ _ _)); lia].
      destruct (ds_domains s !! normalizeHost uf host) as [e|] eqn:He; [|done].
      rewrite (count_map_delete _ _ _ _ He), Hr in Hnow. cbn iota in Hnow.
      destruct (live_for now dep (new_record _ _ _ _ _ _)); lia.
    + replace (live_for now dep _) with false; [lia|]. unfold live_for. cbn.
      by rewrite bool_decide_eq_false_2.
  - unfold CountForDeployment in *. cbn. etrans; [|apply (IH dep)]. apply inj_le, count_map_delete_le.
Qed.

(** *** Publishing a proof *)

Hypothesis hmac_bytes : ∀ msg, Forall is_byte (hmac msg) ∧ length (hmac msg) = 32%nat.

Lemma token_name host dep :
  let t := GenerateVerificationToken uf hmac host dep in
  is_name t ∧ "."%char ∉ t ∧ length t = 64%nat.
Proof.
  destruct (hmac_bytes (normalizeHost uf host ++ to_chars "|" ++ to_chars dep)) as [Hb Hl].
  unfold GenerateVerificationToken. destruct (hex_bytes_name _ Hb) as (H1 & H2 & H3).
  rewrite Hl in H3. auto.
Qed.

(** Roundtrip.  A customer who publishes the TXT record that the challenge
    names passes the verification for that host and deployment, whatever other
    records the name has. *)
Theorem published_txt_verifies d host dep records :
  LookupTXT d (TXTRecord uf hmac host dep).1 = Some records →
  (TXTRecord uf hmac host dep).2 ∈ records →
  TXT_Verify uf hmac d host dep = true.
Proof.
  unfold TXTRecord, TXT_Verify. cbn [fst snd]. intros -> Hin. apply existsb_exists. eexists.
  split; [by apply list_elem_of_In|]. apply bool_decide_eq_true, trim_spaces_id.
  destruct (token_name (normalizeHost uf host) dep) as (Hn & _ & _). apply Forall_app. split.
  - by repeat constructor.
  - eapply Forall_impl; [exact Hn|]. intros c Hc. by apply name_char_spec.
Qed.

(** Liveness.  The CNAME proof cannot be published: its target has the token
    as its first label, 64 characters, and a DNS label has at most 63; so when
    every answer of the DNS is a name of such labels, no host passes the CNAME
    verification (the default). *)
Theorem cname_proof_impossible d host dep :
  (∀ h c, LookupCNAME d h = Some c →
     Forall (λ l, (length l ≤ 63)%nat) (split_on "."%char (normalizeHost uf c))) →
  is_name verifyDom → CNAME_Verify uf hmac verifyDom d host dep = false.
Proof.
  intros Hdns Hdom. unfold CNAME_Verify.
  destruct (LookupCNAME d (normalizeHost uf host)) as [c|] eqn:Hc; [|done].
  apply bool_decide_eq_false. intros Heq. apply Hdns in Hc. rewrite Heq in Hc.
  destruct (token_name (normalizeHost uf host) dep) as (Hn & Hdot & Hlen).
  set (tok := GenerateVerificationToken uf hmac (normalizeHost uf host) dep) in *.
  rewrite normalizeHost_name in Hc.
  2: { apply Forall_app. split; [done|]. by constructor. }
  assert (Htrim : ∃ rest, trim_dot (tok ++ to_chars "." ++ verifyDom) = tok ++ rest ∧
            (rest = [] ∨ ∃ r, rest = "."%char :: r)).
  { unfold trim_dot. destruct (reverse (tok ++ to_chars "." ++ verifyDom)) as [|c0 r] eqn:Hr.
    - apply (f_equal length) in Hr. rewrite length_reverse, length_app in Hr. cbn in Hr. lia.
    - apply (f_equal reverse) in Hr. rewrite reverse_involutive, reverse_cons in Hr.
      case_decide; [|exists (to_chars "." ++ verifyDom); split; [done|right; by eexists]].
      destruct verifyDom as [|x dom] using rev_ind.
      + exists []. split; [|by left]. rewrite app_nil_r in *. cbn in Hr.
        apply app_inj_tail in Hr as [<- _]. done.
      + rewrite !app_assoc in Hr. apply app_inj_tail in Hr as [<- _].
        exists (to_chars "." ++ dom). rewrite app_assoc. split; [done|right; by eexists]. }
  destruct Htrim as (rest & Ht & Hrest). rewrite Ht in Hc.
  assert (Hhd : ∃ ls, split_on "."%char (tok ++ rest) = tok :: ls).
  { clear -Hdot Hrest. induction tok as [|c tok IH].
    - destruct Hrest as [->|[r ->]]; cbn; [by eexists|]. by eexists.
    - cbn. rewrite decide_False by set_solver. destruct IH as [ls ->]; [set_solver|]. by eexists. }
  destruct Hhd as [ls Hls]. rewrite Hls in Hc. apply Forall_cons in Hc as [Hc _]. lia.
Qed.
End CustomDomains.

(** ** What a takedown does not reach *)

Section Bypass.
Context (uf : chars → chars).

Definition shop : ServiceEntry :=
  mkService "dep-00ab12cd34ef5678" "5" "10.0.0.1:9002" 80 32000 0 "container".

(** A resolver that knows the service, and gossip that maps "myapp" to it. *)
Definition shop_resolver : Resolver := Register hour shop (NewResolver true true).
Definition shop_directory : Directory :=
  mkDirectory (storeState 0 [] "subdomain:myapp" (VString "dep-00ab12cd34ef5678") NewGossipProtocol)
    NewGossipServiceAdapter None.

Definition shop_service (subdomain : string) : option ServiceEntry :=
  (Resolve (H := adapter_reader (λ _, None)) (λ _ m, map_to_list m) hour subdomain shop_resolver
     shop_directory).2.

Definition shop_proxy (blocked : string) : Proxy :=
  mkProxy (to_chars "moltbunker.dev") None (Some (Block uf 0 (to_chars blocked) "abuse" NewBlocklist)).

(** Where a request for a host ends: the service its subdomain resolves to. *)
Definition served (host : string) (p : Proxy) : option ServiceEntry :=
  match handleRequest uf hour (to_chars host) p with
  | Dispatch sub _ => shop_service (String.string_of_list_ascii sub)
  | _ => None
  end.

(** Safety.  A takedown is enforced for the exact name only, although the
    resolver accepts others for the same service.  With "myapp" blocked, its host
    is refused, but any label in front of it reaches the service, and so does the
    deployment's own subdomain; with the deployment id blocked, its eight-digit
    prefix reaches the service. *)
Theorem takedown_misses_other_names :
  served "myapp.moltbunker.dev" (shop_proxy "myapp") = None ∧
  is_Some (served "www.myapp.moltbunker.dev" (shop_proxy "myapp")) ∧
  is_Some (served "00ab12cd.moltbunker.dev" (shop_proxy "myapp")) ∧
  served "dep-00ab12cd34ef5678.moltbunker.dev" (shop_proxy "dep-00ab12cd34ef5678") = None ∧
  is_Some (served "00ab12cd.moltbunker.dev" (shop_proxy "dep-00ab12cd34ef5678")) ∧
  is_Some (served "myapp.moltbunker.dev" (shop_proxy "dep-00ab12cd34ef5678")).
Proof. vm_compute. repeat split; eauto. Qed.

(** A proxy that serves app.customer.com for the deployment and has taken the
    host down. *)
Definition customer_proxy : Proxy :=
  mkProxy (to_chars "moltbunker.dev")
    (Some (Store uf hour (to_chars "app.customer.com") "dep-00ab12cd34ef5678" "" MethodTXT
             (NewDomainOwnershipStore 0)))
    (Some (Block uf 0 (to_chars "app.customer.com") "abuse" NewBlocklist)).

(** Safety.  A custom host that is taken down is refused under its bare name and
    served when the host header carries a port. *)
Theorem takedown_misses_port :
  served "app.customer.com" customer_proxy = None ∧
  is_Some (served "app.customer.com:9090" customer_proxy).
Proof. vm_compute. repeat split; eauto. Qed.

(** Error.  The admin handler answers 201 (created) for the name ".", which it
    does not block. *)
Theorem dot_takedown_ignored now b :
  BlocklistAdmin uf now (AdminPost (Some (to_chars ".", "abuse"))) b = (b, 201).
Proof. reflexivity. Qed.
End Bypass.

(** ** Instances for the examples *)

Section AdmissionExamples.
Abbreviation uf0 := (λ s : chars, s).

Lemma takedown_enforced_witness :
  normalizeSub uf0 (to_chars "other.moltbunker.dev") ≠ normalizeSub uf0 (to_chars "MyApp.") ∧
  normalizeSub uf0 (to_chars "other") ≠ normalizeSub uf0 (to_chars "MyApp.").
Proof.
  apply (takedown_enforced uf0 0 (to_chars "MyApp.") "abuse" NewBlocklist
    [OpUnblock (to_chars "other")] hour (to_chars "other.moltbunker.dev")
    (mkProxy (to_chars "moltbunker.dev") None
       (Some (run (block_step uf0) [OpUnblock (to_chars "other")]
                (Block uf0 0 (to_chars "MyApp.") "abuse" NewBlocklist))))
    (to_chars "other") false).
  - vm_compute. discriminate.
  - repeat constructor. vm_compute. discriminate.
  - reflexivity.
  - vm_compute. reflexivity.
Defined.

(** An HMAC with the right length, and a DNS that holds the TXT record of
    app.customer.com. *)
Definition demo_hmac (msg : chars) : list Z := replicate 31 0 ++ [Z.of_nat (length msg) mod 256].

Lemma demo_hmac_bytes msg : Forall is_byte (demo_hmac msg) ∧ length (demo_hmac msg) = 32%nat.
Proof.
  split; [|reflexivity]. apply Forall_app. split; [repeat constructor; unfold is_byte; lia|].
  constructor; [|constructor]. apply Z.mod_pos_bound. lia.
Qed.

Definition demo_host : chars := to_chars "app.customer.com".
Definition demo_dns : dns :=
  mkDNS (λ _, None) (λ name, if decide (name = (TXTRecord uf0 demo_hmac demo_host "dep-a").1)
                             then Some [(TXTRecord uf0 demo_hmac demo_host "dep-a").2] else None).
Definition demo_cd_ops : list cd_op :=
  [CdVerify hour demo_dns true (Some (demo_host, "dep-a", ""))].

Lemma published_txt_verifies_witness : TXT_Verify uf0 demo_hmac demo_dns demo_host "dep-a" = true.
Proof.
  apply (published_txt_verifies uf0 demo_hmac demo_hmac_bytes demo_dns demo_host "dep-a"
    [(TXTRecord uf0 demo_hmac demo_host "dep-a").2]).
  - vm_compute. reflexivity.
  - by left.
Defined.

Definition demo_cd_store : DomainOwnershipStore :=
  run (cd_step uf0 demo_hmac (to_chars "moltbunker.dev") MethodTXT 1) demo_cd_ops
    (NewDomainOwnershipStore 0).

Lemma custom_domain_proved_witness :
  ∃ rec, LookupByHost uf0 (2 * hour) (to_chars "APP.customer.com:443") demo_cd_store = Some rec ∧
    ∃ d post host wallet,
      CdVerify (vd_VerifiedAt rec) d post (Some (host, vd_DeploymentID rec, wallet)) ∈ demo_cd_ops ∧
      Verify uf0 demo_hmac (to_chars "moltbunker.dev") MethodTXT d host (vd_DeploymentID rec) = true.
Proof.
  eexists. split; [vm_compute; reflexivity|].
  destruct (custom_domain_proved uf0 demo_hmac (to_chars "moltbunker.dev") MethodTXT 1 demo_cd_ops 0
    (2 * hour) (to_chars "APP.customer.com:443")
    (mkDomain demo_host "dep-a" "" MethodTXT hour (73 * hour))) as (_ & d & post & h & w & Hin & _ & Hv).
  { vm_compute. reflexivity. }
  exists d, post, h, w. split; [exact Hin|exact Hv].
Defined.

Lemma custom_domain_cap_witness : CountForDeployment (2 * hour) "dep-a" demo_cd_store ≤ 1.
Proof.
  apply (custom_domain_cap uf0 demo_hmac (to_chars "moltbunker.dev") MethodTXT 1 hour demo_cd_store
    (2 * hour) "dep-a").
  - eapply (cd_call _ _ _ _ _ 0); [apply cd_new|vm_compute; discriminate].
  - lia.
  - vm_compute. discriminate.
Defined.

Lemma cname_proof_impossible_witness :
  CNAME_Verify uf0 demo_hmac (to_chars "moltbunker.dev")
    (mkDNS (λ _, Some (to_chars "edge.moltbunker.dev")) (λ _, None)) demo_host "dep-a" = false.
Proof.
  apply (cname_proof_impossible uf0 demo_hmac (to_chars "moltbunker.dev") demo_hmac_bytes).
  - intros h c [= <-]. vm_compute. repeat constructor.
  - repeat constructor.
Defined.
End AdmissionExamples.
