(* ===== verification/ReverseTunnel.v ===== *)
(** * Reverse tunnels

    A provider behind a NAT dials the ingress, which registers a subdomain for
    it and opens streams back over the connection: [TunnelRegistry]
    (internal/tunnel/registry.go), the tier tables (reverse_types.go), the
    checks of a registration and the reconnection tokens (auth.go), and the
    server (reverse_server.go): the admission of a connection, its end,
    [OpenStream] and the per-address connection counters.

    A connection goes through three locked parts, [provider_checks],
    [provider_register] and [provider_close], which other connections may
    interleave; [rv_step] executes any sequence of them.  The counters of
    [checkIPLimit] are objects that a map points to, read, updated and unlinked in
    separate atomic steps.  TLS, yamux, HMAC-SHA256, [fmt.Sscanf], the wallet check
    and the edge-tier check are parameters.

    Theorems: the index by node is exact in every interleaving; a registered
    tunnel passed its checks; a node's tunnels stay under its tier's cap when
    connections are admitted one after the other, and exceed it when two are
    admitted at once; a token is accepted only for the node and the subdomain it
    was issued for; a free node can never reconnect; a connection that ends late
    removes its successor; the counters stay within the limit but do not bound the
    connections of an address. *)

From S2P Require Import Prelude NetAddr NonceTracker BanList Stake Float64 Diversity PeerScorer Framing PeerTable RouterPipeline Gossip ServiceRouting EdgeAdmission.
From stdpp Require Import pretty.
From Stdlib Require Import Ascii.
Local Open Scope Z_scope.

(** ** Data *)

Record TunnelLimits := mkLimits { tl_MaxRPS : Z; tl_MaxBandwidth : Z; tl_MaxStreams : Z }.

Definition FreeTierLimits : TunnelLimits := mkLimits 10 (1 * 1024 * 1024) 100.
Definition StarterTierLimits : TunnelLimits := mkLimits 50 (5 * 1024 * 1024) 500.
Definition BronzeTierLimits : TunnelLimits := mkLimits 200 (10 * 1024 * 1024) 1000.
Definition SilverPlusTierLimits : TunnelLimits := mkLimits 2000 (50 * 1024 * 1024) 10000.

(** The switch of the three tier functions. *)
Definition by_tier {A} (tier : string) (starter bronze silver free : A) : A :=
  if decide (tier = "starter"%string) then starter
  else if decide (tier = "bronze"%string) then bronze
  else if decide (tier ∈ ["silver"; "gold"; "platinum"]%string) then silver
  else free.

Definition MaxSubdomainsForTier (tier : string) : Z := by_tier tier 10 25 100 3.
Definition LimitsForTier (tier : string) : TunnelLimits :=
  by_tier tier StarterTierLimits BronzeTierLimits SilverPlusTierLimits FreeTierLimits.
Definition ReconnGraceForTier (tier : string) : Z := by_tier tier 120 300 1800 60.

(** [ts_Yamux] names the yamux session. *)
Record TunnelSession := mkSession {
  ts_NodeID : NodeID;
  ts_Subdomain : string;
  ts_DeploymentID : string;
  ts_Yamux : nat;
  ts_RegisteredAt : time;
  ts_Tier : string;
  ts_Limits : TunnelLimits;
  ts_ReconnToken : chars
}.

(** ** The registry *)

Record TunnelRegistry := mkRegistry {
  tr_sessions : gmap string TunnelSession;
  tr_byNodeID : gmap NodeID (list string)
}.

Definition NewTunnelRegistry : TunnelRegistry := mkRegistry ∅ ∅.

(** [None]: the subdomain is already registered. *)
Definition tr_Register (subdomain : string) (session : TunnelSession) (r : TunnelRegistry) :
    option TunnelRegistry :=
  match tr_sessions r !! subdomain with
  | Some _ => None
  | None =>
      Some (mkRegistry (<[subdomain := session]> (tr_sessions r))
              (<[ts_NodeID session := default [] (tr_byNodeID r !! ts_NodeID session) ++ [subdomain]]>
                 (tr_byNodeID r)))
  end.

(** The loop that removes the first occurrence. *)
Fixpoint remove_first (s : string) (subs : list string) : list string :=
  match subs with
  | [] => []
  | x :: rest => if decide (x = s) then rest else x :: remove_first s rest
  end.

Definition tr_Unregister (subdomain : string) (r : TunnelRegistry) : TunnelRegistry :=
  match tr_sessions r !! subdomain with
  | None => r
  | Some sess =>
      let subs := remove_first subdomain (default [] (tr_byNodeID r !! ts_NodeID sess)) in
      mkRegistry (delete subdomain (tr_sessions r))
        (if decide (subs = []) then delete (ts_NodeID sess) (tr_byNodeID r)
         else <[ts_NodeID sess := subs]> (tr_byNodeID r))
  end.

Definition tr_Lookup (subdomain : string) (r : TunnelRegistry) : option TunnelSession :=
  tr_sessions r !! subdomain.

Definition SubdomainsForNodeID (nodeID : NodeID) (r : TunnelRegistry) : list string :=
  default [] (tr_byNodeID r !! nodeID).

Definition CountForNodeID (nodeID : NodeID) (r : TunnelRegistry) : Z :=
  len (SubdomainsForNodeID nodeID r).

Definition UnregisterAll (nodeID : NodeID) (r : TunnelRegistry) : TunnelRegistry * list string :=
  let subs := SubdomainsForNodeID nodeID r in
  (mkRegistry (foldl (λ m s, delete s m) (tr_sessions r) subs) (delete nodeID (tr_byNodeID r)), subs).

Definition ActiveCount (r : TunnelRegistry) : Z := Z.of_nat (size (tr_sessions r)).

(** [draws]: what each [rand.Read] of four bytes gives, [None] a failure. *)
Fixpoint assign_loop (attempts : nat) (draws : list (option (list Z))) (r : TunnelRegistry) : option string :=
  match attempts, draws with
  | S attempts, Some buf :: draws =>
      let sub := hex_bytes buf in
      match tr_sessions r !! sub with
      | None => Some sub
      | Some _ => assign_loop attempts draws r
      end
  | _, _ => None
  end.

Definition AssignRandomSubdomain (draws : list (option (list Z))) (r : TunnelRegistry) : option string :=
  assign_loop 10 draws r.

(** ** Registration requests *)

Definition maxRegistrationAge : duration := 60 * second.

(** [time.Unix(sec, 0)], whose seconds wrap, as a time since the zero time. *)
Definition unix_time (sec : Z) : time := wrap64 (sec + 62135596800) * second.

Record WalletProof := mkProof { wp_Address : string; wp_Signature : string; wp_Message : string }.
Record EdgeCapabilities := mkEdge { ec_IngressAddr : string; ec_TunnelPort : Z; ec_MaxStreams : Z }.

Record TunnelRegisterRequest := mkRequest {
  rq_Subdomain : string;
  rq_DeploymentID : string;
  rq_Nonce : chars;
  rq_Timestamp : Z;
  rq_TLSBinding : chars;
  rq_WalletProof : option WalletProof;
  rq_ReconnToken : chars;
  rq_EdgeCapabilities : option EdgeCapabilities
}.

(** The number the bytes spell. *)
Definition bytes_number (bs : list Z) : N := foldl (λ n b, n * 256 + Z.to_N b)%N 0%N bs.

Inductive registration_error :=
  | BadNonceLength | BadNonceHex | NonceRejected (e : NonceError) | RegistrationTooOld
  | RegistrationInFuture | BindingMismatch.

(** [tlsUnique]: [tlsState.TLSUnique], empty when there is none. *)
Definition ValidateRegistration (now : time) (req : TunnelRegisterRequest) (tlsUnique : list Z)
    (nt : NonceTracker) : NonceTracker * option registration_error :=
  if negb (len (rq_Nonce req) =? 64) then (nt, Some BadNonceLength)
  else match DecodeString (rq_Nonce req) with
       | None => (nt, Some BadNonceHex)
       | Some nonceBytes =>
           let ts := unix_time (rq_Timestamp req) in
           match Check now (bytes_number (take 24 nonceBytes)) ts nt with
           | (nt, Some e) => (nt, Some (NonceRejected e))
           | (nt, None) =>
               let age := time_sub now ts in
               if age >? maxRegistrationAge then (nt, Some RegistrationTooOld)
               else if age <? - maxRegistrationAge then (nt, Some RegistrationInFuture)
               else if negb (bool_decide (rq_TLSBinding req = [])) && (0 <? len tlsUnique) &&
                       negb (bool_decide (rq_TLSBinding req = to_chars (hex_bytes tlsUnique)))
               then (nt, Some BindingMismatch)
               else (nt, None)
           end
       end.

(** *** Reconnection tokens *)

Section Tokens.
(** HMAC-SHA256 with the server's secret. *)
Context (hmac : list Z → list Z).

(** The bytes of a text. *)
Definition text_bytes (s : string) : list Z := code <$> to_chars s.

(** [PutUint64] of the (two's complement) number, big-endian. *)
Definition be64 (n : Z) : list Z := (λ i, n / 256 ^ (7 - Z.of_nat i) mod 256) <$> seq 0 8.

Definition token_mac (nodeID : NodeID) (subdomain : string) (issuedAt : Z) : chars :=
  to_chars (hex_bytes (hmac (id_bytes nodeID ++ text_bytes subdomain ++ be64 issuedAt))).

(** [now]: the Unix seconds. *)
Definition IssueReconnToken (now : Z) (nodeID : NodeID) (subdomain : string) : chars :=
  token_mac nodeID subdomain now ++ to_chars (":" +:+ pretty now).

(** [fmt.Sscanf(token, "%64s:%d", ..)], and the "%d" of the second attempt,
    which is 0 when nothing can be read. *)
Context (sscanf : chars → option (chars * Z)) (sscanf_d : chars → Z).

(** What the two attempts read from a token. *)
Definition parse_token (token : chars) : option (chars * Z) :=
  match sscanf token with
  | Some p => Some p
  | None =>
      match last_index_char ":"%char token with
      | None => None
      | Some i =>
          let hmacHex := take i token in
          let issuedAt := sscanf_d (drop (S i) token) in
          if decide (hmacHex = [] ∨ issuedAt = 0) then None else Some (hmacHex, issuedAt)
      end
  end.

Definition ValidateReconnToken (now : time) (token : chars) (nodeID : NodeID) (subdomain : string)
    (maxAge : duration) : bool :=
  match parse_token token with
  | None => false
  | Some (hmacHex, issuedAt) =>
      let age := time_sub now (unix_time issuedAt) in
      if (age >? maxAge) || (age <? - maxRegistrationAge) then false
      else bool_decide (hmacHex = token_mac nodeID subdomain issuedAt)
  end.
End Tokens.

(** ** The server *)

(** Where a connection is: its checks passed, its tunnel registered, or ended. *)
Inductive phase :=
  | Checked (node : NodeID) (tier subdomain : string) (req : TunnelRegisterRequest)
  | Registered (subdomain : string)
  | Ended.

(** [rv_limiters] holds, for a subdomain, the connection that installed its
    limiter and the limits; [rv_closed] the yamux sessions that are closed. *)
Record ReverseServer := mkServer {
  rv_registry : TunnelRegistry;
  rv_nonces : NonceTracker;
  rv_limiters : gmap string (nat * TunnelLimits);
  rv_edges : list (NodeID * string * EdgeCapabilities);
  rv_conns : gmap nat phase;
  rv_closed : gset nat
}.

Definition NewReverseServer : ReverseServer :=
  mkServer NewTunnelRegistry
    (NewNonceTrackerWithConfig maxRegistrationAge (30 * second) (10 * minute)) ∅ [] ∅ ∅.

Inductive rejection :=
  | EdgeNotAuthorized | ReconnNeedsSubdomain | BadReconnToken | BadRegistration (e : registration_error)
  | SubdomainLimit | AssignmentFailed | FreeVanity | BlockedByOperator.

Section Server.
Context (hmac : list Z → list Z) (sscanf : chars → option (chars * Z)) (sscanf_d : chars → Z).
Context (uf : chars → chars).
(** The optional parts of the server. *)
Context (verifyWallet : option (WalletProof → string → option string)).
Context (edgeAuthorize : option (string → string → option bool)).
Context (edgeRegistry : bool) (blocklist : option Blocklist).

(** The tier, and whether a wallet was verified. *)
Definition determine_tier (nodeID : NodeID) (req : TunnelRegisterRequest) : string * bool :=
  match rq_WalletProof req, verifyWallet with
  | Some proof, Some verify =>
      match verify proof (NodeID_String nodeID) with
      | Some tier => (tier, true)
      | None => ("free", false)
      end
  | _, _ => ("free", false)
  end%string.

Definition verified_wallet (verified : bool) (req : TunnelRegisterRequest) : string :=
  match rq_WalletProof req with
  | Some proof => if verified then wp_Address proof else ""
  | None => ""
  end.

Definition edge_gate (nodeID : NodeID) (verified : bool) (req : TunnelRegisterRequest) : bool :=
  match rq_EdgeCapabilities req, edgeAuthorize with
  | Some _, Some authorize =>
      match authorize (NodeID_String nodeID) (verified_wallet verified req) with
      | Some authorized => authorized
      | None => false
      end
  | _, _ => true
  end.

(** Nonce, timestamp and binding, or the reconnection token. *)
Definition check_proof (now : time) (nodeID : NodeID) (tier : string) (tlsUnique : list Z)
    (req : TunnelRegisterRequest) (nt : NonceTracker) : NonceTracker * option rejection :=
  if negb (bool_decide (rq_ReconnToken req = [])) then
    if decide (rq_Subdomain req = ""%string) then (nt, Some ReconnNeedsSubdomain)
    else if ValidateReconnToken hmac sscanf sscanf_d now (rq_ReconnToken req) nodeID (rq_Subdomain req)
              (ReconnGraceForTier tier * second)
    then (nt, None) else (nt, Some BadReconnToken)
  else match ValidateRegistration now req tlsUnique nt with
       | (nt, Some e) => (nt, Some (BadRegistration e))
       | (nt, None) => (nt, None)
       end.

(** The subdomain that will be registered. *)
Definition pick_subdomain (tier : string) (draws : list (option (list Z))) (req : TunnelRegisterRequest)
    (r : TunnelRegistry) : rejection + string :=
  if decide (rq_Subdomain req = ""%string) then
    match AssignRandomSubdomain draws r with
    | None => inl AssignmentFailed
    | Some sub => inr sub
    end
  else if decide (tier = "free"%string) then inl FreeVanity
  else inr (rq_Subdomain req).

Definition is_blocked (subdomain : string) : bool :=
  match blocklist with
  | None => false
  | Some b => (IsBlocked uf (to_chars subdomain) b).1
  end.

(** [handleProviderConn], from the decoded request to the registration. *)
Definition provider_checks (now : time) (c : nat) (nodeID : NodeID) (tlsUnique : list Z)
    (draws : list (option (list Z))) (req : TunnelRegisterRequest) (s : ReverseServer) :
    ReverseServer * option rejection :=
  let reject nt e := (mkServer (rv_registry s) nt (rv_limiters s) (rv_edges s)
                        (<[c := Ended]> (rv_conns s)) (rv_closed s), Some e) in
  let '(tier, verified) := determine_tier nodeID req in
  if negb (edge_gate nodeID verified req) then reject (rv_nonces s) EdgeNotAuthorized
  else match check_proof now nodeID tier tlsUnique req (rv_nonces s) with
       | (nt, Some e) => reject nt e
       | (nt, None) =>
           if CountForNodeID nodeID (rv_registry s) >=? MaxSubdomainsForTier tier
           then reject nt SubdomainLimit
           else match pick_subdomain tier draws req (rv_registry s) with
                | inl e => reject nt e
                | inr subdomain =>
                    if is_blocked subdomain then reject nt BlockedByOperator
                    else
                      let edges := match rq_EdgeCapabilities req with
                                   | Some ec => if edgeRegistry
                                                then (nodeID, verified_wallet verified req, ec) :: rv_edges s
                                                else rv_edges s
                                   | None => rv_edges s
                                   end in
                      (mkServer (rv_registry s) nt (rv_limiters s) edges
                         (<[c := Checked nodeID tier subdomain req]> (rv_conns s)) (rv_closed s), None)
                end
       end.

Definition set_phase (c : nat) (p : phase) (s : ReverseServer) : ReverseServer :=
  mkServer (rv_registry s) (rv_nonces s) (rv_limiters s) (rv_edges s) (<[c := p]> (rv_conns s)) (rv_closed s).

Definition set_registry (r : TunnelRegistry) (s : ReverseServer) : ReverseServer :=
  mkServer r (rv_nonces s) (rv_limiters s) (rv_edges s) (rv_conns s) (rv_closed s).

Definition set_limiters (l : gmap string (nat * TunnelLimits)) (s : ReverseServer) : ReverseServer :=
  mkServer (rv_registry s) (rv_nonces s) l (rv_edges s) (rv_conns s) (rv_closed s).

(** The registration of the session and of its limiter; the yamux session of a
    connection carries the connection's number.  [unix]: the Unix seconds. *)
Definition provider_register (now : time) (unix : Z) (c : nat) (s : ReverseServer) : ReverseServer :=
  match rv_conns s !! c with
  | Some (Checked nodeID tier subdomain req) =>
      let limits := LimitsForTier tier in
      let sess := mkSession nodeID subdomain (rq_DeploymentID req) c now tier limits
                    (IssueReconnToken hmac unix nodeID subdomain) in
      match tr_Register subdomain sess (rv_registry s) with
      | None => set_phase c Ended s
      | Some r =>
          set_phase c (Registered subdomain)
            (set_limiters (<[subdomain := (c, limits)]> (rv_limiters s)) (set_registry r s))
      end
  | _ => s
  end.

(** The deferred calls, when the heartbeat loop ends. *)
Definition provider_close (c : nat) (s : ReverseServer) : ReverseServer :=
  match rv_conns s !! c with
  | Some (Registered subdomain) =>
      let s := set_limiters (delete subdomain (rv_limiters s)) s in
      let s := set_registry (tr_Unregister subdomain (rv_registry s)) s in
      mkServer (rv_registry s) (rv_nonces s) (rv_limiters s) (rv_edges s)
        (<[c := Ended]> (rv_conns s)) ({[c]} ∪ rv_closed s)
  | _ => s
  end.

(** The yamux session of a connection dies; its handler notices later. *)
Definition session_dies (c : nat) (s : ReverseServer) : ReverseServer :=
  mkServer (rv_registry s) (rv_nonces s) (rv_limiters s) (rv_edges s) (rv_conns s) ({[c]} ∪ rv_closed s).

Inductive stream_result :=
  | StreamBlocked | NoTunnel | SessionClosed | StreamRateLimited | Opened (c : nat) (bandwidth : option Z).

(** [allow]: the answer of the subdomain's request limiter; a failure of
    [YamuxSess.Open] is not modelled. *)
Definition OpenStream (allow : bool) (subdomain : string) (s : ReverseServer) :
    ReverseServer * stream_result :=
  if is_blocked subdomain then (s, StreamBlocked)
  else match tr_Lookup subdomain (rv_registry s) with
       | None => (s, NoTunnel)
       | Some sess =>
           if decide (ts_Yamux sess ∈ rv_closed s)
           then (set_registry (tr_Unregister subdomain (rv_registry s)) s, SessionClosed)
           else match rv_limiters s !! subdomain with
                | Some (_, limits) =>
                    if allow then (s, Opened (ts_Yamux sess) (Some (tl_MaxBandwidth limits)))
                    else (s, StreamRateLimited)
                | None => (s, Opened (ts_Yamux sess) None)
                end
       end.

(** ** Histories *)

Inductive rv_op :=
  | RvChecks (now : time) (c : nat) (nodeID : NodeID) (tlsUnique : list Z) (draws : list (option (list Z)))
      (req : TunnelRegisterRequest)
  | RvRegister (now : time) (unix : Z) (c : nat)
  | RvClose (c : nat)
  | RvDies (c : nat)
  | RvOpen (allow : bool) (subdomain : string)
  | RvCleanNonces (now : time).

Definition rv_step (o : rv_op) (s : ReverseServer) : ReverseServer :=
  match o with
  | RvChecks now c nodeID tlsUnique draws req => (provider_checks now c nodeID tlsUnique draws req s).1
  | RvRegister now unix c => provider_register now unix c s
  | RvClose c => provider_close c s
  | RvDies c => session_dies c s
  | RvOpen allow subdomain => (OpenStream allow subdomain s).1
  | RvCleanNonces now =>
      mkServer (rv_registry s) (NonceTracker.CleanExpired now (rv_nonces s)) (rv_limiters s) (rv_edges s)
        (rv_conns s) (rv_closed s)
  end.
End Server.

(** ** The index of the registry *)

Definition index_exact (r : TunnelRegistry) : Prop :=
  map_Forall (λ _ l, l ≠ [] ∧ NoDup l) (tr_byNodeID r) ∧
  ∀ n s, s ∈ SubdomainsForNodeID n r ↔
    ∃ sess, tr_sessions r !! s = Some sess ∧ ts_NodeID sess = n.

Lemma subs_NoDup n r : index_exact r → NoDup (SubdomainsForNodeID n r).
Proof.
  intros [Hl _]. unfold SubdomainsForNodeID. destruct (tr_byNodeID r !! n) as [l|] eqn:Hn; cbn.
  - by apply (Hl n l).
  - constructor.
Qed.

Lemma tr_Register_index s sess r r' :
  index_exact r → tr_Register s sess r = Some r' → index_exact r'.
Proof.
  intros Hix. unfold tr_Register. destruct (tr_sessions r !! s) as [?|] eqn:Hs; [done|]. intros [= <-].
  pose proof (subs_NoDup (ts_NodeID sess) r Hix) as Hnd. destruct Hix as [Hl Hix].
  assert (Hni : s ∉ SubdomainsForNodeID (ts_NodeID sess) r) by (rewrite Hix; naive_solver).
  split; cbn.
  - apply map_Forall_insert_2; [|done]. split; [by destruct (default _ _)|].
    apply NoDup_app. split; [done|]. split; [|apply NoDup_singleton]. intros x Hx ->%list_elem_of_singleton. done.
  - intros n x. unfold SubdomainsForNodeID. cbn. rewrite !lookup_insert.
    destruct (decide (ts_NodeID sess = n)) as [<-|Hne]; cbn.
    + rewrite elem_of_app, list_elem_of_singleton.
      change (default [] (tr_byNodeID r !! ts_NodeID sess)) with (SubdomainsForNodeID (ts_NodeID sess) r).
      rewrite Hix. destruct (decide (s = x)) as [<-|Hx]; naive_solver.
    + change (default [] (tr_byNodeID r !! n)) with (SubdomainsForNodeID n r). rewrite Hix.
      destruct (decide (s = x)) as [<-|Hx]; naive_solver.
Qed.

Lemma remove_first_spec s l : NoDup l → NoDup (remove_first s l) ∧ ∀ x, x ∈ remove_first s l ↔ x ∈ l ∧ x ≠ s.
Proof.
  induction l as [|y l IH]; intros Hnd; [split; [done|set_solver]|].
  apply NoDup_cons in Hnd as [Hy Hnd]. destruct (IH Hnd) as [IH1 IH2]. cbn. case_decide; subst.
  - split; [done|]. intros x. set_solver.
  - split; [apply NoDup_cons; split; [rewrite IH2; naive_solver|done]|]. set_solver.
Qed.

Lemma tr_Unregister_index s r : index_exact r → index_exact (tr_Unregister s r).
Proof.
  intros Hix. unfold tr_Unregister. destruct (tr_sessions r !! s) as [sess|] eqn:Hs; [|done].
  destruct (remove_first_spec s _ (subs_NoDup (ts_NodeID sess) r Hix)) as [Hnd Hrm].
  destruct Hix as [Hl Hix].
  change (default [] (tr_byNodeID r !! ts_NodeID sess)) with (SubdomainsForNodeID (ts_NodeID sess) r).
  set (subs := remove_first s (SubdomainsForNodeID (ts_NodeID sess) r)) in *.
  assert (Hsubs : ∀ n, SubdomainsForNodeID n (mkRegistry (delete s (tr_sessions r))
    (if decide (subs = []) then delete (ts_NodeID sess) (tr_byNodeID r)
     else <[ts_NodeID sess := subs]> (tr_byNodeID r))) =
    if decide (ts_NodeID sess = n) then subs else SubdomainsForNodeID n r).
  { intros n. unfold SubdomainsForNodeID at 1. cbn. destruct (decide (subs = [])) as [He|He].
    - rewrite lookup_delete. case_decide; [by rewrite He|done].
    - rewrite lookup_insert. by case_decide. }
  split.
  - cbn. case_decide; [by apply map_Forall_delete|]. by apply map_Forall_insert_2.
  - intros n x. rewrite Hsubs. cbn. rewrite lookup_delete.
    destruct (decide (ts_NodeID sess = n)) as [<-|Hne].
    + rewrite Hrm, Hix. destruct (decide (s = x)) as [<-|]; naive_solver.
    + rewrite Hix. destruct (decide (s = x)) as [<-|]; naive_solver.
Qed.

(** Unregistering all of a node's subdomains. *)
Lemma UnregisterAll_index n r :
  index_exact r →
  index_exact (UnregisterAll n r).1 ∧
  ∀ s, tr_sessions (UnregisterAll n r).1 !! s =
    match tr_sessions r !! s with
    | Some sess => if decide (ts_NodeID sess = n) then None else Some sess
    | None => None
    end.
Proof.
  intros [Hl Hix].
  assert (Hdel : ∀ (m : gmap string TunnelSession) subs s,
    foldl (λ m s, delete s m) m subs !! s = if decide (s ∈ subs) then None else m !! s).
  { intros m subs. revert m. induction subs as [|y subs IH]; intros m s; [by rewrite decide_False by set_solver|].
    cbn. rewrite IH, lookup_delete. repeat case_decide; set_solver. }
  assert (Hlk : ∀ s, tr_sessions (UnregisterAll n r).1 !! s =
    match tr_sessions r !! s with
    | Some sess => if decide (ts_NodeID sess = n) then None else Some sess
    | None => None
    end).
  { intros s. cbn. rewrite Hdel. pose proof (Hix n s) as Hs.
    destruct (tr_sessions r !! s) as [sess|]; repeat case_decide; naive_solver. }
  split; [|done]. split; [by apply map_Forall_delete|]. intros m s. rewrite Hlk.
  unfold SubdomainsForNodeID. cbn. rewrite lookup_delete.
  destruct (decide (n = m)) as [<-|Hne]; cbn.
  - destruct (tr_sessions r !! s) as [sess|]; [case_decide|]; split; try set_solver; naive_solver.
  - change (default [] (tr_byNodeID r !! m)) with (SubdomainsForNodeID m r). rewrite Hix.
    destruct (tr_sessions r !! s) as [sess|]; [case_decide|]; naive_solver.
Qed.

(** ** What is registered *)

Section Admission.
Context (hmac : list Z → list Z) (sscanf : chars → option (chars * Z)) (sscanf_d : chars → Z).
Context (uf : chars → chars).
Context (verifyWallet : option (WalletProof → string → option string)).
Context (edgeAuthorize : option (string → string → option bool)).
Context (edgeRegistry : bool) (blocklist : option Blocklist).

Abbreviation step := (rv_step hmac sscanf sscanf_d uf verifyWallet edgeAuthorize edgeRegistry blocklist).
Abbreviation checks :=
  (provider_checks hmac sscanf sscanf_d uf verifyWallet edgeAuthorize edgeRegistry blocklist).
Abbreviation proof_ok now nodeID tier tls req nt :=
  ((check_proof hmac sscanf sscanf_d now nodeID tier tls req nt).2 = None).

(** What a connection that passes the checks has shown, in the state [s]. *)
Definition passes (now : time) (nodeID : NodeID) (tls : list Z) (draws : list (option (list Z)))
    (req : TunnelRegisterRequest) (tier subdomain : string) (s : ReverseServer) : Prop :=
  ∃ verified,
    determine_tier verifyWallet nodeID req = (tier, verified) ∧
    edge_gate edgeAuthorize nodeID verified req = true ∧
    proof_ok now nodeID tier tls req (rv_nonces s) ∧
    CountForNodeID nodeID (rv_registry s) < MaxSubdomainsForTier tier ∧
    pick_subdomain tier draws req (rv_registry s) = inr subdomain ∧
    is_blocked uf blocklist subdomain = false.

(** The checks change neither the registry nor the limiters, end the connection
    when they reject it, and otherwise leave it to be registered. *)
Lemma provider_checks_spec now c nodeID tls draws req s :
  let '(s', res) := checks now c nodeID tls draws req s in
  rv_registry s' = rv_registry s ∧ rv_limiters s' = rv_limiters s ∧ rv_closed s' = rv_closed s ∧
  match res with
  | Some _ => rv_conns s' = <[c := Ended]> (rv_conns s)
  | None => ∃ tier subdomain, passes now nodeID tls draws req tier subdomain s ∧
      rv_conns s' = <[c := Checked nodeID tier subdomain req]> (rv_conns s)
  end.
Proof.
  unfold provider_checks. destruct (determine_tier verifyWallet nodeID req) as [tier verified] eqn:Ht.
  destruct (edge_gate edgeAuthorize nodeID verified req) eqn:He; [|done]. cbn [negb].
  destruct (check_proof _ _ _ _ _ _ _ _ _) as [nt [e|]] eqn:Hp; [done|].
  destruct (Z.geb_spec (CountForNodeID nodeID (rv_registry s)) (MaxSubdomainsForTier tier)); [done|].
  destruct (pick_subdomain tier draws req (rv_registry s)) as [e|sub] eqn:Hs; [done|].
  destruct (is_blocked uf blocklist sub) eqn:Hb; [done|]. cbn. split_and!; [done..|].
  exists tier, sub. split; [|done]. exists verified. rewrite Hp. by split_and!.
Qed.

(** The connection [c] was admitted by a call of the history. *)
Definition admitted (ops : list rv_op) (c : nat) (nodeID : NodeID) (tier subdomain : string) : Prop :=
  ∃ ops1 now tls draws req ops2,
    ops = ops1 ++ RvChecks now c nodeID tls draws req :: ops2 ∧
    passes now nodeID tls draws req tier subdomain (run step ops1 NewReverseServer).

Lemma admitted_snoc ops o c n t sub : admitted ops c n t sub → admitted (ops ++ [o]) c n t sub.
Proof.
  intros (ops1 & now & tls & draws & req & ops2 & -> & Hp).
  exists ops1, now, tls, draws, req, (ops2 ++ [o]). by rewrite <- app_assoc.
Qed.

Definition server_inv (ops : list rv_op) (s : ReverseServer) : Prop :=
  index_exact (rv_registry s) ∧
  map_Forall (λ sub sess, ts_Subdomain sess = sub ∧ ts_Limits sess = LimitsForTier (ts_Tier sess) ∧
                admitted ops (ts_Yamux sess) (ts_NodeID sess) (ts_Tier sess) sub)
    (tr_sessions (rv_registry s)) ∧
  map_Forall (λ c p, match p with
                     | Checked n tier sub _ => admitted ops c n tier sub
                     | _ => True
                     end) (rv_conns s).

Lemma tr_Unregister_sub s r : tr_sessions (tr_Unregister s r) ⊆ tr_sessions r.
Proof.
  unfold tr_Unregister. destruct (tr_sessions r !! s); [|done]. cbn. apply delete_subseteq.
Qed.

Lemma server_inv_snoc ops o s : server_inv ops s → server_inv (ops ++ [o]) s.
Proof.
  intros (Hi & Hs & Hc). split_and!; [done| |].
  - intros sub sess Hsub. destruct (Hs sub sess Hsub) as (? & ? & ?). split_and!; [done..|].
    by apply admitted_snoc.
  - intros c p Hp. specialize (Hc c p Hp). cbn in Hc. destruct p; try done. by apply admitted_snoc.
Qed.

Lemma server_inv_unregister ops s sub :
  server_inv ops s → server_inv ops (set_registry (tr_Unregister sub (rv_registry s)) s).
Proof.
  intros (Hi & Hs & Hc). split_and!; [by apply tr_Unregister_index| |done].
  intros k sess Hk. apply Hs. eapply lookup_weaken; [exact Hk|apply tr_Unregister_sub].
Qed.

Lemma server_inv_register ops now unix c s :
  server_inv ops s → server_inv ops (provider_register hmac now unix c s).
Proof.
  intros (Hi & Hs & Hc). unfold provider_register.
  destruct (rv_conns s !! c) as [[n tier sub req| |]|] eqn:Hp; try done.
  pose proof (Hc c _ Hp) as Hadm. cbn in Hadm.
  destruct (tr_Register sub _ (rv_registry s)) as [r|] eqn:Hr.
  - split_and!; cbn.
    + by eapply tr_Register_index.
    + unfold tr_Register in Hr. destruct (tr_sessions (rv_registry s) !! sub); [done|].
      injection Hr as <-. cbn. by apply map_Forall_insert_2.
    + by apply map_Forall_insert_2.
  - split_and!; [done..|]. cbn. by apply map_Forall_insert_2.
Qed.

Lemma run_server_inv ops : server_inv ops (run step ops NewReverseServer).
Proof.
  induction ops as [|o ops IH] using rev_ind.
  { split_and!; [|done|done]. split; [done|]. intros n s.
    split; [by intros ?%not_elem_of_nil|by intros (sess & ? & _)]. }
  autorewrite with molt. pose proof (server_inv_snoc ops o _ IH) as IH'.
  assert (Hlast : ∀ now c n tls draws req, o = RvChecks now c n tls draws req →
    ∀ tier sub, passes now n tls draws req tier sub (run step ops NewReverseServer) →
    admitted (ops ++ [o]) c n tier sub).
  { intros now c n tls draws req -> tier sub Hp. by exists ops, now, tls, draws, req, []. }
  set (s := run step ops NewReverseServer) in *.
  destruct o as [now c n tls draws req|now unix c|c|c|allow sub|now]; cbn [rv_step].
  - specialize (Hlast _ _ _ _ _ _ eq_refl). destruct IH' as (Hi & Hs & Hc).
    pose proof (provider_checks_spec now c n tls draws req s) as Hspec.
    destruct (checks now c n tls draws req s) as [s' [e|]]; destruct Hspec as (Hr & _ & _ & Hcs); cbn.
    + split_and!; [by rewrite Hr..|]. rewrite Hcs. by apply map_Forall_insert_2.
    + destruct Hcs as (tier & sub & Hp & Hcs). split_and!; [by rewrite Hr..|]. rewrite Hcs.
      apply map_Forall_insert_2; [by apply Hlast|done].
  - by apply server_inv_register.
  - unfold provider_close. destruct (rv_conns s !! c) as [[]|] eqn:Hp; try done.
    destruct (server_inv_unregister _ _ subdomain IH') as (Hi & Hs & Hc).
    split_and!; [done..|]. cbn. by apply map_Forall_insert_2.
  - done.
  - unfold OpenStream. destruct (is_blocked uf blocklist sub); [done|].
    destruct (tr_Lookup sub (rv_registry s)); [|done]. case_decide; [by apply server_inv_unregister|].
    destruct (rv_limiters s !! sub) as [[? ?]|]; [|done]. by destruct allow.
  - done.
Qed.

(** Invariant.  In every interleaving of connections, closures and streams the
    index by node is exact: a node's list holds, once each, exactly the
    subdomains of its sessions, and no node has an empty list. *)
Theorem tunnel_index_exact ops n :
  let r := rv_registry (run step ops NewReverseServer) in
  NoDup (SubdomainsForNodeID n r) ∧ tr_byNodeID r !! n ≠ Some [] ∧
  ∀ s, s ∈ SubdomainsForNodeID n r ↔ ∃ sess, tr_Lookup s r = Some sess ∧ ts_NodeID sess = n.
Proof.
  destruct (run_server_inv ops) as (Hi & _ & _). cbn zeta. split; [by apply subs_NoDup|].
  destruct Hi as [Hl Hix]. split; [|by apply Hix].
  intros Hn. by destruct (Hl n [] Hn).
Qed.


(** ** The cap on a node's tunnels *)

(** Each connection is checked and registered before the next is looked at. *)
Inductive sequential : list rv_op → Prop :=
  | seq_nil : sequential []
  | seq_admit now c n tls draws req now' unix ops :
      sequential ops →
      sequential (RvChecks now c n tls draws req :: RvRegister now' unix c :: ops)
  | seq_other o ops :
      match o with RvChecks _ _ _ _ _ _ | RvRegister _ _ _ => False | _ => True end →
      sequential ops → sequential (o :: ops).

Lemma count_Unregister n s r :
  index_exact r → CountForNodeID n (tr_Unregister s r) ≤ CountForNodeID n r.
Proof.
  intros Hix. pose proof (tr_Unregister_index s r Hix) as Hix'.
  unfold CountForNodeID. apply inj_le, submseteq_length, NoDup_submseteq; [by apply subs_NoDup|].
  intros x. rewrite (proj2 Hix'), (proj2 Hix). intros (sess & Hs & Hn). exists sess. split; [|done].
  eapply lookup_weaken; [exact Hs|apply tr_Unregister_sub].
Qed.

Lemma count_Register n s sess r r' :
  tr_Register s sess r = Some r' →
  CountForNodeID n r' = CountForNodeID n r + (if decide (ts_NodeID sess = n) then 1 else 0).
Proof.
  unfold tr_Register. destruct (tr_sessions r !! s); [done|]. intros [= <-].
  unfold CountForNodeID, SubdomainsForNodeID. cbn. rewrite lookup_insert. case_decide; [|lia].
  subst. cbn. rewrite length_app. cbn. lia.
Qed.

(** Closing, dying, streaming and cleaning register nothing. *)
Lemma other_step_count o n s :
  match o with RvChecks _ _ _ _ _ _ | RvRegister _ _ _ => False | _ => True end →
  index_exact (rv_registry s) →
  index_exact (rv_registry (step o s)) ∧
  CountForNodeID n (rv_registry (step o s)) ≤ CountForNodeID n (rv_registry s).
Proof.
  intros Ho Hix.
  assert (Hun : ∀ sub, index_exact (tr_Unregister sub (rv_registry s)) ∧
    CountForNodeID n (tr_Unregister sub (rv_registry s)) ≤ CountForNodeID n (rv_registry s)).
  { intros sub. split; [by apply tr_Unregister_index|by apply count_Unregister]. }
  destruct o as [| |c|c|allow sub|now]; try done; cbn [rv_step]; try (split; [done|cbn; lia]).
  - unfold provider_close. destruct (rv_conns s !! c) as [[]|]; try (split; [done|lia]). apply Hun.
  - unfold OpenStream. destruct (is_blocked uf blocklist sub); [split; [done|cbn; lia]|].
    destruct (tr_Lookup sub (rv_registry s)); [|split; [done|cbn; lia]].
    case_decide; [apply Hun|]. destruct (rv_limiters s !! sub) as [[? ?]|]; [destruct allow|];
      (split; [done|cbn; lia]).
Qed.

(** Checking and registering a connection at once respects the cap of its tier. *)
Lemma admit_count now c n tls draws req now' unix m cap s :
  index_exact (rv_registry s) → CountForNodeID m (rv_registry s) ≤ cap →
  (n = m → MaxSubdomainsForTier (determine_tier verifyWallet n req).1 ≤ cap) →
  let s' := provider_register hmac now' unix c (checks now c n tls draws req s).1 in
  index_exact (rv_registry s') ∧ CountForNodeID m (rv_registry s') ≤ cap.
Proof.
  intros Hix Hm Hcap. pose proof (provider_checks_spec now c n tls draws req s) as Hspec.
  destruct (checks now c n tls draws req s) as [s1 res]; destruct Hspec as (Hr & _ & _ & Hres).
  cbn [fst]. cbn zeta. unfold provider_register. destruct res as [e|].
  - rewrite Hres, lookup_insert_eq, Hr. done.
  - destruct Hres as (tier & sub & (verified & Ht & _ & _ & Hlt & _) & ->).
    rewrite lookup_insert_eq. destruct (tr_Register sub _ (rv_registry s1)) as [r|] eqn:Hreg; cbn.
    + rewrite Hr in Hreg. split; [by eapply tr_Register_index|].
      rewrite (count_Register m _ _ _ _ Hreg). cbn. case_decide; [|lia].
      subst m. rewrite Ht in Hcap. cbn in Hcap. specialize (Hcap eq_refl). lia.
    + by rewrite Hr.
Qed.

Lemma sequential_count ops m cap s :
  sequential ops → index_exact (rv_registry s) → CountForNodeID m (rv_registry s) ≤ cap →
  Forall (λ o, match o with
               | RvChecks _ _ n _ _ req =>
                   n = m → MaxSubdomainsForTier (determine_tier verifyWallet n req).1 ≤ cap
               | _ => True
               end) ops →
  CountForNodeID m (rv_registry (run step ops s)) ≤ cap.
Proof.
  intros Hseq. revert s. induction Hseq as [|now c n tls draws req now' unix ops _ IH|o ops Ho _ IH];
    intros s Hix Hm Hall; [done|..]; autorewrite with molt.
  - apply Forall_cons in Hall as [Hcap [_ Hall]%Forall_cons].
    destruct (admit_count now c n tls draws req now' unix m cap s Hix Hm Hcap) as [Hix' Hm'].
    apply IH; [exact Hix'|exact Hm'|exact Hall].
  - apply Forall_cons in Hall as [_ Hall]. destruct (other_step_count o m s Ho Hix) as [Hix' Hle].
    apply IH; [exact Hix'|lia|exact Hall].
Qed.

(** Bounds.  When connections are admitted one after the other, a node never
    has more tunnels than the cap of the best tier it showed: three when it
    never showed a staked wallet. *)
Theorem tunnel_cap_sequential ops n cap :
  sequential ops → 0 ≤ cap →
  Forall (λ o, match o with
               | RvChecks _ _ n' _ _ req =>
                   n' = n → MaxSubdomainsForTier (determine_tier verifyWallet n' req).1 ≤ cap
               | _ => True
               end) ops →
  CountForNodeID n (rv_registry (run step ops NewReverseServer)) ≤ cap.
Proof.
  intros Hseq Hcap Hall. apply sequential_count; [done| |done|done].
  by destruct (run_server_inv []) as (Hi & _ & _).
Qed.

(** Liveness.  A node on the free tier can never use the reconnection token
    it was given: with a subdomain the request is refused as a vanity name (if
    not before), and without one the token is not accepted. *)
Theorem free_tier_cannot_reconnect now c nodeID tls draws req s :
  rq_ReconnToken req ≠ [] → (determine_tier verifyWallet nodeID req).1 = "free"%string →
  is_Some (checks now c nodeID tls draws req s).2.
Proof.
  intros Htok Htier. pose proof (provider_checks_spec now c nodeID tls draws req s) as Hspec.
  destruct (checks now c nodeID tls draws req s) as [s' [e|]]; [eauto|].
  destruct Hspec as (_ & _ & _ & tier & sub & (verified & Ht & _ & Hp & _ & Hpick & _) & _).
  exfalso. rewrite Ht in Htier. cbn in Htier. subst tier.
  unfold check_proof in Hp. rewrite bool_decide_eq_false_2 in Hp by done. cbn in Hp.
  unfold pick_subdomain in Hpick. case_decide; [done|]. by rewrite decide_True in Hpick.
Qed.

(** The deferred clean-up of a connection goes by the subdomain, not by the
    session: afterwards the subdomain has no tunnel and no limiter, whichever
    connection they belonged to. *)
Lemma close_removes_by_name c sub s :
  rv_conns s !! c = Some (Registered sub) →
  tr_Lookup sub (rv_registry (provider_close c s)) = None ∧
  rv_limiters (provider_close c s) !! sub = None.
Proof.
  intros Hc. unfold provider_close. rewrite Hc. cbn. split; [|apply lookup_delete_eq].
  unfold tr_Lookup, tr_Unregister. destruct (tr_sessions (rv_registry s) !! sub) eqn:Hs; [|done].
  apply lookup_delete_eq.
Qed.
End Admission.

(** ** Reconnection tokens *)

Section TokenProofs.
Context (hmac : list Z → list Z) (sscanf : chars → option (chars * Z)) (sscanf_d : chars → Z).

Lemma text_bytes_inj s s' : text_bytes s = text_bytes s' → s = s'.
Proof.
  unfold text_bytes, to_chars. intros Heq. apply (f_equal (fmap (λ z, ascii_of_nat (Z.to_nat z)))) in Heq.
  rewrite <- !list_fmap_compose in Heq.
  assert (Hid : ∀ l : chars, (λ z, ascii_of_nat (Z.to_nat z)) ∘ code <$> l = l).
  { induction l as [|c l IH]; [done|]. rewrite fmap_cons, IH. f_equal. cbn. unfold code.
    by rewrite Nat2Z.id, ascii_nat_embedding. }
  rewrite !Hid in Heq. apply (f_equal String.string_of_list_ascii) in Heq.
  by rewrite !String.string_of_list_ascii_of_string in Heq.
Qed.

Lemma token_message_bytes n s t : Forall is_byte (id_bytes n ++ text_bytes s ++ be64 t).
Proof.
  apply Forall_app. split; [apply id_bytes_are_bytes|]. apply Forall_app. split.
  - unfold text_bytes. apply Forall_fmap, Forall_forall. intros c _. cbn. unfold is_byte, code.
    pose proof (nat_ascii_bounded c). lia.
  - apply Forall_fmap, Forall_forall. intros i _. cbn. unfold is_byte. apply Z.mod_pos_bound. lia.
Qed.

(** Safety.  A reconnection token is accepted exactly for the node and the
    subdomain it was issued for, and while it is no older than the grace period
    (and no more than a minute in the future).  The hypotheses are that HMAC
    gives different bytes for different messages, and that Sscanf reads an issued
    token as its two fields. *)
Theorem reconn_token_binds issued now n s n' s' maxAge :
  (∀ m m', Forall is_byte m → Forall is_byte m' → hmac m = hmac m' → m = m') →
  (∀ m, Forall is_byte m → Forall is_byte (hmac m)) →
  sscanf (IssueReconnToken hmac issued n s) = Some (token_mac hmac n s issued, issued) →
  (n < 2 ^ 256)%N → (n' < 2 ^ 256)%N →
  ValidateReconnToken hmac sscanf sscanf_d now (IssueReconnToken hmac issued n s) n' s' maxAge = true ↔
  n = n' ∧ s = s' ∧ - maxRegistrationAge ≤ time_sub now (unix_time issued) ≤ maxAge.
Proof.
  intros Hinj Hbytes Hscan Hn Hn'. unfold ValidateReconnToken, parse_token. rewrite Hscan.
  destruct (_ || _) eqn:Hage.
  { split; [done|]. intros (_ & _ & Hle). exfalso. zbool. lia. }
  apply orb_false_iff in Hage as [H1 H2]. rewrite Z.gtb_ltb in H1. apply Z.ltb_ge in H1, H2.
  rewrite bool_decide_eq_true. split; [|by intros (-> & -> & _)]. intros Heq.
  unfold token_mac, to_chars in Heq. apply (f_equal String.string_of_list_ascii) in Heq.
  rewrite !String.string_of_list_ascii_of_string in Heq.
  apply hex_bytes_inj in Heq; [|apply Hbytes, token_message_bytes..].
  apply Hinj in Heq; [|apply token_message_bytes..].
  apply app_inj_1 in Heq as [Hid Hrest]; [|reflexivity]. apply app_inv_tail in Hrest.
  split_and!; [|by apply text_bytes_inj|lia..].
  apply NodeID_String_inj; [done..|]. unfold NodeID_String. by rewrite Hid.
Qed.
End TokenProofs.

(** ** Connections per address *)

(** The counters: a map from addresses to counter objects. *)
Record ip_tracker := mkTracker { it_map : gmap string nat; it_heap : list Z }.

Inductive ip_phase :=
  | IpLoaded (l : nat)        (* checkIPLimit has the counter *)
  | IpRefused
  | IpLive                    (* the connection is served *)
  | IpReleasing (l : nat)     (* releaseIPSlot has the counter *)
  | IpDeleting                (* the counter reached zero *)
  | IpGone.

Record ip_state := mkIp { ip_tr : ip_tracker; ip_conns : gmap nat (string * ip_phase) }.

Section IPLimit.
Context (maxPerIP : Z).

Inductive ip_op := IpLoad (c : nat) (ip : string) | IpCas (c : nat) | IpRelLoad (c : nat) | IpDec (c : nat) | IpDel (c : nat).

Definition ip_counter (ip : string) (t : ip_tracker) : nat * ip_tracker :=
  match it_map t !! ip with
  | Some l => (l, t)
  | None => let l := length (it_heap t) in (l, mkTracker (<[ip := l]> (it_map t)) (it_heap t ++ [0]))
  end.

(** One atomic access of [checkIPLimit] ([IpLoad]: LoadOrStore, [IpCas]: the
    compare-and-swap that succeeds, or the refusal) or of [releaseIPSlot]
    ([IpRelLoad]: Load, [IpDec]: AddInt32, [IpDel]: Delete). *)
Definition ip_step (o : ip_op) (s : ip_state) : ip_state :=
  let set c ip p := <[c := (ip, p)]> (ip_conns s) in
  let t := ip_tr s in
  match o with
  | IpLoad c ip => let '(l, t) := ip_counter ip t in mkIp t (set c ip (IpLoaded l))
  | IpCas c =>
      match ip_conns s !! c with
      | Some (ip, IpLoaded l) =>
          let old := nth l (it_heap t) 0 in
          if old >=? maxPerIP then mkIp t (set c ip IpRefused)
          else mkIp (mkTracker (it_map t) (<[l := old + 1]> (it_heap t))) (set c ip IpLive)
      | _ => s
      end
  | IpRelLoad c =>
      match ip_conns s !! c with
      | Some (ip, IpLive) =>
          mkIp t (set c ip (match it_map t !! ip with Some l => IpReleasing l | None => IpGone end))
      | _ => s
      end
  | IpDec c =>
      match ip_conns s !! c with
      | Some (ip, IpReleasing l) =>
          let n := nth l (it_heap t) 0 - 1 in
          mkIp (mkTracker (it_map t) (<[l := n]> (it_heap t)))
            (set c ip (if n <=? 0 then IpDeleting else IpGone))
      | _ => s
      end
  | IpDel c =>
      match ip_conns s !! c with
      | Some (ip, IpDeleting) => mkIp (mkTracker (delete ip (it_map t)) (it_heap t)) (set c ip IpGone)
      | _ => s
      end
  end.

Definition checkIPLimit (c : nat) (ip : string) (s : ip_state) : ip_state := ip_step (IpCas c) (ip_step (IpLoad c ip) s).
Definition releaseIPSlot (c : nat) (s : ip_state) : ip_state := ip_step (IpDel c) (ip_step (IpDec c) (ip_step (IpRelLoad c) s)).

Definition live_conn (ip : string) (cp : string * ip_phase) : bool :=
  bool_decide (cp.1 = ip) && match cp.2 with IpLive => true | _ => false end.

Definition live_conns (ip : string) (s : ip_state) : Z := Z.of_nat (count_map (live_conn ip) (ip_conns s)).

Definition no_conns : ip_state := mkIp (mkTracker ∅ []) ∅.

(** Every counter stays within the limit, in every interleaving. *)
Lemma ip_counters_bounded ops : 0 ≤ maxPerIP →
  Forall (λ n, n ≤ maxPerIP) (it_heap (ip_tr (run ip_step ops no_conns))).
Proof.
  intros Hmax. apply (run_preserves ip_step (λ s, Forall (λ n, n ≤ maxPerIP) (it_heap (ip_tr s)))); [|constructor].
  intros o s Hs. assert (Hnth : ∀ l, nth l (it_heap (ip_tr s)) 0 ≤ maxPerIP).
  { intros l. destruct (nth_in_or_default l (it_heap (ip_tr s)) 0) as [Hin|Hd]; [|lia].
    apply list_elem_of_In in Hin. by apply (proj1 (Forall_forall _ _) Hs). }
  destruct o as [c ip|c|c|c|c]; cbn [ip_step].
  - unfold ip_counter. destruct (it_map (ip_tr s) !! ip); [done|]. cbn. apply Forall_app. split; [done|].
    by constructor.
  - destruct (ip_conns s !! c) as [[ip []]|]; try done.
    destruct (Z.geb_spec (nth l (it_heap (ip_tr s)) 0) maxPerIP); [done|]. cbn.
    apply Forall_insert; [done|lia].
  - by destruct (ip_conns s !! c) as [[ip []]|].
  - destruct (ip_conns s !! c) as [[ip []]|]; try done. cbn. apply Forall_insert; [done|].
    specialize (Hnth l). lia.
  - by destruct (ip_conns s !! c) as [[ip []]|].
Qed.

(** *** One connection at a time *)

Definition settled (p : ip_phase) : bool :=
  match p with IpRefused | IpLive | IpGone => true | _ => false end.

Definition ip_inv (s : ip_state) : Prop :=
  map_Forall (λ _ cp, settled cp.2 = true) (ip_conns s) ∧
  (∀ ip ip' l, it_map (ip_tr s) !! ip = Some l → it_map (ip_tr s) !! ip' = Some l → ip = ip') ∧
  (∀ ip l, it_map (ip_tr s) !! ip = Some l → it_heap (ip_tr s) !! l = Some (live_conns ip s)) ∧
  (∀ ip, it_map (ip_tr s) !! ip = None → live_conns ip s = 0) ∧
  (∀ ip, live_conns ip s ≤ maxPerIP).

(** A new connection changes the number of live ones of its address only, when
    it is admitted. *)
Lemma live_insert_fresh c ip p s t ip' :
  ip_conns s !! c = None →
  live_conns ip' (mkIp t (<[c := (ip, p)]> (ip_conns s))) =
  live_conns ip' s + if live_conn ip' (ip, p) then 1 else 0.
Proof.
  intros Hc. unfold live_conns. cbn. rewrite count_map_insert_fresh by done.
  destruct (live_conn ip' (ip, p)); lia.
Qed.

Lemma live_insert_gone c ip s t ip' :
  ip_conns s !! c = Some (ip, IpLive) →
  live_conns ip' (mkIp t (<[c := (ip, IpGone)]> (ip_conns s))) =
  live_conns ip' s - if decide (ip = ip') then 1 else 0.
Proof.
  intros Hc. unfold live_conns. cbn. rewrite count_map_insert, (count_map_delete _ _ _ _ Hc).
  unfold live_conn at 1 3. cbn. rewrite andb_false_r, andb_true_r.
  destruct (decide (ip = ip')); [rewrite bool_decide_eq_true_2|rewrite bool_decide_eq_false_2]; try done; lia.
Qed.

Lemma ip_counter_spec ip s :
  ip_inv s → let '(l, t) := ip_counter ip (ip_tr s) in
  it_map t !! ip = Some l ∧ it_heap t !! l = Some (live_conns ip s) ∧
  (∀ ip1 ip2 l', it_map t !! ip1 = Some l' → it_map t !! ip2 = Some l' → ip1 = ip2) ∧
  (∀ ip' l', it_map t !! ip' = Some l' → it_heap t !! l' = Some (live_conns ip' s)) ∧
  (∀ ip', it_map t !! ip' = None → live_conns ip' s = 0).
Proof.
  intros (_ & Hinj & Hval & Hnone & _). unfold ip_counter.
  destruct (it_map (ip_tr s) !! ip) as [l|] eqn:Hl; [by eauto 8|]. cbn.
  assert (Hlt : ∀ ip' l', it_map (ip_tr s) !! ip' = Some l' → (l' < length (it_heap (ip_tr s)))%nat).
  { intros ip' l' H'. apply Hval in H'. by eapply lookup_lt_Some. }
  assert (Hnew : (it_heap (ip_tr s) ++ [0]) !! length (it_heap (ip_tr s)) = Some (live_conns ip s)).
  { rewrite list_lookup_middle by done. by rewrite (Hnone ip Hl). }
  split_and!.
  - apply lookup_insert_eq.
  - done.
  - intros ip1 ip2 l' H1 H2. apply lookup_insert_Some in H1 as [[<- <-]|[? H1]], H2 as [[<- ?]|[? H2]]; auto.
    + apply Hlt in H2. lia.
    + subst. apply Hlt in H1. lia.
    + by eapply Hinj.
  - intros ip' l' H'. apply lookup_insert_Some in H' as [[<- <-]|[? H']]; [done|].
    rewrite lookup_app_l by (by eapply Hlt). by apply Hval.
  - intros ip' H'. apply lookup_insert_None in H' as [H' _]. by apply Hnone.
Qed.

Lemma checkIPLimit_inv c ip s :
  ip_conns s !! c = None → 0 ≤ maxPerIP → ip_inv s → ip_inv (checkIPLimit c ip s).
Proof.
  intros Hc Hmax Hinv. pose proof (ip_counter_spec ip s Hinv) as Hctr.
  destruct Hinv as (Hset & _ & _ & _ & Hle). unfold checkIPLimit. cbn [ip_step].
  destruct (ip_counter ip (ip_tr s)) as [l t]. destruct Hctr as (Hl & Hh & Hinj & Hval & Hnone).
  cbn [ip_conns ip_tr]. rewrite lookup_insert_eq. rewrite (nth_lookup_Some _ _ _ _ Hh).
  rewrite !insert_insert_eq.
  destruct (Z.geb_spec (live_conns ip s) maxPerIP).
  - assert (Hsame : ∀ ip', live_conns ip' (mkIp t (<[c := (ip, IpRefused)]> (ip_conns s))) = live_conns ip' s).
    { intros ip'. rewrite (live_insert_fresh c ip IpRefused s t ip' Hc). unfold live_conn. cbn.
      rewrite andb_false_r. lia. }
    split_and!; cbn [ip_conns ip_tr]; [by apply map_Forall_insert_2|done|..];
      setoid_rewrite Hsame; [done|done|done].
  - set (t' := mkTracker (it_map t) (<[l := live_conns ip s + 1]> (it_heap t))).
    assert (Hone : ∀ ip', live_conns ip' (mkIp t' (<[c := (ip, IpLive)]> (ip_conns s))) =
              live_conns ip' s + if decide (ip = ip') then 1 else 0).
    { intros ip'. rewrite (live_insert_fresh c ip IpLive s t' ip' Hc). unfold live_conn. cbn.
      rewrite andb_true_r. f_equal.
      destruct (decide (ip = ip')); [by rewrite bool_decide_eq_true_2|by rewrite bool_decide_eq_false_2]. }
    split_and!; cbn [ip_conns ip_tr]; [by apply map_Forall_insert_2|done|..]; setoid_rewrite Hone.
    + intros ip' l' Hl'. cbn in Hl' |- *. rewrite list_lookup_insert. case_decide as Hd.
      * destruct Hd as [<- _]. rewrite (Hinj ip ip' l Hl Hl'), decide_True by done. done.
      * rewrite decide_False; [rewrite Z.add_0_r; by apply Hval|]. intros <-.
        assert (l' = l) as -> by congruence. apply Hd. split; [done|]. by eapply lookup_lt_Some.
    + intros ip' Hn. cbn in Hn. rewrite decide_False by congruence. rewrite Z.add_0_r. by apply Hnone.
    + intros ip'. specialize (Hle ip'). case_decide; [subst|]; lia.
Qed.

Lemma releaseIPSlot_inv c s : 0 ≤ maxPerIP → ip_inv s → ip_inv (releaseIPSlot c s).
Proof.
  intros Hmax (Hset & Hinj & Hval & Hnone & Hle). unfold releaseIPSlot. cbn [ip_step].
  destruct (ip_conns s !! c) as [[ip p]|] eqn:Hc.
  2: { rewrite Hc. cbn. by rewrite Hc. }
  pose proof (Hset c _ Hc) as Hp. cbn in Hp.
  destruct p; try done; try (rewrite Hc; cbn; rewrite Hc; by split_and!).
  assert (Hpos : 0 < live_conns ip s).
  { unfold live_conns. apply (inj_lt 0), (count_map_pos _ _ c (ip, IpLive)); [done|].
    unfold live_conn. cbn. by rewrite bool_decide_eq_true_2. }
  destruct (it_map (ip_tr s) !! ip) as [l|] eqn:Hl; [|specialize (Hnone ip Hl); lia].
  pose proof (Hval ip l Hl) as Hh.
  cbn [ip_conns ip_tr]. rewrite lookup_insert_eq, (nth_lookup_Some _ _ _ _ Hh). cbn [ip_conns ip_tr it_map it_heap].
  rewrite !insert_insert_eq.
  set (n := live_conns ip s - 1). set (h := <[l := n]> (it_heap (ip_tr s))).
  assert (Hheap : ∀ ip' l', it_map (ip_tr s) !! ip' = Some l' →
            h !! l' = Some (live_conns ip' s - if decide (ip = ip') then 1 else 0)).
  { intros ip' l' Hl'. unfold h. rewrite list_lookup_insert. case_decide as Hd.
    - destruct Hd as [<- _]. pose proof (Hinj ip ip' l Hl Hl') as <-. by rewrite decide_True by done.
    - rewrite decide_False; [rewrite Z.sub_0_r; by apply Hval|]. intros <-.
      assert (l' = l) as -> by congruence. apply Hd. split; [done|]. by eapply lookup_lt_Some. }
  assert (Hgone : ∀ t ip', live_conns ip' (mkIp t (<[c := (ip, IpGone)]> (ip_conns s))) =
            live_conns ip' s - if decide (ip = ip') then 1 else 0).
  { intros t ip'. by apply live_insert_gone. }
  assert (Hset' : map_Forall (λ _ cp, settled cp.2 = true) (<[c := (ip, IpGone)]> (ip_conns s)))
    by (by apply map_Forall_insert_2).
  assert (Hle' : ∀ ip', live_conns ip' s - (if decide (ip = ip') then 1 else 0) ≤ maxPerIP).
  { intros ip'. specialize (Hle ip'). case_decide; lia. }
  cbn [ip_conns ip_tr]. rewrite lookup_insert_eq. destruct (Z.leb_spec n 0) as [Hn|Hn].
  - cbn [ip_conns ip_tr it_map it_heap]. rewrite insert_insert_eq.
    split_and!; cbn [ip_conns ip_tr it_map it_heap]; [done|..]; try setoid_rewrite Hgone.
    + intros ip1 ip2 l' H1 H2. apply lookup_delete_Some in H1 as [_ H1], H2 as [_ H2]. by eapply Hinj.
    + intros ip' l' Hl'. apply lookup_delete_Some in Hl' as [_ Hl']. by apply Hheap.
    + intros ip' Hl'. apply lookup_delete_None in Hl' as [<-|Hl'].
      * rewrite decide_True by done. unfold n in Hn. lia.
      * rewrite decide_False by congruence. rewrite (Hnone ip' Hl'). lia.
    + done.
  - split_and!; cbn [ip_conns ip_tr it_map it_heap]; [done|done|..]; try setoid_rewrite Hgone.
    + done.
    + intros ip' Hl'. rewrite decide_False by congruence. rewrite (Hnone ip' Hl'). lia.
    + done.
Qed.

Inductive ip_call := CallCheck (c : nat) (ip : string) | CallRelease (c : nat).

(** Whole calls, one after the other; a new connection has a new number. *)
Inductive ip_calls : list ip_call → ip_state → Prop :=
  | calls_nil : ip_calls [] no_conns
  | calls_check cs c ip s :
      ip_calls cs s → ip_conns s !! c = None → ip_calls (cs ++ [CallCheck c ip]) (checkIPLimit c ip s)
  | calls_release cs c s : ip_calls cs s → ip_calls (cs ++ [CallRelease c]) (releaseIPSlot c s).

(** Bounds.  When the calls of [checkIPLimit] and [releaseIPSlot] do not
    overlap, an address never has more live connections than the limit, and the
    counter the map holds for it is exactly their number. *)
Theorem ip_limit_sequential cs s ip :
  0 ≤ maxPerIP → ip_calls cs s →
  live_conns ip s ≤ maxPerIP ∧
  match it_map (ip_tr s) !! ip with
  | Some l => it_heap (ip_tr s) !! l = Some (live_conns ip s)
  | None => live_conns ip s = 0
  end.
Proof.
  intros Hmax Hcs. assert (Hinv : ip_inv s).
  { induction Hcs as [|cs c ip' s Hcs IH Hc|cs c s Hcs IH].
    - split_and!; try done. all: unfold live_conns; cbn; rewrite count_map_empty; lia.
    - by apply checkIPLimit_inv.
    - by apply releaseIPSlot_inv. }
  destruct Hinv as (_ & _ & Hval & Hnone & Hle). split; [apply Hle|].
  destruct (it_map (ip_tr s) !! ip) eqn:Hl; [by apply Hval|by apply Hnone].
Qed.
End IPLimit.

(** Safety.  When a release and a new connection overlap, an address can hold
    more connections than the limit: with a limit of two, connection 0 is being
    released while connection 1 takes its counter, which is then unlinked; the
    next two connections count from zero, and three are live. *)
Theorem ip_limit_exceeded :
  live_conns "10.0.0.1" (run (ip_step 2)
    [IpLoad 0 "10.0.0.1"; IpCas 0; IpRelLoad 0; IpDec 0;
     IpLoad 1 "10.0.0.1"; IpCas 1; IpDel 0;
     IpLoad 2 "10.0.0.1"; IpCas 2; IpLoad 3 "10.0.0.1"; IpCas 3] no_conns) = 3.
Proof. vm_compute. reflexivity. Qed.

(** ** Interleavings that go wrong, and instances for the examples *)

Section TunnelExamples.

(** An HMAC that is injective on bytes, a reader of issued tokens, and a wallet
    check whose answer is the address. *)
Definition toy_hmac (m : list Z) : list Z := m.
Definition toy_wallet : option (WalletProof → string → option string) := Some (λ p _, Some (wp_Address p)).

Definition toy_scan (token : chars) : option (chars * Z) := None.

Abbreviation toy_step := (rv_step toy_hmac toy_scan (λ _, 0) (λ s, s) toy_wallet None false None).

Definition toy_unix : Z := 1700000000.
Definition toy_now : time := unix_time toy_unix.

(** A request with its own nonce; [tier]: the wallet's tier, empty for none. *)
Definition toy_request (k : Z) (subdomain tier : string) : TunnelRegisterRequest :=
  mkRequest subdomain "dep-a" (to_chars (hex_bytes (k :: replicate 31 1))) toy_unix []
    (if decide (tier = ""%string) then None else Some (mkProof tier "" "")) [] None.

Definition toy_checks (c : nat) (k : Z) (subdomain tier : string) : rv_op :=
  RvChecks toy_now c 7%N [] [Some [k; k; k; k]] (toy_request k subdomain tier).
Definition toy_register (c : nat) : rv_op := RvRegister toy_now toy_unix c.

(** Safety.  The cap on a node's tunnels is checked before the registration
    and not with it: a free node with two tunnels that opens two connections at
    once ends with four, one above the cap. *)
Theorem tunnel_cap_exceeded :
  MaxSubdomainsForTier "free" = 3 ∧
  CountForNodeID 7%N (rv_registry (run toy_step
    [toy_checks 0 1 "" ""; toy_register 0; toy_checks 1 2 "" ""; toy_register 1;
     toy_checks 2 3 "" ""; toy_checks 3 4 "" ""; toy_register 2; toy_register 3] NewReverseServer)) = 4.
Proof. vm_compute. auto. Qed.

(** A starter node's session dies, the proxy unregisters it, the node connects
    again under the same name, and then the first handler ends. *)
Definition reconnection : list rv_op :=
  [toy_checks 0 1 "shop" "starter"; toy_register 0; RvDies 0; RvOpen true "shop";
   toy_checks 1 2 "shop" "starter"; toy_register 1].

(** Safety.  The handler of a dead connection removes its successor: after
    the reconnection the tunnel works, and when the first handler ends it
    unregisters the subdomain although the second connection is alive and
    registered. *)
Theorem late_close_removes_successor :
  (OpenStream (λ s, s) None true "shop" (run toy_step reconnection NewReverseServer)).2 =
    Opened 1 (Some (5 * 1024 * 1024)) ∧
  let s := run toy_step (reconnection ++ [RvClose 0]) NewReverseServer in
  (OpenStream (λ s, s) None true "shop" s).2 = NoTunnel ∧
  rv_conns s !! 1%nat = Some (Registered "shop") ∧ 1%nat ∉ rv_closed s.
Proof.
  split; [vm_compute; reflexivity|]. cbn zeta. split; [vm_compute; reflexivity|].
  split; [vm_compute; reflexivity|]. apply (bool_decide_unpack _). vm_compute. exact I.
Qed.


Lemma tunnel_cap_sequential_witness :
  CountForNodeID 7%N (rv_registry (run toy_step
    [toy_checks 0 1 "" ""; toy_register 0; toy_checks 1 2 "" ""; toy_register 1; RvClose 0]
    NewReverseServer)) ≤ 3.
Proof.
  apply (tunnel_cap_sequential toy_hmac toy_scan (λ _, 0) (λ s, s) toy_wallet None false None).
  - apply seq_admit, seq_admit, seq_other; [exact I|constructor].
  - lia.
  - repeat constructor; intros _; vm_compute; discriminate.
Defined.

Lemma free_tier_cannot_reconnect_witness :
  is_Some (provider_checks toy_hmac toy_scan (λ _, 0) (λ s, s) toy_wallet None false None toy_now 1 7%N []
    [] (mkRequest "01010101" "dep-a" [] toy_unix [] None (IssueReconnToken toy_hmac toy_unix 7%N "01010101") None)
    (run toy_step [toy_checks 0 1 "" ""; toy_register 0] NewReverseServer)).2.
Proof.
  apply (free_tier_cannot_reconnect toy_hmac toy_scan (λ _, 0) (λ s, s) toy_wallet None false None).
  - vm_compute. discriminate.
  - reflexivity.
Defined.

(** The token of node 7 for "shop" is accepted 100 seconds later. *)
Definition toy_reader (token : chars) : option (chars * Z) := Some (token_mac toy_hmac 7%N "shop" toy_unix, toy_unix).

Lemma reconn_token_binds_witness :
  ValidateReconnToken toy_hmac toy_reader (λ _, 0) (toy_now + 100 * second)
    (IssueReconnToken toy_hmac toy_unix 7%N "shop") 7%N "shop" (120 * second) = true ∧
  ValidateReconnToken toy_hmac toy_reader (λ _, 0) (toy_now + 100 * second)
    (IssueReconnToken toy_hmac toy_unix 7%N "shop") 8%N "shop" (120 * second) ≠ true.
Proof.
  split.
  - apply (reconn_token_binds toy_hmac toy_reader (λ _, 0)); done.
  - intros Hv. apply (reconn_token_binds toy_hmac toy_reader (λ _, 0)) in Hv; done || destruct Hv as [? _]; done.
Defined.

Lemma ip_limit_sequential_witness :
  live_conns "10.0.0.1" (releaseIPSlot 1 0 (checkIPLimit 1 1 "10.0.0.1" (checkIPLimit 1 0 "10.0.0.1" no_conns))) ≤ 1.
Proof.
  apply (ip_limit_sequential 1
    (([] ++ [CallCheck 0 "10.0.0.1"]) ++ [CallCheck 1 "10.0.0.1"] ++ [CallRelease 0])).
  - lia.
  - apply (calls_release 1 ([CallCheck 0 "10.0.0.1"] ++ [CallCheck 1 "10.0.0.1"])).
    apply (calls_check 1 [CallCheck 0 "10.0.0.1"]); [|vm_compute; reflexivity].
    apply (calls_check 1 []); [constructor|reflexivity].
Defined.
End TunnelExamples.
