(* ===== verification/EdgeLimits.v ===== *)
(** * Abuse limits at the edge

    [IngressRateLimiter] (internal/ingress/ratelimit.go) keeps for each tenant a
    token bucket and a counting semaphore, and forgets the idle ones;
    [IngressMiddleware] (internal/ingress/middleware.go) runs a request through
    the rate limit, the concurrency cap, the body limit and the WAF before it is
    dispatched.

    The buckets are objects that a map points to ([il_heap], [il_buckets]); a
    release closure keeps a pointer to its bucket ([il_held]).  [cleanup] reads a
    bucket under its lock and deletes the map entry later, so the two are
    separate steps.  The token bucket is the interface [RateLimiter]; the WAF is a
    parameter.

    Theorems: a tenant's requests in flight never exceed its cap as long as no
    clean-up overlaps a request, and do in one interleaving where it does; a
    dispatched request had a token, a slot and a body within the limit, whichever
    layer answers; every answer gives the slot back. *)

From S2P Require Import Prelude NetAddr NonceTracker BanList Stake Float64 Diversity PeerScorer Framing PeerTable RouterPipeline.
Local Open Scope Z_scope.

(** ** Configuration *)

Record TenantRateConfig := mkTenantRate { tc_RPS : Z; tc_Burst : Z; tc_MaxConcurrency : Z }.

Record RateLimitConfig := mkRLConfig {
  rc_DefaultRPS : Z;
  rc_DefaultBurst : Z;
  rc_MaxConcurrency : Z;
  rc_MaxBodyBytes : Z;
  rc_TenantOverrides : gmap string TenantRateConfig
}.

(** The defaults [NewIngressRateLimiter] fills in. *)
Definition with_defaults (cfg : RateLimitConfig) : RateLimitConfig :=
  let rps := if rc_DefaultRPS cfg <=? 0 then 100 else rc_DefaultRPS cfg in
  mkRLConfig rps
    (if rc_DefaultBurst cfg <=? 0 then wrap64 (rps * 2) else rc_DefaultBurst cfg)
    (if rc_MaxConcurrency cfg <=? 0 then 50 else rc_MaxConcurrency cfg)
    (if rc_MaxBodyBytes cfg <=? 0 then 10 * 1024 * 1024 else rc_MaxBodyBytes cfg)
    (rc_TenantOverrides cfg).

Definition limitsFor (cfg : RateLimitConfig) (tenantID : string) : Z * Z * Z :=
  match rc_TenantOverrides cfg !! tenantID with
  | None => (rc_DefaultRPS cfg, rc_DefaultBurst cfg, rc_MaxConcurrency cfg)
  | Some ov =>
      (if tc_RPS ov >? 0 then tc_RPS ov else rc_DefaultRPS cfg,
       if tc_Burst ov >? 0 then tc_Burst ov else rc_DefaultBurst cfg,
       if tc_MaxConcurrency ov >? 0 then tc_MaxConcurrency ov else rc_MaxConcurrency cfg)
  end.

Definition maxConc (cfg : RateLimitConfig) (tenantID : string) : Z := (limitsFor cfg tenantID).2.

Lemma maxConc_pos cfg tenantID : 0 < maxConc (with_defaults cfg) tenantID.
Proof.
  unfold maxConc, limitsFor, with_defaults. cbn.
  destruct (rc_TenantOverrides cfg !! tenantID) as [ov|]; cbn; split_ifs; lia.
Qed.

(** ** Buckets *)

Record tenantBucket {L : Type} := mkBucket {
  tb_limiter : L;
  tb_cap : Z;
  tb_inFlight : Z;      (* len(sem) *)
  tb_lastSeen : time
}.
Arguments tenantBucket : clear implicits.
Arguments mkBucket {L} _ _ _ _.

(** [il_held]: the release closures, by request: the tenant and the bucket. *)
Record IngressRateLimiter {L : Type} := mkIL {
  il_cfg : RateLimitConfig;
  il_buckets : gmap string nat;
  il_heap : list (tenantBucket L);
  il_held : gmap nat (string * nat)
}.
Arguments IngressRateLimiter : clear implicits.
Arguments mkIL {L} _ _ _ _.

Section Limiter.
Context {L : Type} `{RateLimiter L}.
Implicit Types (il : IngressRateLimiter L).

Definition NewIngressRateLimiter (cfg : RateLimitConfig) : IngressRateLimiter L :=
  mkIL (with_defaults cfg) ∅ [] ∅.

Definition set_bucket (l : nat) (b : tenantBucket L) il : IngressRateLimiter L :=
  mkIL (il_cfg il) (il_buckets il) (<[l := b]> (il_heap il)) (il_held il).

Definition touch (now : time) (b : tenantBucket L) : tenantBucket L :=
  mkBucket (tb_limiter b) (tb_cap b) (tb_inFlight b) now.

Definition new_bucket (now : time) (tenantID : string) il : tenantBucket L :=
  let '(rps, burst, conc) := limitsFor (il_cfg il) tenantID in
  mkBucket (NewLimiter rps burst) conc 0 now.

(** The bucket of a tenant: its location and the limiter with it. *)
Definition bucketFor (now : time) (tenantID : string) il : nat * IngressRateLimiter L :=
  match il_buckets il !! tenantID with
  | Some l =>
      (l, match il_heap il !! l with Some b => set_bucket l (touch now b) il | None => il end)
  | None =>
      let l := length (il_heap il) in
      (l, mkIL (il_cfg il) (<[tenantID := l]> (il_buckets il))
            (il_heap il ++ [new_bucket now tenantID il]) (il_held il))
  end.

Definition il_Allow (now : time) (tenantID : string) il : IngressRateLimiter L * bool :=
  let '(l, il) := bucketFor now tenantID il in
  match il_heap il !! l with
  | None => (il, false)
  | Some b =>
      let '(lim, ok) := limiter_Allow now (tb_limiter b) in
      (set_bucket l (mkBucket lim (tb_cap b) (tb_inFlight b) (tb_lastSeen b)) il, ok)
  end.

(** The select on the semaphore of a bucket, for the request [c]. *)
Definition acquire_slot (c : nat) (tenantID : string) (l : nat) il : IngressRateLimiter L * bool :=
  match il_heap il !! l with
  | None => (il, false)
  | Some b =>
      if tb_inFlight b <? tb_cap b then
        (mkIL (il_cfg il) (il_buckets il)
           (<[l := mkBucket (tb_limiter b) (tb_cap b) (tb_inFlight b + 1) (tb_lastSeen b)]> (il_heap il))
           (<[c := (tenantID, l)]> (il_held il)), true)
      else (il, false)
  end.

Definition AcquireConcurrency (now : time) (c : nat) (tenantID : string) il : IngressRateLimiter L * bool :=
  let '(l, il) := bucketFor now tenantID il in acquire_slot c tenantID l il.

(** The release closure of request [c]; a second call does nothing. *)
Definition release (c : nat) il : IngressRateLimiter L :=
  match il_held il !! c with
  | None => il
  | Some (_, l) =>
      let il := mkIL (il_cfg il) (il_buckets il) (il_heap il) (delete c (il_held il)) in
      match il_heap il !! l with
      | Some b => set_bucket l (mkBucket (tb_limiter b) (tb_cap b) (tb_inFlight b - 1) (tb_lastSeen b)) il
      | None => il
      end
  end.

(** What [cleanup] reads of a bucket: idle for ten minutes and not in use. *)
Definition is_stale (now : time) (tenantID : string) il : bool :=
  match il_buckets il !! tenantID with
  | Some l =>
      match il_heap il !! l with
      | Some b => (tb_inFlight b =? 0) && (tb_lastSeen b <? now - 10 * minute)
      | None => false
      end
  | None => false
  end.

Definition delete_bucket (tenantID : string) il : IngressRateLimiter L :=
  mkIL (il_cfg il) (delete tenantID (il_buckets il)) (il_heap il) (il_held il).

(** [cleanup] with no request in between; [order] is the order of the range. *)
Definition cleanup (now : time) (order : list string) il : IngressRateLimiter L :=
  foldl (λ il t, if is_stale now t il then delete_bucket t il else il) il order.

(** ** Requests in flight *)

Definition of_tenant (tenantID : string) (h : string * nat) : bool := bool_decide (h.1 = tenantID).

Definition inFlight (tenantID : string) il : Z := Z.of_nat (count_map (of_tenant tenantID) (il_held il)).

(** Whole calls, in sequence. *)
Inductive il_op :=
  | IlAllow (now : time) (tenantID : string)
  | IlAcquire (now : time) (c : nat) (tenantID : string)
  | IlRelease (c : nat)
  | IlCleanup (now : time) (order : list string).

Definition il_step (o : il_op) il : IngressRateLimiter L :=
  match o with
  | IlAllow now t => (il_Allow now t il).1
  | IlAcquire now c t =>
      (* a request has one slot *)
      match il_held il !! c with Some _ => il | None => (AcquireConcurrency now c t il).1 end
  | IlRelease c => release c il
  | IlCleanup now order => cleanup now order il
  end.

(** The semaphore of a tenant counts the closures of that tenant, all of which
    point to the tenant's bucket. *)
Definition il_inv il : Prop :=
  (∀ t t' l, il_buckets il !! t = Some l → il_buckets il !! t' = Some l → t = t') ∧
  (∀ t l, il_buckets il !! t = Some l →
     ∃ b, il_heap il !! l = Some b ∧ tb_cap b = maxConc (il_cfg il) t ∧ tb_inFlight b = inFlight t il) ∧
  (∀ t, il_buckets il !! t = None → inFlight t il = 0) ∧
  (∀ c t l, il_held il !! c = Some (t, l) → il_buckets il !! t = Some l) ∧
  (∀ t, inFlight t il ≤ maxConc (il_cfg il) t) ∧
  (∀ t, 0 < maxConc (il_cfg il) t).

(** Touching a bucket, or its token bucket, changes nothing of this. *)
Lemma set_bucket_inv l b b' il :
  il_heap il !! l = Some b → tb_cap b' = tb_cap b → tb_inFlight b' = tb_inFlight b →
  il_inv il → il_inv (set_bucket l b' il).
Proof.
  intros Hb Hcap Hfl (Hinj & Hval & Hnone & Hheld & Hle & Hpos). split_and!; try done.
  intros t l' Hl'. destruct (Hval t l' Hl') as (b0 & H0 & H1 & H2). cbn.
  destruct (decide (l = l')) as [<-|Hne].
  - exists b'. rewrite list_lookup_insert_eq by (by eapply lookup_lt_Some).
    assert (b0 = b) as -> by congruence. split_and!; [done|congruence|].
    rewrite Hfl. exact H2.
  - exists b0. rewrite list_lookup_insert_ne by done. done.
Qed.

Lemma bucketFor_inv now t il :
  il_inv il → let '(l, il') := bucketFor now t il in
  il_inv il' ∧ il_buckets il' !! t = Some l ∧ il_held il' = il_held il ∧ il_cfg il' = il_cfg il.
Proof.
  intros Hinv. unfold bucketFor. destruct (il_buckets il !! t) as [l|] eqn:Hl.
  - destruct Hinv as (Hinj & Hval & Hrest). destruct (Hval t l Hl) as (b & Hb & _).
    rewrite Hb. split; [|done]. by apply (set_bucket_inv l b).
  - destruct Hinv as (Hinj & Hval & Hnone & Hheld & Hle & Hpos). cbn.
    assert (Hlt : ∀ t' l', il_buckets il !! t' = Some l' → (l' < length (il_heap il))%nat).
    { intros t' l' H'. destruct (Hval t' l' H') as (b & Hb & _). by eapply lookup_lt_Some. }
    split; [|by rewrite lookup_insert_eq]. split_and!; cbn; try done.
    + intros t1 t2 l' H1 H2. apply lookup_insert_Some in H1 as [[<- <-]|[? H1]], H2 as [[<- ?]|[? H2]]; auto.
      * apply Hlt in H2. lia.
      * subst. apply Hlt in H1. lia.
      * by eapply Hinj.
    + intros t' l' H'. apply lookup_insert_Some in H' as [[<- <-]|[? H']].
      * exists (new_bucket now t il). rewrite list_lookup_middle by done. split; [done|].
        unfold new_bucket, maxConc. destruct (limitsFor (il_cfg il) t) as [[rps burst] conc]. cbn.
        split; [done|]. symmetry. exact (Hnone t Hl).
      * destruct (Hval t' l' H') as (b & Hb & Hc). exists b.
        rewrite lookup_app_l by (by eapply lookup_lt_Some). done.
    + intros t' H'. apply lookup_insert_None in H' as [H' _]. by apply Hnone.
    + intros c t' l' H'. rewrite lookup_insert_ne; [by eapply Hheld|].
      intros <-. apply Hheld in H'. congruence.
Qed.

Lemma il_Allow_inv now t il : il_inv il → il_inv (il_Allow now t il).1.
Proof.
  intros Hinv. unfold il_Allow. pose proof (bucketFor_inv now t il Hinv) as Hb.
  destruct (bucketFor now t il) as [l il']. destruct Hb as (Hinv' & _).
  destruct (il_heap il' !! l) as [b|] eqn:Hl; [|done].
  destruct (limiter_Allow now (tb_limiter b)) as [lim ok]. by apply (set_bucket_inv l b).
Qed.

Lemma inFlight_insert t c t' l il cfg bs hp :
  il_held il !! c = None →
  inFlight t (mkIL cfg bs hp (<[c := (t', l)]> (il_held il))) =
  inFlight t il + if decide (t' = t) then 1 else 0.
Proof.
  intros Hc. unfold inFlight. cbn. rewrite count_map_insert_fresh by done. unfold of_tenant at 1. cbn.
  destruct (decide (t' = t)); [rewrite bool_decide_eq_true_2|rewrite bool_decide_eq_false_2]; try done; lia.
Qed.

Lemma inFlight_delete t c t' l il cfg bs hp :
  il_held il !! c = Some (t', l) →
  inFlight t (mkIL cfg bs hp (delete c (il_held il))) = inFlight t il - if decide (t' = t) then 1 else 0.
Proof.
  intros Hc. unfold inFlight. cbn. rewrite (count_map_delete (of_tenant t) (il_held il) c _ Hc).
  unfold of_tenant at 2. cbn.
  destruct (decide (t' = t)); [rewrite bool_decide_eq_true_2|rewrite bool_decide_eq_false_2]; try done; lia.
Qed.

Lemma AcquireConcurrency_inv now c t il :
  il_held il !! c = None → il_inv il → il_inv (AcquireConcurrency now c t il).1.
Proof.
  intros Hc Hinv. unfold AcquireConcurrency. pose proof (bucketFor_inv now t il Hinv) as Hb.
  destruct (bucketFor now t il) as [l il']. destruct Hb as (Hinv' & Hl & Hheld' & Hcfg).
  unfold acquire_slot. destruct Hinv' as (Hinj & Hval & Hnone & Hheld & Hle & Hpos).
  destruct (Hval t l Hl) as (b & Hb & Hcap & Hfl). rewrite Hb.
  destruct (Z.ltb_spec (tb_inFlight b) (tb_cap b)); [|by split_and!]. cbn.
  rewrite <- Hheld' in Hc.
  split_and!; cbn; try done; try setoid_rewrite (λ t0, inFlight_insert t0 c t l il' _ _ _ Hc).
  - intros t' l' Hl'. rewrite list_lookup_insert. case_decide as Hd.
    + destruct Hd as [<- _]. pose proof (Hinj t t' l Hl Hl') as <-. eexists. split; [done|].
      rewrite decide_True by done. cbn. split; [done|lia].
    + rewrite decide_False; [rewrite Z.add_0_r; by apply Hval|]. intros <-.
      assert (l' = l) as -> by congruence. apply Hd. split; [done|]. by eapply lookup_lt_Some.
  - intros t' Hn. rewrite decide_False by congruence. rewrite Z.add_0_r. by apply Hnone.
  - intros c' t' l' Hc'. apply lookup_insert_Some in Hc' as [[_ [= <- <-]]|[_ Hc']]; [done|by eapply Hheld].
  - intros t'. specialize (Hle t'). case_decide; [subst t'|]; lia.
Qed.

Lemma release_inv c il : il_inv il → il_inv (release c il).
Proof.
  intros (Hinj & Hval & Hnone & Hheld & Hle & Hpos). unfold release.
  destruct (il_held il !! c) as [[t l]|] eqn:Hc; [|by split_and!]. cbn.
  pose proof (Hheld c t l Hc) as Hl. destruct (Hval t l Hl) as (b & Hb & Hcap & Hfl). rewrite Hb.
  split_and!; cbn; try done; try setoid_rewrite (λ t0, inFlight_delete t0 c t l il _ _ _ Hc).
  - intros t' l' Hl'. rewrite list_lookup_insert. case_decide as Hd.
    + destruct Hd as [<- _]. pose proof (Hinj t t' l Hl Hl') as <-. eexists. split; [done|].
      rewrite decide_True by done. cbn. split; [done|lia].
    + rewrite decide_False; [rewrite Z.sub_0_r; by apply Hval|]. intros <-.
      assert (l' = l) as -> by congruence. apply Hd. split; [done|]. by eapply lookup_lt_Some.
  - intros t' Hn. rewrite decide_False by congruence. rewrite Z.sub_0_r. by apply Hnone.
  - intros c' t' l' Hc'. apply lookup_delete_Some in Hc' as [_ Hc']. by eapply Hheld.
  - intros t'. specialize (Hle t'). case_decide; lia.
Qed.

Lemma cleanup_inv now order il : il_inv il → il_inv (cleanup now order il).
Proof.
  unfold cleanup. revert il. induction order as [|t order IH]; intros il Hinv; [done|]. cbn. apply IH.
  destruct (is_stale now t il) eqn:Hst; [|done]. unfold is_stale in Hst.
  destruct Hinv as (Hinj & Hval & Hnone & Hheld & Hle & Hpos).
  destruct (il_buckets il !! t) as [l|] eqn:Hl; [|done].
  destruct (Hval t l Hl) as (b & Hb & Hcap & Hfl). rewrite Hb in Hst.
  apply andb_true_iff in Hst as [Hz _]. apply Z.eqb_eq in Hz.
  assert (Hzero : inFlight t il = 0) by lia.
  split_and!; cbn; try done.
  - intros t1 t2 l' H1 H2. apply lookup_delete_Some in H1 as [_ H1], H2 as [_ H2]. by eapply Hinj.
  - intros t' l' Hl'. apply lookup_delete_Some in Hl' as [_ Hl']. by apply Hval.
  - intros t' Hl'. apply lookup_delete_None in Hl' as [<-|Hl']; [done|by apply Hnone].
  - intros c t' l' Hc. rewrite lookup_delete_ne; [by eapply Hheld|]. intros <-.
    assert (Hp : (0 < count_map (of_tenant t) (il_held il))%nat).
    { eapply count_map_pos; [exact Hc|]. unfold of_tenant. by apply bool_decide_eq_true. }
    unfold inFlight in Hzero. lia.
Qed.

(** Bounds.  Whatever sequence of requests, releases and clean-ups, as long
    as no clean-up overlaps a request, a tenant never has more requests in flight than its configured cap (the tenant's
    override or the default), and no clean-up forgets a bucket in use. *)
Theorem tenant_concurrency_capped cfg ops t :
  let il := run il_step ops (NewIngressRateLimiter cfg) in
  inFlight t il ≤ maxConc (with_defaults cfg) t ∧
  ∀ c l, il_held il !! c = Some (t, l) → il_buckets il !! t = Some l.
Proof.
  assert (Hinv : il_inv (run il_step ops (NewIngressRateLimiter cfg)) ∧
                 il_cfg (run il_step ops (NewIngressRateLimiter cfg)) = with_defaults cfg).
  { apply (run_preserves il_step (λ il, il_inv il ∧ il_cfg il = with_defaults cfg)).
    - intros o il [Hinv Hcfg]. split.
      + destruct o as [now t'|now c t'|c|now order]; cbn.
        * by apply il_Allow_inv.
        * destruct (il_held il !! c) eqn:Hc; [done|by apply AcquireConcurrency_inv].
        * by apply release_inv.
        * by apply cleanup_inv.
      + rewrite <- Hcfg. destruct o as [now t'|now c t'|c|now order]; cbn.
        * unfold il_Allow. pose proof (bucketFor_inv now t' il Hinv) as Hb.
          destruct (bucketFor now t' il) as [l il']. destruct Hb as (_ & _ & _ & <-).
          destruct (il_heap il' !! l); [|done]. by destruct (limiter_Allow _ _).
        * destruct (il_held il !! c); [done|]. unfold AcquireConcurrency, acquire_slot.
          pose proof (bucketFor_inv now t' il Hinv) as Hb.
          destruct (bucketFor now t' il) as [l il']. destruct Hb as (_ & _ & _ & <-).
          destruct (il_heap il' !! l); [|done]. by destruct (_ <? _).
        * unfold release. destruct (il_held il !! c) as [[? l]|]; [|done]. cbn.
          by destruct (il_heap il !! l).
        * unfold cleanup. clear Hcfg Hinv. revert il. induction order as [|t' order IH]; intros il; [done|].
          cbn. rewrite IH. by destruct (is_stale now t' il).
    - split; [|done]. split_and!; cbn; try done.
      + intros t'. by apply Z.lt_le_incl, maxConc_pos.
      + intros t'. apply maxConc_pos. }
  destruct Hinv as [(_ & _ & _ & Hheld & Hle & _) Hcfg]. cbn zeta. rewrite <- Hcfg.
  split; [apply Hle|]. intros c l. apply Hheld.
Qed.
End Limiter.

(** Safety.  A clean-up that overlaps a request breaks the cap: it finds the
    tenant's bucket idle, a request takes a slot of it, the map entry is deleted,
    and the next request gets a new bucket, so with a cap of one two requests are
    in flight. *)
Theorem tenant_cap_exceeded {L} `{RateLimiter L} :
  let cfg := mkRLConfig 10 20 1 1024 ∅ in
  let il0 := release 0 (AcquireConcurrency 0 0 "t" (NewIngressRateLimiter cfg)).1 in
  is_stale (20 * minute) "t" il0 = true ∧
  let il1 := (AcquireConcurrency (20 * minute) 1 "t" il0).1 in
  let il2 := (AcquireConcurrency (20 * minute) 2 "t" (delete_bucket "t" il1)).1 in
  inFlight "t" il2 = 2 ∧ maxConc (with_defaults cfg) "t" = 1.
Proof. vm_compute. auto. Qed.

(** ** The middleware *)

(** A request body: what can be read of it, and whether reading then fails. *)
Inductive req_body := NoBody | Body (content : list Z) (fails : bool).

Inductive body_result := BodyRead (buf : list Z) | BodyTooBig | BodyFailed.

(** [readCappedBody]; [io.LimitReader] with a limit of zero or less is empty. *)
Definition readCappedBody (content : list Z) (fails : bool) (maxBytes : Z) : body_result :=
  if maxBytes <=? 0 then (if fails then BodyFailed else BodyRead content)
  else
    let limit := wrap64 (maxBytes + 1) in
    let b := take (Z.to_nat limit) content in
    if (len content <? limit) && fails then BodyFailed
    else if len b >? maxBytes then BodyTooBig
    else BodyRead b.

Inductive edge_response :=
  | TooManyRequests            (* 429 *)
  | ServiceUnavailable         (* 503 *)
  | EntityTooLarge             (* 413 *)
  | BadRequestBody             (* 400 *)
  | WafForbidden               (* 403 *)
  | Served (body : list Z).

Section Middleware.
Context {L : Type} `{RateLimiter L}.
(** The verdict on a body (empty when there is none): [None] is an error of the
    engine, otherwise whether it blocks. *)
Context (waf : list Z → option bool).

Definition waf_blocks (body : list Z) : bool :=
  match waf body with Some blocked => blocked | None => false end.

(** Body, WAF and dispatch, after the limiter. *)
Definition inspect_and_serve (maxBytes : Z) (body : req_body) : edge_response :=
  match body with
  | NoBody => if waf_blocks [] then WafForbidden else Served []
  | Body content fails =>
      match readCappedBody content fails maxBytes with
      | BodyTooBig => EntityTooLarge
      | BodyFailed => BadRequestBody
      | BodyRead b => if waf_blocks b then WafForbidden else Served b
      end
  end.

(** [serve] for the request [c]; [during] is what happens to the limiter while
    the request is dispatched.  Without a limiter nothing is limited. *)
Definition serve (now : time) (c : nat) (tenantID : string) (body : req_body)
    (during : IngressRateLimiter L → IngressRateLimiter L) (rl : option (IngressRateLimiter L)) :
    option (IngressRateLimiter L) * edge_response :=
  match rl with
  | None => (None, inspect_and_serve 0 body)
  | Some il =>
      let '(il, ok) := il_Allow now tenantID il in
      if negb ok then (Some il, TooManyRequests)
      else
        let '(il, ok) := AcquireConcurrency now c tenantID il in
        if negb ok then (Some il, ServiceUnavailable)
        else
          let resp := inspect_and_serve (rc_MaxBodyBytes (il_cfg il)) body in
          let il := match resp with Served _ => during il | _ => il end in
          (Some (release c il), resp)
  end.

(** A WebSocket upgrade takes a token and a slot, which it keeps. *)
Definition AllowWebSocket (now : time) (c : nat) (tenantID : string)
    (rl : option (IngressRateLimiter L)) : option (IngressRateLimiter L) * option edge_response :=
  match rl with
  | None => (None, None)
  | Some il =>
      let '(il, ok) := il_Allow now tenantID il in
      if negb ok then (Some il, Some TooManyRequests)
      else
        let '(il, ok) := AcquireConcurrency now c tenantID il in
        if negb ok then (Some il, Some ServiceUnavailable) else (Some il, None)
  end.

(** Below the largest integer the body limit is exact. *)
Lemma readCappedBody_spec content fails maxBytes :
  0 < maxBytes < max_int64 →
  readCappedBody content fails maxBytes =
    if maxBytes <? len content then BodyTooBig else if fails then BodyFailed else BodyRead content.
Proof.
  intros Hmax. unfold readCappedBody. replace (maxBytes <=? 0) with false by (symmetry; apply Z.leb_gt; lia).
  rewrite wrap64_id by (unfold min_int64, max_int64 in *; lia).
  destruct (Z.ltb_spec maxBytes (len content)) as [Hbig|Hfit].
  - destruct (Z.ltb_spec (len content) (maxBytes + 1)); [lia|]. cbn. rewrite length_take.
    replace (_ >? maxBytes) with true; [done|]. symmetry. apply Z.gtb_lt. lia.
  - destruct (Z.ltb_spec (len content) (maxBytes + 1)); [|lia]. cbn. destruct fails; [done|].
    rewrite take_ge by lia. replace (_ >? maxBytes) with false; [done|]. symmetry.
    rewrite Z.gtb_ltb. apply Z.ltb_ge. lia.
Qed.

(** Safety.  A request that is dispatched had a token of its tenant's bucket
    and a concurrency slot, its body is complete and within the limit, and the WAF
    did not block it; a body over the limit is never dispatched. *)
Theorem served_passed_limits now c t body during il il' b :
  0 < rc_MaxBodyBytes (il_cfg il) < max_int64 →
  serve now c t body during (Some il) = (Some il', Served b) →
  (il_Allow now t il).2 = true ∧
  (AcquireConcurrency now c t (il_Allow now t il).1).2 = true ∧
  waf_blocks b = false ∧
  match body with
  | NoBody => b = []
  | Body content fails => b = content ∧ fails = false ∧ len content ≤ rc_MaxBodyBytes (il_cfg il)
  end.
Proof.
  intros Hmax. unfold serve.
  assert (Hbf : ∀ t il, il_cfg (bucketFor now t il).2 = il_cfg il).
  { intros t0 il0. unfold bucketFor. destruct (il_buckets il0 !! t0) as [l|]; [|done].
    cbn. by destruct (il_heap il0 !! l). }
  assert (Hcfg1 : il_cfg (il_Allow now t il).1 = il_cfg il).
  { unfold il_Allow. pose proof (Hbf t il) as Hb. destruct (bucketFor now t il) as [l il1]. cbn in Hb.
    destruct (il_heap il1 !! l); [|done]. by destruct (limiter_Allow _ _). }
  destruct (il_Allow now t il) as [il1 ok1]; cbn in Hcfg1 |- *. destruct ok1; [|done]. cbn.
  assert (Hcfg2 : il_cfg (AcquireConcurrency now c t il1).1 = il_cfg il1).
  { unfold AcquireConcurrency. pose proof (Hbf t il1) as Hb. destruct (bucketFor now t il1) as [l il2].
    cbn in Hb. unfold acquire_slot. destruct (il_heap il2 !! l); [|done]. by destruct (_ <? _). }
  destruct (AcquireConcurrency now c t il1) as [il2 ok2]; cbn in Hcfg2 |- *. destruct ok2; [|done]. cbn.
  intros [= _ Hresp]. split; [done|]. split; [done|]. rewrite Hcfg2, Hcfg1 in Hresp.
  unfold inspect_and_serve in Hresp. destruct body as [|content fails].
  - destruct (waf_blocks []) eqn:Hw; [done|]. by injection Hresp as <-.
  - rewrite readCappedBody_spec in Hresp by done.
    destruct (Z.ltb_spec (rc_MaxBodyBytes (il_cfg il)) (len content)); [done|].
    destruct fails; [done|]. destruct (waf_blocks content) eqn:Hw; [done|]. by injection Hresp as <-.
Qed.

(** Invariant.  Whatever the answer, the request's slot is given back: after
    [serve] the slots held are those held before, when other requests keep
    theirs while it is dispatched. *)
Theorem serve_returns_slot now c t body during il il' resp :
  il_held il !! c = None →
  (∀ il, il_held (during il) = il_held il) →
  serve now c t body during (Some il) = (Some il', resp) → il_held il' = il_held il.
Proof.
  intros Hc Hduring. unfold serve.
  assert (Hbf : ∀ t il, il_held (bucketFor now t il).2 = il_held il).
  { intros t0 il0. unfold bucketFor. destruct (il_buckets il0 !! t0) as [l|]; [|done].
    cbn. by destruct (il_heap il0 !! l). }
  assert (H1 : il_held (il_Allow now t il).1 = il_held il).
  { unfold il_Allow. pose proof (Hbf t il) as Hb. destruct (bucketFor now t il) as [l il1]. cbn in Hb.
    destruct (il_heap il1 !! l); [|done]. by destruct (limiter_Allow _ _). }
  destruct (il_Allow now t il) as [il1 ok1]; cbn in H1 |- *. destruct ok1; [|by intros [= <- _]]. cbn.
  unfold AcquireConcurrency. pose proof (Hbf t il1) as Hb. destruct (bucketFor now t il1) as [l il2].
  cbn in Hb. unfold acquire_slot. destruct (il_heap il2 !! l) as [b|] eqn:Hl; [|intros [= <- _]; congruence].
  destruct (tb_inFlight b <? tb_cap b); cbn; [|intros [= <- _]; congruence].
  set (il3 := mkIL _ _ _ _). intros [= <- Hresp].
  assert (Hrel : ∀ il4 : IngressRateLimiter L, il_held il4 = il_held il3 → il_held (release c il4) = il_held il).
  { intros il4 H4. assert (Hd : delete c (il_held il3) = il_held il).
    { unfold il3. cbn [il_held]. rewrite delete_insert_eq, Hb, H1. by apply delete_id. }
    unfold release. rewrite H4. unfold il3 at 1. cbn [il_held]. rewrite lookup_insert_eq.
    cbn [il_heap]. destruct (il_heap il4 !! l); cbn [il_held set_bucket]; exact Hd. }
  apply Hrel. destruct (inspect_and_serve _ body); done || apply Hduring.
Qed.

(** Bounds.  With the body limit at the largest integer, the extra byte overflows:
    every body is read as empty and the request is dispatched without it. *)
Theorem body_limit_overflow content fails :
  readCappedBody content fails max_int64 = BodyRead [].
Proof.
  unfold readCappedBody. change (max_int64 <=? 0) with false.
  assert (Hw : wrap64 (max_int64 + 1) = - 2 ^ 63) by reflexivity. rewrite Hw. cbn [Z.to_nat].
  destruct (Z.ltb_spec (len content) (- 2 ^ 63)); [lia|]. reflexivity.
Qed.
End Middleware.

(** ** Instances for the examples *)

Section LimitExamples.
#[local] Instance toy_bucket : RateLimiter Z := {|
  NewLimiter := λ _ burst, burst;
  limiter_Allow := λ _ l, if 0 <? l then (l - 1, true) else (l, false)
|}.

Definition toy_il : IngressRateLimiter Z := NewIngressRateLimiter (mkRLConfig 10 20 1 4 ∅).

Lemma served_passed_limits_witness :
  ∃ il', serve (λ _, Some false) 0 1 "t" (Body [1; 2; 3] false) (λ il, il) (Some toy_il) =
           (Some il', Served [1; 2; 3]) ∧ (il_Allow 0 "t" toy_il).2 = true.
Proof.
  eexists. split; [vm_compute; reflexivity|].
  refine (proj1 (served_passed_limits (λ _, Some false) 0 1 "t" (Body [1; 2; 3] false) (λ il, il) toy_il
    _ [1; 2; 3] _ _)).
  - vm_compute. split; reflexivity.
  - vm_compute. reflexivity.
Defined.

Lemma serve_returns_slot_witness :
  ∃ il', serve (λ _, Some true) 0 1 "t" (Body [1; 2; 3] false) (λ il, il) (Some toy_il) =
           (Some il', WafForbidden) ∧ il_held il' = ∅.
Proof.
  eexists. split; [vm_compute; reflexivity|].
  refine (serve_returns_slot (λ _, Some true) 0 1 "t" (Body [1; 2; 3] false) (λ il, il) toy_il
    _ WafForbidden _ _ _).
  - reflexivity.
  - reflexivity.
  - vm_compute. reflexivity.
Defined.
End LimitExamples.
